(* ===== verification/_CoqProject ===== *)
-Q . S2P
Prelude.v
Json.v
JsonShape.v
EventBuffer.v
Pipeline.v
RuleModels.v
Dedup.v
Scanner.v
RuleEngine.v
KafkaClients.v
EngineSystem.v
FleetDb.v
FleetServer.v
FleetSystem.v
Osquery.v
Thrift.v
ThriftBinary.v
OsqueryClient.v
Isolation.v
FleetClient.v
Agent.v
AgentSystem.v
ConfigFile.v
Wire.v
LegacyClient.v
Preflight.v
Api.v
ApiServices.v
ApiHttp.v
ApiStream.v
ApiSystem.v
NodePath.v
AlertPath.v
Schema.v
Startup.v
EndToEnd.v
DeliveryPath.v
TelemetryPath.v
WholePath.v
Lifecycle.v
DevTools.v
Conformance.v
