(* ===== verification/Prelude.v ===== *)
(** * Aigis-Zero: a verification library of the EDR platform

    Aigis-Zero is an endpoint detection and response platform in Rust.  Agents
    collect osquery results and buffer them on disk; a fleet server enrols agents,
    takes their heartbeats and publishes their events to Kafka; a pipeline routes
    the events by category; a rule engine scans them and stores alerts; an API
    serves nodes, alerts and logs to operators.  The library follows one event
    along that way, and the commands that come back.

    ** Files

    - [Prelude] (this file): [result], the state-and-error monad [SE] (a [?] keeps
      the state changes made before the error), machine integers, Rust's string
      functions on ASCII, tactics, the hint database [aigis], shared lemmas.
    - [Json]: serde_json's values and accessors; parsing and printing are the
      class [SerdeJson].
    - [EventBuffer] (agent/crates/event-buffer): the SQLite table, each statement
      with its faults; a bounded FIFO queue is its specification ([represents]).
    - [JsonShape]: which values serde_json can hold, what reading a printed value
      gives back, how deeply it nests, and the class [SerdeTree] of parser laws.
    - [Osquery] (agent/crates/osquery-client: types.rs, diff.rs, scheduler.rs):
      scheduled queries, differentials, the task of one query on its ticks.
    - [Thrift], [ThriftBinary], [OsqueryClient] (osquery-client: client.rs, lib.rs):
      the interface of the thrift crate's protocol with its laws, the binary
      protocol that discharges it, the query over a socket whose reply arrives in
      arbitrary pieces, the parser of query responses, the collector.
    - [Isolation] (agent/crates/isolation, command_handler.rs, parse_endpoint of
      agent-bin): nft over the class [Nft], whose laws say what loading a declared
      table leaves, the ruleset as such a declaration, and the command handler.
    - [FleetClient] (agent/crates/fleet-client/src/lib.rs): connection, retries,
      enrolment, the two channels of the event stream.
    - [Agent] (agent-core/src/lib.rs, orchestrator.rs, config.rs, agent-bin/main.rs):
      the osquery loop, command listener, drain and heartbeat loops, start-up, the
      configuration file; it composes the files above.
    - [ConfigFile] (agent-core/src/config.rs): how the configuration is read from the
      tree of a TOML file, and the limits of what can be read.
    - [AgentSystem]: the agent's tasks interleaved on the shared table and the
      locked fleet client, as a step function [fire] on labels.
    - [Wire] (fleet-client: types.rs, codec.rs; sdk): the messages as serde derives
      them over the record [serde], the gRPC codec; class [Message] collects what
      each type promises.  [LegacyClient] (connection.rs, enrollment.rs, heartbeat.rs,
      stream.rs): the modules lib.rs no longer declares, over both codecs.
    - [Preflight] (agent-core/src/preflight.rs): the environment check.
    - [FleetDb] (fleet-server/crates/postgres-interface, stores of node-enrollment
      and health-tracker): tables with their constraints, the transactions, and
      interleaved enrolments as the step relation [step]; class [NodeStore] is the
      contract the enroller is proved against, and [HealthStore] the tracker's;
      PostgreSQL discharges both.
    - [FleetServer] (the other fleet-server crates): tokens over the class [Jwt],
      the three RPCs, the event stream's task, the telemetry envelope, settings.
      [FleetSystem] interleaves the streams' tasks behind their channels of 64
      slots, registrations statement by statement, and heartbeats.
    - [Pipeline] (kafka-pipeline): [Metrics], [EventRouter] with the routing table,
      [process] and the consumer loop, [KafkaAdmin] with the topics and flags.
    - [RuleModels], [Dedup], [Scanner], [RuleEngine] (rule-engine): data and
      taxonomy; the sharded LRU deduplicator over the class of an LRU cache; rule
      compilation, text extraction, evaluation and hot reload; the consumer,
      scanner and batcher loops and the alert sink.  [EngineSystem] interleaves
      them with reloads and the shutdown over bounded channels.  [KafkaClients] has
      the settings of every producer and consumer, and a consumer group on a
      partition across restarts.
    - [Schema] (the schema.rs and models of three crates, the SQL of the migrations):
      columns, what an INSERT leaves and what a struct is read from; what a column
      keeps of a time, a text or a JSON value.
    - [Api], [ApiHttp], [ApiStream] (api-backend): repositories and services on the
      databases ([FleetDb]'s nodes table is the API's), login and token check;
      every handler ([route]) and the router with its paths and methods
      ([create_router], [handle_request]); the Kafka consumer,
      the micro-batching worker and a web socket's loop.  [ApiSystem] interleaves
      consumer, worker, requests and any number of sockets on the broadcast ring.
      [ApiServices] has the repository traits as classes with laws, the services on
      any repository and any fleet client, and Diesel's repositories as instances.
    - [AlertPath]: the alerts table that the rule engine's sink writes and the API's
      repository reads and updates, in one run of both.
    - [NodePath]: the nodes table on which the fleet server and the API both work.
    - [Startup] (every main.rs, orchestrator.rs, health.rs, state.rs, fleet-tracing):
      what each process does before its tasks run (with the pools of pool.rs and
      db/mod.rs and the listener of server.rs), and the lives of an agent that is
      killed and started again on one buffer file.
    - [EndToEnd]: the conversions between the processes (service.rs, the telemetry
      event's deserializer), and the theorems that compose the files above.
    - [DeliveryPath]: the agent of [AgentSystem] and the server of [FleetSystem] in
      one run, on connections that may break with events in them.
    - [TelemetryPath]: the server of [FleetSystem], the pipeline's worker on every
      partition ([KafkaClients]), and the rule engine with the operators
      ([AlertPath]) in one run.  [WholePath] joins [DeliveryPath] and [TelemetryPath]
      at the fleet server they share.
    - [Lifecycle] (the ends of every main.rs, AgentCore::run): what a process does with
      a signal, how long it takes to end, what systemd is told.
    - [DevTools] (test_query.rs, generate_jwt.rs, ws_listener.rs): the developer tools.
    - [Conformance]: the repository's own unit tests as booleans on the definitions
      above, with their mock stores as instances of the interfaces.

    ** How state and operations correspond to the code

    A definition has the name of the function it models where Rocq allows it.
    Fields of a struct are a [Record]; a table is a list of rows or a [gmap] by
    primary key; an asynchronous task is a function of the sequence of things its
    [select!] or loop meets, so that every interleaving is a sequence.  Errors are
    values: a call that can fail takes the fault it meets as an argument ([None]
    when it succeeds), and clocks and fresh UUIDs are arguments as well.  Code that
    is not in the repository (serde_json, jsonwebtoken, tonic, nft, YARA-X,
    Argon2, the lru and uuid crates, PostgreSQL's scan order, hash orders) is a
    class or a [Context] variable, with its documented laws as classes and an
    instance that satisfies them.

    ** What the theorems show

    - Delivery: the buffer refines a bounded queue ([run_ops_refines_queue]); the
      drain loop refines its specification and empties over an open channel
      ([drain_tick_refines], [open_channel_drains_all]); in no interleaving of the
      agent's tasks, nor across kills and restarts, is an accepted event lost but
      from the memory of a killed drain loop ([no_interleaving_loses_events],
      [restarts_lose_only_held_batches]); on the way to the broker it is lost only
      with a connection that breaks ([accepted_events_are_accounted]); an
      acknowledged event is forwarded to the rules however often the pipeline is
      killed ([acknowledged_events_are_forwarded]), and no alert an operator reads is
      made up ([alerts_have_a_source]); on the whole way an accepted event is found
      or forwarded ([accepted_events_reach_the_rules]); a collector
      result goes from the agent's text to the alerts of its category's rules
      ([result_reaches_the_rules]), and an envelope keeps its identity to the log
      table ([forwarded_event_normalized], [envelope_is_stored]).
    - Messages: [codec_round_trip] for every type of the codec, within the nesting
      that serde_json's parser takes; and what the osquery loop buffers is within
      it and survives every parse on its way ([buffered_results_parse]).
    - Identity: enrolment on every branch and under interleaving
      ([enrollment_outcome], [concurrent_enrollments_consistent], and with streams and
      heartbeats in between [registrations_answered]), tokens of agents
      and operators ([enrolled_token_validates], [login_token_authenticates]), the
      guards of the RPCs and of every HTTP path but four ([registration_guarded],
      [requests_need_a_token]), start-up and the saved node id ([boot_outcome], and
      against the server's registration [enrolled_agent_is_admitted];
      [save_node_id_reads_back]); the configuration file
      ([configuration_round_trip], [documented_configurations]).
    - Stored state: the operator status is the operators' ([operators_own_the_status]),
      and requests change statuses only ([api_changes_only_statuses]); what one
      process writes is read by the others, to the microsecond
      ([written_rows_read_back], [stored_rows_are_readable]); isolating shows in
      later lookups though the command fails ([containment_is_seen]), and on any
      lawful repository triage and logs do ([triage_is_seen],
      [persisted_logs_are_found]).
    - Queries: however osquery's reply is cut, it is read whole, and a query ends
      ([query_any_chunking], [query_ends]); the results of a task replay the table
      ([polled_table_replays]).
    - Streams: offsets, acknowledgements and counters ([run_commits_and_delivers],
      [event_stream_acks_published], [consumer_disposes_and_commits]); a stream among
      others does what its loop does alone, acknowledges in order, and the fleet
      server's work ends ([streams_refine_the_loop],
      [acknowledgements_follow_records], [server_settles]); the pipeline's worker
      reads a partition at least once ([partition_read_at_least_once]); the rule
      engine's tasks account for every event and alert in every interleaving, lose
      nothing when they stop in order, and do stop ([engine_accounts],
      [orderly_shutdown_loses_nothing], [shutdown_terminates]); the API's tasks
      store and broadcast in order ([log_rows_stored_in_order],
      [sockets_hear_the_stream]) and show operators the alerts of every accepted
      batch ([alerts_reach_operators]); suppression ([suppressed_has_recent_emission],
      [emissions_are_spaced]) and rule choice ([scanner_agrees_with_router]).
    - Commands and lists: [commands_in_order], the rules and the answer that a command
      leaves ([handle_outcome]), [alert_pages_cover].
    - Ends: [run_returns], [unhandled_signal_ends], [watchdog_is_fed].
    - Retries: [connect_with_retry_outcome]; the earlier modules' [connect_outcome],
      [enroll_outcome].
    Lemmas that show a defect or a divergence from the documentation keep their
    place beside the component: [huge_capacity_empties], [de_isolate_may_lie],
    [parse_endpoint_v6_broken], [enrollment_race_loser_fails],
    [taxonomy_never_fills_defaults], [isolate_node_outcome],
    [configured_text_logs_in], [enroll_unconnected], [request_capacity],
    [shutdown_may_lose], [shutdown_drops_queue], [engine_kill_loses],
    [default_secret_is_public], [listener_misses_pong], [zero_interval_never_drains],
    [run_leaves_tasks], [reload_ends_the_agent], [nul_refuses_batch].

    ** Bounds and fuel

    Integers are [Z] with the width's wrap-around or saturation written out.
    [retry_loop] takes fuel because a limit of 0 means retrying for ever:
    [connect_with_retry_outcome] shows that fuel above the number of attempts is
    enough.  [trim_start_fuel] uses the length of the string, which every removed
    prefix shortens.  [parse_flags] is shown to end on every argument list.  The
    reading loops of Thrift take a byte per turn: fuel above the number of bytes
    is enough (class laws [Fueled]).  The rule engine's shutdown is bounded by the
    measure [work].

    ** What is not modelled

    Times are exact in every file but [Schema]: the other models keep the nanoseconds
    that a TIMESTAMPTZ column cuts to microseconds.  Of axum's router the layers that
    main adds (CORS, headers, tracing) are left out.
    Protobuf and the transport under tonic, the inside of Kafka clients and pools
    (created by an argument of the model), TOML's parser from text to a tree, the
    request log of middleware/logging.rs, which no route uses, constructors that only
    store their arguments, and the frontend.  Timing is abstract: a sleep is a number
    in a list and a select! takes any branch that is ready, except in [Lifecycle],
    where a future is the moment it completes.  A kill falls between two statements of
    a task's pass, not inside a SQLite call.  A consumer group is one consumer on one
    partition: rebalancing between several is left out.
    Characters beyond ASCII have no case. *)
From Stdlib Require Import ZArith Lia Ascii.
From stdpp Require Export base tactics option list gmap sets strings pretty.

(** ** Result type and the state-and-error monad *)

(** Rust's [Result<T, E>]. *)
Inductive result (T E : Type) : Type :=
  | Ok (t : T)
  | Err (e : E).
Arguments Ok {T E} t.
Arguments Err {T E} e.

Definition is_ok {T E} (r : result T E) : bool :=
  match r with Ok _ => true | Err _ => false end.

Definition map_err {T E F} (f : E → F) (r : result T E) : result T F :=
  match r with Ok t => Ok t | Err e => Err (f e) end.

Definition ok {T E} (r : result T E) : option T :=
  match r with Ok t => Some t | Err _ => None end.

Definition ok_or {T E} (e : E) (o : option T) : result T E :=
  match o with Some t => Ok t | None => Err e end.

(** A computation that threads a state [S] and may return early with an error
    (the [?] operator of Rust): state changes made before the error persist. *)
Definition SE (S E A : Type) : Type := S → result A E * S.

#[export] Instance SE_ret S E : MRet (SE S E) := λ A a s, (Ok a, s).
#[export] Instance SE_bind S E : MBind (SE S E) := λ A B f m s,
  match m s with
  | (Ok a, s') => f a s'
  | (Err e, s') => (Err e, s')
  end.

Definition throw {S E A} (e : E) : SE S E A := λ s, (Err e, s).
Definition gets {S E A} (f : S → A) : SE S E A := λ s, (Ok (f s), s).
Definition modify {S E} (f : S → S) : SE S E unit := λ s, (Ok tt, f s).

(** Run a computation and return its outcome as a value: [match m.await]. *)
Definition attempt {S E F A} (m : SE S E A) : SE S F (result A E) :=
  λ s, let '(r, s') := m s in (Ok r, s').

(** [.map_err(f)?] *)
Definition rethrow {S E F A} (f : E → F) (m : SE S E A) : SE S F A :=
  λ s, let '(r, s') := m s in (map_err f r, s').

(** ** Machine integers

    An integer of width [w] is a [Z]; wrapping is written out. *)

Definition wrap_u (w z : Z) : Z := (z mod 2 ^ w)%Z.
Definition wrap_i (w z : Z) : Z := ((z + 2 ^ (w - 1)) mod 2 ^ w - 2 ^ (w - 1))%Z.
Definition fits_u (w z : Z) : Prop := (0 ≤ z < 2 ^ w)%Z.
Definition fits_i (w z : Z) : Prop := (- 2 ^ (w - 1) ≤ z < 2 ^ (w - 1))%Z.
Definition sat_add_u (w a b : Z) : Z := Z.min (a + b) (2 ^ w - 1).
Definition clamp (lo hi z : Z) : Z :=
  if (z <? lo)%Z then lo else if (hi <? z)%Z then hi else z.

(** ** Strings

    A Rust string is its bytes.  The operations below are the standard library's
    on ASCII text; bytes of multi-byte characters are never white space and have
    no case here. *)

Definition nl : string := String (Ascii.ascii_of_nat 10) EmptyString.
Definition dquote : string := String (Ascii.ascii_of_nat 34) EmptyString.

Definition comma : ascii := ","%char.
Definition colon : ascii := ":"%char.
Definition dot : ascii := "."%char.
Definition slash : ascii := "/"%char.
Definition equals_sign : ascii := "="%char.
Definition linefeed : ascii := Ascii.ascii_of_nat 10.

Definition str_is_empty (s : string) : bool :=
  match s with EmptyString => true | _ => false end.

Definition starts_with (p s : string) : bool := String.prefix p s.

Fixpoint str_drop (n : nat) (s : string) : string :=
  match n, s with
  | S n, String _ s => str_drop n s
  | _, _ => s
  end.

Definition strip_prefix (p s : string) : option string :=
  if starts_with p s then Some (str_drop (String.length p) s) else None.

(** [s.contains(sub)] *)
Fixpoint str_contains (sub s : string) : bool :=
  starts_with sub s ||
  match s with EmptyString => false | String _ s => str_contains sub s end.

(** [s.contains(c)] for a character *)
Fixpoint has_char (c : ascii) (s : string) : bool :=
  match s with EmptyString => false | String a s => Ascii.eqb a c || has_char c s end.

(** [s.split(c)]: always at least one piece. *)
Fixpoint split_on (c : ascii) (s : string) : list string :=
  match s with
  | EmptyString => [EmptyString]
  | String a s =>
      if Ascii.eqb a c then EmptyString :: split_on c s
      else match split_on c s with
           | [] => [String a EmptyString]
           | w :: ws => String a w :: ws
           end
  end.

(** [s.split_once(c)] and [s.rsplit_once(c)] *)
Fixpoint split_once (c : ascii) (s : string) : option (string * string) :=
  match s with
  | EmptyString => None
  | String a s =>
      if Ascii.eqb a c then Some (EmptyString, s)
      else match split_once c s with
           | Some (l, r) => Some (String a l, r)
           | None => None
           end
  end.
Fixpoint rsplit_once (c : ascii) (s : string) : option (string * string) :=
  match s with
  | EmptyString => None
  | String a s =>
      match rsplit_once c s with
      | Some (l, r) => Some (String a l, r)
      | None => if Ascii.eqb a c then Some (EmptyString, s) else None
      end
  end.

Definition is_ws (c : ascii) : bool :=
  let n := Ascii.nat_of_ascii c in (n =? 32)%nat || ((9 <=? n)%nat && (n <=? 13)%nat).

Fixpoint drop_while (p : ascii → bool) (s : string) : string :=
  match s with
  | EmptyString => EmptyString
  | String a s' => if p a then drop_while p s' else s
  end.

Fixpoint drop_end_while (p : ascii → bool) (s : string) : string :=
  match s with
  | EmptyString => EmptyString
  | String a s' =>
      match drop_end_while p s' with
      | EmptyString => if p a then EmptyString else String a EmptyString
      | t => String a t
      end
  end.

Definition trim (s : string) : string := drop_end_while is_ws (drop_while is_ws s).
Definition trim_matches (c : ascii) (s : string) : string :=
  drop_end_while (Ascii.eqb c) (drop_while (Ascii.eqb c) s).

Definition lower (c : ascii) : ascii :=
  let n := Ascii.nat_of_ascii c in
  if (65 <=? n)%nat && (n <=? 90)%nat then Ascii.ascii_of_nat (n + 32) else c.
Fixpoint to_lowercase (s : string) : string :=
  match s with EmptyString => EmptyString | String a s => String (lower a) (to_lowercase s) end.

(** [s.trim_start_matches(p)] for a string pattern: every leading copy goes. *)
Fixpoint trim_start_fuel (fuel : nat) (p s : string) : string :=
  match fuel with
  | O => s
  | S fuel => match strip_prefix p s with Some r => trim_start_fuel fuel p r | None => s end
  end.
Definition trim_start_matches (p s : string) : string := trim_start_fuel (String.length s) p s.

(** [s.lines()]: pieces between line feeds, a final empty piece dropped, each
    without a trailing carriage return. *)
Definition drop_cr (s : string) : string :=
  match rsplit_once (Ascii.ascii_of_nat 13) s with Some (l, EmptyString) => l | _ => s end.
Definition str_lines (s : string) : list string :=
  let ps := split_on (Ascii.ascii_of_nat 10) s in
  drop_cr <$> match last ps with Some EmptyString => take (length ps - 1) ps | _ => ps end.

(** [l.join(sep)] *)
Fixpoint str_join (sep : string) (l : list string) : string :=
  match l with
  | [] => ""
  | [s] => s
  | s :: l => s +:+ sep +:+ str_join sep l
  end.

(** [parse::<uN>()]: an optional plus sign and at least one digit, no overflow. *)
Definition digit (c : ascii) : option Z :=
  let n := Ascii.nat_of_ascii c in
  if (48 <=? n)%nat && (n <=? 57)%nat then Some (Z.of_nat n - 48)%Z else None.

Fixpoint parse_digits (acc : Z) (s : string) : option Z :=
  match s with
  | EmptyString => Some acc
  | String c s => d ← digit c; parse_digits (10 * acc + d)%Z s
  end.

Definition parse_nat (s : string) : option Z :=
  match s with EmptyString => None | _ => parse_digits 0 s end.

Definition parse_uint (w : Z) (s : string) : option Z :=
  n ← parse_nat (match strip_prefix "+" s with Some r => r | None => s end);
  if (n <? 2 ^ w)%Z then Some n else None.

(** [parse::<iN>()] *)
Definition parse_int (w : Z) (s : string) : option Z :=
  match strip_prefix "-" s with
  | Some r => n ← parse_nat r; if (n <=? 2 ^ (w - 1))%Z then Some (- n)%Z else None
  | None =>
      n ← parse_nat (match strip_prefix "+" s with Some r => r | None => s end);
      if (n <? 2 ^ (w - 1))%Z then Some n else None
  end.

(** ** Runs of a system

    [fire] runs a label when the system can take it; a run takes labels under a
    discipline [ok]. *)

Fixpoint fire_all {S L} (fire : L → S → option S) (ok : S → L → bool) (ls : list L) (s : S) : option S :=
  match ls with
  | [] => Some s
  | l :: ls => if ok s l then s' ← fire l s; fire_all fire ok ls s' else None
  end.

Inductive reached {S L} (fire : L → S → option S) (ok : S → L → bool) (s0 : S) : S → Prop :=
  | reached_start : reached fire ok s0 s0
  | reached_step s l s' : reached fire ok s0 s → ok s l = true → fire l s = Some s' → reached fire ok s0 s'.

Definition any_order {S L} (s : S) (l : L) : bool := true.

(** ** Tactics *)

(** Take apart existentials and conjunctions in the context. *)
Ltac deex :=
  repeat match goal with
    | H : ∃ x, _ |- _ => let y := fresh x in destruct H as [y H]
    | H : _ ∧ _ |- _ => destruct H
    end.

(** Case analysis on every [match] and [if] in sight, then clean up. *)
Ltac cases_tac :=
  repeat (case_match; simplify_eq/=); try done.

Create HintDb aigis.

(** ** Lemmas on the monad *)

Lemma bind_ok {S E A B} (f : A → SE S E B) (m : SE S E A) s a s' :
  m s = (Ok a, s') → (m ≫= f) s = f a s'.
Proof. intros H. unfold mbind, SE_bind. by rewrite H. Qed.

Lemma bind_err {S E A B} (f : A → SE S E B) (m : SE S E A) s e s' :
  m s = (Err e, s') → (m ≫= f) s = (Err e, s').
Proof. intros H. unfold mbind, SE_bind. by rewrite H. Qed.

(** ** Lemmas on runs *)

Section run_lemmas.
Context {S L : Type} (fire : L → S → option S).

Lemma fire_all_reached ok ls s0 s s' :
  reached fire ok s0 s → fire_all fire ok ls s = Some s' → reached fire ok s0 s'.
Proof.
  revert s. induction ls as [| l ls IH]; intros s Hr Hf; simpl in Hf; [by simplify_eq |].
  destruct (ok s l) eqn:Hok; [| done]. apply bind_Some in Hf as (s1 & Hl & Hf).
  apply (IH s1); [by econstructor | done].
Qed.

(** An invariant of the steps, and of the state a run starts from. *)
Lemma reached_invariant (I : S → Prop) ok s0 s :
  (∀ s l s', reached fire ok s0 s → ok s l = true → fire l s = Some s' → I s → I s') →
  I s0 → reached fire ok s0 s → I s.
Proof. intros Hstep H0. induction 1 as [| s l s' Hr IH Hok Hf]; [done |]. by eapply Hstep. Qed.

Lemma reached_any ok s0 s : reached fire ok s0 s → reached fire any_order s0 s.
Proof. induction 1; [constructor | by econstructor]. Qed.
End run_lemmas.

(** ** Lemmas on machine integers *)

Lemma wrap_u_range w z : (0 ≤ w)%Z → fits_u w (wrap_u w z).
Proof. intros. unfold fits_u, wrap_u. apply Z.mod_pos_bound. lia. Qed.

Lemma wrap_u_small w z : fits_u w z → wrap_u w z = z.
Proof. apply Z.mod_small. Qed.

Lemma wrap_i_small w z : (0 < w)%Z → fits_i w z → wrap_i w z = z.
Proof.
  unfold fits_i, wrap_i. intros Hw Hz.
  assert (2 ^ w = 2 * 2 ^ (w - 1))%Z as Hp.
  { rewrite <-Z.pow_succ_r by lia. f_equal. lia. }
  rewrite Z.mod_small; lia.
Qed.

Lemma wrap_i_range w z : (0 < w)%Z → fits_i w (wrap_i w z).
Proof.
  unfold fits_i, wrap_i. intros Hw.
  assert (2 ^ w = 2 * 2 ^ (w - 1))%Z as Hp.
  { rewrite <-Z.pow_succ_r by lia. f_equal. lia. }
  pose proof (Z.mod_pos_bound (z + 2 ^ (w - 1)) (2 ^ w)). lia.
Qed.

Lemma clamp_range lo hi z : (lo ≤ hi)%Z → (lo ≤ clamp lo hi z ≤ hi)%Z.
Proof.
  unfold clamp. intros. destruct (Z.ltb_spec z lo); [lia |].
  destruct (Z.ltb_spec hi z); lia.
Qed.

(** ** Lemmas on lists *)

Lemma filter_all {A} (P : A → Prop) `{∀ x, Decision (P x)} (l : list A) :
  Forall P l → filter P l = l.
Proof. induction 1; [done |]. rewrite filter_cons_True by done. by f_equal. Qed.

Lemma filter_none {A} (P : A → Prop) `{∀ x, Decision (P x)} (l : list A) :
  Forall (λ x, ¬ P x) l → filter P l = [].
Proof. induction 1; [done |]. by rewrite filter_cons_False. Qed.

Definition is_some {A} (o : option A) : bool := match o with Some _ => true | None => false end.
Lemma some_default {A} (d : A) o : is_some o = true → o = Some (default d o).
Proof. by destruct o. Qed.

(** ** Lemmas on strings *)

Lemma str_drop_app (p s : string) : str_drop (String.length p) (p +:+ s) = s.
Proof. induction p; simpl; [by destruct s | done]. Qed.

Lemma starts_with_app (p s : string) : starts_with p (p +:+ s) = true.
Proof.
  unfold starts_with. induction p as [| a p IH]; simpl; [by destruct s |].
  by destruct (ascii_dec a a).
Qed.

Lemma strip_prefix_app (p s : string) : strip_prefix p (p +:+ s) = Some s.
Proof. unfold strip_prefix. by rewrite starts_with_app, str_drop_app. Qed.

Lemma str_app_nil (s : string) : s +:+ "" = s.
Proof. induction s as [| a s IH]; [done |]. exact (f_equal (String a) IH). Qed.

Lemma str_app_assoc (s t u : string) : (s +:+ t) +:+ u = s +:+ t +:+ u.
Proof. induction s as [| a s IH]; [done |]. exact (f_equal (String a) IH). Qed.

Lemma trim_start_none p s : starts_with p s = false → trim_start_matches p s = s.
Proof.
  intros Hp. unfold trim_start_matches. destruct (String.length s); [done |].
  cbn [trim_start_fuel]. unfold strip_prefix. by rewrite Hp.
Qed.

Lemma trim_start_once p s : p ≠ "" → starts_with p s = false → trim_start_matches p (p +:+ s) = s.
Proof.
  intros Hne Hp. unfold trim_start_matches.
  destruct (String.length (p +:+ s)) as [| n] eqn:Hl; [by destruct p |].
  cbn [trim_start_fuel]. rewrite strip_prefix_app.
  destruct n; [done |]. cbn [trim_start_fuel]. unfold strip_prefix. by rewrite Hp.
Qed.

Lemma parse_digits_nonneg acc s n : (0 ≤ acc)%Z → parse_digits acc s = Some n → (0 ≤ n)%Z.
Proof.
  revert acc. induction s as [| c s IH]; intros acc Hacc H; simpl in H; [by simplify_eq |].
  destruct (digit c) as [d |] eqn:Hd; simpl in H; [| done].
  apply (IH (10 * acc + d)%Z); [| done]. unfold digit in Hd. revert Hd.
  destruct (Nat.leb_spec 48 (Ascii.nat_of_ascii c)); simpl; [| done].
  destruct (_ <=? 57)%nat; [| done]. intros. simplify_eq. lia.
Qed.

Lemma parse_uint_range w s n : parse_uint w s = Some n → fits_u w n.
Proof.
  unfold parse_uint, parse_nat. generalize (match strip_prefix "+" s with Some r => r | None => s end).
  intros [| c r]; cbn [mbind option_bind]; [done |]. intros H.
  destruct (parse_digits 0 _) as [m |] eqn:Hm; simpl in H; [| done].
  apply parse_digits_nonneg in Hm; [| done].
  destruct (Z.ltb_spec m (2 ^ w)); [| done]. simplify_eq. done.
Qed.

(** Printing a number and parsing it back. *)
Lemma digit_pretty d : (d < 10)%N → digit (pretty_N_char d) = Some (Z.of_N d).
Proof.
  intros Hd. assert (d ∈ [0; 1; 2; 3; 4; 5; 6; 7; 8; 9]%N) as Hin.
  { rewrite list_elem_of_In. simpl. lia. }
  repeat (apply elem_of_cons in Hin as [-> | Hin]; [reflexivity |]). by apply elem_of_nil in Hin.
Qed.

Lemma parse_pretty_go n s : parse_digits 0 (pretty_N_go n s) = parse_digits (Z.of_N n) s.
Proof.
  revert s. induction (N.lt_wf_0 n) as [n _ IH]. intros s.
  destruct (decide (n = 0)%N) as [-> | Hn]; [by rewrite pretty_N_go_0 |].
  rewrite pretty_N_go_step by lia. rewrite IH by (apply N.div_lt; lia). simpl.
  rewrite digit_pretty by (apply N.mod_lt; lia). simpl. f_equal.
  rewrite N2Z.inj_div, N2Z.inj_mod. change (Z.of_N 10) with 10%Z.
  pose proof (Z.div_mod (Z.of_N n) 10). lia.
Qed.

Lemma parse_nat_pretty (n : N) : parse_nat (pretty n) = Some (Z.of_N n).
Proof.
  assert (parse_digits 0 (pretty n) = Some (Z.of_N n)) as Hp.
  { unfold pretty, pretty_N. case_decide; [by subst |]. by rewrite parse_pretty_go. }
  unfold parse_nat. destruct (pretty n) as [| c s] eqn:Hs; [| done].
  exfalso. unfold pretty, pretty_N in Hs. case_decide; [done |].
  rewrite pretty_N_go_step in Hs by lia.
  assert (∀ m c r, pretty_N_go m (String c r) ≠ "") as Hne.
  { intros m. induction (N.lt_wf_0 m) as [m _ IH]. intros c r.
    destruct (decide (m = 0)%N) as [-> | Hm]; [by rewrite pretty_N_go_0 |].
    rewrite pretty_N_go_step by lia. apply IH, N.div_lt; lia. }
  by apply Hne in Hs.
Qed.

(** The digits hold no other character. *)
Lemma has_char_pretty_go c n s :
  digit c = None → has_char c s = false → has_char c (pretty_N_go n s) = false.
Proof.
  intros Hc. revert s. induction (N.lt_wf_0 n) as [n _ IH]. intros s Hs.
  destruct (decide (n = 0)%N) as [-> | Hn]; [by rewrite pretty_N_go_0 |].
  rewrite pretty_N_go_step by lia. apply IH; [apply N.div_lt; lia |]. simpl. rewrite Hs, orb_false_r.
  destruct (Ascii.eqb_spec (pretty_N_char (n mod 10)) c) as [<- |]; [| done].
  rewrite digit_pretty in Hc by (apply N.mod_lt; lia). done.
Qed.

Lemma has_char_pretty c (n : N) : digit c = None → has_char c (pretty n) = false.
Proof.
  intros Hc. unfold pretty, pretty_N. case_decide.
  - cbn [has_char]. rewrite orb_false_r.
    destruct (Ascii.eqb_spec "0"%char c) as [<- |]; [discriminate Hc | done].
  - by apply has_char_pretty_go.
Qed.

Lemma starts_with_char c s : has_char c s = false → starts_with (String c EmptyString) s = false.
Proof.
  unfold starts_with. destruct s as [| a s]; [done |]. cbn [String.prefix has_char].
  intros [Ha _]%orb_false_iff. destruct (ascii_dec c a) as [<- |]; [| done].
  by rewrite Ascii.eqb_refl in Ha.
Qed.

Lemma parse_uint_pretty w (n : N) : (Z.of_N n < 2 ^ w)%Z → parse_uint w (pretty n) = Some (Z.of_N n).
Proof.
  intros Hn. unfold parse_uint, strip_prefix.
  rewrite starts_with_char by (by apply has_char_pretty). rewrite parse_nat_pretty. simpl.
  by destruct (Z.ltb_spec (Z.of_N n) (2 ^ w)); [| lia].
Qed.

Lemma split_on_app c s t :
  has_char c s = false → split_on c (s +:+ String c t) = s :: split_on c t.
Proof.
  induction s as [| a s IH]; simpl; [by rewrite Ascii.eqb_refl |].
  intros [Ha Hs]%orb_false_iff. by rewrite Ha, IH.
Qed.

Lemma split_on_none c s : has_char c s = false → split_on c s = [s].
Proof.
  induction s as [| a s IH]; simpl; [done |]. intros [Ha Hs]%orb_false_iff. by rewrite Ha, IH.
Qed.

Lemma has_char_app c s t : has_char c (s +:+ t) = has_char c s || has_char c t.
Proof. induction s as [| a s IH]; simpl; [done |]. by rewrite IH, orb_assoc. Qed.

Lemma has_char_join c sep l :
  has_char c sep = false → Forall (λ s, has_char c s = false) l → has_char c (str_join sep l) = false.
Proof.
  intros Hsep. induction 1 as [| s l Hs Hl IH]; [done |]. destruct l as [| t l]; [done |].
  change (str_join sep (s :: t :: l)) with (s +:+ sep +:+ str_join sep (t :: l)).
  by rewrite !has_char_app, Hs, Hsep, IH.
Qed.

(** Splitting what was joined with the same character. *)
Lemma split_join c l :
  l ≠ [] → Forall (λ s, has_char c s = false) l → split_on c (str_join (String c EmptyString) l) = l.
Proof.
  intros Hne Hall. induction Hall as [| s l Hs Hl IH]; [done |]. destruct l as [| t l]; [by apply split_on_none |].
  change (str_join (String c "") (s :: t :: l)) with (s +:+ String c (str_join (String c "") (t :: l))).
  by rewrite split_on_app, IH.
Qed.

#[export] Hint Resolve wrap_u_range wrap_u_small wrap_i_small clamp_range : aigis.
