(* ===== verification/Json.v ===== *)
(** * JSON values (the part of serde_json the components use)

    [serde_json::Value] with its accessors.  Parsing and printing are
    serde_json's own code: they are the operations of the class [SerdeJson], and
    a theorem that needs a fact about them states it as a hypothesis on the
    value at hand.  Objects are [serde_json::Map] without the [preserve_order]
    feature: association lists in increasing key order. *)
From Stdlib Require Import ZArith Lia Floats.SpecFloat.
From S2P Require Import Prelude.

(** ** Numbers *)

(** [serde_json::Number]: [u64], negative [i64], or a finite [f64]. *)
Inductive number :=
  | PosInt (n : Z)
  | NegInt (n : Z)
  | Float (f : spec_float).

(** [n as f64], [n as f32] and [x as f32] round to nearest, ties to even. *)
Definition f64_of_Z (n : Z) : spec_float := binary_normalize 53 1024 n 0 false.
Definition f32_of_Z (n : Z) : spec_float := binary_normalize 24 128 n 0 false.
Definition f32_of_f64 (f : spec_float) : spec_float :=
  match f with
  | S754_finite sg m e => binary_normalize 24 128 (if sg then Z.neg m else Z.pos m) e sg
  | _ => f
  end.
(** [x == 0.0] on floats *)
Definition is_zero (f : spec_float) : bool :=
  match f with S754_zero _ => true | _ => false end.

Inductive value :=
  | JNull
  | JBool (b : bool)
  | JNumber (n : number)
  | JString (s : string)
  | JArray (l : list value)
  | JObject (m : list (string * value)).

(** ** Accessors *)

Definition as_str (v : value) : option string :=
  match v with JString s => Some s | _ => None end.
Definition as_array (v : value) : option (list value) :=
  match v with JArray l => Some l | _ => None end.
Definition as_object (v : value) : option (list (string * value)) :=
  match v with JObject m => Some m | _ => None end.

Definition as_i64 (v : value) : option Z :=
  match v with
  | JNumber (PosInt n) => if (n <? 2 ^ 63)%Z then Some n else None
  | JNumber (NegInt n) => Some n
  | _ => None
  end.
Definition as_f64 (v : value) : option spec_float :=
  match v with
  | JNumber (PosInt n) | JNumber (NegInt n) => Some (f64_of_Z n)
  | JNumber (Float f) => Some f
  | _ => None
  end.

(** [Map::get] *)
Fixpoint map_get {V} (k : string) (m : list (string * V)) : option V :=
  match m with
  | [] => None
  | (k', v) :: m => if String.eqb k k' then Some v else map_get k m
  end.

(** [Value::get(key)] on a string key: [None] unless the value is an object. *)
Definition get (k : string) (v : value) : option value :=
  match v with JObject m => map_get k m | _ => None end.

(** [Map::insert]: replaces the value of a present key, else inserts in order. *)
Fixpoint map_insert {V} (k : string) (x : V) (m : list (string * V)) : list (string * V) :=
  match m with
  | [] => [(k, x)]
  | (k', v) :: m' =>
      if String.eqb k k' then (k', x) :: m'
      else if String.ltb k k' then (k, x) :: m
      else (k', v) :: map_insert k x m'
  end.

(** [Value::from(i64)] and [Value::from(u64)] *)
Definition json_int (n : Z) : value :=
  JNumber (if (0 <=? n)%Z then PosInt n else NegInt n).

(** ** Parsing and printing: serde_json's code *)

Class SerdeJson := {
  from_slice : string → result value string;
  to_vec : value → result string string
}.

(** A concrete instance for examples: a parse table and one fixed output. *)
Definition table_serde (table : list (string * value)) (out : string) : SerdeJson := {|
  from_slice s := match map_get s table with Some v => Ok v | None => Err "expected value" end;
  to_vec _ := Ok out |}.

(** ** Lemmas *)

Lemma map_get_insert {V} k (x : V) m : map_get k (map_insert k x m) = Some x.
Proof.
  induction m as [| [k' v] m IH]; simpl; [by rewrite String.eqb_refl |].
  destruct (String.eqb k k') eqn:E; simpl; [by rewrite E |].
  destruct (String.ltb k k'); simpl; [by rewrite String.eqb_refl |]. by rewrite E.
Qed.

Lemma map_get_insert_ne {V} k k' (x : V) m :
  k ≠ k' → map_get k' (map_insert k x m) = map_get k' m.
Proof.
  intros Hne. induction m as [| [k1 v] m IH]; simpl.
  - by destruct (String.eqb_spec k' k); simplify_eq.
  - destruct (String.eqb_spec k k1); simplify_eq; simpl.
    + by destruct (String.eqb_spec k' k1); simplify_eq.
    + destruct (String.ltb k k1); simpl; [| by rewrite IH].
      by destruct (String.eqb_spec k' k); simplify_eq.
Qed.

Lemma get_insert_ne k k' x m : k ≠ k' → get k' (JObject (map_insert k x m)) = get k' (JObject m).
Proof. apply map_get_insert_ne. Qed.

