(* ===== verification/JsonShape.v ===== *)
(** * Well-formed JSON values

    What serde_json's types guarantee of a [Value]: numbers in the range of their
    variant, and the keys of an object in strictly increasing order.  [normal] is
    the value that reading a printed value back gives: its objects are rebuilt
    by insertion; [depth] is its nesting.  [SerdeTree] states how printing and
    parsing go together, within the parser's limit on nesting. *)
From Stdlib Require Import ZArith Lia OrdersEx Sorting.Sorted Floats.SpecFloat.
From S2P Require Import Prelude Json.
#[local] Open Scope string_scope.
#[local] Open Scope list_scope.
#[local] Open Scope nat_scope.

(** ** Shape *)

Definition number_ok (n : number) : bool :=
  match n with
  | PosInt n => (0 <=? n)%Z && (n <? 2 ^ 64)%Z
  | NegInt n => (- 2 ^ 63 <=? n)%Z && (n <? 0)%Z
  | Float f => valid_binary 53 1024 f && match f with S754_infinity _ | S754_nan => false | _ => true end
  end.

Fixpoint keys_sorted {V} (m : list (string * V)) : bool :=
  match m with
  | [] => true
  | (k, _) :: m' =>
      match m' with
      | [] => true
      | (k', _) :: _ => String.ltb k k' && keys_sorted m'
      end
  end.

Fixpoint value_ok (v : value) : bool :=
  match v with
  | JNull | JBool _ | JString _ => true
  | JNumber n => number_ok n
  | JArray l => forallb value_ok l
  | JObject m => keys_sorted m && forallb (λ kv, value_ok kv.2) m
  end.

(** Numbers in range and no float, objects in any order without a repeated key. *)
Definition exact_number (n : number) : bool :=
  match n with Float _ => false | _ => number_ok n end.

Fixpoint nodup_keys {V} (m : list (string * V)) : bool :=
  match m with
  | [] => true
  | (k, _) :: m => negb (existsb (λ kv, String.eqb k kv.1) m) && nodup_keys m
  end.

Fixpoint printable (v : value) : bool :=
  match v with
  | JNull | JBool _ | JString _ => true
  | JNumber n => exact_number n
  | JArray l => forallb printable l
  | JObject m => nodup_keys m && forallb (λ kv, printable kv.2) m
  end.

(** ** Reading back *)

Definition collect (m : list (string * value)) : list (string * value) :=
  foldl (λ acc kv, map_insert kv.1 kv.2 acc) [] m.

Fixpoint normal (v : value) : value :=
  match v with
  | JArray l => JArray (map normal l)
  | JObject m => JObject (collect (map (λ kv, (kv.1, normal kv.2)) m))
  | _ => v
  end.

(** How deeply arrays and objects are nested.  serde_json's parser counts down from
    128 on entering one and refuses the text when nothing is left. *)
Fixpoint depth (v : value) : nat :=
  match v with
  | JArray l => S (list_max (map depth l))
  | JObject m => S (list_max (map (λ kv, depth kv.2) m))
  | _ => 0
  end.
Definition RECURSION_LIMIT : nat := 128.

(** What the streaming parser sees of a text: the value with the keys of its objects
    as written, which a [Value] is built from by insertion.  A printed value without
    floats, which need not survive to the last digit, is read back unless it nests
    too deeply, and then it is refused; no value prints to the empty text.
    A field that the type being read does not have is skipped without counting: no
    message here is written with such a field. *)
Class SerdeTree `{SerdeJson} (read : string → result value string) := {
  tree_value s v : read s = Ok v → from_slice s = Ok (normal v);
  printed_tree v s : printable v = true → depth v < RECURSION_LIMIT → to_vec v = Ok s → read s = Ok v;
  deep_tree_fails v s : RECURSION_LIMIT ≤ depth v → to_vec v = Ok s → is_ok (read s) = false;
  printed_nonempty v s : to_vec v = Ok s → s ≠ "" }.

(** ** Induction on values *)

Section value_ind.
Context (P : value → Prop).
Context (Hnull : P JNull) (Hbool : ∀ b, P (JBool b)) (Hnum : ∀ n, P (JNumber n)) (Hstr : ∀ s, P (JString s)).
Context (Harr : ∀ l, Forall P l → P (JArray l)).
Context (Hobj : ∀ m, Forall (λ kv, P kv.2) m → P (JObject m)).

Fixpoint value_induction (v : value) : P v :=
  match v with
  | JNull => Hnull
  | JBool b => Hbool b
  | JNumber n => Hnum n
  | JString s => Hstr s
  | JArray l => Harr l ((fix go l : Forall P l :=
      match l with [] => List.Forall_nil _ | v :: l => List.Forall_cons _ _ _ (value_induction v) (go l) end) l)
  | JObject m => Hobj m ((fix go m : Forall (λ kv, P kv.2) m :=
      match m with [] => List.Forall_nil _ | kv :: m => List.Forall_cons _ _ _ (value_induction kv.2) (go m) end) m)
  end.
End value_ind.

(** ** Keys in order *)

Definition key_lt (k k' : string) : Prop := String.ltb k k' = true.

Lemma ltb_lt k k' : String.ltb k k' = true ↔ String_as_OT.lt k k'.
Proof.
  unfold String.ltb, String_as_OT.lt. change String_as_OT.compare with String.compare.
  by destruct (String.compare k k').
Qed.

#[export] Instance key_lt_trans : Transitive key_lt.
Proof.
  intros x y z. unfold key_lt. rewrite !ltb_lt. apply (StrictOrder_Transitive (R := String_as_OT.lt)).
Qed.
Lemma key_lt_irrefl k : ¬ key_lt k k.
Proof. unfold key_lt. rewrite ltb_lt. apply (StrictOrder_Irreflexive (R := String_as_OT.lt)). Qed.

Lemma key_trichotomy k k' : String.eqb k k' = false → String.ltb k k' = false → key_lt k' k.
Proof.
  unfold key_lt. rewrite ltb_lt. unfold String.ltb. intros He Hl.
  destruct (String_as_OT.compare_spec k k') as [Heq | Hlt | Hgt]; [| | done].
  - unfold String_as_OT.eq in Heq. subst. by rewrite String.eqb_refl in He.
  - unfold String_as_OT.lt in Hlt. change String_as_OT.compare with String.compare in Hlt. by rewrite Hlt in Hl.
Qed.

Lemma keys_sorted_spec {V} (m : list (string * V)) :
  keys_sorted m = true ↔ StronglySorted key_lt m.*1.
Proof.
  split.
  - intros Hs. apply Sorted_StronglySorted; [exact key_lt_trans |]. induction m as [| [k v] m IH]; [constructor |].
    destruct m as [| [k' v'] m]; simpl in *; [by repeat constructor |].
    apply andb_true_iff in Hs as [Hk Hs]. constructor; [by apply IH | by constructor].
  - induction m as [| [k v] m IH]; [done |]. simpl. intros Hs. inversion_clear Hs as [| ? ? Hm Hall].
    destruct m as [| [k' v'] m]; [done |]. apply andb_true_iff. split; [| by apply IH].
    by inversion_clear Hall.
Qed.

Lemma map_insert_keys {V} k (x : V) m : (map_insert k x m).*1 ⊆ k :: m.*1.
Proof.
  induction m as [| [k' v] m IH]; simpl; [done |].
  destruct (String.eqb_spec k k') as [-> |]; simpl; [set_solver |].
  destruct (String.ltb k k'); simpl; [done |]. set_solver.
Qed.

(** [Map::insert] keeps the order. *)
Lemma map_insert_sorted {V} k (x : V) m : keys_sorted m = true → keys_sorted (map_insert k x m) = true.
Proof.
  rewrite !keys_sorted_spec. induction m as [| [k' v] m IH]; simpl; [by repeat constructor |].
  intros Hs. inversion_clear Hs as [| ? ? Hm Hall]. destruct (String.eqb k k') eqn:He; simpl; [by constructor |].
  destruct (String.ltb k k') eqn:Hl; simpl.
  - constructor; [by constructor |]. constructor; [done |].
    eapply Forall_impl; [exact Hall |]. intros z Hz. by transitivity k'.
  - constructor; [by apply IH |]. apply Forall_forall. intros z Hz%map_insert_keys.
    apply elem_of_cons in Hz as [-> | Hz]; [by apply key_trichotomy |]. by eapply Forall_forall in Hall.
Qed.

Lemma map_insert_forall {V} (P : V → bool) k x (m : list (string * V)) :
  P x = true → forallb (λ kv, P kv.2) m = true → forallb (λ kv, P kv.2) (map_insert k x m) = true.
Proof.
  intros Hx. induction m as [| [k' v] m IH]; simpl; [by rewrite Hx |].
  intros [Hv Hm]%andb_true_iff. destruct (String.eqb k k'); simpl; [by rewrite Hx, Hm |].
  destruct (String.ltb k k'); simpl; [by rewrite Hx, Hv, Hm |]. by rewrite Hv, IH.
Qed.

Lemma object_insert_ok k x m :
  value_ok x = true → value_ok (JObject m) = true → value_ok (JObject (map_insert k x m)) = true.
Proof.
  simpl. intros Hx [Hs Hm]%andb_true_iff. rewrite map_insert_sorted by done. by apply (map_insert_forall value_ok).
Qed.

Lemma collect_ok m : forallb (λ kv, value_ok kv.2) m = true → value_ok (JObject (collect m)) = true.
Proof.
  unfold collect. assert (value_ok (JObject []) = true) as H0 by done. revert H0. generalize (@nil (string * value)).
  induction m as [| [k v] m IH]; intros acc Hacc; simpl; [by intros |].
  intros [Hv Hm]%andb_true_iff. apply IH; [| done]. by apply object_insert_ok.
Qed.

Lemma forallb_map {A B} (f : A → B) (p : B → bool) l : forallb p (map f l) = forallb (λ x, p (f x)) l.
Proof. induction l as [| x l IH]; [done |]. simpl. by rewrite IH. Qed.

Lemma forallb_impl {A} (p q : A → bool) l :
  Forall (λ x, p x = true → q x = true) l → forallb p l = true → forallb q l = true.
Proof. induction 1 as [| x l Hx Hl IH]; [done |]. simpl. intros [? ?]%andb_true_iff. by rewrite Hx, IH. Qed.

(** What is read back is well formed. *)
Lemma normal_ok v : printable v = true → value_ok (normal v) = true.
Proof.
  induction v as [| | [] | | l IH | m IH] using value_induction; try done.
  - simpl. rewrite forallb_map. by apply forallb_impl.
  - simpl. intros [_ Hm]%andb_true_iff. apply collect_ok. rewrite forallb_map. simpl.
    revert Hm. by apply forallb_impl.
Qed.

(** A well-formed value is its own reading. *)
Lemma insert_last {V} k (x : V) m : Forall (λ k', key_lt k' k) m.*1 → map_insert k x m = m ++ [(k, x)].
Proof.
  induction m as [| [k' v] m IH]; simpl; [done |]. intros [Hk Hm]%Forall_cons.
  assert (String.eqb k k' = false) as ->.
  { apply String.eqb_neq. intros ->. by apply key_lt_irrefl in Hk. }
  assert (String.ltb k k' = false) as ->.
  { apply not_true_iff_false. intros Hl. apply (key_lt_irrefl k). by transitivity k'. }
  by rewrite IH.
Qed.

Lemma collect_sorted m : keys_sorted m = true → collect m = m.
Proof.
  rewrite keys_sorted_spec. unfold collect. intros Hs.
  enough (∀ acc, StronglySorted key_lt (acc ++ m).*1 →
    foldl (λ acc kv, map_insert kv.1 kv.2 acc) acc m = acc ++ m) as Hgo by (by apply Hgo).
  clear Hs. induction m as [| [k v] m IH]; intros acc Hs; simpl; [by rewrite app_nil_r |].
  rewrite insert_last.
  - rewrite IH; [by rewrite <-app_assoc |]. by rewrite <-app_assoc.
  - rewrite fmap_app in Hs. clear IH. induction acc as [| [k' v'] acc IH]; simpl; [constructor |].
    simpl in Hs. inversion_clear Hs as [| ? ? Hm Hall]. constructor; [| by apply IH].
    rewrite Forall_app in Hall. destruct Hall as [_ Hall]. by inversion_clear Hall.
Qed.

Lemma normal_id v : value_ok v = true → normal v = v.
Proof.
  induction v as [| | | | l IH | m IH] using value_induction; try done.
  - simpl. intros Hl. f_equal. induction IH as [| x l Hx Hall IHl]; [done |]. simpl in *.
    apply andb_true_iff in Hl as [? ?]. by rewrite Hx, IHl.
  - simpl. intros [Hs Hm]%andb_true_iff.
    assert (map (λ kv, (kv.1, normal kv.2)) m = m) as ->.
    { clear Hs. induction IH as [| [k x] m Hx Hall IHm]; [done |]. simpl in *.
      apply andb_true_iff in Hm as [? ?]. by rewrite Hx, IHm. }
    by rewrite collect_sorted.
Qed.

(** The nesting of a list of values, and of an object's. *)
Lemma list_max_below l n : Forall (λ k, k ≤ n) l → list_max l ≤ n.
Proof. induction 1 as [| k l Hk _ IH]; simpl; [lia |]. by apply Nat.max_lub. Qed.

Lemma depth_array {A} (f : A → value) l n : (∀ x, depth (f x) ≤ n) → depth (JArray (f <$> l)) ≤ S n.
Proof.
  intros Hf. simpl. apply le_n_S, list_max_below.
  induction l as [| x l IH]; [constructor |]. simpl. by constructor.
Qed.

(** Lookups in a collected object. *)
Lemma map_get_collect k m : nodup_keys m = true → map_get k (collect m) = map_get k m.
Proof.
  unfold collect. intros Hn.
  enough (∀ acc, map_get k (foldl (λ acc kv, map_insert kv.1 kv.2 acc) acc m) =
                 match map_get k m with Some v => Some v | None => map_get k acc end) as ->
    by (by destruct (map_get k m)).
  induction m as [| [k' v] m IH]; intros acc; simpl; [done |].
  simpl in Hn. apply andb_true_iff in Hn as [Hk Hn]. rewrite IH by done.
  destruct (String.eqb_spec k k') as [<- |].
  - rewrite map_get_insert. assert (map_get k m = None) as ->; [| done].
    apply negb_true_iff in Hk. clear IH Hn. induction m as [| [k2 v2] m IHm]; [done |]. simpl in *.
    apply orb_false_iff in Hk as [-> Hk]. by apply IHm.
  - destruct (map_get k m); [done |]. by rewrite map_get_insert_ne.
Qed.

Lemma map_get_map {A B} (f : A → B) k m :
  map_get k (map (λ kv, (kv.1, f kv.2)) m) = f <$> map_get k m.
Proof. induction m as [| [k' v] m IH]; simpl; [done |]. by destruct (String.eqb k k'). Qed.

Lemma nodup_keys_map {A B} (f : A → B) (m : list (string * A)) :
  nodup_keys (map (λ kv, (kv.1, f kv.2)) m) = nodup_keys m.
Proof.
  induction m as [| [k v] m IH]; simpl; [done |]. rewrite IH. f_equal. f_equal.
  clear IH. induction m as [| [k' v'] m IH]; simpl; [done |]. by rewrite IH.
Qed.
