(* ===== verification/EventBuffer.v ===== *)
(** * The agent's local event buffer (agent/crates/event-buffer/src/lib.rs)

    [EventBuffer] is a capped SQLite table of JSON strings.  A table is the list
    of its rows in rowid order; every SQL statement of the source is one
    definition, and each may fail (disk, lock) as its fault argument says.  The
    abstract specification is a bounded FIFO queue of strings. *)
From Stdlib Require Import ZArith Lia Sorted.
From S2P Require Import Prelude.

(** ** The table *)

(** A stored value: the column is declared [JSON], which gives it NUMERIC
    affinity, so text that reads as a number is stored as a number. *)
Inductive sql_value :=
  | SqlText (s : string)
  | SqlNumber.

Record row := Row { row_id : Z; row_payload : sql_value; row_created_at : Z }.

(** [seq] is the largest rowid ever used (AUTOINCREMENT never reuses one). *)
Record table := Table { rows : list row; seq : Z }.

(** The faults of the three statements of [push], [None] when it succeeds. *)
Record push_faults := PushFaults {
  insert_fault : option string; count_fault : option string; delete_fault : option string }.
Definition no_push_faults : push_faults := PushFaults None None None.

(** The faults of [drain]: opening the transaction, reading the rows, the
    DELETE, the commit. *)
Record drain_faults := DrainFaults {
  begin_fault : option string; select_fault : option string;
  remove_fault : option string; commit_fault : option string }.
Definition no_drain_faults : drain_faults := DrainFaults None None None None.

Definition i64_max : Z := (2 ^ 63 - 1)%Z.

(** [LIMIT n]: a negative limit is no limit. *)
Definition sql_limit {A} (n : Z) (l : list A) : list A :=
  if (n <? 0)%Z then l else take (Z.to_nat n) l.

(** [DELETE ... WHERE id IN (ids)] *)
Definition delete_ids (ids : list Z) (t : table) : table :=
  Table (filter (λ r, row_id r ∉ ids) (rows t)) (seq t).

Section buffer.
(** SQLite's test for text that a NUMERIC column converts to a number. *)
Context (looks_numeric : string → bool).

Definition store_value (s : string) : sql_value :=
  if looks_numeric s then SqlNumber else SqlText s.

Definition fault_check (f : option string) : SE table string unit :=
  match f with Some e => throw e | None => mret tt end.

(** [INSERT INTO event_buffer (payload, created_at) VALUES (?1, ?2)] *)
Definition insert_row (fl : push_faults) (event_json : string) (now : Z) : SE table string unit :=
  fault_check (insert_fault fl);;
  t ← gets id;
  if (seq t =? i64_max)%Z then throw "database or disk is full"
  else modify (λ t, Table (rows t ++ [Row (seq t + 1) (store_value event_json) now]) (seq t + 1)).

(** [SELECT COUNT( * ) FROM event_buffer] *)
Definition select_count (fl : push_faults) : SE table string Z :=
  fault_check (count_fault fl);;
  gets (λ t, Z.of_nat (length (rows t))).

(** [DELETE ... WHERE id IN (SELECT id ... ORDER BY id ASC LIMIT ?1)] *)
Definition delete_oldest (fl : push_faults) (to_delete : Z) : SE table string unit :=
  fault_check (delete_fault fl);;
  modify (λ t, delete_ids (row_id <$> sql_limit to_delete (rows t)) t).

(** [EventBuffer::push]: three autocommitted statements, no transaction. *)
Definition push (fl : push_faults) (max_events now : Z) (event_json : string) : SE table string unit :=
  insert_row fl event_json now;;
  count ← select_count fl;
  if (wrap_i 64 max_events <? count)%Z then
    let to_delete := wrap_i 64 (count - wrap_i 64 max_events) in
    delete_oldest fl to_delete
  else mret tt.

(** Reading [payload] as a [String] fails on a number. *)
Definition get_string (v : sql_value) : result string string :=
  match v with
  | SqlText s => Ok s
  | SqlNumber => Err "Invalid column type"
  end.

Fixpoint read_rows (rs : list row) : result (list Z * list string) string :=
  match rs with
  | [] => Ok ([], [])
  | r :: rs =>
      match get_string (row_payload r) with
      | Err e => Err e
      | Ok payload =>
          match read_rows rs with
          | Err e => Err e
          | Ok (ids, events) => Ok (row_id r :: ids, payload :: events)
          end
      end
  end.

(** The statements of [drain] between [transaction()] and [commit()]. *)
Definition drain_tx (fl : drain_faults) (batch_size : Z) : SE table string (list string) :=
  fault_check (select_fault fl);;
  if (i64_max <? batch_size)%Z then throw "out of range integral type conversion" else
  t ← gets id;
  match read_rows (sql_limit batch_size (rows t)) with
  | Err e => throw e
  | Ok (ids, events) =>
      (if decide (ids = []) then mret tt
       else fault_check (remove_fault fl);; modify (delete_ids ids));;
      fault_check (commit_fault fl);;
      mret events
  end.

(** [EventBuffer::drain]: dropping the transaction on an error rolls back. *)
Definition drain (fl : drain_faults) (batch_size : Z) : SE table string (list string) := λ t,
  match begin_fault fl with
  | Some e => (Err e, t)
  | None =>
      match drain_tx fl batch_size t with
      | (Ok events, t') => (Ok events, t')
      | (Err e, _) => (Err e, t)
      end
  end.

(** [EventBuffer::len] and [EventBuffer::is_empty] *)
Definition len (fault : option string) : SE table string Z :=
  fault_check fault;;
  gets (λ t, wrap_u 64 (Z.of_nat (length (rows t)))).

Definition is_empty (fault : option string) : SE table string bool :=
  n ← len fault;
  mret (bool_decide (n = 0%Z)).

(** [EventBuffer::new]: opening an existing file keeps its rows. *)
Definition new (fault : option string) (file : option table) : result table string :=
  match fault with
  | Some e => Err e
  | None => Ok (default (Table [] 0) file)
  end.

(** ** Abstract specification: a bounded FIFO queue *)

Definition keep_last {A} (n : nat) (l : list A) : list A := drop (length l - n) l.

Definition spec_push (max : nat) (x : string) (q : list string) : list string :=
  keep_last max (q ++ [x]).
Definition spec_drain (n : nat) (q : list string) : list string * list string :=
  (take n q, drop n q).

(** What a client does with the buffer, and the outputs it sees. *)
Inductive op := Push (now : Z) (x : string) | Drain (n : nat).

Definition run_op (max : Z) (o : op) : SE table string (list string) :=
  match o with
  | Push now x => push no_push_faults max now x;; mret []
  | Drain n => drain no_drain_faults (Z.of_nat n)
  end.

Definition spec_op (max : nat) (o : op) (q : list string) : list string * list string :=
  match o with
  | Push _ x => ([], spec_push max x q)
  | Drain n => spec_drain n q
  end.

Fixpoint run_ops (max : Z) (os : list op) : SE table string (list (list string)) :=
  match os with
  | [] => mret []
  | o :: os => out ← run_op max o; outs ← run_ops max os; mret (out :: outs)
  end.

Fixpoint spec_ops (max : nat) (os : list op) (q : list string) : list (list string) * list string :=
  match os with
  | [] => ([], q)
  | o :: os =>
      let '(out, q1) := spec_op max o q in
      let '(outs, q2) := spec_ops max os q1 in
      (out :: outs, q2)
  end.

(** The representation: rows in strictly increasing rowid order below [seq],
    holding the queue's strings as text. *)
Definition wf (t : table) : Prop :=
  StronglySorted Z.lt (row_id <$> rows t) ∧ Forall (λ r, row_id r ≤ seq t)%Z (rows t) ∧
  (seq t ≤ i64_max)%Z.

Definition represents (t : table) (q : list string) : Prop :=
  wf t ∧ row_payload <$> rows t = SqlText <$> q.

Definition textual (o : op) : Prop :=
  match o with Push _ x => looks_numeric x = false | Drain n => (Z.of_nat n ≤ i64_max)%Z end.

Definition is_push (o : op) : bool := match o with Push _ _ => true | Drain _ => false end.
Definition pushes (os : list op) : nat := length (filter is_push os).
End buffer.

(** ** Lemmas on the SQL statements *)

#[local] Arguments delete_ids : simpl never.

Lemma keep_last_length {A} n (l : list A) : length (keep_last n l) = min n (length l).
Proof. unfold keep_last. rewrite length_drop. lia. Qed.

Lemma keep_last_all {A} n (l : list A) : length l ≤ n → keep_last n l = l.
Proof. intros. unfold keep_last. by replace (length l - n) with 0 by lia. Qed.

Lemma sql_limit_nonneg {A} n (l : list A) : sql_limit (Z.of_nat n) l = take n l.
Proof. unfold sql_limit. destruct (Z.ltb_spec (Z.of_nat n) 0); [lia |]. by rewrite Nat2Z.id. Qed.

Lemma sql_limit_all {A} n (l : list A) :
  (n < 0 ∨ Z.of_nat (length l) ≤ n)%Z → sql_limit n l = l.
Proof.
  unfold sql_limit. intros [?|?]; destruct (Z.ltb_spec n 0); try lia; [done |].
  apply take_ge. lia.
Qed.

(** Deleting the ids of a prefix of a table with distinct ids drops it. *)
Lemma filter_prefix_ids (l1 l2 : list row) :
  NoDup (row_id <$> l1 ++ l2) → filter (λ r, row_id r ∉ row_id <$> l1) (l1 ++ l2) = l2.
Proof.
  rewrite fmap_app, filter_app. intros (_ & Hdisj & _)%NoDup_app.
  rewrite filter_none, filter_all; [done | |].
  - apply Forall_forall. intros r Hr Hin. by eapply Hdisj; [| apply list_elem_of_fmap_2].
  - apply Forall_forall. intros r Hr Hn. apply Hn. by apply list_elem_of_fmap_2.
Qed.

Lemma sorted_nodup (l : list Z) : StronglySorted Z.lt l → NoDup l.
Proof.
  induction 1 as [| x l _ IH Hx]; constructor; [| done].
  intros Hin. rewrite Forall_forall in Hx. specialize (Hx x Hin). lia.
Qed.

Lemma sorted_drop (l : list Z) n : StronglySorted Z.lt l → StronglySorted Z.lt (drop n l).
Proof.
  revert n. induction l as [| x l IH]; intros [| n] Hs; try done. apply IH. by inversion Hs.
Qed.

Lemma sorted_snoc (l : list Z) x :
  StronglySorted Z.lt l → Forall (λ y, y < x)%Z l → StronglySorted Z.lt (l ++ [x]).
Proof.
  induction 1 as [| y l Hs IH Hy]; intros Hf; [repeat constructor |].
  inversion Hf; subst. simpl. constructor; [by apply IH |].
  apply Forall_app. split; [done |]. by repeat constructor.
Qed.

(** Deleting the first [n] rows of a well-formed table. *)
Lemma delete_prefix t n : wf t →
  delete_ids (row_id <$> take n (rows t)) t = Table (drop n (rows t)) (seq t) ∧
  wf (Table (drop n (rows t)) (seq t)).
Proof.
  intros (Hs & Hle & Hseq). split.
  - unfold delete_ids. f_equal.
    pose proof (filter_prefix_ids (take n (rows t)) (drop n (rows t))) as Hf.
    rewrite take_drop in Hf. by apply Hf, sorted_nodup.
  - split_and!; simpl; [| | done].
    + rewrite fmap_drop. by apply sorted_drop.
    + by apply Forall_drop.
Qed.

Lemma read_rows_text (rs : list row) (q : list string) :
  row_payload <$> rs = SqlText <$> q → read_rows rs = Ok (row_id <$> rs, q).
Proof.
  revert q. induction rs as [| r rs IH]; intros [| x q] Hq; try done.
  simpl in *. injection Hq as -> Hq. simpl. by rewrite (IH q Hq).
Qed.

Lemma read_rows_number (rs : list row) r :
  r ∈ rs → row_payload r = SqlNumber → ∃ e, read_rows rs = Err e.
Proof.
  induction 1 as [r rs | r r' rs _ IH]; intros Hn; simpl.
  - rewrite Hn. by eexists.
  - destruct (row_payload r'); simpl; [| by eexists].
    destruct (IH Hn) as [e ->]. by eexists.
Qed.

Section buffer_lemmas.
Context (looks_numeric : string → bool).
#[local] Abbreviation push := (push looks_numeric).

(** The two normal outcomes of [push] when no statement fails. *)
Lemma insert_row_wf t x now :
  wf t → (seq t < i64_max)%Z →
  let t1 := Table (rows t ++ [Row (seq t + 1) (store_value looks_numeric x) now]) (seq t + 1) in
  insert_row looks_numeric no_push_faults x now t = (Ok tt, t1) ∧ wf t1.
Proof.
  intros (Hs & Hle & Hseq) Hlt. simpl. split.
  - unfold insert_row, mbind, SE_bind. simpl.
    destruct (Z.eqb_spec (seq t) i64_max); [lia | done].
  - split_and!; simpl; [| | lia].
    + rewrite fmap_app. apply sorted_snoc; [done |].
      apply Forall_fmap. eapply Forall_impl; [done |]. simpl. intros. lia.
    + apply Forall_app. split; [| by repeat constructor].
      eapply Forall_impl; [done |]. simpl. intros. lia.
Qed.

Lemma push_run max t x now :
  wf t → (seq t < i64_max)%Z → (0 ≤ max < 2 ^ 63)%Z →
  (Z.of_nat (length (rows t)) < i64_max)%Z →
  let l := rows t ++ [Row (seq t + 1) (store_value looks_numeric x) now] in
  let t' := Table (keep_last (Z.to_nat max) l) (seq t + 1) in
  push no_push_faults max now x t = (Ok tt, t') ∧ wf t'.
Proof.
  intros Hwf Hlt Hmax Hlen. simpl.
  destruct (insert_row_wf t x now Hwf Hlt) as [Hi Hwf1]. simpl in Hi, Hwf1.
  unfold EventBuffer.push, push. rewrite (bind_ok _ _ _ _ _ Hi).
  unfold mbind, SE_bind. simpl.
  unfold i64_max in *. rewrite (wrap_i_small 64 max) by (unfold fits_i; lia).
  rewrite length_app. simpl.
  set (l := rows t ++ _) in *.
  assert (length l = length (rows t) + 1) as Hl by (unfold l; rewrite length_app; done).
  destruct (Z.ltb_spec max (Z.of_nat (length (rows t) + 1))) as [Hc | Hc].
  - rewrite wrap_i_small by (unfold fits_i; lia).
    replace (Z.of_nat (length (rows t) + 1) - max)%Z
      with (Z.of_nat (length l - Z.to_nat max)) by lia.
    unfold delete_oldest, mbind, SE_bind. simpl. unfold modify. rewrite sql_limit_nonneg.
    destruct (delete_prefix _ (length l - Z.to_nat max) Hwf1) as [Hd Hw]. simpl in Hd, Hw.
    simpl. rewrite Hd. done.
  - rewrite keep_last_all by lia. done.
Qed.

Lemma keep_last_fmap {A B} (f : A → B) n (l : list A) : f <$> keep_last n l = keep_last n (f <$> l).
Proof. unfold keep_last. by rewrite fmap_drop, length_fmap. Qed.

Lemma push_represents max t q x now :
  represents t q → (seq t < i64_max)%Z → (0 ≤ max < 2 ^ 63)%Z →
  (Z.of_nat (length q) < i64_max)%Z → looks_numeric x = false →
  ∃ t', push no_push_faults max now x t = (Ok tt, t') ∧
        represents t' (spec_push (Z.to_nat max) x q) ∧ seq t' = (seq t + 1)%Z.
Proof.
  intros [Hwf Hq] Hlt Hmax Hlen Hx.
  assert (length (rows t) = length q) as Hl
    by (rewrite <-(length_fmap row_payload), Hq, length_fmap; done).
  destruct (push_run max t x now) as [Hp Hw]; [done | done | done | by rewrite Hl |].
  eexists. split; [exact Hp |]. split; [| done]. split; [done |]. simpl.
  rewrite keep_last_fmap, fmap_app, Hq. unfold spec_push. rewrite keep_last_fmap, fmap_app.
  simpl. unfold store_value. by rewrite Hx.
Qed.

Lemma drain_represents t q n :
  represents t q → (Z.of_nat n ≤ i64_max)%Z →
  ∃ t', drain no_drain_faults (Z.of_nat n) t = (Ok (take n q), t') ∧
        represents t' (drop n q) ∧ seq t' = seq t.
Proof.
  intros [Hwf Hq] Hn. unfold drain, drain_tx, mbind, SE_bind. simpl.
  destruct (Z.ltb_spec i64_max (Z.of_nat n)); [lia |].
  unfold gets. simpl. rewrite sql_limit_nonneg, (read_rows_text _ (take n q))
    by (rewrite !fmap_take, Hq; done).
  destruct (delete_prefix t n Hwf) as [Hd Hw].
  assert (represents (Table (drop n (rows t)) (seq t)) (drop n q)) as Hr.
  { split; [done |]. simpl. by rewrite !fmap_drop, Hq. }
  case_decide as Hids; simpl.
  - exists t. split_and!; [done | | done].
    apply fmap_nil_inv in Hids.
    replace t with (Table (drop n (rows t)) (seq t)); [done |].
    destruct t as [rs sq]. simpl in *. f_equal.
    rewrite <-(take_drop n rs) at 2. by rewrite Hids.
  - unfold modify. rewrite Hd. by eexists.
Qed.
End buffer_lemmas.

(** ** The buffer is a bounded queue *)

Definition valid_ops (looks_numeric : string → bool) (os : list op) : Prop :=
  Forall (textual looks_numeric) os.

Lemma spec_push_length max x q : length (spec_push max x q) ≤ S (length q).
Proof. unfold spec_push. rewrite keep_last_length, length_app. simpl. lia. Qed.

Lemma run_op_represents nm (max : Z) o t q :
  (0 ≤ max < 2 ^ 63)%Z → represents t q → textual nm o →
  (seq t + Z.of_nat (pushes [o]) ≤ i64_max)%Z → (Z.of_nat (length q) ≤ seq t)%Z →
  let '(out, q') := spec_op (Z.to_nat max) o q in
  ∃ t', run_op nm max o t = (Ok out, t') ∧ represents t' q' ∧
        seq t' = (seq t + Z.of_nat (pushes [o]))%Z ∧ (Z.of_nat (length q') ≤ seq t')%Z.
Proof.
  intros Hmax Hr Ho Hseq Hlen. destruct o as [now x | n]; simpl in *.
  - change (pushes [Push now x]) with 1 in *.
    destruct (push_represents nm max t q x now) as (t' & Hp & Hr' & Hs); try done; [lia | lia |].
    exists t'. unfold mbind, SE_bind. rewrite Hp. split_and!; [done | done | done |].
    pose proof (spec_push_length (Z.to_nat max) x q). lia.
  - destruct (drain_represents t q n) as (t' & Hp & Hr' & Hs); [done | done |].
    change (pushes [Drain n]) with 0. exists t'.
    split_and!; [done | done | lia | rewrite length_drop; lia].
Qed.

Lemma pushes_cons o os : pushes (o :: os) = pushes [o] + pushes os.
Proof. unfold pushes. rewrite filter_cons. destruct o; simpl; done. Qed.

Lemma represents_length t q : represents t q → length (rows t) = length q.
Proof. intros [_ Hq]. by rewrite <-(length_fmap row_payload), Hq, length_fmap. Qed.

Lemma run_ops_represents nm (max : Z) os t q :
  (0 ≤ max < 2 ^ 63)%Z → represents t q → valid_ops nm os →
  (seq t + Z.of_nat (pushes os) ≤ i64_max)%Z → (Z.of_nat (length q) ≤ seq t)%Z →
  let '(outs, q') := spec_ops (Z.to_nat max) os q in
  ∃ t', run_ops nm max os t = (Ok outs, t') ∧ represents t' q'.
Proof.
  intros Hmax. revert t q. induction os as [| o os IH]; intros t q Hr Hos Hseq Hlen.
  { exists t. by split. }
  rewrite pushes_cons in Hseq. inversion Hos as [| ?? Ho Hos']; subst.
  pose proof (run_op_represents nm max o t q Hmax Hr Ho ltac:(lia) Hlen) as H1.
  simpl. destruct (spec_op _ o q) as [out q1]. destruct H1 as (t1 & Hrun & Hr1 & Hs1 & Hl1).
  pose proof (IH t1 q1 Hr1 Hos' ltac:(lia) Hl1) as H2.
  destruct (spec_ops _ os q1) as [outs q2]. destruct H2 as (t2 & Hrun2 & Hr2).
  exists t2. split; [| done]. rewrite (bind_ok _ _ _ _ _ Hrun). by rewrite (bind_ok _ _ _ _ _ Hrun2).
Qed.

(** What [drain] does under any combination of faults. *)
Lemma drain_cases fl n t :
  (∃ e, drain fl n t = (Err e, t)) ∨
  ∃ events, read_rows (sql_limit n (rows t)) = Ok (row_id <$> sql_limit n (rows t), events) ∧
    (n ≤ i64_max)%Z ∧
    drain fl n t = (Ok events, delete_ids (row_id <$> sql_limit n (rows t)) t).
Proof.
  unfold drain. destruct (begin_fault fl); [left; by eexists |].
  unfold drain_tx, mbind, SE_bind.
  destruct (select_fault fl); simpl; [left; by eexists |].
  destruct (Z.ltb_spec i64_max n); simpl; [left; by eexists |].
  destruct (read_rows _) as [[ids events] |] eqn:Hrd; simpl; [| left; by eexists].
  assert (ids = row_id <$> sql_limit n (rows t)) as ->.
  { revert ids events Hrd. generalize (sql_limit n (rows t)). intros l.
    induction l as [| r l IH]; intros ids events Hrd; simpl in Hrd; [by simplify_eq |].
    destruct (get_string _); [| done]. destruct (read_rows l) as [[ids' ev'] |]; [| done].
    simplify_eq. simpl. by rewrite (IH ids' ev' eq_refl). }
  case_decide as Hids; simpl.
  - destruct (commit_fault fl); simpl; [left; by eexists |].
    right. exists events. split_and!; [done | done |].
    rewrite Hids. unfold delete_ids. rewrite filter_all; [by destruct t |].
    apply Forall_forall. intros r _. apply not_elem_of_nil.
  - destruct (remove_fault fl); simpl; [left; by eexists |].
    destruct (commit_fault fl); simpl; [left; by eexists |].
    right. by exists events.
Qed.

Lemma read_rows_payloads rs ids events :
  read_rows rs = Ok (ids, events) → row_payload <$> rs = SqlText <$> events.
Proof.
  revert ids events. induction rs as [| r rs IH]; intros ids events H; simpl in H; [by simplify_eq |].
  destruct (row_payload r) as [s |] eqn:Hp; simpl in H; [| done].
  destruct (read_rows rs) as [[ids' ev'] |]; [| done]. simplify_eq.
  by rewrite !fmap_cons, Hp, (IH ids' ev' eq_refl).
Qed.

(** ** Properties *)

(** C1 (refinement): started on an empty file and without disk faults, any
    sequence of pushes and drains behaves exactly like a FIFO queue that keeps
    its newest [max_events] entries: the drained batches are the queue's, and
    the rows left represent the queue that is left. *)
Theorem run_ops_refines_queue nm (max : Z) os :
  (0 ≤ max < 2 ^ 63)%Z → valid_ops nm os → (Z.of_nat (pushes os) ≤ i64_max)%Z →
  ∃ t', run_ops nm max os (Table [] 0) = (Ok (spec_ops (Z.to_nat max) os []).1, t') ∧
        represents t' (spec_ops (Z.to_nat max) os []).2.
Proof.
  intros Hmax Hos Hseq.
  pose proof (run_ops_represents nm max os (Table [] 0) [] Hmax) as H.
  destruct (spec_ops (Z.to_nat max) os []) as [outs q']. apply H; try done.
  split; [| done]. split_and!; simpl; [constructor | done | done].
Qed.

Lemma run_ops_refines_queue_witness :
  ∃ t', run_ops (λ _, false) 2 [Push 0 "a"; Push 1 "b"; Push 2 "c"; Drain 1] (Table [] 0)
        = (Ok [[]; []; []; ["b"%string]], t') ∧ represents t' ["c"%string].
Proof.
  apply (run_ops_refines_queue (λ _, false) 2 [Push 0 "a"; Push 1 "b"; Push 2 "c"; Drain 1]).
  - lia.
  - repeat constructor. simpl. unfold i64_max. lia.
  - vm_compute. discriminate.
Defined.

(** Whatever statement fails, [drain] neither loses nor duplicates an
    event: on success the rows are split, in order, into the returned events (at
    most [batch_size]) and the rows that stay; on an error the table is untouched. *)
Theorem drain_conserves fl n t :
  wf t → (0 ≤ n)%Z →
  match drain fl n t with
  | (Ok events, t') =>
      row_payload <$> rows t = (SqlText <$> events) ++ (row_payload <$> rows t') ∧
      (Z.of_nat (length events) ≤ n)%Z ∧ wf t'
  | (Err _, t') => t' = t
  end.
Proof.
  intros Hwf Hn. destruct (drain_cases fl n t) as [[e ->] | (events & Hr & Hle & ->)]; [done |].
  replace n with (Z.of_nat (Z.to_nat n)) in * by lia. rewrite sql_limit_nonneg in *.
  destruct (delete_prefix t (Z.to_nat n) Hwf) as [-> Hw].
  apply read_rows_payloads in Hr. split_and!; [| | done].
  - simpl. by rewrite <-Hr, <-fmap_app, take_drop.
  - rewrite <-(length_fmap SqlText), <-Hr, length_fmap, length_take. lia.
Qed.

Lemma drain_conserves_witness :
  wf (Table [Row 1 (SqlText "x") 0; Row 2 (SqlText "y") 0] 2) ∧
  drain (DrainFaults None None None (Some "disk I/O error"%string)) 1
    (Table [Row 1 (SqlText "x") 0; Row 2 (SqlText "y") 0] 2)
  = (Err "disk I/O error"%string, Table [Row 1 (SqlText "x") 0; Row 2 (SqlText "y") 0] 2).
Proof.
  assert (wf (Table [Row 1 (SqlText "x") 0; Row 2 (SqlText "y") 0] 2)) as Hwf.
  { split_and!; simpl; [repeat constructor | repeat constructor; simpl; lia |]. unfold i64_max. lia. }
  split; [exact Hwf |].
  pose proof (drain_conserves (DrainFaults None None None (Some "disk I/O error"%string)) 1
    (Table [Row 1 (SqlText "x") 0; Row 2 (SqlText "y") 0] 2) Hwf ltac:(lia)) as H.
  destruct (drain _ _ _) as [[ev | e] t'] eqn:Hd; [discriminate Hd |].
  subst t'. by injection Hd as <-.
Defined.

(** When [push] reports an error, either the insert did not happen and the
    table is untouched, or the event is already stored: only the eviction of
    old events is missing, since the three statements are not one transaction. *)
Theorem push_error_outcome nm fl max now x t e t' :
  push nm fl max now x t = (Err e, t') →
  if decide (insert_fault fl = None ∧ seq t ≠ i64_max)
  then rows t' = rows t ++ [Row (seq t + 1) (store_value nm x) now]
  else t' = t.
Proof.
  unfold push, insert_row, mbind, SE_bind.
  destruct (insert_fault fl) as [ei |].
  { rewrite decide_False by (intros [??]; congruence). simpl. congruence. }
  simpl. destruct (Z.eqb_spec (seq t) i64_max) as [Hs | Hs]; simpl.
  { rewrite decide_False by (intros [??]; congruence). congruence. }
  rewrite decide_True by done. unfold select_count, mbind, SE_bind.
  destruct (count_fault fl); simpl; [intros; by simplify_eq |].
  destruct (_ <? _)%Z; [| done]. unfold delete_oldest, mbind, SE_bind.
  destruct (delete_fault fl); simpl; [intros; by simplify_eq | done].
Qed.

Lemma push_error_outcome_witness :
  rows (push (λ _, false) (PushFaults None (Some "locked"%string) None) 1 7 "e" (Table [] 0)).2
  = [Row 1 (SqlText "e") 7].
Proof.
  exact (push_error_outcome (λ _, false) (PushFaults None (Some "locked"%string) None) 1 7 "e"
    (Table [] 0) "locked" (Table [Row 1 (SqlText "e") 7] 1) eq_refl).
Defined.

(** A capacity of [2^63] or more, which the [u64] setting accepts,
    becomes negative in [max_events as i64], and then a push that meets no fault
    deletes every row, the new event included. *)
Theorem huge_capacity_empties nm max now x t :
  wf t → (seq t < i64_max)%Z → (Z.of_nat (length (rows t)) < i64_max)%Z →
  (2 ^ 63 ≤ max < 2 ^ 64)%Z →
  push nm no_push_faults max now x t = (Ok tt, Table [] (seq t + 1)).
Proof.
  intros Hwf Hlt Hlen Hmax.
  destruct (insert_row_wf nm t x now Hwf Hlt) as [Hi Hwf1]. simpl in Hi, Hwf1.
  unfold push. rewrite (bind_ok _ _ _ _ _ Hi). unfold mbind, SE_bind. simpl.
  assert (wrap_i 64 max = max - 2 ^ 64)%Z as ->.
  { unfold wrap_i. change (64 - 1)%Z with 63%Z. rewrite <-(Z_mod_plus_full _ (-1)), Z.mod_small by lia. lia. }
  set (l := rows t ++ _) in *.
  assert (length l = length (rows t) + 1) as Hl by (unfold l; rewrite length_app; done).
  destruct (Z.ltb_spec (max - 2 ^ 64) (Z.of_nat (length l))) as [Hc |]; [| lia].
  unfold delete_oldest, mbind, SE_bind. simpl. unfold modify. rewrite sql_limit_all.
  - destruct (delete_prefix _ (length l) Hwf1) as [Hd _]. simpl in Hd.
    rewrite firstn_all, drop_all in Hd. simpl. by rewrite Hd.
  - unfold i64_max in *. unfold wrap_i. change (64 - 1)%Z with 63%Z.
    remember (Z.of_nat (length l) - (max - 2 ^ 64))%Z as c eqn:Hceq.
    destruct (decide (c < 2 ^ 63)%Z).
    + right. rewrite Z.mod_small by lia. simpl. lia.
    + left. rewrite <-(Z_mod_plus_full _ (-1)), Z.mod_small by lia. lia.
Qed.

Lemma huge_capacity_empties_witness :
  push (λ _, false) no_push_faults (2 ^ 64 - 1) 7 "e" (Table [Row 1 (SqlText "d") 6] 1)
  = (Ok tt, Table [] 2).
Proof.
  refine (huge_capacity_empties (λ _, false) (2 ^ 64 - 1) 7 "e" (Table [Row 1 (SqlText "d") 6] 1) _ _ _ _).
  - split_and!; simpl; [repeat constructor | repeat constructor; simpl; lia |]. unfold i64_max. lia.
  - unfold i64_max. simpl. lia.
  - unfold i64_max. simpl. lia.
  - lia.
Defined.
