(* ===== verification/Pipeline.v ===== *)
(** * The normalization pipeline (kafka-pipeline/src)

    The event router moves every raw event to one typed topic or to the
    dead-letter queue and counts it; the consumer worker feeds it the messages of
    [aigis.events.raw] and commits their offsets; [kafka-admin] provisions the
    topics.  Sending to Kafka is the broker's: each send takes its outcome as an
    argument. *)
From Stdlib Require Import ZArith Lia.
From S2P Require Import Prelude Json.
#[local] Open Scope string_scope.
#[local] Open Scope list_scope.
#[local] Open Scope nat_scope.

(** ** Metrics (metrics.rs) *)
Module Metrics.

(** The [AtomicU64] counters; [fetch_add] wraps. *)
Record PipelineMetrics := mk {
  events_consumed : Z;
  events_routed_process : Z;
  events_routed_network : Z;
  events_routed_file : Z;
  events_routed_auth : Z;
  events_routed_dlq : Z;
  routing_errors : Z }.

Definition new : PipelineMetrics := mk 0 0 0 0 0 0 0.

Definition fetch_add (c n : Z) : Z := wrap_u 64 (c + n).

Definition inc_consumed (m : PipelineMetrics) : PipelineMetrics :=
  let '(mk c p n f a d e) := m in mk (fetch_add c 1) p n f a d e.

Definition inc_routed (target_topic : string) (m : PipelineMetrics) : PipelineMetrics :=
  let '(mk c p n f a d e) := m in
  if String.eqb target_topic "aigis.events.process" then mk c (fetch_add p 1) n f a d e
  else if String.eqb target_topic "aigis.events.network" then mk c p (fetch_add n 1) f a d e
  else if String.eqb target_topic "aigis.events.file" then mk c p n (fetch_add f 1) a d e
  else if String.eqb target_topic "aigis.events.auth" then mk c p n f (fetch_add a 1) d e
  else mk c p n f a (fetch_add d 1) e.

Definition inc_errors (m : PipelineMetrics) : PipelineMetrics :=
  let '(mk c p n f a d e) := m in mk c p n f a d (fetch_add e 1).

(** [aigis_pipeline_events_routed_total{topic="t"}] *)
Definition routed_label (topic : string) : string :=
  "aigis_pipeline_events_routed_total{topic=" +:+ dquote +:+ topic +:+ dquote +:+ "} ".

Definition format_prometheus (m : PipelineMetrics) : string :=
  "# HELP aigis_pipeline_events_consumed_total Total raw events consumed by normalization pipeline" +:+ nl +:+
  "# TYPE aigis_pipeline_events_consumed_total counter" +:+ nl +:+
  "aigis_pipeline_events_consumed_total " +:+ pretty (events_consumed m) +:+ nl +:+
  "# HELP aigis_pipeline_events_routed_total Total events routed to typed topics" +:+ nl +:+
  "# TYPE aigis_pipeline_events_routed_total counter" +:+ nl +:+
  routed_label "aigis.events.process" +:+ pretty (events_routed_process m) +:+ nl +:+
  routed_label "aigis.events.network" +:+ pretty (events_routed_network m) +:+ nl +:+
  routed_label "aigis.events.file" +:+ pretty (events_routed_file m) +:+ nl +:+
  routed_label "aigis.events.auth" +:+ pretty (events_routed_auth m) +:+ nl +:+
  routed_label "aigis.events.dlq" +:+ pretty (events_routed_dlq m) +:+ nl +:+
  "# HELP aigis_pipeline_routing_errors_total Total unparsable event errors encountered" +:+ nl +:+
  "# TYPE aigis_pipeline_routing_errors_total counter" +:+ nl +:+
  "aigis_pipeline_routing_errors_total " +:+ pretty (routing_errors m) +:+ nl.

(** All the routed counters together. *)
Definition routed_total (m : PipelineMetrics) : Z :=
  (events_routed_process m + events_routed_network m + events_routed_file m
   + events_routed_auth m + events_routed_dlq m)%Z.

Lemma fetch_add_mod c n : (fetch_add c n mod 2 ^ 64 = (c + n) mod 2 ^ 64)%Z.
Proof. unfold fetch_add, wrap_u. by rewrite Zmod_mod. Qed.

Lemma inc_routed_total t m :
  (routed_total (inc_routed t m) mod 2 ^ 64 = (routed_total m + 1) mod 2 ^ 64)%Z ∧
  events_consumed (inc_routed t m) = events_consumed m ∧
  routing_errors (inc_routed t m) = routing_errors m.
Proof.
  destruct m as [c p n f a d e]. unfold inc_routed.
  repeat case_match; (split; [| done]); unfold routed_total, fetch_add, wrap_u; simpl.
  - rewrite <-!Z.add_assoc, Zplus_mod_idemp_l. f_equal. lia.
  - replace (p + (n + 1) `mod` 2 ^ 64 + f + a + d)%Z with ((n + 1) `mod` 2 ^ 64 + (p + f + a + d))%Z by lia.
    rewrite Zplus_mod_idemp_l. f_equal. lia.
  - replace (p + n + (f + 1) `mod` 2 ^ 64 + a + d)%Z with ((f + 1) `mod` 2 ^ 64 + (p + n + a + d))%Z by lia.
    rewrite Zplus_mod_idemp_l. f_equal. lia.
  - replace (p + n + f + (a + 1) `mod` 2 ^ 64 + d)%Z with ((a + 1) `mod` 2 ^ 64 + (p + n + f + d))%Z by lia.
    rewrite Zplus_mod_idemp_l. f_equal. lia.
  - rewrite Zplus_mod_idemp_r. f_equal. lia.
Qed.
End Metrics.

(** ** The event router (event_router.rs) *)
Module EventRouter.
Import Metrics.

Definition DLQ : string := "aigis.events.dlq".

(** The [match] of [route_topic], one row per arm. *)
Definition process_types : list string :=
  ["process_start"; "process_end"; "process"; "process_events"; "bpf_process_events"; "processes";
   "osquery_result"; "osquery_snapshot"; "running_processes"].
Definition network_types : list string :=
  ["network_connect"; "network_listen"; "socket_events"; "bpf_socket_events"; "network"; "listening_ports"].
Definition file_types : list string :=
  ["file_create"; "file_modify"; "file_delete"; "file_events"; "file"].
Definition auth_types : list string :=
  ["user_login"; "user_logout"; "logged_in_users"; "auth"; "users"].

Definition mem (s : string) (l : list string) : bool := existsb (String.eqb s) l.

Definition route_topic (event_type : string) : option string :=
  if mem event_type process_types then Some "aigis.events.process"
  else if mem event_type network_types then Some "aigis.events.network"
  else if mem event_type file_types then Some "aigis.events.file"
  else if mem event_type auth_types then Some "aigis.events.auth"
  else None.

(** A [FutureRecord] with its headers. *)
Record record := Record_ {
  rec_topic : string; rec_payload : string; rec_key : string; rec_headers : list (string * string) }.

(** The router's state: its counters and what it handed to the producer. *)
Record router := Router { metrics : PipelineMetrics; sent : list record }.

Definition on_metrics (f : PipelineMetrics → PipelineMetrics) : SE router string unit :=
  modify (λ r, Router (f (metrics r)) (sent r)).

(** [producer.send(record, 5s).await], with the delivery error if there is one;
    only a delivered record counts as sent. *)
Definition send (fault : option string) (r : record) : SE router string unit :=
  match fault with
  | Some e => throw ("Kafka send error: " +:+ e)
  | None => modify (λ s, Router (metrics s) (sent s ++ [r]))
  end.

Definition dlq_headers (topic : string) (partition offset : Z) (reason : string) : list (string * string) :=
  [("x-source-topic", topic); ("x-original-partition", pretty partition);
   ("x-original-offset", pretty offset); ("x-error-reason", reason)].

(** [event_type], else the query name for osquery events. *)
Definition query_name (event : value) : option string :=
  p ← get "payload" event; v ← get "query_name" p; as_str v.

Definition effective_type (event : value) : string :=
  match (v ← get "event_type" event; as_str v) with
  | Some et => if String.eqb et "osquery" then default "osquery" (query_name event) else et
  | None => default "osquery" (query_name event)
  end.

Definition normalized_category (target_topic event_type : string) : string :=
  if String.eqb target_topic "aigis.events.process" then "process"
  else if String.eqb target_topic "aigis.events.network" then "network"
  else if String.eqb target_topic "aigis.events.file" then "file"
  else if String.eqb target_topic "aigis.events.auth" then "auth"
  else event_type.

(** [obj.insert("event_type", ...)] on an object, nothing on another value. *)
Definition normalize (category : string) (event : value) : value :=
  match event with
  | JObject obj => JObject (map_insert "event_type" (JString category) obj)
  | _ => event
  end.

Section router.
Context `{SerdeJson}.

(** [EventRouterProcessor::process] *)
Definition process (fault : option string) (key : option string) (payload topic : string)
    (partition offset : Z) : SE router string unit :=
  on_metrics inc_consumed;;
  match from_slice payload with
  | Err e =>
      on_metrics inc_errors;;
      on_metrics (inc_routed DLQ);;
      send fault (Record_ DLQ payload (default "" key)
        (dlq_headers topic partition offset "Invalid JSON payload"));;
      throw ("Invalid JSON: " +:+ e)
  | Ok event =>
      let event_type := effective_type event in
      let target_topic := default DLQ (route_topic event_type) in
      on_metrics (inc_routed target_topic);;
      let category := normalized_category target_topic event_type in
      let outbound := if String.eqb target_topic DLQ then payload
                      else default payload (ok (to_vec (normalize category event))) in
      let headers := if String.eqb target_topic DLQ
                     then dlq_headers topic partition offset "Unclassified event type" else [] in
      send fault (Record_ target_topic outbound (default "" key) headers)
  end.

(** ** The consumer worker (consumer.rs) *)

Record message := Message {
  m_topic : string; m_partition : Z; m_offset : Z; m_key : option string; m_payload : option string }.

(** What one turn of the [select!] loop finds: the shutdown token, a message
    with the outcomes of the send and the commit it leads to, a consumer error,
    or the end of the stream. *)
Inductive turn :=
  | Shutdown
  | Received (m : message) (send_fault commit_fault : option string)
  | ConsumerError (e : string)
  | StreamEnd.

Record worker := Worker { proc : router; committed : list (string * Z * Z) }.

Definition position (m : message) : string * Z * Z := (m_topic m, m_partition m, m_offset m).

(** The body for one message: whatever [process] returns, commit. *)
Definition handle_message (m : message) (send_fault commit_fault : option string) (w : worker) : worker :=
  let '(_, r) := process send_fault (m_key m) (default "" (m_payload m)) (m_topic m)
                   (m_partition m) (m_offset m) (proc w) in
  match commit_fault with
  | Some _ => Worker r (committed w)
  | None => Worker r (committed w ++ [position m])
  end.

(** [ConsumerWorker::run] on the turns the run meets. *)
Fixpoint run (turns : list turn) (w : worker) : worker :=
  match turns with
  | [] => w
  | Shutdown :: _ => w
  | Received m sf cf :: turns => run turns (handle_message m sf cf w)
  | ConsumerError _ :: turns => run turns w
  | StreamEnd :: _ => w
  end.

(** The messages a run takes from the stream. *)
Fixpoint taken (turns : list turn) : list (message * option string * option string) :=
  match turns with
  | Received m sf cf :: turns => (m, sf, cf) :: taken turns
  | ConsumerError _ :: turns => taken turns
  | _ => []
  end.
End router.
End EventRouter.

(** ** Topic provisioning (bin/kafka-admin.rs) *)
Module KafkaAdmin.

Record TopicSpec := Topic { name : string; partitions : Z; retention_ms : Z }.

Definition TOPICS : list TopicSpec := [
  Topic "aigis.events.raw" 64 604800000;
  Topic "aigis.events.process" 32 1209600000;
  Topic "aigis.events.network" 32 1209600000;
  Topic "aigis.events.file" 16 1209600000;
  Topic "aigis.events.auth" 16 2592000000;
  Topic "aigis.heartbeats" 8 259200000;
  Topic "aigis.alerts" 8 7776000000;
  Topic "aigis.events.dlq" 4 2592000000 ].

(** A [NewTopic] with the configuration set on it. *)
Record NewTopic := mkNewTopic {
  nt_name : string; nt_partitions : Z; nt_replication : Z; nt_config : list (string * string) }.

Definition new_topic (t : TopicSpec) : NewTopic :=
  mkNewTopic (name t) (partitions t) 1
    [("retention.ms", pretty (retention_ms t)); ("cleanup.policy", "delete")].

(** The flag loop from index [i], with fuel for [args.len() - i] steps:
    [Err] is the early return of a flag without its value. *)
Fixpoint parse_flags (fuel : nat) (args : list string) (i : nat) (brokers : option string)
    : option (result (option string) string) :=
  match fuel with
  | O => None
  | S fuel =>
      match args !! i with
      | None => Some (Ok brokers)
      | Some a =>
          if String.eqb a "--brokers" then
            match args !! (i + 1) with
            | Some b => parse_flags fuel args (i + 2) (Some b)
            | None => Some (Err "Error: --brokers requires a value")
            end
          else parse_flags fuel args (i + 1) brokers
      end
  end.

(** What the process prints, and the topics it asks the broker to create. *)
Record outcome := Outcome { printed : list string; requested : option (string * list NewTopic) }.

Definition report (r : result string (string * string)) : string :=
  match r with
  | Ok topic_name => "Created topic: " +:+ topic_name
  | Err (topic_name, err) => "Failed to create topic " +:+ topic_name +:+ ": " +:+ err
  end.

(** [main]: [create_client] and [create_topics] are rdkafka's. *)
Definition main (create_client : string → option string)
    (create_topics : list NewTopic → result (list (result string (string * string))) string)
    (args : list string) : result outcome string :=
  if (length args <? 4)%nat
  then Ok (Outcome ["Usage: kafka-admin <command> --brokers <brokers> [--topic <topic>]"] None) else
  match parse_flags (S (length args)) args 2 None with
  | None => Err "out of fuel"
  | Some (Err e) => Ok (Outcome [e] None)
  | Some (Ok None) => Ok (Outcome ["Error: --brokers flag is required"] None)
  | Some (Ok (Some brokers)) =>
      match create_client brokers with
      | Some e => Err e
      | None =>
          let command := default "" (args !! 1) in
          if String.eqb command "create-topics" then
            match create_topics (new_topic <$> TOPICS) with
            | Err e => Err e
            | Ok results => Ok (Outcome (report <$> results) (Some (brokers, new_topic <$> TOPICS)))
            end
          else Ok (Outcome ["Unknown command: " +:+ command] None)
      end
  end.

(** The reference reading of the flags: the last [--brokers v] wins. *)
Fixpoint flags_spec (args : list string) (brokers : option string) : result (option string) string :=
  match args with
  | [] => Ok brokers
  | a :: args =>
      if String.eqb a "--brokers" then
        match args with
        | [] => Err "Error: --brokers requires a value"
        | b :: args => flags_spec args (Some b)
        end
      else flags_spec args brokers
  end.
End KafkaAdmin.

(** ** Configuration of the pipeline's [main] (main.rs) *)
Module PipelineMain.

Definition brokers (env : string → option string) : string :=
  default "localhost:29092" (env "KAFKA_BROKERS").
Definition health_port (env : string → option string) : Z :=
  default 8082%Z (p ← env "HEALTH_PORT"; parse_uint 16 p).

(** The worker the process runs: brokers, consumer group, topics. *)
Definition worker_settings (env : string → option string) : string * string * list string :=
  (brokers env, "aigis-event-router", ["aigis.events.raw"]).
End PipelineMain.

(** ** Lemmas and properties *)

Import Metrics EventRouter KafkaAdmin.

Section router_lemmas.
Context `{SerdeJson}.

(** [process] as one function: counters, then at most one record. *)
Definition routed_record (key : option string) (payload topic : string) (partition offset : Z) : record :=
  match from_slice payload with
  | Err _ => Record_ DLQ payload (default "" key)
               (dlq_headers topic partition offset "Invalid JSON payload")
  | Ok event =>
      match route_topic (effective_type event) with
      | Some t => Record_ t (default payload (ok (to_vec
                    (normalize (normalized_category t (effective_type event)) event)))) (default "" key) []
      | None => Record_ DLQ payload (default "" key)
                  (dlq_headers topic partition offset "Unclassified event type")
      end
  end.

Definition counted (payload : string) (m : PipelineMetrics) : PipelineMetrics :=
  match from_slice payload with
  | Err _ => inc_routed DLQ (inc_errors (inc_consumed m))
  | Ok event => inc_routed (default DLQ (route_topic (effective_type event))) (inc_consumed m)
  end.

Lemma route_topic_cases et t :
  route_topic et = Some t →
  t ∈ ["aigis.events.process"; "aigis.events.network"; "aigis.events.file"; "aigis.events.auth"].
Proof. unfold route_topic. repeat case_match; intros; simplify_eq; set_solver. Qed.

Lemma process_run fault key payload topic partition offset r :
  (process fault key payload topic partition offset r).2 =
  Router (counted payload (metrics r))
    (match fault with
     | None => sent r ++ [routed_record key payload topic partition offset]
     | Some _ => sent r
     end).
Proof.
  unfold process, counted, routed_record, mbind, SE_bind, on_metrics, modify. simpl.
  destruct (from_slice payload) as [event | e]; [| by destruct fault].
  destruct (route_topic (effective_type event)) as [t |] eqn:Ht.
  - pose proof (route_topic_cases _ _ Ht) as Hc. set_unfold in Hc.
    by destruct_or! Hc; subst; destruct fault.
  - by destruct fault.
Qed.

Lemma counted_total payload m :
  (routed_total m mod 2 ^ 64 = events_consumed m mod 2 ^ 64)%Z →
  (routed_total (counted payload m) mod 2 ^ 64 = events_consumed (counted payload m) mod 2 ^ 64)%Z.
Proof.
  intros Hm. unfold counted.
  assert (∀ t m', routed_total m' = routed_total m → events_consumed m' = fetch_add (events_consumed m) 1 →
    (routed_total (inc_routed t m') mod 2 ^ 64 = events_consumed (inc_routed t m') mod 2 ^ 64)%Z) as Hinc.
  { intros t m' Hr Hc. destruct (inc_routed_total t m') as (-> & -> & _).
    rewrite Hr, Hc, fetch_add_mod, <-Zplus_mod_idemp_l, Hm, Zplus_mod_idemp_l. done. }
  destruct (from_slice payload); apply Hinc; by destruct m.
Qed.

Lemma run_invariant (P : PipelineMetrics → Prop) :
  (∀ payload m, P m → P (counted payload m)) →
  ∀ turns w, P (metrics (proc w)) → P (metrics (proc (run turns w))).
Proof.
  intros Hstep turns. induction turns as [| t turns IH]; intros w Hw; [done |].
  destruct t as [| m sf cf | |]; simpl; try done; [| by apply IH].
  apply IH. unfold handle_message.
  pose proof (process_run sf (m_key m) (default "" (m_payload m)) (m_topic m)
    (m_partition m) (m_offset m) (proc w)) as Hp.
  destruct (process _ _ _ _ _ _ _) as [res r]. simpl in Hp. subst r.
  destruct cf; simpl; by apply Hstep.
Qed.

(** The records a run hands to the broker, and the offsets it commits. *)
Definition delivered (x : message * option string * option string) : list record :=
  let '(m, sf, _) := x in
  match sf with
  | None => [routed_record (m_key m) (default "" (m_payload m)) (m_topic m) (m_partition m) (m_offset m)]
  | Some _ => []
  end.
Definition commits (x : message * option string * option string) : list (string * Z * Z) :=
  let '(m, _, cf) := x in match cf with None => [position m] | Some _ => [] end.

Lemma run_effects turns w :
  sent (proc (run turns w)) = sent (proc w) ++ (taken turns ≫= delivered) ∧
  committed (run turns w) = committed w ++ (taken turns ≫= commits).
Proof.
  revert w. induction turns as [| t turns IH]; intros w; simpl; [by rewrite !app_nil_r |].
  destruct t as [| m sf cf | |]; simpl; try by rewrite !app_nil_r.
  - destruct (IH (handle_message m sf cf w)) as [-> ->].
    unfold handle_message.
    pose proof (process_run sf (m_key m) (default "" (m_payload m)) (m_topic m)
      (m_partition m) (m_offset m) (proc w)) as Hp.
    destruct (process _ _ _ _ _ _ _) as [res r]. simpl in Hp. subst r.
    destruct sf, cf; simpl; rewrite <-?app_assoc; done.
  - apply IH.
Qed.
End router_lemmas.

Lemma normalized_category_routes et t :
  route_topic et = Some t →
  route_topic (normalized_category t et) = Some t ∧
  String.eqb (normalized_category t et) "osquery" = false.
Proof. intros Ht%route_topic_cases. set_unfold in Ht. by destruct_or!; subst. Qed.

(** A routed event is forwarded with its [event_type] replaced by the
    topic's category and every other field unchanged, and the router sends the
    forwarded event, when it meets it again, to the same topic: routing is
    idempotent. *)
Theorem forwarded_event_normalized `{SerdeJson} key payload topic partition offset r obj t out :
  from_slice payload = Ok (JObject obj) →
  route_topic (effective_type (JObject obj)) = Some t →
  to_vec (normalize (normalized_category t (effective_type (JObject obj))) (JObject obj)) = Ok out →
  ∃ event' r',
    process None key payload topic partition offset r = (Ok tt, r') ∧
    sent r' = sent r ++ [Record_ t out (default "" key) []] ∧
    to_vec event' = Ok out ∧
    (∀ k, k ≠ "event_type" → get k event' = get k (JObject obj)) ∧
    (from_slice out = Ok event' → ∀ r2, ∃ r2' out',
      process None key out topic partition offset r2 = (Ok tt, r2') ∧
      sent r2' = sent r2 ++ [Record_ t out' (default "" key) []]).
Proof.
  intros Hp Ht Hout. set (et := effective_type _) in *.
  destruct (normalized_category_routes et t Ht) as [Hroute Hosq].
  set (c := normalized_category t et) in *.
  exists (normalize c (JObject obj)).
  assert (effective_type (normalize c (JObject obj)) = c) as Heff.
  { unfold effective_type, normalize, get. rewrite map_get_insert. simpl. by rewrite Hosq. }
  assert (∀ p ev, from_slice p = Ok ev → route_topic (effective_type ev) = Some t → ∀ r0,
    process None key p topic partition offset r0 =
    (Ok tt, Router (counted p (metrics r0)) (sent r0 ++
      [Record_ t (default p (ok (to_vec (normalize (normalized_category t (effective_type ev)) ev))))
        (default "" key) []]))) as Hrun.
  { intros p ev Hev Hr r0. pose proof (process_run None key p topic partition offset r0) as H2.
    assert ((process None key p topic partition offset r0).1 = Ok tt) as H1.
    { unfold process, mbind, SE_bind. simpl. rewrite Hev. simpl. done. }
    destruct (process _ _ _ _ _ _ r0) as [res r']. simpl in *. subst. do 2 f_equal.
    unfold routed_record. by rewrite Hev, Hr. }
  eexists. split_and!; [by eapply Hrun | | done | |].
  - simpl. fold et. fold c. change (JObject (map_insert "event_type" (JString c) obj)) with (normalize c (JObject obj)).
    by rewrite Hout.
  - intros k Hk. by apply get_insert_ne.
  - intros Hback r2. do 2 eexists. split; [eapply Hrun; [exact Hback |] | done].
    by rewrite Heff.
Qed.

Lemma forwarded_event_normalized_witness :
  let event := JObject [("event_type", JString "osquery"); ("payload", JObject [("query_name", JString "users")])] in
  let fwd := JObject [("event_type", JString "auth"); ("payload", JObject [("query_name", JString "users")])] in
  let S := table_serde [("in", event); ("out", fwd)] "out" in
  ∃ event' r',
    process None (Some "n1") "in" "aigis.events.raw" 3 7 (Router new []) = (Ok tt, r') ∧
    sent r' = [Record_ "aigis.events.auth" "out" "n1" []] ∧
    to_vec event' = Ok "out" ∧
    (∀ k, k ≠ "event_type" → get k event' = get k event) ∧
    (from_slice "out" = Ok event' → ∀ r2, ∃ r2' out',
      process None (Some "n1") "out" "aigis.events.raw" 3 7 r2 = (Ok tt, r2') ∧
      sent r2' = sent r2 ++ [Record_ "aigis.events.auth" out' "n1" []]).
Proof.
  intros event fwd S.
  exact (forwarded_event_normalized (Some "n1") "in" "aigis.events.raw" 3 7 (Router new [])
    [("event_type", JString "osquery"); ("payload", JObject [("query_name", JString "users")])]
    "aigis.events.auth" "out" eq_refl eq_refl eq_refl).
Defined.

(** A run of the consumer worker commits the offset of every message it takes
    except those whose commit itself fails, in order and whatever [process]
    returned, and delivers exactly one record, typed or dead-letter, for every
    message whose send succeeds. *)
Theorem run_commits_and_delivers `{SerdeJson} turns w :
  committed (run turns w) = committed w ++ (taken turns ≫= commits) ∧
  sent (proc (run turns w)) = sent (proc w) ++ (taken turns ≫= delivered) ∧
  ∀ x, x ∈ taken turns → length (delivered x) = match x.1.2 with None => 1 | Some _ => 0 end.
Proof.
  split_and!; [apply run_effects.. |]. by intros [[m [|]] cf] _.
Qed.

(** From fresh counters, after any run the consumed counter equals the sum
    of the routed counters, modulo the wrap-around of [AtomicU64]. *)
Theorem consumed_is_routed_total `{SerdeJson} turns w :
  metrics (proc w) = new →
  let m := metrics (proc (run turns w)) in
  (routed_total m mod 2 ^ 64 = events_consumed m mod 2 ^ 64)%Z.
Proof.
  intros Hw. apply run_invariant with
    (P := λ m, (routed_total m mod 2 ^ 64 = events_consumed m mod 2 ^ 64)%Z);
    [intros; by apply counted_total | by rewrite Hw].
Qed.

Lemma consumed_is_routed_total_witness :
  let S := table_serde [] "" in
  let m := metrics (proc (run [Received (Message "aigis.events.raw" 0 5 None None) None None]
                            (Worker (Router new []) []))) in
  (routed_total m mod 2 ^ 64 = events_consumed m mod 2 ^ 64)%Z ∧ events_consumed m = 1%Z.
Proof.
  intros S. split; [| reflexivity].
  exact (consumed_is_routed_total [Received (Message "aigis.events.raw" 0 5 None None) None None]
    (Worker (Router new []) []) eq_refl).
Defined.

(** The index loop reads the flags left of its position. *)
Lemma parse_flags_spec fuel args i brokers :
  length args - i < fuel → parse_flags fuel args i brokers = Some (flags_spec (drop i args) brokers).
Proof.
  revert i brokers. induction fuel as [| fuel IH]; intros i brokers Hf; [lia |].
  simpl. destruct (args !! i) as [a |] eqn:Ha.
  - pose proof (lookup_lt_Some _ _ _ Ha) as Hlt.
    rewrite (drop_S args a i Ha). simpl. destruct (String.eqb a "--brokers").
    + destruct (args !! (i + 1)) as [b |] eqn:Hb.
      * rewrite IH by lia. rewrite Nat.add_1_r in Hb. rewrite (drop_S args b (S i) Hb).
        by replace (i + 2) with (S (S i)) by lia.
      * apply lookup_ge_None in Hb. by rewrite drop_ge by lia.
    + rewrite IH by lia. by rewrite Nat.add_1_r.
  - apply lookup_ge_None in Ha. by rewrite drop_ge.
Qed.

(** The flag loop of [kafka-admin] always finishes with the fuel [main]
    gives it, and reads the arguments after the command like the reference
    [flags_spec]: the last [--brokers v] wins and a trailing flag is an error. *)
Theorem parse_flags_total args :
  parse_flags (S (length args)) args 2 None = Some (flags_spec (drop 2 args) None).
Proof. apply parse_flags_spec. lia. Qed.

(** Every topic the router can send to is one [kafka-admin] creates, no topic
    is declared twice, and each has a positive number of partitions. *)
Theorem routed_topics_provisioned et :
  default DLQ (route_topic et) ∈ nt_name <$> (new_topic <$> TOPICS) ∧
  NoDup (nt_name <$> (new_topic <$> TOPICS)) ∧
  Forall (λ t, 0 < nt_partitions t)%Z (new_topic <$> TOPICS).
Proof.
  split_and!.
  - destruct (route_topic et) as [t |] eqn:Ht; simpl; rewrite !list_elem_of_In; simpl; [| tauto].
    apply route_topic_cases in Ht. rewrite list_elem_of_In in Ht. simpl in Ht. tauto.
  - rewrite <-list_fmap_compose. apply (bool_decide_unpack (NoDup ((nt_name ∘ new_topic) <$> TOPICS))).
    by vm_compute.
  - by repeat constructor.
Qed.
