(* ===== verification/RuleModels.v ===== *)
(** * Data and configuration of the rule engine (rule-engine/src)

    models.rs, error.rs, metrics.rs, config.rs, mitre/taxonomy.rs and
    engine/registry.rs.  A UUID is its canonical text, a timestamp a [Z], an
    [f32] a [spec_float]. *)
From Stdlib Require Import ZArith Lia Floats.SpecFloat.
From S2P Require Import Prelude Json.
#[local] Open Scope string_scope.
#[local] Open Scope list_scope.
#[local] Open Scope nat_scope.

(** ** models.rs *)

Inductive AlertSeverity := Low | Medium | High | Critical.
#[export] Instance AlertSeverity_eq_dec : EqDecision AlertSeverity.
Proof. solve_decision. Defined.

Definition severity_as_str (s : AlertSeverity) : string :=
  match s with Low => "low" | Medium => "medium" | High => "high" | Critical => "critical" end.

Inductive DetectionSource := YaraX | Sigma | Mitre | Behavioral.

Definition source_as_str (s : DetectionSource) : string :=
  match s with
  | YaraX => "yara_x" | Sigma => "sigma" | Mitre => "mitre" | Behavioral => "behavioral"
  end.

Record TelemetryEvent := mkEvent {
  ev_id : string;
  ev_node_id : string;
  ev_hostname : string;
  ev_event_type : string;
  ev_timestamp_ns : Z;
  ev_payload : value;
  ev_raw_sequence_id : option string }.

Record Alert := mkAlert {
  alert_id : string;
  al_node_id : string;
  al_hostname : string;
  severity : AlertSeverity;
  al_source : DetectionSource;
  mitre_technique_id : option string;
  mitre_tactic : option string;
  description : string;
  triggering_event_id : option string;
  threat_score : spec_float;
  al_status : string;
  created_at : Z }.

Record NewAlertEntity := mkEntity {
  ne_alert_id : string;
  ne_node_id : string;
  ne_hostname : string;
  ne_severity : string;
  ne_source : string;
  ne_mitre_technique_id : option string;
  ne_mitre_tactic : option string;
  ne_description : string;
  ne_triggering_event_id : option string;
  ne_threat_score : spec_float;
  ne_status : string;
  ne_created_at : Z }.

(** [impl From<&Alert> for NewAlertEntity] *)
Definition entity_of_alert (a : Alert) : NewAlertEntity :=
  mkEntity (alert_id a) (al_node_id a) (al_hostname a) (severity_as_str (severity a))
    (source_as_str (al_source a)) (mitre_technique_id a) (mitre_tactic a) (description a)
    (triggering_event_id a) (threat_score a) (al_status a) (created_at a).

(** ** error.rs *)

Inductive AppError :=
  | RuleCompilation (source_file : string) (line : Z) (message : string)
  | ScanFailure (event_id message : string)
  | MitreTaxonomyLoad (m : string)
  | EventDeserialization (m : string)
  | DatabasePool (m : string)
  | DatabaseQuery (m : string)
  | KafkaProduce (m : string)
  | KafkaConsume (m : string)
  | Config (m : string)
  | Serialization (m : string)
  | Io (m : string).

(** The [#[error("...")]] messages. *)
Definition display_error (e : AppError) : string :=
  match e with
  | RuleCompilation f l m => "rule compilation failed: " +:+ f +:+ ":" +:+ pretty l +:+ ": " +:+ m
  | ScanFailure ev m => "scan failed for event " +:+ ev +:+ ": " +:+ m
  | MitreTaxonomyLoad m => "MITRE taxonomy load failed: " +:+ m
  | EventDeserialization m => "event deserialization failed: " +:+ m
  | DatabasePool m => "database pool error: " +:+ m
  | DatabaseQuery m => "database query error: " +:+ m
  | KafkaProduce m => "kafka produce error: " +:+ m
  | KafkaConsume m => "kafka consume error: " +:+ m
  | Config m => "configuration error: " +:+ m
  | Serialization m => "serialization error: " +:+ m
  | Io m => "io error: " +:+ m
  end.

(** ** metrics.rs *)

Record EngineMetrics := mkMetrics {
  events_consumed : Z;
  events_scanned : Z;
  alerts_generated : Z;
  alerts_suppressed : Z;
  alerts_persisted : Z;
  rule_reloads_total : Z;
  rule_reload_failures_total : Z }.

Definition metrics_new : EngineMetrics := mkMetrics 0 0 0 0 0 0 0.

Definition fetch_add (c n : Z) : Z := wrap_u 64 (c + n).

Definition inc_consumed (m : EngineMetrics) : EngineMetrics :=
  let '(mkMetrics c s g u p r f) := m in mkMetrics (fetch_add c 1) s g u p r f.
Definition inc_scanned (m : EngineMetrics) : EngineMetrics :=
  let '(mkMetrics c s g u p r f) := m in mkMetrics c (fetch_add s 1) g u p r f.
Definition inc_alerts_generated (m : EngineMetrics) : EngineMetrics :=
  let '(mkMetrics c s g u p r f) := m in mkMetrics c s (fetch_add g 1) u p r f.
Definition inc_alerts_suppressed (m : EngineMetrics) : EngineMetrics :=
  let '(mkMetrics c s g u p r f) := m in mkMetrics c s g (fetch_add u 1) p r f.
Definition inc_alerts_persisted (count : Z) (m : EngineMetrics) : EngineMetrics :=
  let '(mkMetrics c s g u p r f) := m in mkMetrics c s g u (fetch_add p count) r f.
Definition inc_rule_reloads (m : EngineMetrics) : EngineMetrics :=
  let '(mkMetrics c s g u p r f) := m in mkMetrics c s g u p (fetch_add r 1) f.
Definition inc_rule_reload_failures (m : EngineMetrics) : EngineMetrics :=
  let '(mkMetrics c s g u p r f) := m in mkMetrics c s g u p r (fetch_add f 1).

(** One counter of the Prometheus page. *)
Definition counter (name help : string) (v : Z) : string :=
  "# HELP " +:+ name +:+ " " +:+ help +:+ nl +:+
  "# TYPE " +:+ name +:+ " counter" +:+ nl +:+
  name +:+ " " +:+ pretty v +:+ nl.

Definition format_prometheus (m : EngineMetrics) : string :=
  counter "aigis_events_consumed_total" "Total number of events consumed from Kafka" (events_consumed m) +:+
  counter "aigis_events_scanned_total" "Total number of events evaluated by YARA-X" (events_scanned m) +:+
  counter "aigis_alerts_generated_total" "Total number of alerts generated" (alerts_generated m) +:+
  counter "aigis_alerts_suppressed_total" "Total number of duplicate alerts suppressed" (alerts_suppressed m) +:+
  counter "aigis_alerts_persisted_total" "Total number of alerts persisted to sinks" (alerts_persisted m) +:+
  counter "aigis_rule_reloads_total" "Total number of successful rule hot-reloads" (rule_reloads_total m) +:+
  counter "aigis_rule_reload_failures_total" "Total number of failed rule hot-reloads"
    (rule_reload_failures_total m).

(** ** mitre/taxonomy.rs *)

Record MitreTechnique := mkTechnique {
  technique_id : string;
  technique_name : string;
  tactic : string;
  tactic_id : string;
  default_severity : AlertSeverity;
  base_threat_score : spec_float;
  tech_description : string }.

(** [MitreTaxonomy]: its [techniques] map. *)
Definition MitreTaxonomy : Type := gmap string MitreTechnique.

Definition resolve_technique (t : MitreTaxonomy) (technique_id : string) : option MitreTechnique :=
  t !! technique_id.

Definition enrich_alert (t : MitreTaxonomy) (technique_id : string) (a : Alert) : Alert :=
  match resolve_technique t technique_id with
  | None => a
  | Some tech =>
      let '(mkAlert i n h sev src tid _ d ev sc st c) := a in
      mkAlert i n h sev src tid (Some (tactic tech))
        (if str_is_empty d then tech_description tech else d) ev
        (if is_zero sc then base_threat_score tech else sc) st c
  end.

Definition taxonomy_len (t : MitreTaxonomy) : nat := size t.
Definition taxonomy_is_empty (t : MitreTaxonomy) : bool := bool_decide (size t = 0).

(** [serde_json::from_str] at the derived type, and reading a file, are
    arguments. *)
Definition load_from_json (parse : string → result MitreTaxonomy string) (json : string)
    : result MitreTaxonomy string := parse json.

Definition load_from_file (parse : string → result MitreTaxonomy string)
    (read_to_string : string → result string string) (path : string) : result MitreTaxonomy AppError :=
  match map_err (λ e, MitreTaxonomyLoad ("Failed to read " +:+ path +:+ ": " +:+ e)) (read_to_string path) with
  | Err e => Err e
  | Ok content =>
      map_err (λ e, MitreTaxonomyLoad ("Failed to parse JSON: " +:+ e)) (load_from_json parse content)
  end.

(** ** config.rs *)

Record RuleEngineConfig := mkConfig {
  kafka_brokers : string;
  kafka_group_id : string;
  kafka_topics : list string;
  rules_directory : string;
  mitre_taxonomy_path : string;
  database_url : string;
  db_pool_max_size : Z;
  scanner_worker_count : Z;
  channel_capacity : Z;
  dedup_capacity : Z;
  dedup_suppression_window_secs : Z;
  batch_max_size : Z;
  batch_flush_interval_ms : Z;
  health_port : Z;
  dlq_topic : string;
  alerts_topic : string }.

Definition split_topics (s : string) : list string :=
  filter (λ t, str_is_empty t = false) (trim <$> split_on comma s).

(** [env::var(k).ok().and_then(|v| v.parse().ok()).unwrap_or(d)] at width [w] *)
Definition env_uint (env : string → option string) (w : Z) (k : string) (d : Z) : Z :=
  default d (v ← env k; parse_uint w v).

Definition from_env (num_cpus : Z) (env : string → option string) : result RuleEngineConfig AppError :=
  match env "DATABASE_URL" with
  | None => Err (Config "DATABASE_URL must be set")
  | Some url =>
      Ok {| kafka_brokers := default "localhost:9092" (env "KAFKA_BROKERS");
            kafka_group_id := default "aigis-rule-engine" (env "KAFKA_GROUP_ID");
            kafka_topics := split_topics (default
              "aigis.events.process,aigis.events.network,aigis.events.file,aigis.events.auth"
              (env "KAFKA_TOPICS"));
            rules_directory := default "./rules" (env "RULES_DIR");
            mitre_taxonomy_path := default "./rules/mitre/enterprise-attack-linux.json"
              (env "MITRE_TAXONOMY_PATH");
            database_url := url;
            db_pool_max_size := env_uint env 64 "DB_POOL_MAX_SIZE" 20;
            scanner_worker_count := env_uint env 64 "SCANNER_WORKERS" num_cpus;
            channel_capacity := env_uint env 64 "CHANNEL_CAPACITY" 10000;
            dedup_capacity := env_uint env 64 "DEDUP_CAPACITY" 100000;
            dedup_suppression_window_secs := env_uint env 64 "DEDUP_WINDOW_SECS" 60;
            batch_max_size := env_uint env 64 "BATCH_MAX_SIZE" 500;
            batch_flush_interval_ms := env_uint env 64 "BATCH_FLUSH_MS" 100;
            health_port := env_uint env 16 "HEALTH_PORT" 8081;
            dlq_topic := default "aigis.events.dlq" (env "DLQ_TOPIC");
            alerts_topic := default "aigis.alerts" (env "ALERTS_TOPIC") |}
  end.

(** ** Lemmas *)

Lemma severity_as_str_inj s1 s2 : severity_as_str s1 = severity_as_str s2 → s1 = s2.
Proof. by destruct s1, s2. Qed.

Lemma env_uint_range env w k d : fits_u w d → fits_u w (env_uint env w k d).
Proof.
  unfold env_uint. intros Hd. destruct (env k) as [v |]; simpl; [| done].
  destruct (parse_uint w v) eqn:E; simpl; [by eapply parse_uint_range | done].
Qed.

Lemma enrich_alert_keeps t tid a :
  let a' := enrich_alert t tid a in
  al_node_id a' = al_node_id a ∧ severity a' = severity a ∧ alert_id a' = alert_id a ∧
  triggering_event_id a' = triggering_event_id a ∧ mitre_technique_id a' = mitre_technique_id a.
Proof. unfold enrich_alert. destruct (resolve_technique t tid), a; done. Qed.
