(* ===== verification/Dedup.v ===== *)
(** * Alert deduplication (rule-engine/src/engine/dedup.rs)

    Sixteen shards, each an LRU cache from alert signatures to the time of the
    last emission and a count.  The cache is the [lru] crate's: it is the class
    [Lru] with its documented laws, and [MruList] is an instance. *)
From Stdlib Require Import ZArith Lia Sorted.
From S2P Require Import Prelude RuleModels.
#[local] Open Scope string_scope.
#[local] Open Scope list_scope.
#[local] Open Scope nat_scope.

Record AlertSignature := Signature {
  sig_node_id : string; rule_identifier : string; mitre_technique : option string }.
#[export] Instance AlertSignature_eq_dec : EqDecision AlertSignature.
Proof. solve_decision. Defined.

(** ** The interface of an LRU cache *)

Class Lru (K V : Type) `{EqDecision K} := {
  cache : Type;
  lru_new : nat → cache;
  lru_peek : cache → K → option V;
  lru_keys : cache → list K;
  lru_cap : cache → nat;
  (** [get_mut(k)] followed by writing [f] of the value through the reference. *)
  lru_get_mut : K → (V → V) → cache → cache;
  lru_put : K → V → cache → cache
}.

Class LruLaws (K V : Type) `{Lru K V} := {
  peek_keys c k : is_Some (lru_peek c k) ↔ k ∈ lru_keys c;
  keys_nodup c : NoDup (lru_keys c);
  new_keys n : lru_keys (lru_new n) = [];
  new_cap n : lru_cap (lru_new n) = n;
  get_mut_peek k f c k' :
    lru_peek (lru_get_mut k f c) k' = if decide (k' = k) then f <$> lru_peek c k else lru_peek c k';
  get_mut_cap k f c : lru_cap (lru_get_mut k f c) = lru_cap c;
  put_peek k v c : 0 < lru_cap c → lru_peek (lru_put k v c) k = Some v;
  put_cap k v c : lru_cap (lru_put k v c) = lru_cap c;
  (** putting may evict another key, and never changes a value it keeps *)
  put_others k v c k' w : k' ≠ k → lru_peek (lru_put k v c) k' = Some w → lru_peek c k' = Some w;
  (** it evicts nothing while there is room *)
  put_room k v c k' : k' ≠ k → length (lru_keys c) < lru_cap c → lru_peek (lru_put k v c) k' = lru_peek c k'
}.

(** ** The deduplicator *)

Definition SHARD_COUNT : Z := 16.

Section dedup.
Context `{HL : Lru AlertSignature (Z * Z)}.
(** The default hasher on a UUID. *)
Context (hash : string → Z).

Record ShardedDeduplicator := Dedup { shards : list cache; suppression_window : Z }.

Definition new (total_capacity window : Z) : result ShardedDeduplicator AppError :=
  let per_shard := (total_capacity / SHARD_COUNT)%Z in
  if (per_shard =? 0)%Z
  then Err (Config ("dedup capacity must be >= SHARD_COUNT (" +:+ pretty SHARD_COUNT +:+ ")"))
  else Ok (Dedup (replicate (Z.to_nat SHARD_COUNT) (lru_new (Z.to_nat per_shard))) window).

Definition shard_index (sig : AlertSignature) : nat :=
  Z.to_nat (wrap_u 64 (hash (sig_node_id sig)) mod SHARD_COUNT).

(** [now.duration_since(t)] saturates at zero. *)
Definition duration_since (now t : Z) : Z := Z.max 0 (now - t).

(** [check_and_record]; [now] is the [Instant] read under the shard's lock. *)
Definition check_and_record (sig : AlertSignature) (now : Z) (d : ShardedDeduplicator)
    : bool * ShardedDeduplicator :=
  let idx := shard_index sig in
  match shards d !! idx with
  | None => (false, d)
  | Some c =>
      let store c' := Dedup (<[idx := c']> (shards d)) (suppression_window d) in
      match lru_peek c sig with
      | Some (last_seen, count) =>
          if (duration_since now last_seen <? suppression_window d)%Z
          then (false, store (lru_get_mut sig (λ '(t, n), (t, wrap_u 64 (n + 1))) c))
          else (true, store (lru_get_mut sig (λ _, (now, 1%Z)) c))
      | None => (true, store (lru_put sig (now, 1%Z) c))
      end
  end.

(** A sequence of checks and the answers. *)
Fixpoint check_all (l : list (AlertSignature * Z)) (d : ShardedDeduplicator)
    : list bool * ShardedDeduplicator :=
  match l with
  | [] => ([], d)
  | (sig, now) :: l =>
      let '(b, d1) := check_and_record sig now d in
      let '(bs, d2) := check_all l d1 in
      (b :: bs, d2)
  end.

(** What the deduplicator remembers about a signature. *)
Definition seen (d : ShardedDeduplicator) (sig : AlertSignature) : option (Z * Z) :=
  c ← shards d !! shard_index sig; lru_peek c sig.

Definition wf (cap : nat) (d : ShardedDeduplicator) : Prop :=
  length (shards d) = Z.to_nat SHARD_COUNT ∧ Forall (λ c, lru_cap c = cap) (shards d).
End dedup.

(** ** An instance: the list of entries, most recently used first *)
Module MruList.
Section mru.
Context {K V : Type} `{EqDecision K}.

Record mru := Mru { cap : nat; entries : list (K * V); entries_nodup : NoDup entries.*1 }.

Fixpoint assoc (k : K) (l : list (K * V)) : option V :=
  match l with
  | [] => None
  | (k', v) :: l => if decide (k = k') then Some v else assoc k l
  end.

Definition without (k : K) (l : list (K * V)) : list (K * V) := filter (λ e, e.1 ≠ k) l.

Definition to_front (k : K) (v : V) (l : list (K * V)) : list (K * V) := (k, v) :: without k l.

Lemma without_keys k l : (without k l).*1 = filter (.≠ k) l.*1.
Proof.
  unfold without. induction l as [| [k' v] l IH]; [done |].
  destruct (decide (k' = k)) as [He | He].
  - rewrite filter_cons_False, fmap_cons, filter_cons_False by (simpl; tauto). done.
  - rewrite filter_cons_True, !fmap_cons, filter_cons_True by (simpl; tauto). simpl. by rewrite IH.
Qed.

Lemma to_front_nodup k v l : NoDup l.*1 → NoDup (to_front k v l).*1.
Proof.
  intros Hl. unfold to_front. simpl. rewrite without_keys. constructor.
  - rewrite list_elem_of_filter. tauto.
  - by apply NoDup_filter.
Qed.

Lemma put_nodup k v n l : NoDup l.*1 → assoc k l = None → NoDup ((k, v) :: take n l).*1.
Proof.
  intros Hl Hk. simpl. constructor.
  - rewrite fmap_take. intros Hin. apply elem_of_take in Hin as (i & Hi & _).
    revert i Hi. induction l as [| [k' v'] l IH]; intros i Hi; [done |].
    simpl in Hk. case_decide; [done |]. inversion Hl; subst.
    destruct i; simpl in Hi; [by simplify_eq | by eapply IH].
  - rewrite fmap_take. eapply sublist_NoDup; [done | apply sublist_take].
Qed.

Definition mru_new (n : nat) : mru := Mru n [] (NoDup_nil_2).

Definition mru_get_mut (k : K) (f : V → V) (c : mru) : mru :=
  match assoc k (entries c) with
  | Some v => Mru (cap c) (to_front k (f v) (entries c)) (to_front_nodup k (f v) _ (entries_nodup c))
  | None => c
  end.

Definition mru_put (k : K) (v : V) (c : mru) : mru :=
  match assoc k (entries c) as o return assoc k (entries c) = o → mru with
  | Some _ => λ _, Mru (cap c) (to_front k v (entries c)) (to_front_nodup k v _ (entries_nodup c))
  | None => λ e, Mru (cap c) ((k, v) :: take (cap c - 1) (entries c))
                   (put_nodup k v _ _ (entries_nodup c) e)
  end eq_refl.

#[export] Instance mru_lru : Lru K V := {|
  cache := mru;
  lru_new := mru_new;
  lru_peek c k := assoc k (entries c);
  lru_keys c := (entries c).*1;
  lru_cap := cap;
  lru_get_mut := mru_get_mut;
  lru_put := mru_put |}.

Lemma assoc_keys k l : is_Some (assoc k l) ↔ k ∈ l.*1.
Proof.
  induction l as [| [k' v] l IH]; simpl.
  - split; [by intros [] | by intros ?%elem_of_nil].
  - rewrite elem_of_cons. case_decide; subst; [naive_solver |]. rewrite IH. naive_solver.
Qed.

Lemma assoc_without k k' l : k' ≠ k → assoc k' (without k l) = assoc k' l.
Proof.
  intros Hne. unfold without. induction l as [| [k1 v] l IH]; [done |].
  rewrite filter_cons. simpl. destruct (decide (k1 ≠ k)) as [Hk | Hk]; simpl; rewrite IH; [done |].
  apply dec_stable in Hk. subst. by rewrite decide_False.
Qed.

Lemma assoc_take k n l w : assoc k (take n l) = Some w → assoc k l = Some w.
Proof.
  revert n. induction l as [| [k' v] l IH]; intros [| n] Hk; simpl in *; try done.
  case_decide; [done | by eapply IH].
Qed.

#[export] Instance mru_laws : LruLaws K V.
Proof.
  split.
  - intros c k. apply assoc_keys.
  - intros c. apply entries_nodup.
  - done.
  - done.
  - intros k f c k'. simpl. unfold mru_get_mut. destruct (assoc k (entries c)) as [v |] eqn:Hv; simpl.
    + case_decide; subst; [done | by apply assoc_without].
    + by case_decide; subst.
  - intros k f c. simpl. unfold mru_get_mut. by destruct (assoc k (entries c)).
  - intros k v c _. simpl. unfold mru_put. generalize (eq_refl (assoc k (entries c))).
    generalize (put_nodup k v (cap c - 1) (entries c) (entries_nodup c)).
    destruct (assoc k (entries c)); intros; simpl; by rewrite decide_True.
  - intros k v c. simpl. unfold mru_put. generalize (eq_refl (assoc k (entries c))).
    generalize (put_nodup k v (cap c - 1) (entries c) (entries_nodup c)).
    by destruct (assoc k (entries c)).
  - intros k v c k' w Hne. simpl. unfold mru_put. generalize (eq_refl (assoc k (entries c))).
    generalize (put_nodup k v (cap c - 1) (entries c) (entries_nodup c)).
    destruct (assoc k (entries c)); intros; simpl in *; rewrite decide_False in * by done.
    + by rewrite assoc_without in *.
    + by eapply assoc_take.
  - intros k v c k' Hne Hlen. simpl in *. unfold mru_put. generalize (eq_refl (assoc k (entries c))).
    generalize (put_nodup k v (cap c - 1) (entries c) (entries_nodup c)).
    destruct (assoc k (entries c)); intros; simpl in *; rewrite decide_False by done.
    + by apply assoc_without.
    + rewrite length_fmap in Hlen. by rewrite take_ge by lia.
Qed.
End mru.
Arguments mru K V : clear implicits.
End MruList.

(** ** Lemmas on one check *)
Section dedup_lemmas.
Context `{HL : Lru AlertSignature (Z * Z)} `{!LruLaws AlertSignature (Z * Z)}.
Context (hash : string → Z).
#[local] Abbreviation seen := (seen hash).

Lemma shard_index_lt sig : shard_index hash sig < Z.to_nat SHARD_COUNT.
Proof.
  unfold shard_index, SHARD_COUNT.
  pose proof (Z.mod_pos_bound (wrap_u 64 (hash (sig_node_id sig))) 16). lia.
Qed.

Lemma shard_lookup cap d sig : wf cap d →
  ∃ c, shards d !! shard_index hash sig = Some c ∧ lru_cap c = cap.
Proof.
  intros [Hlen Hall]. destruct (lookup_lt_is_Some_2 (shards d) (shard_index hash sig)) as [c Hc].
  - rewrite Hlen. apply shard_index_lt.
  - exists c. split; [done |]. rewrite Forall_lookup in Hall. by eapply Hall.
Qed.

(** Replacing one shard by a cache of the same capacity. *)
Lemma store_wf cap d i c : wf cap d → lru_cap c = cap →
  wf cap (Dedup (<[i := c]> (shards d)) (suppression_window d)).
Proof.
  intros [Hlen Hall] Hc. split; simpl; [by rewrite length_insert |]. by apply Forall_insert.
Qed.

Lemma seen_store d i c sig : i < length (shards d) →
  seen (Dedup (<[i := c]> (shards d)) (suppression_window d)) sig =
  if decide (shard_index hash sig = i) then lru_peek c sig else seen d sig.
Proof.
  intros Hi. unfold Dedup.seen. simpl. case_decide as Hs.
  - rewrite Hs. by rewrite list_lookup_insert_eq.
  - by rewrite list_lookup_insert_ne by done.
Qed.

(** The facts about one check that the properties below use. *)
Record check_facts (cap : nat) (sig : AlertSignature) (now : Z) (d : ShardedDeduplicator)
    (b : bool) (d' : ShardedDeduplicator) : Prop := {
  cf_wf : wf cap d';
  cf_window : suppression_window d' = suppression_window d;
  cf_suppressed : b = false → ∃ t n n', seen d sig = Some (t, n) ∧ seen d' sig = Some (t, n') ∧
    (duration_since now t < suppression_window d)%Z;
  cf_emitted : b = true → seen d' sig = Some (now, 1%Z) ∧
    ∀ t n, seen d sig = Some (t, n) → (suppression_window d ≤ duration_since now t)%Z;
  cf_others : ∀ sig' x, sig' ≠ sig → seen d' sig' = Some x → seen d sig' = Some x;
  cf_room : ∀ c sig', shards d !! shard_index hash sig = Some c →
    sig ∈ lru_keys c ∨ length (lru_keys c) < cap → sig' ≠ sig → seen d' sig' = seen d sig';
  cf_keys : ∀ i c' k, shards d' !! i = Some c' → k ∈ lru_keys c' →
    k = sig ∨ ∃ c, shards d !! i = Some c ∧ k ∈ lru_keys c
}.

Lemma get_mut_facts cap d sig c f : 
  wf cap d → shards d !! shard_index hash sig = Some c →
  let d' := Dedup (<[shard_index hash sig := lru_get_mut sig f c]> (shards d)) (suppression_window d) in
  wf cap d' ∧ seen d' sig = f <$> lru_peek c sig ∧ (∀ sig', sig' ≠ sig → seen d' sig' = seen d sig') ∧
  (∀ i c' k, shards d' !! i = Some c' → k ∈ lru_keys c' →
    k = sig ∨ ∃ c, shards d !! i = Some c ∧ k ∈ lru_keys c).
Proof.
  intros Hwf Hc d'. pose proof (lookup_lt_Some _ _ _ Hc) as Hlt. subst d'. split_and!.
  - apply store_wf; [done |]. rewrite get_mut_cap. destruct Hwf as [_ Hall].
    rewrite Forall_lookup in Hall. by eapply Hall.
  - rewrite seen_store, decide_True by done. by rewrite get_mut_peek, decide_True.
  - intros sig' Hne. rewrite seen_store by done. case_decide as Hs; [| done].
    rewrite get_mut_peek, decide_False by done. unfold Dedup.seen. by rewrite Hs, Hc.
  - simpl. intros i c' k Hi Hk. destruct (decide (i = shard_index hash sig)) as [-> | Hne].
    + rewrite list_lookup_insert_eq in Hi by done. simplify_eq.
      apply peek_keys in Hk. rewrite get_mut_peek in Hk. case_decide; [by left | right].
      exists c. by rewrite <-peek_keys.
    + rewrite list_lookup_insert_ne in Hi by done. right. eauto.
Qed.

Lemma check_run cap sig now d : 0 < cap → wf cap d →
  let '(b, d') := check_and_record hash sig now d in check_facts cap sig now d b d'.
Proof.
  intros Hcap Hwf. unfold check_and_record.
  destruct (shard_lookup cap d sig Hwf) as (c & Hc & Hcc). rewrite Hc.
  assert (seen d sig = lru_peek c sig) as Hseen by (unfold Dedup.seen; by rewrite Hc).
  pose proof (lookup_lt_Some _ _ _ Hc) as Hlt.
  destruct (lru_peek c sig) as [[t n] |] eqn:Hp.
  - destruct (Z.ltb_spec (duration_since now t) (suppression_window d)) as [Hd | Hd].
    + destruct (get_mut_facts cap d sig c (λ '(t, n), (t, wrap_u 64 (n + 1))) Hwf Hc) as (? & Hs & Ho & Hk).
      rewrite Hp in Hs. simpl in Hs.
      split; try done; [naive_solver | intros; by rewrite <-Ho | intros; by rewrite Ho].
    + destruct (get_mut_facts cap d sig c (λ _, (now, 1%Z)) Hwf Hc) as (? & Hs & Ho & Hk).
      rewrite Hp in Hs. simpl in Hs.
      split; try done; [naive_solver | intros; by rewrite <-Ho | intros; by rewrite Ho].
  - assert (¬ sig ∈ lru_keys c) as Hn by (rewrite <-peek_keys, Hp; by intros []).
    split; simpl; try done.
    + apply store_wf; [done | by rewrite put_cap].
    + intros _. rewrite seen_store, decide_True by done. split; [apply put_peek; lia | congruence].
    + intros sig' x Hne. rewrite seen_store by done. case_decide as Hs; [| done].
      unfold Dedup.seen. rewrite Hs, Hc. simpl. by apply put_others.
    + intros c0 sig' Hc0 Hroom Hne. simplify_eq. rewrite seen_store by done. case_decide as Hs; [| done].
      unfold Dedup.seen. rewrite Hs, Hc. simpl. apply put_room; [done |]. destruct Hroom; [done | lia].
    + intros i c' k Hi Hk. destruct (decide (i = shard_index hash sig)) as [-> | Hne].
      * rewrite list_lookup_insert_eq in Hi by done. simplify_eq.
        destruct (decide (k = sig)); [by left | right]. exists c. split; [done |].
        apply peek_keys in Hk as [w Hw]. apply put_others in Hw; [| done]. rewrite <-peek_keys. by eexists.
      * rewrite list_lookup_insert_ne in Hi by done. right. eauto.
Qed.

Lemma new_wf total window d :
  new total window = Ok d → (0 ≤ total)%Z →
  0 < Z.to_nat (total / SHARD_COUNT) ∧ wf (Z.to_nat (total / SHARD_COUNT)) d ∧
  suppression_window d = window ∧
  (∀ i c k, shards d !! i = Some c → k ∉ lru_keys c) ∧ ∀ sig, seen d sig = None.
Proof.
  unfold new. destruct (Z.eqb_spec (total / SHARD_COUNT) 0); [done |]. intros [= <-] Ht.
  assert (0 ≤ total / SHARD_COUNT)%Z by (apply Z.div_pos; unfold SHARD_COUNT; lia).
  assert (∀ i c k, replicate (Z.to_nat SHARD_COUNT) (lru_new (Z.to_nat (total / SHARD_COUNT))) !! i = Some c →
    k ∉ lru_keys c) as Hk.
  { intros i c k [-> _]%lookup_replicate. rewrite new_keys. apply not_elem_of_nil. }
  split_and!; [lia | | done | exact Hk |].
  - split; [reflexivity | repeat (constructor; [apply new_cap |]); constructor].
  - intros sig. unfold Dedup.seen. destruct (_ !! shard_index hash sig) as [c |] eqn:Hc; [| done]. simpl.
    destruct (lru_peek c sig) eqn:Hp; [| done]. exfalso. eapply Hk; [exact Hc |].
    apply peek_keys. by eexists.
Qed.

(** ** Sequences of checks *)

(** A suppressed alert has an emitted one of its signature in its window: either
    earlier in the sequence, or remembered from before it. *)
Lemma suppressed_justified cap l d j sig now :
  0 < cap → wf cap d →
  (check_all hash l d).1 !! j = Some false → l !! j = Some (sig, now) →
  (∃ i t, i < j ∧ l !! i = Some (sig, t) ∧ (check_all hash l d).1 !! i = Some true ∧
     (duration_since now t < suppression_window d)%Z) ∨
  ∃ t n, seen d sig = Some (t, n) ∧ (duration_since now t < suppression_window d)%Z.
Proof.
  intros Hcap. revert d j. induction l as [| [sig0 now0] l IH]; intros d j Hwf Hout Hl; [done |].
  simpl in *. pose proof (check_run cap sig0 now0 d Hcap Hwf) as Hrun.
  destruct (check_and_record hash sig0 now0 d) as [b d1]. destruct Hrun as [Hwf1 Hw Hs He Ho _ _].
  specialize (IH d1). destruct (check_all hash l d1) as [bs d2]. simpl in *.
  destruct j as [| j]; simpl in *; simplify_eq.
  { destruct (Hs eq_refl) as (t & n & n' & ? & ? & ?). right. eauto. }
  destruct (IH j Hwf1 Hout Hl) as [(i & t & ? & ? & ? & Ht) | (t & n & Ht & Hd)].
  - left. exists (S i), t. rewrite <-Hw. split_and!; [lia | done..].
  - rewrite Hw in Hd. destruct (decide (sig = sig0)) as [-> | Hne]; [| right; eauto].
    destruct b.
    + destruct (He eq_refl) as [Hn _]. simplify_eq. left. exists 0. eexists. split_and!; [lia | done..].
    + destruct (Hs eq_refl) as (t' & n0 & n' & ? & ? & ?). simplify_eq. right. eauto.
Qed.

(** All signatures a state or a sequence mentions are among [S]. *)
Definition known (S : list AlertSignature) (d : ShardedDeduplicator) : Prop :=
  ∀ i c k, shards d !! i = Some c → k ∈ lru_keys c → k ∈ S.

Lemma known_step cap S sig now d b d' :
  check_facts cap sig now d b d' → sig ∈ S → known S d → known S d'.
Proof.
  intros Hf Hsig Hk i c k Hi Hin. destruct (cf_keys _ _ _ _ _ _ Hf i c k Hi Hin) as [-> | (c0 & ? & ?)]; eauto.
Qed.

(** With room for every signature of [S], a check never evicts. *)
Lemma no_eviction cap S sig now d b d' sig' :
  check_facts cap sig now d b d' → wf cap d → NoDup S → length S ≤ cap → sig ∈ S → known S d →
  sig' ≠ sig → seen d' sig' = seen d sig'.
Proof.
  intros Hf Hwf HS Hlen Hsig Hk Hne.
  destruct (shard_lookup cap d sig Hwf) as (c & Hc & _).
  apply (cf_room _ _ _ _ _ _ Hf c); [done | | done].
  destruct (decide (sig ∈ lru_keys c)) as [| Hn]; [by left | right].
  assert (length (sig :: lru_keys c) ≤ length S) as Hle; [| simpl in Hle; lia].
  apply submseteq_length, NoDup_submseteq.
  - constructor; [done | apply keys_nodup].
  - intros k [-> | Hin]%elem_of_cons; [done |]. by eapply Hk.
Qed.

Lemma emitted_after cap S l d j sig now t n :
  0 < cap → NoDup S → length S ≤ cap → wf cap d → known S d → Forall (λ x, x.1 ∈ S) l →
  StronglySorted Z.le l.*2 → seen d sig = Some (t, n) →
  (check_all hash l d).1 !! j = Some true → l !! j = Some (sig, now) →
  (suppression_window d ≤ duration_since now t)%Z.
Proof.
  intros Hcap HS Hlen. revert d j n.
  induction l as [| [sig0 now0] l IH]; intros d j n Hwf Hk Hin Hsort Hseen Hout Hl; [done |].
  simpl in *. pose proof (check_run cap sig0 now0 d Hcap Hwf) as Hrun.
  inversion Hin as [| ?? Hin0 Hin']. inversion Hsort as [| ?? Hsort' Hle]. subst.
  destruct (check_and_record hash sig0 now0 d) as [b d1].
  pose proof (known_step _ _ _ _ _ _ _ Hrun Hin0 Hk) as Hk1.
  specialize (IH d1). destruct (check_all hash l d1) as [bs d2] eqn:Hbs. simpl in *.
  destruct j as [| j]; simpl in *; simplify_eq.
  { destruct (cf_emitted _ _ _ _ _ _ Hrun eq_refl) as [_ He]. by eapply He. }
  rewrite <-(cf_window _ _ _ _ _ _ Hrun).
  destruct (decide (sig = sig0)) as [-> | Hne].
  - destruct b.
    + destruct (cf_emitted _ _ _ _ _ _ Hrun eq_refl) as [_ He]. specialize (He _ _ Hseen).
      rewrite Forall_lookup in Hle. assert (l.*2 !! j = Some now) as Hj by (by rewrite list_lookup_fmap, Hl).
      specialize (Hle _ _ Hj). rewrite (cf_window _ _ _ _ _ _ Hrun). unfold duration_since in *. lia.
    + destruct (cf_suppressed _ _ _ _ _ _ Hrun eq_refl) as (t' & n0 & n' & ? & ? & ?). simplify_eq.
      by eapply (IH j n'); try done; apply Hrun.
  - eapply (IH j n); try done; [apply Hrun |]. by erewrite no_eviction.
Qed.

Lemma emissions_spaced cap S l d i j sig t now :
  0 < cap → NoDup S → length S ≤ cap → wf cap d → known S d → Forall (λ x, x.1 ∈ S) l →
  StronglySorted Z.le l.*2 → i < j →
  l !! i = Some (sig, t) → (check_all hash l d).1 !! i = Some true →
  l !! j = Some (sig, now) → (check_all hash l d).1 !! j = Some true →
  (suppression_window d ≤ duration_since now t)%Z.
Proof.
  intros Hcap HS Hlen. revert d i j.
  induction l as [| [sig0 now0] l IH]; intros d i j Hwf Hk Hin Hsort Hij Hli Hoi Hlj Hoj; [done |].
  simpl in *. pose proof (check_run cap sig0 now0 d Hcap Hwf) as Hrun.
  inversion Hin as [| ?? Hin0 Hin']. inversion Hsort as [| ?? Hsort' Hle]. subst.
  destruct (check_and_record hash sig0 now0 d) as [b d1].
  pose proof (known_step _ _ _ _ _ _ _ Hrun Hin0 Hk) as Hk1.
  specialize (IH d1). pose proof (emitted_after cap S l d1) as Hafter.
  destruct (check_all hash l d1) as [bs d2]. simpl in *.
  destruct j as [| j]; [lia |]. rewrite <-(cf_window _ _ _ _ _ _ Hrun).
  destruct i as [| i]; simpl in *; simplify_eq.
  - destruct (cf_emitted _ _ _ _ _ _ Hrun eq_refl) as [Hs _].
    eapply Hafter; try done. apply Hrun.
  - eapply (IH i j); try done; [apply Hrun | lia].
Qed.
End dedup_lemmas.

(** ** Properties *)

(** C21 (safety): the deduplicator never swallows an alert for nothing: starting
    empty, a suppressed alert always has an earlier one of the same signature
    that was let through less than the suppression window before it, whatever
    the cache evicts and the hasher does. *)
Theorem suppressed_has_recent_emission `{HL : Lru AlertSignature (Z * Z)}
    `{!LruLaws AlertSignature (Z * Z)} hash total window d l j sig now :
  new total window = Ok d → (0 ≤ total)%Z →
  (check_all hash l d).1 !! j = Some false → l !! j = Some (sig, now) →
  ∃ i t, i < j ∧ l !! i = Some (sig, t) ∧ (check_all hash l d).1 !! i = Some true ∧
    (duration_since now t < window)%Z.
Proof.
  intros Hnew Ht Hout Hl. destruct (new_wf hash _ _ _ Hnew Ht) as (Hcap & Hwf & <- & _ & Hs).
  destruct (suppressed_justified hash _ l d j sig now Hcap Hwf Hout Hl) as [H | (t & n & H & _)]; [done |].
  by rewrite Hs in H.
Qed.

Definition sig_a : AlertSignature := Signature "n1" "rule a" None.
Definition sig_b : AlertSignature := Signature "n1" "rule b" None.
Definition example_checks : list (AlertSignature * Z) :=
  [(sig_a, 0%Z); (sig_b, 5%Z); (sig_a, 9%Z); (sig_a, 12%Z)].
#[local] Existing Instance MruList.mru_lru.
#[local] Existing Instance MruList.mru_laws.
Definition example_dedup : ShardedDeduplicator := Dedup (replicate 16 (lru_new 2)) 10.

Lemma suppressed_has_recent_emission_witness :
  (check_all (λ _, 3%Z) example_checks example_dedup).1 = [true; true; false; true] ∧
  ∃ i t, i < 2 ∧ example_checks !! i = Some (sig_a, t) ∧
    (check_all (λ _, 3%Z) example_checks example_dedup).1 !! i = Some true ∧
    (duration_since 9 t < 10)%Z.
Proof.
  split; [by vm_compute |].
  apply (suppressed_has_recent_emission (λ _, 3%Z) 32 10 example_dedup example_checks 2 sig_a 9);
    [done | lia | by vm_compute | done].
Defined.

(** C22 (bounds): with a monotonic clock, and a cache whose shards have room for all the
    distinct signatures met, two alerts of one signature that are both let
    through are at least the suppression window apart. *)
Theorem emissions_are_spaced `{HL : Lru AlertSignature (Z * Z)}
    `{!LruLaws AlertSignature (Z * Z)} hash total window d l i j sig t now :
  new total window = Ok d → (0 ≤ total)%Z →
  length (remove_dups l.*1) ≤ Z.to_nat (total / SHARD_COUNT) →
  StronglySorted Z.le l.*2 → i < j →
  l !! i = Some (sig, t) → (check_all hash l d).1 !! i = Some true →
  l !! j = Some (sig, now) → (check_all hash l d).1 !! j = Some true →
  (window ≤ duration_since now t)%Z.
Proof.
  intros Hnew Ht Hroom Hsort. destruct (new_wf hash _ _ _ Hnew Ht) as (Hcap & Hwf & <- & Hk & _).
  intros. apply (emissions_spaced hash _ (remove_dups l.*1) l d i j sig t now Hcap); try done.
  - apply NoDup_remove_dups.
  - intros i0 c k Hi Hin. by destruct (Hk i0 c k).
  - apply Forall_forall. intros x Hx. apply elem_of_remove_dups. by apply list_elem_of_fmap_2.
Qed.

Lemma emissions_are_spaced_witness : (10 ≤ duration_since 12 0)%Z.
Proof.
  apply (emissions_are_spaced (λ _, 3%Z) 32 10 example_dedup example_checks 0 3 sig_a 0 12);
    [done | lia | vm_compute; lia | simpl; repeat (first [lia | constructor]) | lia | done | by vm_compute | done | by vm_compute].
Defined.
