(* ===== verification/Scanner.v ===== *)
(** * Rule compilation, scanning and alert construction
      (rule-engine/src/engine: compiler.rs, registry.rs, scanner.rs, transform.rs)

    YARA-X is an argument: a type of compiled rule sets, the compiler's
    [add_source] and [build], and the scan of a buffer.  The file system is an
    argument of the compiler. *)
From Stdlib Require Import ZArith Lia Floats.SpecFloat.
From S2P Require Import Prelude Json RuleModels Pipeline.
#[local] Open Scope string_scope.
#[local] Open Scope list_scope.
#[local] Open Scope nat_scope.

(** ** What YARA-X reports *)

Inductive MetaValue :=
  | MInteger (z : Z)
  | MFloat (f : spec_float)
  | MBool (b : bool)
  | MString (s : string)
  | MBytes (s : string).

Record MatchedRule := Matched { identifier : string; metadata : list (string * MetaValue) }.

(** ** transform.rs *)

(** The variables of the metadata loop of [build_alert]. *)
Record AlertFields := Fields {
  f_technique : option string; f_severity : AlertSeverity; f_score : spec_float; f_description : string }.

Definition parse_severity (v : string) : AlertSeverity :=
  let l := to_lowercase v in
  if String.eqb l "critical" then Critical
  else if String.eqb l "high" then High
  else if String.eqb l "medium" then Medium
  else Low.

Definition apply_metadata (fs : AlertFields) (kv : string * MetaValue) : AlertFields :=
  let '(Fields t sev sc d) := fs in
  let '(key, v) := kv in
  if String.eqb key "mitre_technique" then
    match v with MString s => Fields (Some s) sev sc d | _ => fs end
  else if String.eqb key "severity" then
    match v with MString s => Fields t (parse_severity s) sc d | _ => fs end
  else if String.eqb key "threat_score" then
    match v with
    | MInteger z => Fields t sev (f32_of_Z z) d
    | MFloat f => Fields t sev (f32_of_f64 f) d
    | _ => fs
    end
  else if String.eqb key "description" then
    match v with MString s => Fields t sev sc s | _ => fs end
  else fs.

Definition initial_fields (r : MatchedRule) : AlertFields :=
  Fields None Medium (f32_of_Z 5) ("YARA rule '" +:+ identifier r +:+ "' matched").

(** [build_alert], with the fresh UUID and the time of the call. *)
Definition build_alert (uuid : string) (now : Z) (event : TelemetryEvent) (r : MatchedRule)
    (mitre : MitreTaxonomy) : Alert :=
  let '(Fields technique_id sev sc d) := foldl apply_metadata (initial_fields r) (metadata r) in
  let alert := {|
    alert_id := uuid;
    al_node_id := ev_node_id event;
    al_hostname := ev_hostname event;
    severity := sev;
    al_source := YaraX;
    mitre_technique_id := technique_id;
    mitre_tactic := None;
    description := d;
    triggering_event_id := Some (ev_id event);
    threat_score := sc;
    al_status := "open";
    created_at := now |} in
  match technique_id with
  | Some tech_id => enrich_alert mitre tech_id alert
  | None => alert
  end.

(** ** scanner.rs *)

Definition scan_keys : list string :=
  ["cmdline"; "cmd"; "command_line"; "path"; "target_path"; "parent_path"; "cwd"; "name";
   "remote_address"; "local_address"; "user"; "description"; "args"; "syscall"; "action"].

(** Appending a string value and a newline; other values are skipped. *)
Definition push_string (v : option value) (buffer : string) : string :=
  match v with
  | Some (JString s) => buffer +:+ s +:+ nl
  | _ => buffer
  end.

Definition scan_object (obj : list (string * value)) (buffer : string) : string :=
  foldl (λ b key, push_string (map_get key obj) b) buffer scan_keys.

Definition scan_column (buffer : string) (col : value) : string :=
  match as_object col with
  | Some col_obj => push_string (map_get "value" col_obj) buffer
  | None => buffer
  end.

Definition scan_row (buffer : string) (row : value) : string :=
  match as_object row with
  | Some row_obj =>
      let buffer := scan_object row_obj buffer in
      match (c ← map_get "columns" row_obj; as_array c) with
      | Some cols => foldl scan_column buffer cols
      | None => buffer
      end
  | None => buffer
  end.

Section scanner.
Context `{SerdeJson}.

Definition extract_scannable_buffer (event : TelemetryEvent) : string :=
  let buffer :=
    match as_object (ev_payload event) with
    | Some obj =>
        let b := scan_object obj "" in
        match (r ← map_get "rows" obj; as_array r) with
        | Some rows => foldl scan_row b rows
        | None => b
        end
    | None => ""
    end in
  if str_is_empty buffer then default buffer (ok (to_vec (ev_payload event))) else buffer.

(** The category whose rule set scans an event. *)
Definition mem (s : string) (l : list string) : bool := existsb (String.eqb s) l.

Definition category (event : TelemetryEvent) : string :=
  let t := ev_event_type event in
  if mem t ["process"; "processes"; "running_processes"; "process_start"; "process_end";
            "process_events"; "bpf_process_events"; "osquery_result"; "osquery_snapshot"]
  then "process"
  else if mem t ["network"; "listening_ports"; "network_connect"; "network_listen"; "socket_events";
                 "bpf_socket_events"]
  then "network"
  else if mem t ["file"; "file_create"; "file_modify"; "file_delete"; "file_events"] then "file"
  else if mem t ["auth"; "users"; "user_login"; "user_logout"; "logged_in_users"] then "auth"
  else if String.eqb t "custom" then "custom"
  else if String.eqb t "osquery" then
    match (v ← get "query_name" (ev_payload event); as_str v) with
    | None => "custom"
    | Some qn =>
        if mem qn ["running_processes"; "processes"] then "process"
        else if mem qn ["listening_ports"; "network"] then "network"
        else if String.eqb qn "users" then "auth"
        else "custom"
    end
  else t.

(** ** registry.rs *)

Context {Rules : Type} (scan : Rules → string → result (list MatchedRule) string).

Record EngineRegistry := Registry { rule_sets : gmap string Rules; mitre : MitreTaxonomy }.

(** [YaraScannerEngine::evaluate] against the registry snapshot it loads;
    [ids] are the UUIDs drawn for the alerts, one per matching rule. *)
Definition evaluate (uuid : nat → string) (now : nat → Z) (current : EngineRegistry)
    (event : TelemetryEvent) : result (list Alert) AppError :=
  match rule_sets current !! category event with
  | None => Ok []
  | Some rules =>
      let scan_buffer := extract_scannable_buffer event in
      if str_is_empty scan_buffer then Ok []
      else
        match map_err (ScanFailure (ev_id event)) (scan rules scan_buffer) with
        | Err e => Err e
        | Ok matching =>
            Ok (imap (λ i r, build_alert (uuid i) (now i) event r (mitre current)) matching)
        end
  end.

(** ** compiler.rs *)

(** The file system: a directory entry with the answers of [is_dir]/[is_file]. *)
Record DirEntry := Entry { file_name : string; entry_path : string; is_dir : bool; is_file : bool }.

Context {Compiler : Type} (compiler_new : Compiler)
  (add_source : string → Compiler → result Compiler string) (build : Compiler → Rules).
Context (exists_ : string → bool) (read_dir : string → result (list (result DirEntry string)) string)
  (read_to_string : string → result string string).

(** [Path::extension] of a file name *)
Definition extension (name : string) : option string :=
  match rsplit_once dot name with
  | Some (EmptyString, _) | None => None
  | Some (_, ext) => Some ext
  end.

Definition is_rule_file (e : DirEntry) : bool :=
  is_file e &&
  match extension (file_name e) with
  | Some ext => String.eqb ext "yar" || String.eqb ext "yara"
  | None => false
  end.

Fixpoint add_sources (entries : list (result DirEntry string)) (c : Compiler) : result Compiler AppError :=
  match entries with
  | [] => Ok c
  | Err e :: _ => Err (Io e)
  | Ok entry :: entries =>
      if is_rule_file entry then
        match read_to_string (entry_path entry) with
        | Err e => Err (Io e)
        | Ok source =>
            match add_source source c with
            | Err e => Err (RuleCompilation (entry_path entry) 0 e)
            | Ok c => add_sources entries c
            end
        end
      else add_sources entries c
  end.

Definition compile_directory (dir : string) : result Rules AppError :=
  match read_dir dir with
  | Err e => Err (Io e)
  | Ok entries =>
      match add_sources entries compiler_new with
      | Err e => Err e
      | Ok c => Ok (build c)
      end
  end.

Definition compile_source (name source : string) : result Rules AppError :=
  match add_source source compiler_new with
  | Err e => Err (RuleCompilation name 0 e)
  | Ok c => Ok (build c)
  end.

Fixpoint compile_entries (entries : list (result DirEntry string)) (rule_sets : gmap string Rules)
    : result (gmap string Rules) AppError :=
  match entries with
  | [] => Ok rule_sets
  | Err e :: _ => Err (Io e)
  | Ok entry :: entries =>
      if is_dir entry && negb (String.eqb (file_name entry) "mitre") then
        match compile_directory (entry_path entry) with
        | Err e => Err e
        | Ok rules => compile_entries entries (<[file_name entry := rules]> rule_sets)
        end
      else compile_entries entries rule_sets
  end.

Definition compile_all (rules_dir : string) : result (gmap string Rules) AppError :=
  if exists_ rules_dir then
    match read_dir rules_dir with
    | Err e => Err (Io e)
    | Ok entries => compile_entries entries ∅
    end
  else Ok ∅.

(** ** The SIGHUP handler of main.rs *)

Context (parse_taxonomy : string → result MitreTaxonomy string).

Definition reload_mitre (path : string) : MitreTaxonomy :=
  if exists_ path then default ∅ (ok (load_from_file parse_taxonomy read_to_string path)) else ∅.

Definition hot_reload (rules_dir mitre_path : string) (s : EngineRegistry * EngineMetrics)
    : EngineRegistry * EngineMetrics :=
  let '(registry, metrics) := s in
  match compile_all rules_dir with
  | Ok new_rules => (Registry new_rules (reload_mitre mitre_path), inc_rule_reloads metrics)
  | Err _ => (registry, inc_rule_reload_failures metrics)
  end.
End scanner.
Arguments EngineRegistry Rules : clear implicits.

(** ** Lemmas *)

(** Metadata keys that are absent leave their field at its initial value. *)
Lemma apply_metadata_description ms fs :
  "description" ∉ ms.*1 → f_description (foldl apply_metadata fs ms) = f_description fs.
Proof.
  revert fs. induction ms as [| [k v] ms IH]; intros fs Hn; [done |]. simpl in *.
  rewrite not_elem_of_cons in Hn. destruct Hn as [Hk Hn]. rewrite IH by done.
  destruct fs as [t sev sc d]. simpl. repeat case_match; try done.
  by apply String.eqb_eq in H2; subst.
Qed.

Lemma apply_metadata_score ms fs :
  "threat_score" ∉ ms.*1 → f_score (foldl apply_metadata fs ms) = f_score fs.
Proof.
  revert fs. induction ms as [| [k v] ms IH]; intros fs Hn; [done |]. simpl in *.
  rewrite not_elem_of_cons in Hn. destruct Hn as [Hk Hn]. rewrite IH by done.
  destruct fs as [t sev sc d]. simpl.
  destruct (String.eqb_spec k "threat_score"); [by subst |].
  by repeat case_match.
Qed.

Lemma build_alert_fields uuid now event r mitre :
  let fs := foldl apply_metadata (initial_fields r) (metadata r) in
  let a := build_alert uuid now event r mitre in
  al_node_id a = ev_node_id event ∧ triggering_event_id a = Some (ev_id event) ∧
  alert_id a = uuid ∧ severity a = f_severity fs ∧ mitre_technique_id a = f_technique fs ∧
  al_status a = "open" ∧
  mitre_tactic a = (t ← f_technique fs; tech ← resolve_technique mitre t; Some (tactic tech)) ∧
  (str_is_empty (f_description fs) = false → description a = f_description fs) ∧
  (is_zero (f_score fs) = false → threat_score a = f_score fs).
Proof.
  simpl. unfold build_alert. destruct (foldl _ _ _) as [[t |] sev sc d]; simpl.
  - unfold enrich_alert. destruct (resolve_technique mitre t); simpl; split_and!; try done.
    + by intros ->.
    + by intros ->.
  - by split_and!.
Qed.

Lemma mem_elem s l : EventRouter.mem s l = true → s ∈ l.
Proof.
  unfold EventRouter.mem. intros (x & Hx & He)%existsb_exists. apply String.eqb_eq in He. subst.
  by apply list_elem_of_In.
Qed.

(** The scanner's category of each routable type and of each topic's category. *)
Lemma category_of_routed ev et t :
  EventRouter.route_topic et = Some t →
  ev_event_type ev = et ∨ ev_event_type ev = EventRouter.normalized_category t et →
  category ev = EventRouter.normalized_category t et.
Proof.
  unfold EventRouter.route_topic. intros Hr Hev.
  repeat match type of Hr with
    | (if ?c then _ else _) = _ =>
        destruct c eqn:Hm;
        [apply mem_elem in Hm; injection Hr as <-;
         repeat (apply elem_of_cons in Hm as [-> | Hm];
                 [unfold category; destruct Hev as [-> | ->]; reflexivity |]);
         by apply elem_of_nil in Hm | clear Hm]
    end.
  done.
Qed.

Section compiler_lemmas.
Context {Rules Compiler : Type} (compiler_new : Compiler)
  (add_source : string → Compiler → result Compiler string) (build : Compiler → Rules)
  (read_dir : string → result (list (result DirEntry string)) string)
  (read_to_string : string → result string string).
#[local] Abbreviation compile_entries := (compile_entries compiler_new add_source build read_dir read_to_string).

(** A directory entry that gets a rule set. *)
Definition rule_dir (e : DirEntry) : bool := is_dir e && negb (String.eqb (file_name e) "mitre").

Lemma compile_entries_dom entries acc m :
  compile_entries entries acc = Ok m →
  (∀ r, r ∈ entries → is_ok r = true) ∧
  ∀ k, is_Some (m !! k) ↔
    is_Some (acc !! k) ∨ ∃ e, Ok e ∈ entries ∧ rule_dir e = true ∧ file_name e = k.
Proof.
  revert acc. induction entries as [| [e | err] entries IH]; intros acc Hc; simpl in Hc; [| | done].
  - simplify_eq. split; [by intros r ?%elem_of_nil |]. intros k. split; [by left |].
    intros [? | (e & He & _)]; [done |]. by apply elem_of_nil in He.
  - destruct (is_dir e && negb (String.eqb (file_name e) "mitre")) eqn:Hd.
    + destruct (compile_directory _ _ _ _ _ _) as [rules |]; [| done].
      destruct (IH _ Hc) as [Hok Hdom]. split.
      { intros r [-> | ?]%elem_of_cons; eauto. }
      intros k. rewrite Hdom, lookup_insert_is_Some'. split.
      * intros [[<- | ?] | (e' & ? & ?)]; [right | by left | right].
        -- exists e. split_and!; [by left | done | done].
        -- exists e'. split; [by right | done].
      * intros [? | (e' & [He | ?]%elem_of_cons & Hr & Hk)]; [by left; right | |].
        -- simplify_eq. by left; left.
        -- right. eauto.
    + destruct (IH _ Hc) as [Hok Hdom]. split.
      { intros r [-> | ?]%elem_of_cons; eauto. }
      intros k. rewrite Hdom. split.
      * intros [? | (e' & ? & ?)]; [by left | right]. exists e'. split; [by right | done].
      * intros [? | (e' & [He | ?]%elem_of_cons & Hr & Hk)]; [by left | | right; eauto].
        simplify_eq. unfold rule_dir in Hr. congruence.
Qed.
End compiler_lemmas.

(** ** Properties *)

(** C23 (equivalence): the pipeline's routing and the scanner's choice of rule set agree:
    an event whose type the router sends to a topic is scanned with the rules of
    that topic's category, whether it carries its original type or the
    normalized one. *)
Theorem scanner_agrees_with_router ev et t :
  EventRouter.route_topic et = Some t →
  ev_event_type ev = et ∨ ev_event_type ev = EventRouter.normalized_category t et →
  category ev = EventRouter.normalized_category t et.
Proof. apply category_of_routed. Qed.

Lemma scanner_agrees_with_router_witness :
  category (mkEvent "e1" "n1" "h" "auth" 0 JNull None) = "auth".
Proof.
  exact (scanner_agrees_with_router (mkEvent "e1" "n1" "h" "auth" 0 JNull None) "user_login"
    "aigis.events.auth" eq_refl (or_intror eq_refl)).
Defined.

(** An alert takes its tactic from the taxonomy, and nothing else when the
    rule's metadata gives neither a description nor a threat score: the defaults
    (the rule's name, 5.0) count as set, so the catalogue's description and base
    score never replace them. *)
Theorem taxonomy_never_fills_defaults uuid now event r mitre :
  "description" ∉ (metadata r).*1 → "threat_score" ∉ (metadata r).*1 →
  let a := build_alert uuid now event r mitre in
  description a = "YARA rule '" +:+ identifier r +:+ "' matched" ∧
  threat_score a = f32_of_Z 5 ∧
  mitre_tactic a = (t ← mitre_technique_id a; tech ← resolve_technique mitre t; Some (tactic tech)).
Proof.
  intros Hd Hs. destruct (build_alert_fields uuid now event r mitre) as (_ & _ & _ & _ & Ht & _ & Hta & Hde & Hsc).
  rewrite apply_metadata_description in Hde by done. rewrite apply_metadata_score in Hsc by done.
  simpl. rewrite Hta, Ht. split_and!; [by apply Hde | by apply Hsc | done].
Qed.

Lemma taxonomy_never_fills_defaults_witness :
  let tech := mkTechnique "T1059" "Interpreter" "execution" "TA0002" High (f32_of_Z 8) "Abuse" in
  let a := build_alert "u" 0 (mkEvent "e1" "n1" "h" "process" 0 JNull None)
             (Matched "rev_shell" [("mitre_technique", MString "T1059")]) {["T1059" := tech]} in
  description a = "YARA rule 'rev_shell' matched" ∧ threat_score a = f32_of_Z 5 ∧
  mitre_tactic a = Some "execution".
Proof.
  intros tech a.
  refine (taxonomy_never_fills_defaults "u" 0 (mkEvent "e1" "n1" "h" "process" 0 JNull None)
    (Matched "rev_shell" [("mitre_technique", MString "T1059")]) {["T1059" := tech]} _ _);
    simpl; by intros [? | ?%elem_of_nil]%elem_of_cons.
Defined.

(** What [evaluate] returns: nothing without a rule set for the event's
    category or anything to scan, the scan's error with the event's id, or one
    alert per matching rule, in order, each open, for the event's node and
    triggered by the event. *)
Theorem evaluate_outcome `{SerdeJson} {Rules} (scan : Rules → string → result (list MatchedRule) string)
    uuid now reg event :
  match evaluate scan uuid now reg event with
  | Err e => ∃ rules m, rule_sets reg !! category event = Some rules ∧
      scan rules (extract_scannable_buffer event) = Err m ∧ e = ScanFailure (ev_id event) m
  | Ok alerts =>
      Forall (λ a, al_node_id a = ev_node_id event ∧ triggering_event_id a = Some (ev_id event) ∧
                   al_status a = "open") alerts ∧
      (alerts ≠ [] → ∃ rules matching, rule_sets reg !! category event = Some rules ∧
         scan rules (extract_scannable_buffer event) = Ok matching ∧ length alerts = length matching)
  end.
Proof.
  unfold evaluate. destruct (rule_sets reg !! category event) as [rules |]; [| done].
  destruct (str_is_empty (extract_scannable_buffer event)); [done |].
  destruct (scan rules _) as [ms | m] eqn:Hs; simpl; [| eauto].
  split.
  - apply Forall_lookup. intros i a. rewrite list_lookup_imap.
    destruct (ms !! i) as [r |]; simpl; [| done]. intros [= <-].
    destruct (build_alert_fields (uuid i) (now i) event r (mitre reg)) as (? & ? & _ & _ & _ & ? & _). done.
  - intros _. exists rules, ms. by rewrite length_imap.
Qed.

(** A successful compilation has a rule set for exactly the
    subdirectories of the rules directory other than [mitre]. *)
Theorem compile_all_dom {Rules Compiler} (compiler_new : Compiler) add_source
    (build : Compiler → Rules) exists_ read_dir read_to_string dir entries m :
  exists_ dir = true → read_dir dir = Ok entries →
  compile_all compiler_new add_source build exists_ read_dir read_to_string dir = Ok m →
  ∀ k, is_Some (m !! k) ↔ ∃ e, Ok e ∈ entries ∧ rule_dir e = true ∧ file_name e = k.
Proof.
  unfold compile_all. intros -> -> Hc k.
  destruct (compile_entries_dom _ _ _ _ _ _ _ _ Hc) as [_ Hdom]. rewrite Hdom.
  rewrite lookup_empty. split; [intros [[] |]; done | by right].
Qed.

Definition example_entries : list (result DirEntry string) :=
  [Ok (Entry "process" "rules/process" true false); Ok (Entry "mitre" "rules/mitre" true false)].
Definition example_read_dir (d : string) : result (list (result DirEntry string)) string :=
  if String.eqb d "rules" then Ok example_entries else Ok [Ok (Entry "a.yar" "rules/process/a.yar" false true)].
Definition example_add (source : string) (c : list string) : result (list string) string := Ok (source :: c).

Lemma compile_all_dom_witness :
  ∃ m, compile_all [] example_add id (λ _, true) example_read_dir (λ _, Ok "rule a {}") "rules" = Ok m ∧
    ∀ k, is_Some (m !! k) ↔ ∃ e, Ok e ∈ example_entries ∧ rule_dir e = true ∧ file_name e = k.
Proof.
  eexists. split; [reflexivity |].
  exact (compile_all_dom [] example_add id (λ _, true) example_read_dir (λ _, Ok "rule a {}") "rules"
    example_entries _ eq_refl eq_refl eq_refl).
Defined.

(** A hot reload whose rules do not compile keeps the old registry, rules and
    taxonomy; one whose rules compile replaces both, and then a taxonomy file
    that cannot be loaded silently leaves an empty taxonomy. *)
Theorem hot_reload_outcome {Rules Compiler} (compiler_new : Compiler) add_source (build : Compiler → Rules)
    exists_ read_dir read_to_string parse rules_dir mitre_path reg m :
  let '(reg', m') := hot_reload compiler_new add_source build exists_ read_dir read_to_string parse
                       rules_dir mitre_path (reg, m) in
  match compile_all compiler_new add_source build exists_ read_dir read_to_string rules_dir with
  | Err _ => reg' = reg ∧ m' = inc_rule_reload_failures m
  | Ok rules =>
      rule_sets reg' = rules ∧ m' = inc_rule_reloads m ∧
      (∀ e, load_from_file parse read_to_string mitre_path = Err e → mitre reg' = ∅)
  end.
Proof.
  unfold hot_reload. destruct (compile_all _ _ _ _ _ _ _) as [rules | e]; [| done].
  split_and!; [done | done |]. intros e He. simpl. unfold reload_mitre. rewrite He.
  by destruct (exists_ mitre_path).
Qed.
