(* ===== verification/RuleEngine.v ===== *)
(** * The tasks of the rule engine
      (rule-engine/src: kafka/consumer.rs, kafka/dlq.rs, kafka/producer.rs,
      sink/diesel_sink.rs, health.rs and the loops of main.rs)

    Four tasks connected by channels: the consumer turns Kafka messages into
    telemetry events (or dead letters), the scanner turns events into alerts and
    deduplicates them, the batcher groups alerts, the sink publishes and stores
    a batch.  A loop runs on the list of turns its [select!] meets; the outcome
    of each external call is part of the turn. *)
From Stdlib Require Import ZArith Lia.
From S2P Require Import Prelude Json RuleModels Pipeline Dedup Scanner.
Import EventRouter.
#[local] Open Scope string_scope.
#[local] Open Scope list_scope.
#[local] Open Scope nat_scope.

(** ** Telemetry consumer (kafka/consumer.rs, kafka/dlq.rs) *)
Module Consumer.
Section consumer.
(** [serde_json::from_slice::<TelemetryEvent>], a derived deserializer. *)
Context (parse_event : string → result TelemetryEvent string).
(** The topic of the [DlqProducer]. *)
Context (dlq_topic : string).

Record consumer := mkConsumer {
  channel : list TelemetryEvent; dead_letters : list record; committed : list (string * Z * Z) }.

Definition poison_pill (original_topic : string) (partition offset : Z) (raw_payload error : string) : record :=
  Record_ dlq_topic raw_payload original_topic
    [("x-original-topic", original_topic); ("x-original-partition", pretty partition);
     ("x-original-offset", pretty offset); ("x-error-message", error)].

Definition send_poison_pill (fault : option string) (original_topic : string) (partition offset : Z)
    (raw_payload error : string) : SE consumer AppError unit :=
  match fault with
  | Some e => throw (KafkaProduce ("DLQ delivery error: " +:+ e))
  | None => modify (λ s, mkConsumer (channel s)
      (dead_letters s ++ [poison_pill original_topic partition offset raw_payload error]) (committed s))
  end.

Inductive turn :=
  | Shutdown
  | Received (m : message) (closed : bool) (dlq_fault commit_fault : option string)
  | StreamError (e : string)
  | StreamEnd.

(** What the loop does next. *)
Inductive flow := Continue | Break.

(** The body for one received message; [closed]: the scanner dropped its end. *)
Definition handle (m : message) (closed : bool) (dlq_fault commit_fault : option string) (s : consumer)
    : flow * consumer :=
  let payload := default "" (m_payload m) in
  if str_is_empty payload then (Continue, s) else
  let commit s' := match commit_fault with
                   | Some _ => s'
                   | None => mkConsumer (channel s') (dead_letters s') (committed s' ++ [position m])
                   end in
  match parse_event payload with
  | Ok event =>
      if closed then (Break, s)
      else (Continue, commit (mkConsumer (channel s ++ [event]) (dead_letters s) (committed s)))
  | Err err =>
      let '(_, s') := send_poison_pill dlq_fault (m_topic m) (m_partition m) (m_offset m) payload err s in
      (Continue, commit s')
  end.

Fixpoint run (turns : list turn) (s : consumer) : consumer :=
  match turns with
  | [] | Shutdown :: _ | StreamEnd :: _ => s
  | StreamError _ :: turns => run turns s
  | Received m closed df cf :: turns =>
      match handle m closed df cf s with
      | (Continue, s') => run turns s'
      | (Break, s') => s'
      end
  end.

(** The messages a run disposes of, with their outcomes: it skips empty payloads
    and stops at an event the closed channel refuses. *)
Fixpoint disposed (turns : list turn) : list (message * option string * option string) :=
  match turns with
  | [] | Shutdown :: _ | StreamEnd :: _ => []
  | StreamError _ :: turns => disposed turns
  | Received m closed df cf :: turns =>
      if str_is_empty (default "" (m_payload m)) then disposed turns
      else if closed && is_ok (parse_event (default "" (m_payload m))) then []
      else (m, df, cf) :: disposed turns
  end.

Definition event_of (x : message * option string * option string) : list TelemetryEvent :=
  match parse_event (default "" (m_payload x.1.1)) with Ok e => [e] | Err _ => [] end.
Definition letter_of (x : message * option string * option string) : list record :=
  let '(m, df, _) := x in
  match parse_event (default "" (m_payload m)), df with
  | Err err, None => [poison_pill (m_topic m) (m_partition m) (m_offset m) (default "" (m_payload m)) err]
  | _, _ => []
  end.
Definition commit_of (x : message * option string * option string) : list (string * Z * Z) :=
  match x.2 with None => [position x.1.1] | Some _ => [] end.
End consumer.
End Consumer.

(** ** Scanner loop (main.rs) *)
Module ScannerLoop.
Section scanner_loop.
Context `{SerdeJson} {Rules : Type} (scan : Rules → string → result (list MatchedRule) string).
Context `{HL : Lru AlertSignature (Z * Z)} (hash : string → Z).
(** Fresh UUIDs and clock readings, by the number of draws so far. *)
Context (uuid : nat → string) (utc instant : nat → Z).

Record scanner := mkScanner {
  dedup : ShardedDeduplicator;
  metrics : EngineMetrics;
  alert_channel : list Alert;
  draws : nat }.

Definition signature (a : Alert) : AlertSignature :=
  Signature (al_node_id a) (description a) (mitre_technique_id a).

(** One alert of the [for] loop; [closed]: the batcher dropped its end. *)
Definition emit (closed : bool) (s : scanner) (a : Alert) : scanner :=
  let m := inc_alerts_generated (metrics s) in
  let '(fresh, d) := check_and_record hash (signature a) (instant (draws s)) (dedup s) in
  if fresh
  then mkScanner d m (if closed then alert_channel s else alert_channel s ++ [a]) (S (draws s))
  else mkScanner d (inc_alerts_suppressed m) (alert_channel s) (S (draws s)).

(** One event: scan, count, deduplicate, send. *)
Definition scan_event (registry : EngineRegistry Rules) (closed : bool) (event : TelemetryEvent)
    (s : scanner) : scanner :=
  let s1 := mkScanner (dedup s) (inc_scanned (metrics s)) (alert_channel s) (draws s) in
  match evaluate scan (λ i, uuid (draws s + i)) (λ i, utc (draws s + i)) registry event with
  | Ok alerts => foldl (emit closed) s1 alerts
  | Err _ => s1
  end.

(** A turn: an event with the registry current at that time, the end of the
    channel, or the shutdown with the events still in the channel. *)
Inductive turn :=
  | Event (registry : EngineRegistry Rules) (closed : bool) (event : TelemetryEvent)
  | Closed
  | Shutdown (registry : EngineRegistry Rules) (closed : bool) (pending : list TelemetryEvent).

Fixpoint run (turns : list turn) (s : scanner) : scanner :=
  match turns with
  | [] | Closed :: _ => s
  | Shutdown reg closed pending :: _ => foldl (λ s e, scan_event reg closed e s) s pending
  | Event reg closed e :: turns => run turns (scan_event reg closed e s)
  end.
End scanner_loop.
End ScannerLoop.

(** ** The alert sink (kafka/producer.rs, sink/diesel_sink.rs) *)
Module Sink.
Section sink.
(** [serde_json::to_vec] of an alert, a derived serializer, and the topic. *)
Context (alert_to_vec : Alert → result string string) (alerts_topic : string).

(** The alerts topic and the [alerts] table, keyed by [alert_id]. *)
Record store := Store { published : list record; table : gmap string NewAlertEntity }.

Definition publish (fault : option string) (alert : Alert) : SE store AppError unit :=
  match alert_to_vec alert with
  | Err e => throw (Serialization e)
  | Ok payload =>
      match fault with
      | Some e => throw (KafkaProduce ("Alert publish error: " +:+ e))
      | None => modify (λ s, Store (published s ++ [Record_ alerts_topic payload (al_node_id alert) []]) (table s))
      end
  end.

(** [ON CONFLICT (alert_id) DO NOTHING] *)
Definition insert_one (t : gmap string NewAlertEntity) (e : NewAlertEntity) : gmap string NewAlertEntity :=
  match t !! ne_alert_id e with
  | Some _ => t
  | None => <[ne_alert_id e := e]> t
  end.

(** The outcomes of the external calls of a send. *)
Record faults := Faults { publish_fault : nat → option string; pool_fault : option string; query_fault : option string }.
Definition no_faults : faults := Faults (λ _, None) None None.

Definition get_conn (f : faults) : SE store AppError unit :=
  match pool_fault f with
  | Some e => throw (DatabasePool ("Failed to acquire connection: " +:+ e))
  | None => mret tt
  end.

Definition insert_entities (f : faults) (what : string) (es : list NewAlertEntity) : SE store AppError unit :=
  match query_fault f with
  | Some e => throw (DatabaseQuery (what +:+ e))
  | None => modify (λ s, Store (published s) (foldl insert_one (table s) es))
  end.

Definition send_alert (f : faults) (alert : Alert) : SE store AppError unit :=
  publish (publish_fault f 0) alert;;
  get_conn f;;
  insert_entities f "Failed to insert alert: " [entity_of_alert alert].

(** The publish loop of [send_batch] ignores errors. *)
Fixpoint publish_all (f : nat → option string) (i : nat) (alerts : list Alert) (s : store) : store :=
  match alerts with
  | [] => s
  | a :: alerts => publish_all f (S i) alerts (publish (f i) a s).2
  end.

Definition send_batch (f : faults) (alerts : list Alert) : SE store AppError unit :=
  match alerts with
  | [] => mret tt
  | _ =>
      modify (publish_all (publish_fault f) 0 alerts);;
      get_conn f;;
      insert_entities f "Failed to batch insert alerts: " (entity_of_alert <$> alerts)
  end.

(** ** Batcher loop (main.rs) *)

(** The batcher's variables, its sink, and the batches it handed over with
    whether the sink accepted them. *)
Record batcher := Batcher {
  buffer : list Alert; last_flush : Z; b_metrics : EngineMetrics; b_store : store;
  batches : list (list Alert * bool) }.

(** [send_batch(&buffer)], counting the alerts when it succeeds and [counted]. *)
Definition hand_over (f : faults) (counted : bool) (b : batcher) : batcher :=
  let '(r, st) := send_batch f (buffer b) (b_store b) in
  Batcher (buffer b) (last_flush b)
    (if counted && is_ok r then inc_alerts_persisted (Z.of_nat (length (buffer b))) (b_metrics b) else b_metrics b)
    st (batches b ++ [(buffer b, is_ok r)]).

(** [buffer.clear(); last_flush = Instant::now()] *)
Definition cleared (now : Z) (b : batcher) : batcher :=
  Batcher [] now (b_metrics b) (b_store b) (batches b).

Definition push_alert (a : Alert) (b : batcher) : batcher :=
  Batcher (buffer b ++ [a]) (last_flush b) (b_metrics b) (b_store b) (batches b).

Definition nonempty (b : batcher) : bool := match buffer b with [] => false | _ => true end.

(** A turn: an alert, the timer, the end of the channel, or the shutdown with the
    alerts still in the channel.  [now] is read by [elapsed], [now'] after the send. *)
Inductive turn :=
  | Alert_ (a : Alert) (now now' : Z) (f : faults)
  | Timer (now now' : Z) (f : faults)
  | Closed (f : faults)
  | Shutdown (pending : list Alert) (f : faults).

Definition step_alert (max_size flush_ms : Z) (a : Alert) (now now' : Z) (f : faults) (b : batcher) : batcher :=
  let b1 := push_alert a b in
  if (max_size <=? Z.of_nat (length (buffer b1)))%Z || (flush_ms <=? duration_since now (last_flush b1))%Z
  then cleared now' (hand_over f true b1) else b1.

Definition step_timer (flush_ms : Z) (now now' : Z) (f : faults) (b : batcher) : batcher :=
  if nonempty b && (flush_ms <=? duration_since now (last_flush b))%Z
  then cleared now' (hand_over f true b) else b.

Fixpoint run (max_size flush_ms : Z) (turns : list turn) (b : batcher) : batcher :=
  match turns with
  | [] => b
  | Alert_ a now now' f :: turns => run max_size flush_ms turns (step_alert max_size flush_ms a now now' f b)
  | Timer now now' f :: turns => run max_size flush_ms turns (step_timer flush_ms now now' f b)
  | Closed f :: _ => if nonempty b then hand_over f false b else b
  | Shutdown pending f :: _ =>
      let b1 := foldl (λ b a, push_alert a b) b pending in
      if nonempty b1 then hand_over f true b1 else b1
  end.

(** The alerts a run receives. *)
Fixpoint received (turns : list turn) : list Alert :=
  match turns with
  | [] | Closed _ :: _ => []
  | Alert_ a _ _ _ :: turns => a :: received turns
  | Timer _ _ _ :: turns => received turns
  | Shutdown pending _ :: _ => pending
  end.

(** Does the run end the task? *)
Fixpoint ends (turns : list turn) : bool :=
  match turns with
  | [] => false
  | Closed _ :: _ | Shutdown _ _ :: _ => true
  | _ :: turns => ends turns
  end.
End sink.
End Sink.

(** ** Readiness (health.rs) *)
Module Health.
Definition liveness_handler : string := "OK".
Definition readiness_handler (pool_fault : option string) : Z * string :=
  match pool_fault with
  | None => (200%Z, "READY")
  | Some _ => (503%Z, "DATABASE_UNAVAILABLE")
  end.
Definition metrics_handler (m : EngineMetrics) : string := format_prometheus m.

Inductive handler := Liveness | Readiness | MetricsPage.
Definition create_health_router (path : string) : option handler :=
  if mem path ["/health/live"; "/healthz"] then Some Liveness
  else if mem path ["/health/ready"; "/readyz"] then Some Readiness
  else if String.eqb path "/metrics" then Some MetricsPage else None.
(** What a GET is answered; axum answers 404 where there is no route. *)
Definition serve (path : string) (pool_fault : option string) (m : EngineMetrics) : Z * string :=
  match create_health_router path with
  | Some Liveness => (200%Z, liveness_handler)
  | Some Readiness => readiness_handler pool_fault
  | Some MetricsPage => (200%Z, metrics_handler m)
  | None => (404%Z, "")
  end.
End Health.

(** ** Lemmas *)

Section consumer_lemmas.
Context (parse_event : string → result TelemetryEvent string) (dlq_topic : string).
#[local] Abbreviation run := (Consumer.run parse_event dlq_topic).

Lemma consumer_run_effects turns s :
  Consumer.channel (run turns s) =
    Consumer.channel s ++ (Consumer.disposed parse_event turns ≫= Consumer.event_of parse_event) ∧
  Consumer.dead_letters (run turns s) =
    Consumer.dead_letters s ++ (Consumer.disposed parse_event turns ≫= Consumer.letter_of parse_event dlq_topic) ∧
  Consumer.committed (run turns s) =
    Consumer.committed s ++ (Consumer.disposed parse_event turns ≫= Consumer.commit_of).
Proof.
  revert s. induction turns as [| t turns IH]; intros s; [by rewrite !app_nil_r |].
  destruct t as [| m closed df cf | e |]; simpl; try by rewrite !app_nil_r.
  - unfold Consumer.handle. destruct (str_is_empty _); [apply IH |].
    destruct (parse_event (default "" (m_payload m))) as [ev | err] eqn:Hp; simpl; rewrite ?andb_true_r, ?andb_false_r.
    + destruct closed; simpl; [by rewrite !app_nil_r |].
      unfold Consumer.event_of at 1, Consumer.letter_of at 1, Consumer.commit_of at 1. simpl. rewrite Hp.
      destruct cf; simpl;
        match goal with |- context [run turns ?s'] => destruct (IH s') as (-> & -> & ->) end;
        simpl; by rewrite <-?app_assoc.
    + unfold Consumer.event_of at 1, Consumer.letter_of at 1, Consumer.commit_of at 1. simpl. rewrite Hp.
      unfold Consumer.send_poison_pill. destruct df, cf; simpl;
        match goal with |- context [run turns ?s'] => destruct (IH s') as (-> & -> & ->) end;
        simpl; by rewrite <-?app_assoc.
  - apply IH.
Qed.
End consumer_lemmas.

(** What [emit] preserves: each alert is counted, then sent or counted as
    suppressed. *)
Section scanner_lemmas.
Context `{SerdeJson} {Rules : Type} (scan : Rules → string → result (list MatchedRule) string).
Context `{HL : Lru AlertSignature (Z * Z)} (hash : string → Z).
Context (uuid : nat → string) (utc instant : nat → Z).
Import ScannerLoop.
#[local] Abbreviation emit := (emit hash instant).
#[local] Abbreviation scan_event := (scan_event scan hash uuid utc instant).

Definition balanced (s : scanner) : Prop :=
  (alerts_generated (metrics s) mod 2 ^ 64 =
   (alerts_suppressed (metrics s) + Z.of_nat (length (alert_channel s))) mod 2 ^ 64)%Z.

Lemma mod_shift a b c : ((a `mod` 2 ^ 64 = b `mod` 2 ^ 64) → ((a + c) `mod` 2 ^ 64 = (b + c) `mod` 2 ^ 64))%Z.
Proof. intros Hab. by rewrite <-(Zplus_mod_idemp_l a), Hab, Zplus_mod_idemp_l. Qed.

Lemma emit_balanced a s : balanced s → balanced (emit false s a).
Proof.
  unfold balanced, ScannerLoop.emit. intros Hb. destruct (check_and_record _ _ _ _) as [fresh d].
  destruct (metrics s) as [c sc g u p r f]. simpl in *. unfold fetch_add, wrap_u.
  apply (mod_shift _ _ 1) in Hb. destruct fresh; simpl; rewrite ?length_app; simpl; rewrite Zmod_mod.
  - rewrite Hb. f_equal. lia.
  - rewrite Hb, Zplus_mod_idemp_l. f_equal. lia.
Qed.

Lemma scan_event_balanced reg ev s : balanced s → balanced (scan_event reg false ev s).
Proof.
  intros Hb. unfold ScannerLoop.scan_event.
  assert (balanced (mkScanner (dedup s) (inc_scanned (metrics s)) (alert_channel s) (draws s))) as H1.
  { revert Hb. unfold balanced. by destruct (metrics s). }
  revert H1. generalize (mkScanner (dedup s) (inc_scanned (metrics s)) (alert_channel s) (draws s)).
  intros s1. destruct (evaluate _ _ _ _ _) as [alerts |]; [| done].
  revert s1. induction alerts as [| a l IH]; intros s1 H1; [done |]. simpl. by apply IH, emit_balanced.
Qed.

(** The batcher is alive during the run. *)
Definition open_turn (t : turn (Rules := Rules)) : bool :=
  match t with
  | Event _ closed _ => negb closed
  | Closed => true
  | Shutdown _ closed _ => negb closed
  end.

Lemma scanner_run_balanced turns s :
  forallb open_turn turns = true → balanced s →
  balanced (ScannerLoop.run scan hash uuid utc instant turns s).
Proof.
  revert s. induction turns as [| t turns IH]; intros s Ho Hb; [done |].
  apply andb_true_iff in Ho as [Ht Ho]. destruct t as [reg closed ev | | reg closed pending]; simpl in *.
  - apply negb_true_iff in Ht. subst. by apply IH, scan_event_balanced.
  - done.
  - apply negb_true_iff in Ht. subst. revert s Hb.
    induction pending as [| ev l IHl]; intros s Hb; [done |]. simpl. by apply IHl, scan_event_balanced.
Qed.
End scanner_lemmas.

Section sink_lemmas.
Context (alert_to_vec : Alert → result string string) (alerts_topic : string).
Import Sink.
#[local] Abbreviation hand_over := (hand_over alert_to_vec alerts_topic).
#[local] Abbreviation send_batch := (send_batch alert_to_vec alerts_topic).

Lemma foldl_insert_one es t :
  (∀ k e, t !! k = Some e → foldl insert_one t es !! k = Some e) ∧
  (∀ e, e ∈ es → is_Some (foldl insert_one t es !! ne_alert_id e)) ∧
  (∀ k e, foldl insert_one t es !! k = Some e → t !! k = Some e ∨ (e ∈ es ∧ k = ne_alert_id e)).
Proof.
  revert t. induction es as [| e0 es IH]; intros t; simpl.
  - split_and!; [done | by intros e ?%elem_of_nil | by left].
  - destruct (IH (insert_one t e0)) as (Hold & Hin & Hnew).
    assert (∀ k e, t !! k = Some e → insert_one t e0 !! k = Some e) as Hkeep.
    { intros k e Hk. unfold insert_one. destruct (t !! ne_alert_id e0) eqn:He; [done |].
      rewrite lookup_insert_ne; [done | congruence]. }
    assert (is_Some (insert_one t e0 !! ne_alert_id e0)) as [e1 He1].
    { unfold insert_one. destruct (t !! ne_alert_id e0) eqn:He; [by eexists |].
      rewrite lookup_insert_eq. by eexists. }
    split_and!.
    + intros k e Hk. by apply Hold, Hkeep.
    + intros e [-> | He]%elem_of_cons; [| by apply Hin]. exists e1. by apply Hold.
    + intros k e Hk. destruct (Hnew k e Hk) as [Hk' | [? ?]]; [| right; split; [by right | done]].
      unfold insert_one in Hk'. destruct (t !! ne_alert_id e0) eqn:He; [by left |].
      destruct (decide (k = ne_alert_id e0)) as [-> | Hne].
      * rewrite lookup_insert_eq in Hk'. simplify_eq. right. split; [by left | done].
      * rewrite lookup_insert_ne in Hk' by done. by left.
Qed.

Lemma foldl_insert_one_id es t :
  (∀ e, e ∈ es → is_Some (t !! ne_alert_id e)) → foldl insert_one t es = t.
Proof.
  revert t. induction es as [| e es IH]; intros t Hin; [done |]. simpl.
  destruct (Hin e) as [e' He]; [by left |]. unfold insert_one at 2. rewrite He.
  apply IH. intros e0 ?. apply Hin. by right.
Qed.

Lemma publish_table f a s : table (publish alert_to_vec alerts_topic f a s).2 = table s.
Proof. unfold publish. destruct (alert_to_vec a); [by destruct f | done]. Qed.

Lemma publish_all_table f i alerts s : table (publish_all alert_to_vec alerts_topic f i alerts s) = table s.
Proof.
  revert i s. induction alerts as [| a l IH]; intros i s; [done |]. simpl. by rewrite IH, publish_table.
Qed.

Lemma send_batch_table f alerts s :
  let '(r, s') := send_batch f alerts s in
  table s' = if is_ok r then foldl insert_one (table s) (entity_of_alert <$> alerts) else table s.
Proof.
  destruct alerts as [| a l]; [done |]. unfold Sink.send_batch, mbind, SE_bind, modify, get_conn.
  destruct (pool_fault f); [simpl; by rewrite publish_all_table, publish_table |]. simpl. unfold insert_entities.
  destruct (query_fault f); [simpl; by rewrite publish_all_table, publish_table |]. simpl.
  by rewrite publish_all_table, publish_table.
Qed.

Lemma hand_over_batches f c b :
  ∃ ok, batches (hand_over f c b) = batches b ++ [(buffer b, ok)] ∧
        buffer (hand_over f c b) = buffer b.
Proof. unfold Sink.hand_over. destruct (send_batch _ _ _) as [r st]. by exists (is_ok r). Qed.

(** What the batcher received so far: the batches, then the buffer. *)
Definition contents (b : batcher) : list Alert := concat (batches b).*1 ++ buffer b.

Lemma cleared_contents f c now b : contents (cleared now (hand_over f c b)) = contents b.
Proof.
  unfold contents. destruct (hand_over_batches f c b) as (ok & Hb & _). unfold cleared. simpl.
  rewrite Hb, fmap_app, concat_app. simpl. by rewrite !app_nil_r.
Qed.

Lemma step_alert_contents max_size flush_ms a now now' f b :
  let b' := step_alert alert_to_vec alerts_topic max_size flush_ms a now now' f b in
  contents b' = contents b ++ [a] ∧
  (buffer b' = [] ∨ (Z.of_nat (length (buffer b')) < max_size)%Z).
Proof.
  unfold step_alert. assert (contents (push_alert a b) = contents b ++ [a]) as Hp
    by (unfold contents; simpl; by rewrite app_assoc).
  destruct (Z.leb_spec max_size (Z.of_nat (length (buffer (push_alert a b))))) as [Hm | Hm]; simpl.
  - split; [by rewrite cleared_contents | by left].
  - case_match; simpl; [split; [by rewrite cleared_contents | by left] | by split; [| right]].
Qed.

Lemma step_timer_contents flush_ms now now' f b :
  let b' := step_timer alert_to_vec alerts_topic flush_ms now now' f b in
  contents b' = contents b ∧ (buffer b' = [] ∨ buffer b' = buffer b).
Proof.
  unfold step_timer. case_match; simpl; [| by split; [| right]]. by rewrite cleared_contents; split; [| left].
Qed.

Lemma push_all_contents l b :
  contents (foldl (λ b a, push_alert a b) b l) = contents b ++ l ∧
  batches (foldl (λ b a, push_alert a b) b l) = batches b.
Proof.
  revert b. induction l as [| a l IH]; intros b; simpl; [by rewrite app_nil_r |].
  destruct (IH (push_alert a b)) as [-> ->]. split; [| done].
  unfold contents. simpl. by rewrite <-!app_assoc.
Qed.

Lemma final_hand_over f c b :
  concat (batches (if nonempty b then hand_over f c b else b)).*1 = contents b.
Proof.
  unfold contents, nonempty. destruct (buffer b) as [| a l] eqn:Hb; [by rewrite app_nil_r |].
  destruct (hand_over_batches f c b) as (ok & -> & _). rewrite fmap_app, concat_app. simpl.
  by rewrite Hb, app_nil_r.
Qed.

Lemma batcher_run_contents max_size flush_ms turns b :
  let b' := Sink.run alert_to_vec alerts_topic max_size flush_ms turns b in
  if ends turns then concat (batches b').*1 = contents b ++ received turns
  else contents b' = contents b ++ received turns ∧
    ((buffer b = [] ∨ (Z.of_nat (length (buffer b)) < max_size)%Z) →
     buffer b' = [] ∨ (Z.of_nat (length (buffer b')) < max_size)%Z).
Proof.
  revert b. induction turns as [| t turns IH]; intros b; simpl; [by rewrite app_nil_r |].
  destruct t as [a now now' f | now now' f | f | pending f]; simpl.
  - specialize (IH (step_alert alert_to_vec alerts_topic max_size flush_ms a now now' f b)).
    destruct (step_alert_contents max_size flush_ms a now now' f b) as [Hc Hs].
    simpl in *. rewrite Hc, <-app_assoc in IH. destruct (ends turns); [done |]. naive_solver.
  - specialize (IH (step_timer alert_to_vec alerts_topic flush_ms now now' f b)).
    destruct (step_timer_contents flush_ms now now' f b) as [Hc Hs].
    simpl in *. rewrite Hc in IH. destruct (ends turns); [done |]. destruct IH as [IH1 IH2].
    split; [done |]. intros Hb. apply IH2. destruct Hs as [-> | ->]; [by left | done].
  - rewrite final_hand_over. by rewrite app_nil_r.
  - rewrite final_hand_over. apply push_all_contents.
Qed.
End sink_lemmas.

(** ** Properties *)

(** Over any run of the telemetry consumer, the parsable messages it
    disposes of become events, in order, the others dead letters (unless the
    dead-letter send fails), and exactly those messages have their offset
    committed, unless the commit fails: an event that the closed channel refuses
    stops the run uncommitted, and an empty payload is skipped uncommitted. *)
Theorem consumer_disposes_and_commits parse_event dlq_topic turns :
  let s := Consumer.run parse_event dlq_topic turns (Consumer.mkConsumer [] [] []) in
  let ms := Consumer.disposed parse_event turns in
  Consumer.channel s = ms ≫= Consumer.event_of parse_event ∧
  Consumer.dead_letters s = ms ≫= Consumer.letter_of parse_event dlq_topic ∧
  Consumer.committed s = ms ≫= Consumer.commit_of ∧
  Forall (λ x, default "" (m_payload x.1.1) ≠ "") ms.
Proof.
  destruct (consumer_run_effects parse_event dlq_topic turns (Consumer.mkConsumer [] [] [])) as (H1 & H2 & H3).
  split_and!; [done.. |]. clear H1 H2 H3.
  induction turns as [| t turns IH]; [constructor |]. destruct t as [| m closed df cf | |]; simpl; try done.
  destruct (default "" (m_payload m)) as [| a r] eqn:Hp; simpl; [done |].
  case_match; [constructor |]. constructor; [simpl; by rewrite Hp | done].
Qed.

(** While the batcher listens, every alert the scanner generates is either
    sent on or counted as suppressed: the generated counter is the suppressed
    counter plus the number of alerts sent, modulo the counters' width. *)
Theorem alerts_accounted `{SerdeJson} {Rules} (scan : Rules → string → result (list MatchedRule) string)
    `{HL : Lru AlertSignature (Z * Z)} hash uuid utc instant d turns :
  forallb open_turn turns = true →
  let s := ScannerLoop.run scan hash uuid utc instant turns (ScannerLoop.mkScanner d metrics_new [] 0) in
  (alerts_generated (ScannerLoop.metrics s) mod 2 ^ 64 =
   (alerts_suppressed (ScannerLoop.metrics s) + Z.of_nat (length (ScannerLoop.alert_channel s))) mod 2 ^ 64)%Z.
Proof. intros Ho. by apply (scanner_run_balanced scan hash uuid utc instant turns). Qed.

#[local] Existing Instance MruList.mru_lru.
Definition example_event (id : string) : TelemetryEvent :=
  mkEvent id "n1" "h" "process" 0 (JObject [("cmd", JString "nc -e /bin/sh")]) None.
Definition example_registry : EngineRegistry nat := Registry {["process" := 0%nat]} ∅.
Definition example_scan (_ : nat) (_ : string) : result (list MatchedRule) string := Ok [Matched "rev_shell" []].

Lemma alerts_accounted_witness :
  let S := table_serde [] "" in
  let s := ScannerLoop.run example_scan (λ _, 3%Z) (λ _, "u") (λ _, 0%Z) Z.of_nat
             [ScannerLoop.Event example_registry false (example_event "e1");
              ScannerLoop.Event example_registry false (example_event "e2")]
             (ScannerLoop.mkScanner example_dedup metrics_new [] 0) in
  alerts_generated (ScannerLoop.metrics s) = 2%Z ∧
  (alerts_generated (ScannerLoop.metrics s) mod 2 ^ 64 =
   (alerts_suppressed (ScannerLoop.metrics s) + Z.of_nat (length (ScannerLoop.alert_channel s))) mod 2 ^ 64)%Z.
Proof.
  intros S s. split; [by vm_compute |].
  exact (alerts_accounted example_scan (λ _, 3%Z) (λ _, "u") (λ _, 0%Z) Z.of_nat example_dedup
    [ScannerLoop.Event example_registry false (example_event "e1");
     ScannerLoop.Event example_registry false (example_event "e2")] eq_refl).
Defined.

(** The batcher loses and reorders nothing on its way to the sink: from an
    empty buffer, the batches handed over followed by the buffer are the alerts
    received, and after the task ends the batches alone are; the buffer stays
    below the maximal batch size while it runs. *)
Theorem batcher_hands_over_everything alert_to_vec alerts_topic max_size flush_ms turns now m st :
  let b' := Sink.run alert_to_vec alerts_topic max_size flush_ms turns (Sink.Batcher [] now m st []) in
  if Sink.ends turns then concat (Sink.batches b').*1 = Sink.received turns
  else concat (Sink.batches b').*1 ++ Sink.buffer b' = Sink.received turns ∧
    (Sink.buffer b' = [] ∨ (Z.of_nat (length (Sink.buffer b')) < max_size)%Z).
Proof.
  pose proof (batcher_run_contents alert_to_vec alerts_topic max_size flush_ms turns
    (Sink.Batcher [] now m st [])) as H. simpl in *.
  destruct (Sink.ends turns); [done |]. destruct H as [H1 H2]. split; [exact H1 |]. apply H2. by left.
Qed.

(** [send_batch] stores all or nothing: on success every alert of the batch has a
    row, rows present before keep their contents, no other row appears, and
    sending the batch again changes no row; on an error the table is as before. *)
Theorem send_batch_stores alert_to_vec alerts_topic f alerts s :
  let '(r, s') := Sink.send_batch alert_to_vec alerts_topic f alerts s in
  match r with
  | Err _ => Sink.table s' = Sink.table s
  | Ok _ =>
      (∀ a, a ∈ alerts → is_Some (Sink.table s' !! alert_id a)) ∧
      (∀ k e, Sink.table s !! k = Some e → Sink.table s' !! k = Some e) ∧
      (∀ k e, Sink.table s' !! k = Some e →
         Sink.table s !! k = Some e ∨ ∃ a, a ∈ alerts ∧ e = entity_of_alert a ∧ k = alert_id a) ∧
      ∀ f2, Sink.table (Sink.send_batch alert_to_vec alerts_topic f2 alerts s').2 = Sink.table s'
  end.
Proof.
  pose proof (send_batch_table alert_to_vec alerts_topic f alerts s) as Ht.
  destruct (Sink.send_batch _ _ f alerts s) as [[[] | e] s']; simpl in Ht; [| done].
  destruct (foldl_insert_one (entity_of_alert <$> alerts) (Sink.table s)) as (Hold & Hin & Hnew).
  rewrite <-Ht in *. split_and!.
  - intros a Ha. apply (Hin (entity_of_alert a)). by apply list_elem_of_fmap_2.
  - done.
  - intros k e Hk. destruct (Hnew k e Hk) as [? | [He ->]]; [by left | right].
    apply list_elem_of_fmap in He as (a & -> & Ha). by exists a.
  - intros f2. pose proof (send_batch_table alert_to_vec alerts_topic f2 alerts s') as H2.
    destruct (Sink.send_batch _ _ f2 alerts s') as [r2 s2]. simpl in *. rewrite H2.
    destruct (is_ok r2); [| done]. by apply foldl_insert_one_id.
Qed.
