(* ===== verification/KafkaClients.v ===== *)
(** * Kafka clients: their settings, and consumer groups across restarts
      (kafka-handler/src/lib.rs; kafka-pipeline/src/consumer.rs, main.rs;
      rule-engine/src/kafka; api-backend/src/kafka/consumer.rs)

    What each process sets on its client, and what the settings mean for a consumer
    that is killed and started again: from which offset a partition is read, and
    who commits.  A partition is the list of its messages. *)
From Stdlib Require Import ZArith Lia.
From S2P Require Import Prelude Json RuleModels Pipeline Dedup Scanner RuleEngine.
Import EventRouter.
#[local] Open Scope string_scope.
#[local] Open Scope list_scope.
#[local] Open Scope nat_scope.

(** ** Settings *)

(** [ClientConfig::set]: a later value for a key replaces the earlier one. *)
Definition config : Type := gmap string string.
Definition set_all (l : list (string * string)) : config := foldl (λ m '(k, v), <[k := v]> m) ∅ l.

Definition fleet_producer (brokers : string) : config := set_all
  [("bootstrap.servers", brokers); ("message.timeout.ms", "5000"); ("compression.type", "lz4"); ("linger.ms", "5");
   ("batch.num.messages", "10000"); ("queue.buffering.max.messages", "100000");
   ("queue.buffering.max.kbytes", "65536"); ("acks", "1")].

Definition router_producer (brokers : string) : config := set_all
  [("bootstrap.servers", brokers); ("linger.ms", "5"); ("compression.type", "lz4"); ("batch.num.messages", "10000");
   ("queue.buffering.max.messages", "100000"); ("queue.buffering.max.kbytes", "65536"); ("acks", "1")].

Definition pipeline_consumer (brokers group_id : string) : config := set_all
  [("bootstrap.servers", brokers); ("group.id", group_id); ("auto.offset.reset", "earliest");
   ("enable.auto.commit", "false"); ("auto.commit.interval.ms", "1000"); ("fetch.min.bytes", "1");
   ("fetch.wait.max.ms", "100"); ("max.poll.interval.ms", "300000"); ("session.timeout.ms", "45000")].

Definition engine_consumer (brokers group_id : string) : config := set_all
  [("bootstrap.servers", brokers); ("group.id", group_id); ("partition.assignment.strategy", "cooperative-sticky");
   ("auto.offset.reset", "earliest"); ("enable.auto.commit", "false"); ("enable.auto.offset.store", "false");
   ("fetch.min.bytes", "1"); ("fetch.wait.max.ms", "100"); ("session.timeout.ms", "45000");
   ("max.poll.interval.ms", "300000")].

Definition alert_producer (brokers : string) : config := set_all
  [("bootstrap.servers", brokers); ("message.timeout.ms", "5000"); ("queue.buffering.max.messages", "100000");
   ("compression.type", "lz4"); ("linger.ms", "5"); ("batch.num.messages", "10000"); ("acks", "1")].

Definition dlq_producer (brokers : string) : config := set_all
  [("bootstrap.servers", brokers); ("message.timeout.ms", "5000"); ("queue.buffering.max.messages", "50000")].

Definition api_consumer (brokers group_id : string) : config := set_all
  [("bootstrap.servers", brokers); ("group.id", group_id); ("enable.auto.commit", "true");
   ("auto.offset.reset", "latest"); ("session.timeout.ms", "6000")].

(** ** Construction: the library's [create] and [subscribe] with the callers' errors *)
Section construct.
Context {Client : Type} (create : config → result Client string).
Context (subscribe : list string → Client → option string).

(** [KafkaPublisher::new] *)
Definition publisher_new (brokers : string) : result Client string := create (fleet_producer brokers).

(** [ConsumerWorker::new] *)
Definition worker_new (brokers group_id : string) (topics : list string) : result Client string :=
  match create (pipeline_consumer brokers group_id) with
  | Err e => Err ("Consumer creation error: " +:+ e)
  | Ok c => match subscribe topics c with
            | Some e => Err ("Topic subscription error: " +:+ e)
            | None => Ok c
            end
  end.

(** [TelemetryConsumer::new], [AlertKafkaProducer::new], [DlqProducer::new] *)
Definition telemetry_consumer_new (brokers group_id : string) (topics : list string) : result Client AppError :=
  match create (engine_consumer brokers group_id) with
  | Err e => Err (KafkaConsume ("Failed to create Kafka consumer: " +:+ e))
  | Ok c => match subscribe topics c with
            | Some e => Err (KafkaConsume ("Failed to subscribe to topics: " +:+ e))
            | None => Ok c
            end
  end.
Definition alert_producer_new (brokers topic : string) : result (Client * string) AppError :=
  match create (alert_producer brokers) with
  | Err e => Err (KafkaProduce ("Failed to create alerts producer: " +:+ e))
  | Ok c => Ok (c, topic)
  end.
Definition dlq_producer_new (brokers topic : string) : result (Client * string) AppError :=
  match create (dlq_producer brokers) with
  | Err e => Err (KafkaProduce ("Failed to create DLQ producer: " +:+ e))
  | Ok c => Ok (c, topic)
  end.

(** The head of [start_kafka_consumer]: without a client it returns. *)
Definition api_consumer_start (brokers group_id : string) (topics : list string) : option Client :=
  match create (api_consumer brokers group_id) with
  | Err _ => None
  | Ok c => match subscribe topics c with Some _ => None | None => Some c end
  end.
End construct.

(** ** A consumer group on one partition *)

(** librdkafka commits the read position by itself unless it is told not to. *)
Definition auto_commit (cfg : config) : bool :=
  match cfg !! "enable.auto.commit" with Some v => negb (String.eqb v "false") | None => true end.
(** Without a committed offset reading starts at the oldest message or at the end. *)
Definition from_oldest (cfg : config) : bool :=
  match cfg !! "auto.offset.reset" with Some v => String.eqb v "earliest" | None => false end.

Section group.
(** The consumer's messages, what it keeps, what else a turn meets, and the turn:
    the new state, whether the message's offset was committed, whether the loop
    goes on; [restart] is what a new process finds of the old one's state. *)
Context {M W F : Type} (cfg : config) (work : M → F → W → W * bool * bool) (restart : W → W).

(** [position] is the next offset to read, [None] when no consumer runs; [turns]
    is the history of what was processed. *)
Record group := Group {
  log : list M; committed : option nat; position : option nat; state : W; turns : list (nat * F) }.

Inductive label := Produce (m : M) | Start | Turn (f : F) | AutoCommit | Stop.

Definition fire (l : label) (g : group) : option group :=
  match l with
  | Produce m => Some (Group (log g ++ [m]) (committed g) (position g) (state g) (turns g))
  | Start =>
      match position g with
      | Some _ => None
      | None =>
          let reset := if from_oldest cfg then 0 else length (log g) in
          Some (Group (log g) (committed g) (Some (default reset (committed g))) (restart (state g)) (turns g))
      end
  | Turn f =>
      p ← position g; m ← log g !! p;
      let '(w, commit, go_on) := work m f (state g) in
      Some (Group (log g) (if (commit : bool) then Some (S p) else committed g)
              (if (go_on : bool) then Some (S p) else None) w (turns g ++ [(p, f)]))
  | AutoCommit =>
      p ← position g;
      if auto_commit cfg then Some (Group (log g) (Some p) (position g) (state g) (turns g)) else None
  | Stop => Some (Group (log g) (committed g) None (state g) (turns g))
  end.

Definition idle (l : list M) (w : W) : group := Group l None None w [].

(** Every message below the offset was processed. *)
Definition processed_below (g : group) (p : nat) : Prop := ∀ o, o < p → o ∈ (turns g).*1.

Definition group_ok (g : group) : Prop :=
  (∀ c, committed g = Some c → processed_below g c) ∧ (∀ p, position g = Some p → processed_below g p).

Lemma fire_group_ok l g g' :
  auto_commit cfg = false → from_oldest cfg = true → fire l g = Some g' → group_ok g → group_ok g'.
Proof.
  intros Ha Hf Hl [Hc Hp]. unfold group_ok, processed_below in *. destruct l as [m | | f | |]; cbn [fire] in Hl.
  - by injection Hl as <-.
  - destruct (position g); [done |]. injection Hl as <-. simpl. rewrite Hf. split; [done |].
    intros p [= <-] o Ho. destruct (committed g) as [c |] eqn:Hcg; simpl in Ho; [by eapply Hc | lia].
  - apply bind_Some in Hl as (p & Hpos & Hl). apply bind_Some in Hl as (m & Hm & Hl).
    destruct (work m f (state g)) as [[w commit] go_on]. injection Hl as <-. simpl.
    assert (∀ o, o < S p → o ∈ (turns g ++ [(p, f)]).*1) as Hnew.
    { intros o Ho. rewrite fmap_app, elem_of_app. simpl. rewrite list_elem_of_singleton.
      destruct (decide (o = p)) as [-> |]; [by right | left]. apply (Hp p Hpos). lia. }
    assert (∀ o, o ∈ (turns g).*1 → o ∈ (turns g ++ [(p, f)]).*1) as Hold
      by (intros o Ho; rewrite fmap_app, elem_of_app; by left).
    split.
    + intros c. destruct commit; [intros [= <-]; exact Hnew |]. intros Hcc o Ho. by apply Hold, (Hc c Hcc).
    + intros q. destruct go_on; [intros [= <-]; exact Hnew | done].
  - apply bind_Some in Hl as (p & Hpos & Hl). by rewrite Ha in Hl.
  - injection Hl as <-. simpl. split; [done | by intros p [=]].
Qed.

Lemma reached_group_ok l w g :
  auto_commit cfg = false → from_oldest cfg = true → reached fire any_order (idle l w) g → group_ok g.
Proof.
  intros Ha Hf. apply reached_invariant; [by intros; eapply fire_group_ok |]. by split.
Qed.

(** What a turn establishes of its message, and later turns and restarts keep. *)
Lemma turns_hold (Q : M → F → W → Prop) l w g :
  (∀ m f w1, Q m f (work m f w1).1.1) → (∀ m f m' f' w1, Q m f w1 → Q m f (work m' f' w1).1.1) →
  (∀ m f w1, Q m f w1 → Q m f (restart w1)) →
  reached fire any_order (idle l w) g →
  ∀ o f, (o, f) ∈ turns g → ∃ m, log g !! o = Some m ∧ Q m f (state g).
Proof.
  intros Hnew Hkeep Hrestart. apply (reached_invariant fire (λ g, ∀ o f, (o, f) ∈ turns g →
    ∃ m, log g !! o = Some m ∧ Q m f (state g))); [| by intros o f ?%elem_of_nil].
  intros g0 lb g' _ _ Hl IH. destruct lb as [m | | f | |]; cbn [fire] in Hl.
  - injection Hl as <-. simpl. intros o f Ho. destruct (IH o f Ho) as (m' & Hm & HQ).
    exists m'. split; [by apply lookup_app_l_Some | done].
  - destruct (position g0); [done |]. injection Hl as <-. simpl. intros o f Ho.
    destruct (IH o f Ho) as (m & Hm & HQ). eauto.
  - apply bind_Some in Hl as (p & Hpos & Hl). apply bind_Some in Hl as (m & Hm & Hl).
    destruct (work m f (state g0)) as [[w1 commit] go_on] eqn:Hw. injection Hl as <-. simpl.
    pose proof (Hnew m f (state g0)) as HQ0. rewrite Hw in HQ0.
    intros o f' [Ho | Ho]%elem_of_app.
    + destruct (IH o f' Ho) as (m' & Hm' & HQ). exists m'. split; [done |].
      pose proof (Hkeep m' f' m f (state g0) HQ) as HQ'. by rewrite Hw in HQ'.
    + apply list_elem_of_singleton in Ho. injection Ho as -> ->. by exists m.
  - apply bind_Some in Hl as (p & Hpos & Hl). destruct (auto_commit cfg); [| done]. by injection Hl as <-.
  - by injection Hl as <-.
Qed.

(** A run of turns that go on. *)
Lemma turns_run f n g p :
  (∀ m w1, (work m f w1).1.2 = true ∧ (work m f w1).2 = true) →
  position g = Some p → p + n ≤ length (log g) →
  ∃ g', fire_all fire any_order (replicate n (Turn f)) g = Some g' ∧ log g' = log g ∧
    position g' = Some (p + n) ∧ ∃ later, turns g' = turns g ++ later ∧
    (∀ o, p ≤ o < p + n → (o, f) ∈ later).
Proof.
  intros Hgo. revert g p. induction n as [| n IH]; intros g p Hp Hn.
  - exists g. split_and!; [done | done | by rewrite Nat.add_0_r |]. exists []. rewrite app_nil_r. split; [done | lia].
  - destruct (lookup_lt_is_Some_2 (log g) p) as [m Hm]; [lia |].
    cbn [replicate fire_all fire any_order]. rewrite Hp. cbn [mbind option_bind]. rewrite Hm. cbn [mbind option_bind].
    pose proof (Hgo m (state g)) as [Hc Hg]. destruct (work m f (state g)) as [[w1 commit] go_on]. simpl in Hc, Hg. subst.
    destruct (IH (Group (log g) (Some (S p)) (Some (S p)) w1 (turns g ++ [(p, f)])) (S p)) as
      (g' & Hf & Hlog & Hpos & later & Ht & Hin); [done | simpl; lia |].
    exists g'. split_and!; [exact Hf | exact Hlog | rewrite Hpos; f_equal; lia |].
    exists ((p, f) :: later). simpl in Ht. rewrite Ht, <-app_assoc. split; [done |].
    intros o Ho. destruct (decide (o = p)) as [-> |]; [by left | right; apply Hin; lia].
Qed.
End group.

(** ** The pipeline's worker as the consumer *)
Section pipeline.
Context `{SerdeJson}.

(** A turn with the outcomes of its send and its commit; a new process starts with
    fresh counters, the broker keeps its records. *)
Definition pipeline_turn (m : message) (f : option string * option string) (w : worker) : worker * bool * bool :=
  (handle_message m f.1 f.2 w, match f.2 with None => true | Some _ => false end, true).
Definition pipeline_restart (w : worker) : worker := Worker (Router Metrics.new (sent (proc w))) (EventRouter.committed w).

Definition record_for (m : message) : record :=
  routed_record (m_key m) (default "" (m_payload m)) (m_topic m) (m_partition m) (m_offset m).

Lemma handle_message_sent m sf cf w :
  sent (proc (handle_message m sf cf w)) = sent (proc w) ++ match sf with None => [record_for m] | Some _ => [] end.
Proof.
  unfold handle_message, record_for.
  pose proof (process_run sf (m_key m) (default "" (m_payload m)) (m_topic m) (m_partition m) (m_offset m) (proc w)) as Hp.
  destruct (process _ _ _ _ _ _ _) as [res r]. simpl in Hp. subst r.
  destruct cf, sf; simpl; by rewrite ?app_nil_r.
Qed.

(** The turn put the message's record on the broker, unless its send failed. *)
Definition routed (m : message) (f : option string * option string) (w : worker) : Prop :=
  f.1 = None → record_for m ∈ sent (proc w).

#[local] Abbreviation pipeline_fire brokers group_id :=
  (fire (pipeline_consumer brokers group_id) pipeline_turn pipeline_restart).

Lemma turns_routed brokers group_id l w g :
  reached (pipeline_fire brokers group_id) any_order (idle l w) g →
  ∀ o f, (o, f) ∈ turns g → ∃ m, log g !! o = Some m ∧ routed m f (state g).
Proof.
  apply (turns_hold _ pipeline_turn pipeline_restart routed); unfold routed.
  - intros m [sf cf] w1 Hf. simpl in *. subst. rewrite handle_message_sent. apply elem_of_app. right. by left.
  - intros m f m' f' w1 Hq Hf. simpl. rewrite handle_message_sent. apply elem_of_app. left. by apply Hq.
  - done.
Qed.

(** The records the worker sent are those of the messages of its partition. *)
Lemma sent_from_log brokers group_id l g :
  reached (pipeline_fire brokers group_id) any_order (idle l (Worker (Router Metrics.new []) [])) g →
  ∀ r, r ∈ sent (proc (state g)) → ∃ m, m ∈ log g ∧ r = record_for m.
Proof.
  apply (reached_invariant _ (λ g, ∀ r, r ∈ sent (proc (state g)) → ∃ m, m ∈ log g ∧ r = record_for m));
    [| by intros r ?%elem_of_nil].
  intros g0 lb g' _ _ Hl IH. destruct lb as [m | | [sf cf] | |]; cbn [fire] in Hl.
  - injection Hl as <-. intros r Hr. destruct (IH r Hr) as (m' & Hm & ->). exists m'.
    split; [simpl; apply elem_of_app; by left | done].
  - destruct (position g0); [done |]. by injection Hl as <-.
  - apply bind_Some in Hl as (p & _ & Hl). apply bind_Some in Hl as (m & Hm & Hl).
    cbn [pipeline_turn fst snd] in Hl. injection Hl as <-. simpl. intros r. rewrite handle_message_sent, elem_of_app.
    intros [Hr | Hr]; [by apply IH |]. destruct sf; [by apply elem_of_nil in Hr |].
    apply list_elem_of_singleton in Hr as ->. exists m. split; [by eapply list_elem_of_lookup_2 | done].
  - apply bind_Some in Hl as (p & _ & Hl). by destruct (auto_commit _); simplify_eq.
  - by injection Hl as <-.
Qed.

(** What it sent stays sent, also over a restart. *)
Lemma sent_grows brokers group_id l g g' r :
  pipeline_fire brokers group_id l g = Some g' → r ∈ sent (proc (state g)) → r ∈ sent (proc (state g')).
Proof.
  intros Hl Hr. destruct l as [m | | [sf cf] | |]; cbn [fire] in Hl.
  - by injection Hl as <-.
  - destruct (position g); [done |]. by injection Hl as <-.
  - apply bind_Some in Hl as (p & _ & Hl). apply bind_Some in Hl as (m & _ & Hl).
    cbn [pipeline_turn fst snd] in Hl. injection Hl as <-. simpl. rewrite handle_message_sent. apply elem_of_app. by left.
  - apply bind_Some in Hl as (p & _ & Hl). destruct (auto_commit _); [| done]. by injection Hl as <-.
  - by injection Hl as <-.
Qed.

(** Started again and left alone, the worker reads the partition to its end. *)
Lemma partition_catches_up brokers group_id l w g :
  reached (pipeline_fire brokers group_id) any_order (idle l w) g →
  ∃ n g', fire_all (pipeline_fire brokers group_id) any_order ([Stop; Start] ++ replicate n (Turn (None, None))) g = Some g' ∧
    log g' = log g ∧
    ∀ o m, log g !! o = Some m →
      record_for m ∈ sent (proc (state g')) ∨ ∃ f e, (o, f) ∈ turns g ∧ f.1 = Some e.
Proof.
  intros Hr. set (cfg := pipeline_consumer brokers group_id) in *.
  destruct (reached_group_ok cfg pipeline_turn pipeline_restart l w g eq_refl eq_refl Hr) as [Hc _].
  set (c := default 0 (committed g)).
  assert (∀ o, o < c → o ∈ (turns g).*1) as Hbelow.
  { unfold c. destruct (committed g) as [c0 |] eqn:Hcg; simpl; [by apply Hc | lia]. }
  set (g1 := Group (log g) (committed g) (Some c) (pipeline_restart (state g)) (turns g)).
  destruct (turns_run cfg pipeline_turn pipeline_restart (None, None) (length (log g) - c) g1 c) as
    (g' & Hrun & Hlog & Hpos & later & Ht & Hin); [done | done | |].
  { simpl. destruct (decide (c ≤ length (log g))) as [? | Hgt]; [lia |]. exfalso.
    assert (length (log g) ∈ (turns g).*1) as Hx by (apply Hbelow; lia).
    apply list_elem_of_fmap in Hx as ([o f] & Heq & Hx). destruct (turns_routed _ _ _ _ g Hr o f Hx) as (m & Hm%lookup_lt_Some & _).
    simpl in Heq. lia. }
  exists (length (log g) - c), g'. split_and!; [exact Hrun | exact Hlog |]. intros o m Hm.
  assert (reached (pipeline_fire brokers group_id) any_order (idle l w) g') as Hr'.
  { eapply fire_all_reached; [exact Hr |]. instantiate (1 := [Stop; Start] ++ _). exact Hrun. }
  assert (∀ f, (o, f) ∈ turns g' → f.1 = None → record_for m ∈ sent (proc (state g'))) as Hdone.
  { intros f Hof Hn. destruct (turns_routed _ _ _ _ g' Hr' o f Hof) as (m' & Hm' & HQ). rewrite Hlog in Hm'. simpl in Hm'.
    simplify_eq. by apply HQ. }
  destruct (decide (o < c)) as [Hlt | Hge].
  - apply Hbelow, list_elem_of_fmap in Hlt as ([o' f] & -> & Hof). simpl in *.
    destruct (f.1) as [e |] eqn:Hf; [right; by exists f, e | left].
    apply (Hdone f); [| done]. rewrite Ht. apply elem_of_app. by left.
  - left. apply (Hdone (None, None)); [| done]. rewrite Ht. apply elem_of_app. right.
    apply Hin. apply lookup_lt_Some in Hm. lia.
Qed.

(** ** Properties *)

(** With the settings of its client the pipeline's worker reads a partition
    at least once across kills and restarts: every message below the committed
    offset had its turn, and its record is at the broker unless that turn's send
    failed; and whenever it is started again and runs without faults, every message
    of the partition is routed but for those whose send failed before. *)
Theorem partition_read_at_least_once brokers group_id l w g :
  let step := fire (pipeline_consumer brokers group_id) pipeline_turn pipeline_restart in
  reached step any_order (idle l w) g →
  (∀ c o m, committed g = Some c → o < c → log g !! o = Some m →
     ∃ f, (o, f) ∈ turns g ∧ (f.1 = None → record_for m ∈ sent (proc (state g)))) ∧
  ∃ ls g', fire_all step any_order ls g = Some g' ∧ log g' = log g ∧
    ∀ o m, log g !! o = Some m →
      record_for m ∈ sent (proc (state g')) ∨ ∃ f e, (o, f) ∈ turns g ∧ f.1 = Some e.
Proof.
  intros step Hr. split.
  - intros c o m Hcg Hlt Hm.
    destruct (reached_group_ok (pipeline_consumer brokers group_id) pipeline_turn pipeline_restart l w g
      eq_refl eq_refl Hr) as [Hc _].
    specialize (Hc c Hcg o Hlt). apply list_elem_of_fmap in Hc as ([o' f] & -> & Hin).
    exists f. split; [done |]. destruct (turns_routed _ _ _ _ g Hr o' f Hin) as (m' & Hm' & HQ). simpl in Hm. simplify_eq. exact HQ.
  - destruct (partition_catches_up _ _ _ _ g Hr) as (n & g' & Hf & Hlog & Hall). by eexists _, g'.
Qed.
End pipeline.

(** *** A worker killed before its first commit arrived *)
#[local] Instance example_json : SerdeJson := table_serde [("{}", JObject [])] "out".
Definition example_message (offset : Z) : message := Message "aigis.events.raw" 0 offset (Some "n1") (Some "{}").
Definition example_worker : worker := Worker (Router Metrics.new []) [].
Definition example_step := fire (pipeline_consumer "b" "g") pipeline_turn pipeline_restart.
Definition example_labels : list (label (M := message) (F := option string * option string)) :=
  [Start; Turn (None, Some "timed out"); Stop; Start; Turn (Some "queue full", None); Stop].
Definition example_group : group :=
  default (idle [] example_worker)
    (fire_all example_step any_order example_labels (idle [example_message 0; example_message 1] example_worker)).

Lemma partition_read_at_least_once_witness :
  committed example_group = Some 1 ∧ length (turns example_group) = 2 ∧
  (∃ f, (0, f) ∈ turns example_group ∧ (f.1 = None → record_for (example_message 0) ∈ sent (proc (state example_group)))) ∧
  ∃ ls g', fire_all example_step any_order ls example_group = Some g' ∧
    (record_for (example_message 1) ∈ sent (proc (state g')) ∨ ∃ f e, (1, f) ∈ turns example_group ∧ f.1 = Some e).
Proof.
  split; [by vm_compute |]. split; [by vm_compute |].
  destruct (partition_read_at_least_once "b" "g" [example_message 0; example_message 1] example_worker example_group)
    as [Hbelow (ls & g' & Hf & Hlog & Hall)].
  { eapply fire_all_reached; [apply reached_start |]. instantiate (1 := example_labels).
    apply (some_default (idle [] example_worker)). by vm_compute. }
  split.
  - apply (Hbelow 1 0 (example_message 0)); [by vm_compute | lia | by vm_compute].
  - exists ls, g'. split; [exact Hf |]. apply Hall. by vm_compute.
Defined.

(** The engine's consumer commits by hand as well, the API's does not, and begins at
    the end of a partition it has no offset for. *)
Lemma commit_modes brokers group_id :
  auto_commit (engine_consumer brokers group_id) = false ∧ from_oldest (engine_consumer brokers group_id) = true ∧
  auto_commit (api_consumer brokers group_id) = true ∧ from_oldest (api_consumer brokers group_id) = false.
Proof. by split_and!. Qed.

(** The rule engine's consumer on a partition: whatever it does with a message, and
    however often the process is killed, every message below the committed offset
    had its turn. *)
Section engine.
Context (parse_event : string → result TelemetryEvent string) (dlq_topic : string).

(** The queue of events dies with the process. *)
Definition engine_turn (m : message) (f : bool * option string * option string) (s : Consumer.consumer)
    : Consumer.consumer * bool * bool :=
  let '(closed, df, cf) := f in
  let '(flow, s') := Consumer.handle parse_event dlq_topic m closed df cf s in
  (s', negb (Nat.eqb (length (Consumer.committed s')) (length (Consumer.committed s))),
   match flow with Consumer.Continue => true | Consumer.Break => false end).
Definition engine_restart (s : Consumer.consumer) : Consumer.consumer := Consumer.mkConsumer [] (Consumer.dead_letters s) (Consumer.committed s).

Lemma engine_partition_in_order brokers group_id l s g :
  reached (fire (engine_consumer brokers group_id) engine_turn engine_restart) any_order (idle l s) g →
  ∀ c, committed g = Some c → processed_below g c.
Proof. intros Hr. by apply (reached_group_ok (engine_consumer brokers group_id) engine_turn engine_restart l s g). Qed.

(** An event whose offset is committed is in the queue only: a kill before its scan
    loses it. *)
Lemma engine_kill_loses brokers group_id m ev s :
  str_is_empty (default "" (m_payload m)) = false → parse_event (default "" (m_payload m)) = Ok ev →
  ∃ g, reached (fire (engine_consumer brokers group_id) engine_turn engine_restart) any_order (idle [m] s) g ∧
    committed g = Some 1 ∧ position g = Some 1 ∧ Consumer.channel (state g) = [].
Proof.
  intros He Hp.
  assert (engine_turn m (false, None, None) (engine_restart s) =
          (Consumer.mkConsumer [ev] (Consumer.dead_letters s) (Consumer.committed s ++ [EventRouter.position m]), true, true)) as Ht.
  { unfold engine_turn, Consumer.handle. rewrite He, Hp. simpl. rewrite length_app. simpl.
    destruct (Nat.eqb_spec (length (Consumer.committed s) + 1) (length (Consumer.committed s))); [lia | done]. }
  eexists. split; [eapply fire_all_reached; [apply reached_start |] |].
  { instantiate (2 := [Start; Turn (false, None, None); Stop; Start]). cbn [fire_all fire any_order idle position
      committed log state turns mbind option_bind lookup list_lookup default from_option].
    change (from_oldest (engine_consumer brokers group_id)) with true. cbn [from_option id lookup list_lookup mbind option_bind].
    rewrite Ht. reflexivity. }
  by split_and!.
Qed.
End engine.
