(* ===== verification/EngineSystem.v ===== *)
(** * The rule engine as concurrent tasks (rule-engine/src/main.rs)

    The consumer, the scanner and the batcher of [RuleEngine] run at the same time,
    joined by two bounded channels, a shutdown token and the registry a SIGHUP
    swaps.  One label is one atomic action of a task between two [await]s; [fire]
    runs it when the task can take it, and [reached] states arise from any
    interleaving.  A channel is the list of everything ever sent on it, with the
    number of items its receiver has taken. *)
From Stdlib Require Import ZArith Lia.
From S2P Require Import Prelude Json RuleModels Pipeline Dedup Scanner RuleEngine.
Import EventRouter.
#[local] Open Scope string_scope.
#[local] Open Scope list_scope.
#[local] Open Scope nat_scope.

Section engine.
Context `{SerdeJson} {Rules : Type} (scan : Rules → string → result (list MatchedRule) string).
Context `{HL : Lru AlertSignature (Z * Z)} (hash : string → Z).
Context (uuid : nat → string) (utc instant : nat → Z).
Context (parse_event : string → result TelemetryEvent string) (dlq_topic : string).
Context (alert_to_vec : Alert → result string string) (alerts_topic : string).
Context (config : RuleEngineConfig).

(** Where a draining task is: in its receive loop, after its [select!] saw the
    shutdown, past the last [try_recv] with its receiver still alive, or over. *)
Inductive mode := Running | Draining | Leaving | Stopped.
#[export] Instance mode_eq_dec : EqDecision mode.
Proof. solve_decision. Defined.

Record engine := Engine {
  cons : Consumer.consumer; consuming : bool;
  sc : ScannerLoop.scanner; scanner_mode : mode;
  taken : nat;                 (* events the scanner received *)
  todo : list Alert;           (* alerts of the current event not handled yet *)
  registry : EngineRegistry Rules;
  ba : Sink.batcher; batcher_mode : mode;
  collected : nat;             (* alerts the batcher received *)
  cancelled : bool }.

Definition with_consumer (c : Consumer.consumer) (on : bool) (e : engine) : engine :=
  Engine c on (sc e) (scanner_mode e) (taken e) (todo e) (registry e) (ba e) (batcher_mode e) (collected e) (cancelled e).
Definition with_scanner (s : ScannerLoop.scanner) (m : mode) (n : nat) (l : list Alert) (e : engine) : engine :=
  Engine (cons e) (consuming e) s m n l (registry e) (ba e) (batcher_mode e) (collected e) (cancelled e).
Definition with_batcher (b : Sink.batcher) (m : mode) (n : nat) (e : engine) : engine :=
  Engine (cons e) (consuming e) (sc e) (scanner_mode e) (taken e) (todo e) (registry e) b m n (cancelled e).

(** The items sent and not yet received. *)
Definition events (e : engine) : list TelemetryEvent := drop (taken e) (Consumer.channel (cons e)).
Definition alerts (e : engine) : list Alert := drop (collected e) (ScannerLoop.alert_channel (sc e)).
Definition capacity : nat := Z.to_nat (channel_capacity config).

Inductive label :=
  (* the consumer task: a message, the shutdown branch, the end of the stream *)
  | Consume (m : message) (dlq_fault commit_fault : option string)
  | ConsumerStop
  | ConsumerEnd
  (* the scanner task: an event, one alert of it, the shutdown branch, the last
     [try_recv], the end of the task, the end of the channel *)
  | Scan
  | Emit
  | ScannerDrain
  | ScannerLeave
  | ScannerStop
  | ScannerEnd
  (* the batcher task: an alert, the timer, the shutdown branch, one [try_recv],
     the last one with the final batch, the end of the task *)
  | Batch (now now' : Z) (f : Sink.faults)
  | Timer (now now' : Z) (f : Sink.faults)
  | BatcherDrain
  | Collect
  | BatcherLeave (f : Sink.faults)
  | BatcherStop
  (* SIGHUP, with what [compile_all] gives and the taxonomy read; the shutdown *)
  | Reload (compiled : result (gmap string Rules) AppError) (new_mitre : MitreTaxonomy)
  | Cancel.

Definition guard (b : bool) (e : engine) : option engine := if b then Some e else None.

(** [send] on a bounded channel waits for room; a closed one answers at once. *)
Definition room (closed : bool) (sent received : nat) : bool := closed || (sent <=? received + capacity).

Definition fire (l : label) (e : engine) : option engine :=
  let scanner_gone := bool_decide (scanner_mode e = Stopped) in
  let batcher_gone := bool_decide (batcher_mode e = Stopped) in
  match l with
  | Consume m df cf =>
      let '(flow, c) := Consumer.handle parse_event dlq_topic m scanner_gone df cf (cons e) in
      let on := match flow with Consumer.Continue => true | Consumer.Break => false end in
      guard (consuming e && room scanner_gone (length (Consumer.channel c)) (taken e)) (with_consumer c on e)
  | ConsumerStop => guard (consuming e && cancelled e) (with_consumer (cons e) false e)
  | ConsumerEnd => guard (consuming e) (with_consumer (cons e) false e)
  | Scan =>
      match scanner_mode e, todo e, events e with
      | (Running | Draining), [], event :: _ =>
          let s := sc e in
          let s1 := ScannerLoop.mkScanner (ScannerLoop.dedup s) (inc_scanned (ScannerLoop.metrics s))
                      (ScannerLoop.alert_channel s) (ScannerLoop.draws s) in
          let alerts := default [] (ok (evaluate scan (λ i, uuid (ScannerLoop.draws s + i))
                                          (λ i, utc (ScannerLoop.draws s + i)) (registry e) event)) in
          Some (with_scanner s1 (scanner_mode e) (S (taken e)) alerts e)
      | _, _, _ => None
      end
  | Emit =>
      match todo e with
      | a :: rest =>
          let s := ScannerLoop.emit hash instant batcher_gone (sc e) a in
          guard (room batcher_gone (length (ScannerLoop.alert_channel s)) (collected e))
                (with_scanner s (scanner_mode e) (taken e) rest e)
      | [] => None
      end
  | ScannerDrain =>
      match scanner_mode e, todo e with
      | Running, [] => guard (cancelled e) (with_scanner (sc e) Draining (taken e) [] e)
      | _, _ => None
      end
  | ScannerLeave =>
      match scanner_mode e, todo e, events e with
      | Draining, [], [] => Some (with_scanner (sc e) Leaving (taken e) [] e)
      | _, _, _ => None
      end
  | ScannerStop => guard (bool_decide (scanner_mode e = Leaving)) (with_scanner (sc e) Stopped (taken e) (todo e) e)
  | ScannerEnd =>
      match scanner_mode e, todo e, events e with
      | Running, [], [] => guard (negb (consuming e)) (with_scanner (sc e) Stopped (taken e) [] e)
      | _, _, _ => None
      end
  | Batch now now' f =>
      match batcher_mode e, alerts e with
      | Running, a :: _ =>
          Some (with_batcher (Sink.step_alert alert_to_vec alerts_topic (batch_max_size config)
                                (batch_flush_interval_ms config) a now now' f (ba e)) Running (S (collected e)) e)
      | _, _ => None
      end
  | Timer now now' f =>
      guard (bool_decide (batcher_mode e = Running))
        (with_batcher (Sink.step_timer alert_to_vec alerts_topic (batch_flush_interval_ms config) now now' f (ba e))
           Running (collected e) e)
  | BatcherDrain =>
      guard (bool_decide (batcher_mode e = Running) && cancelled e) (with_batcher (ba e) Draining (collected e) e)
  | Collect =>
      match batcher_mode e, alerts e with
      | Draining, a :: _ => Some (with_batcher (Sink.push_alert a (ba e)) Draining (S (collected e)) e)
      | _, _ => None
      end
  | BatcherLeave f =>
      match batcher_mode e, alerts e with
      | Draining, [] =>
          Some (with_batcher (if Sink.nonempty (ba e) then Sink.hand_over alert_to_vec alerts_topic f true (ba e)
                              else ba e) Leaving (collected e) e)
      | _, _ => None
      end
  | BatcherStop =>
      guard (bool_decide (batcher_mode e = Leaving)) (with_batcher (ba e) Stopped (collected e) e)
  | Reload compiled new_mitre =>
      let '(reg, count) := match compiled with
                           | Ok new_rules => (Registry new_rules new_mitre, inc_rule_reloads)
                           | Err _ => (registry e, inc_rule_reload_failures)
                           end in
      let s := sc e in
      let s1 := ScannerLoop.mkScanner (ScannerLoop.dedup s) (count (ScannerLoop.metrics s))
                  (ScannerLoop.alert_channel s) (ScannerLoop.draws s) in
      Some (Engine (cons e) (consuming e) s1 (scanner_mode e) (taken e) (todo e) reg
              (ba e) (batcher_mode e) (collected e) (cancelled e))
  | Cancel =>
      Some (Engine (cons e) (consuming e) (sc e) (scanner_mode e) (taken e) (todo e) (registry e)
              (ba e) (batcher_mode e) (collected e) true)
  end.

(** Each task outlives the one that feeds it. *)
Definition orderly (e : engine) (l : label) : bool :=
  match l with
  | ScannerLeave => negb (consuming e)
  | BatcherLeave _ => bool_decide (scanner_mode e = Stopped)
  | _ => true
  end.

Definition finished (e : engine) : Prop :=
  consuming e = false ∧ scanner_mode e = Stopped ∧ batcher_mode e = Stopped.

(** The state after the spawns of [main]. *)
Definition started (dedup : ShardedDeduplicator) (registry : EngineRegistry Rules) (now : Z) (st : Sink.store)
    : engine :=
  Engine (Consumer.mkConsumer [] [] []) true (ScannerLoop.mkScanner dedup metrics_new [] 0) Running 0 []
    registry (Sink.Batcher [] now metrics_new st []) Running 0 false.

(** ** Lemmas *)

Lemma guard_some b e e' : guard b e = Some e' → b = true ∧ e' = e.
Proof. unfold guard. by destruct b; intros; simplify_eq. Qed.

(** What one step does to the channels. *)
Lemma handle_channel m closed df cf c :
  let '(_, c') := Consumer.handle parse_event dlq_topic m closed df cf c in
  Consumer.channel c' = Consumer.channel c ∨
  closed = false ∧ ∃ ev, parse_event (default "" (m_payload m)) = Ok ev ∧ Consumer.channel c' = Consumer.channel c ++ [ev].
Proof.
  unfold Consumer.handle. destruct (str_is_empty _); [by left |].
  destruct (parse_event _) as [ev | err].
  - destruct closed; [by left |]. right. split; [done |]. exists ev. by destruct cf.
  - unfold Consumer.send_poison_pill. by destruct df, cf; left.
Qed.

Lemma emit_channel closed s a :
  let s' := ScannerLoop.emit hash instant closed s a in
  ScannerLoop.alert_channel s' = ScannerLoop.alert_channel s ∨
  closed = false ∧ ScannerLoop.alert_channel s' = ScannerLoop.alert_channel s ++ [a].
Proof.
  unfold ScannerLoop.emit. destruct (check_and_record _ _ _ _) as [[] d]; simpl; [| by left].
  destruct closed; [by left | by right].
Qed.

Lemma emit_scanned closed s a :
  events_scanned (ScannerLoop.metrics (ScannerLoop.emit hash instant closed s a)) =
  events_scanned (ScannerLoop.metrics s).
Proof.
  unfold ScannerLoop.emit. destruct (check_and_record _ _ _ _) as [[] d]; simpl; by destruct (ScannerLoop.metrics s).
Qed.

(** The alert was raised for the event. *)
Definition raised_for (ev : TelemetryEvent) (a : Alert) : Prop :=
  triggering_event_id a = Some (ev_id ev) ∧ al_node_id a = ev_node_id ev.

Lemma evaluate_origin u n reg ev l a : evaluate scan u n reg ev = Ok l → a ∈ l → raised_for ev a.
Proof.
  unfold evaluate. destruct (rule_sets reg !! category ev) as [rules |]; [| intros [= <-] ?%elem_of_nil; done].
  destruct (str_is_empty _); [intros [= <-] ?%elem_of_nil; done |].
  destruct (scan rules _) as [ms | err]; simpl; [| done].
  intros [= <-] (i & r & -> & _)%elem_of_lookup_imap.
  by destruct (build_alert_fields (u i) (n i) ev r (mitre reg)) as (? & ? & _).
Qed.

(** *** What every interleaving preserves *)

Definition counted (z : Z) (n : nat) : Prop := (z mod 2 ^ 64 = Z.of_nat n mod 2 ^ 64)%Z.

Lemma counted_succ z n : counted z n → counted (fetch_add z 1) (S n).
Proof.
  unfold counted, fetch_add, wrap_u. intros Hc. rewrite Zmod_mod, <-Zplus_mod_idemp_l, Hc, Zplus_mod_idemp_l.
  f_equal. lia.
Qed.

(** The alert stems from one of the events received so far. *)
Definition from_events (e : engine) (a : Alert) : Prop :=
  ∃ ev, ev ∈ take (taken e) (Consumer.channel (cons e)) ∧ raised_for ev a.

Record accounts (e : engine) : Prop := {
  acc_taken : taken e ≤ length (Consumer.channel (cons e));
  acc_collected : collected e ≤ length (ScannerLoop.alert_channel (sc e));
  acc_scanned : counted (events_scanned (ScannerLoop.metrics (sc e))) (taken e);
  acc_batcher :
    match batcher_mode e with
    | Running | Draining => contents (ba e)
    | Leaving | Stopped => concat (Sink.batches (ba e)).*1
    end = take (collected e) (ScannerLoop.alert_channel (sc e));
  acc_origin : Forall (from_events e) (ScannerLoop.alert_channel (sc e) ++ todo e);
  acc_balanced : batcher_mode e ≠ Stopped → balanced (sc e) }.

Lemma take_app_le {A} n (l k : list A) : n ≤ length l → take n (l ++ k) = take n l.
Proof. intros Hn. apply take_app_le. lia. Qed.

Lemma take_next {A} n (l : list A) x k : drop n l = x :: k → take (S n) l = take n l ++ [x].
Proof.
  intros Hd. apply take_S_r. replace n with (n + 0) by lia. rewrite <-lookup_drop, Hd. done.
Qed.

Lemma drop_lt {A} n (l : list A) x k : drop n l = x :: k → n < length l.
Proof. intros Hd. apply (f_equal length) in Hd. rewrite length_drop in Hd. simpl in Hd. lia. Qed.

Lemma drop_nil_le {A} n (l : list A) : drop n l = [] → length l ≤ n.
Proof. intros Hd%(f_equal length). rewrite length_drop in Hd. simpl in Hd. lia. Qed.

Lemma accounts_with_consumer c on e :
  (∃ more, Consumer.channel c = Consumer.channel (cons e) ++ more) → accounts e → accounts (with_consumer c on e).
Proof.
  intros [more Hc] [H1 H2 H3 H4 H5 H6]. constructor; simpl; try done.
  - rewrite Hc, length_app. lia.
  - eapply Forall_impl; [exact H5 |]. intros a (ev & Hev & Ha). exists ev. split; [| done].
    simpl. by rewrite Hc, take_app_le.
Qed.

Lemma accounts_scanner_mode m e : accounts e → accounts (with_scanner (sc e) m (taken e) (todo e) e).
Proof. by intros [H1 H2 H3 H4 H5 H6]. Qed.

Lemma accounts_scan event rest e :
  todo e = [] → events e = event :: rest → accounts e →
  ∀ s1 l, ScannerLoop.alert_channel s1 = ScannerLoop.alert_channel (sc e) →
  ScannerLoop.metrics s1 = inc_scanned (ScannerLoop.metrics (sc e)) →
  Forall (raised_for event) l →
  accounts (with_scanner s1 (scanner_mode e) (S (taken e)) l e).
Proof.
  intros Ht He [H1 H2 H3 H4 H5 H6] s1 l Hc Hm Hl. constructor; simpl; rewrite ?Hc; try done.
  - by apply drop_lt in He.
  - rewrite Hm. revert H3. destruct (ScannerLoop.metrics (sc e)). apply counted_succ.
  - rewrite Ht, app_nil_r in H5. apply Forall_app. split.
    + eapply Forall_impl; [exact H5 |]. intros a (ev & Hev & Ha). exists ev. split; [| done]. simpl.
      rewrite (take_next _ _ _ _ He). apply elem_of_app. by left.
    + eapply Forall_impl; [exact Hl |]. intros a Ha. exists event. split; [| done]. simpl.
      rewrite (take_next _ _ _ _ He). apply elem_of_app. right. by left.
  - intros Hb. specialize (H6 Hb). revert H6. unfold balanced. rewrite Hc, Hm.
    by destruct (ScannerLoop.metrics (sc e)).
Qed.

Lemma accounts_emit a rest e :
  todo e = a :: rest → accounts e →
  accounts (with_scanner (ScannerLoop.emit hash instant (bool_decide (batcher_mode e = Stopped)) (sc e) a)
              (scanner_mode e) (taken e) rest e).
Proof.
  intros Ht [H1 H2 H3 H4 H5 H6]. set (closed := bool_decide _).
  pose proof (emit_channel closed (sc e) a) as Hc. simpl in Hc. pose proof (emit_scanned closed (sc e) a) as Hs.
  rewrite Ht in H5. constructor; simpl; try done.
  - destruct Hc as [-> | [_ ->]]; rewrite ?length_app; lia.
  - by rewrite Hs.
  - rewrite H4. destruct Hc as [-> | [_ ->]]; [done |]. by rewrite take_app_le.
  - destruct Hc as [-> | [_ ->]]; [| by rewrite <-app_assoc].
    apply Forall_app in H5 as [? [_ ?]%Forall_cons]. by apply Forall_app.
  - intros Hb. unfold closed. rewrite bool_decide_eq_false_2 by done. by apply emit_balanced, H6.
Qed.

(** The batcher's next item. *)
Lemma accounts_batcher_next b m a rest e :
  alerts e = a :: rest → m = Running ∨ m = Draining → batcher_mode e = m →
  contents b = contents (ba e) ++ [a] → accounts e → accounts (with_batcher b m (S (collected e)) e).
Proof.
  intros Ha Hm Hb Hc [H1 H2 H3 H4 H5 H6]. constructor; simpl; try done.
  - by apply drop_lt in Ha.
  - rewrite (take_next _ _ _ _ Ha). destruct Hm; subst m; rewrite Hc; f_equal;
      by (rewrite Hb in H4 || destruct (batcher_mode e)).
  - intros _. apply H6. destruct Hm; congruence.
Qed.

(** A mode change that keeps what the batcher received. *)
Lemma accounts_batcher_mode b m e :
  match m with Running | Draining => contents b | Leaving | Stopped => concat (Sink.batches b).*1 end =
  match batcher_mode e with
  | Running | Draining => contents (ba e)
  | Leaving | Stopped => concat (Sink.batches (ba e)).*1
  end →
  (m ≠ Stopped → batcher_mode e ≠ Stopped) → accounts e → accounts (with_batcher b m (collected e) e).
Proof. intros Hc Hm [H1 H2 H3 H4 H5 H6]. constructor; simpl; try done; [by rewrite Hc | auto]. Qed.

(** Take a fired label apart. *)
Ltac fire_tac Hf :=
  cbn [fire] in Hf;
  lazymatch type of Hf with
  | guard _ _ = Some _ => apply guard_some in Hf as [? ->]
  | Some _ = Some _ => injection Hf as <-
  | (match ?x with _ => _ end) = Some _ => destruct x eqn:?; try discriminate Hf; fire_tac Hf
  end.

Lemma consume_extends m closed df cf c flow c' :
  Consumer.handle parse_event dlq_topic m closed df cf c = (flow, c') →
  ∃ more, Consumer.channel c' = Consumer.channel c ++ more.
Proof.
  intros Hh. pose proof (handle_channel m closed df cf c) as H0. rewrite Hh in H0.
  destruct H0 as [-> | (_ & ev & _ & ->)]; [exists []; by rewrite app_nil_r | by eexists].
Qed.

Lemma evaluate_alerts u n reg ev :
  Forall (raised_for ev) (default [] (ok (evaluate scan u n reg ev))).
Proof.
  destruct (evaluate scan u n reg ev) as [l | err] eqn:He; [| constructor].
  apply Forall_forall. intros a. by apply (evaluate_origin u n reg ev l).
Qed.

(** The registry and the counters of a reload. *)
Lemma accounts_reload reg count e :
  count = inc_rule_reloads ∨ count = inc_rule_reload_failures →
  accounts e →
  let s := sc e in
  let s1 := ScannerLoop.mkScanner (ScannerLoop.dedup s) (count (ScannerLoop.metrics s))
              (ScannerLoop.alert_channel s) (ScannerLoop.draws s) in
  accounts (Engine (cons e) (consuming e) s1 (scanner_mode e) (taken e) (todo e) reg
              (ba e) (batcher_mode e) (collected e) (cancelled e)).
Proof.
  intros Hcount [H1 H2 H3 H4 H5 H6] s s1.
  assert (events_scanned (count (ScannerLoop.metrics s)) = events_scanned (ScannerLoop.metrics s) ∧
          alerts_generated (count (ScannerLoop.metrics s)) = alerts_generated (ScannerLoop.metrics s) ∧
          alerts_suppressed (count (ScannerLoop.metrics s)) = alerts_suppressed (ScannerLoop.metrics s))
    as (Hs & Hg & Hu) by (destruct Hcount as [-> | ->]; by destruct (ScannerLoop.metrics s)).
  constructor; simpl; try done; [by rewrite Hs |].
  intros Hb. specialize (H6 Hb). revert H6. unfold balanced, s1. simpl. by rewrite Hg, Hu.
Qed.

Ltac mode_tac :=
  repeat match goal with
    | H : _ && _ = true |- _ => apply andb_true_iff in H as [? ?]
    | H : bool_decide _ = true |- _ => apply bool_decide_eq_true in H
    | H : negb _ = true |- _ => apply negb_true_iff in H
    end.

Lemma fire_accounts l e e' : fire l e = Some e' → accounts e → accounts e'.
Proof.
  intros Hf Ha. destruct l; fire_tac Hf; mode_tac.
  - apply accounts_with_consumer; [by eapply consume_extends | done].
  - apply accounts_with_consumer; [by exists []; rewrite app_nil_r | done].
  - apply accounts_with_consumer; [by exists []; rewrite app_nil_r | done].
  - rewrite <-Heqm. apply (accounts_scan t l); [done.. | apply evaluate_alerts].
  - rewrite <-Heqm. apply (accounts_scan t l); [done.. | apply evaluate_alerts].
  - by apply (accounts_emit a).
  - rewrite <-Heql. by apply accounts_scanner_mode.
  - rewrite <-Heql. by apply accounts_scanner_mode.
  - by apply accounts_scanner_mode.
  - rewrite <-Heql. by apply accounts_scanner_mode.
  - eapply accounts_batcher_next; [done | by left | done | | done]. apply step_alert_contents.
  - apply accounts_batcher_mode; rewrite ?H0; [apply step_timer_contents | done..].
  - apply accounts_batcher_mode; [by rewrite H0 | congruence | done].
  - eapply accounts_batcher_next; [done | by right | done | | done]. unfold contents. simpl. by rewrite app_assoc.
  - apply accounts_batcher_mode; [rewrite Heqm; apply final_hand_over | congruence | done].
  - apply accounts_batcher_mode; [by rewrite H0 | done | done].
  - revert Heqp. destruct compiled; intros [= <- <-]; apply accounts_reload; auto.
  - by destruct Ha.
Qed.

Lemma reachable_accounts ok e0 e : accounts e0 → reached fire ok e0 e → accounts e.
Proof. apply reached_invariant. intros; by eapply fire_accounts. Qed.

Lemma started_accounts dedup reg now st : accounts (started dedup reg now st).
Proof. constructor; simpl; done || lia || constructor. Qed.

(** What the batcher's operations keep, every step keeps. *)
Lemma fire_batcher (P : Sink.batcher → Prop) l e e' :
  (∀ a b, P b → P (Sink.push_alert a b)) →
  (∀ f c b, P b → P (Sink.hand_over alert_to_vec alerts_topic f c b)) →
  (∀ now b, P b → P (Sink.cleared now b)) →
  fire l e = Some e' → P (ba e) → P (ba e').
Proof.
  intros Hpush Hhand Hclear Hf Hb. destruct l; fire_tac Hf; simpl; try done.
  - unfold Sink.step_alert. destruct (_ || _); eauto.
  - unfold Sink.step_timer. destruct (_ && _); eauto.
  - eauto.
  - destruct (Sink.nonempty _); eauto.
Qed.

(** Only the consumer's messages put events in its channel. *)
Lemma fire_channel l e e' ev :
  fire l e = Some e' → ev ∈ Consumer.channel (cons e') →
  ev ∈ Consumer.channel (cons e) ∨
  ∃ m df cf, l = Consume m df cf ∧ parse_event (default "" (m_payload m)) = Ok ev.
Proof.
  intros Hf. destruct l; fire_tac Hf; simpl; auto.
  pose proof (handle_channel m (bool_decide (scanner_mode e = Stopped)) dlq_fault commit_fault (cons e)) as Hh.
  rewrite Heqp in Hh. destruct Hh as [-> | (_ & ev' & Hp & ->)]; [by auto |].
  rewrite elem_of_app, list_elem_of_singleton. intros [? | ->]; [by left | right]. by exists m, dlq_fault, commit_fault.
Qed.

(** A message of an event is taken whenever the channel has room. *)
Lemma consume_enabled m ev e :
  consuming e = true → scanner_mode e ≠ Stopped → length (Consumer.channel (cons e)) < taken e + capacity →
  default "" (m_payload m) ≠ "" → parse_event (default "" (m_payload m)) = Ok ev →
  ∃ e', fire (Consume m None None) e = Some e' ∧ Consumer.channel (cons e') = Consumer.channel (cons e) ++ [ev].
Proof.
  intros Hc Hs Hroom Hne Hp. cbn [fire]. rewrite bool_decide_eq_false_2 by done.
  unfold Consumer.handle. destruct (default "" (m_payload m)) as [| a s] eqn:Hm; [done |]. cbn [str_is_empty].
  rewrite Hp. unfold room. cbn [orb Consumer.channel].
  rewrite Hc, length_app. simpl. destruct (Nat.leb_spec (length (Consumer.channel (cons e)) + 1) (taken e + capacity)); [| lia].
  by eexists.
Qed.

(** *** What an orderly run preserves *)

Record in_order (e : engine) : Prop := {
  ord_scanner : scanner_mode e = Leaving ∨ scanner_mode e = Stopped →
    consuming e = false ∧ todo e = [] ∧ events e = [];
  ord_batcher : batcher_mode e = Leaving ∨ batcher_mode e = Stopped →
    scanner_mode e = Stopped ∧ alerts e = [] }.

Lemma fire_in_order l e e' : orderly e l = true → fire l e = Some e' → in_order e → in_order e'.
Proof.
  intros Ho Hf [Hs Hb].
  destruct l; fire_tac Hf; simpl in Ho; mode_tac; constructor; unfold events, alerts in *; simpl; intros Hm;
    try (destruct Hm; discriminate); try (destruct Hb as [Hb _]; [by auto | congruence]);
    (specialize (Hs Hm) || specialize (Hb Hm) || idtac); intuition congruence.
Qed.

Lemma reachable_in_order e0 e : in_order e0 → reached fire orderly e0 e → in_order e.
Proof. apply reached_invariant. intros; by eapply fire_in_order. Qed.

Lemma started_in_order dedup reg now st : in_order (started dedup reg now st).
Proof. constructor; intros []; discriminate. Qed.

(** In order, no alert meets a closed channel. *)
Lemma fire_balanced l e e' :
  fire l e = Some e' → in_order e → balanced (sc e) → balanced (sc e').
Proof.
  intros Hf Ho Hb. destruct l; fire_tac Hf; try done; simpl.
  - revert Hb. unfold balanced. simpl. by destruct (ScannerLoop.metrics (sc e)).
  - revert Hb. unfold balanced. simpl. by destruct (ScannerLoop.metrics (sc e)).
  - rewrite bool_decide_eq_false_2; [by apply emit_balanced |]. intros Hs.
    destruct Ho as [Hsc Hba]. destruct (Hba (or_intror Hs)) as [Hst _].
    destruct (Hsc (or_intror Hst)) as (_ & Ht & _). by rewrite Heql in Ht.
  - destruct compiled; injection Heqp as <- <-; revert Hb; unfold balanced; simpl;
      by destruct (ScannerLoop.metrics (sc e)).
Qed.

Lemma reachable_balanced e0 e :
  in_order e0 → balanced (sc e0) → reached fire orderly e0 e → balanced (sc e).
Proof.
  intros Hi. apply (reached_invariant fire (λ e, balanced (sc e))). intros e1 l e2 Hr _ Hf.
  apply (fire_balanced l); [done |]. by eapply reachable_in_order.
Qed.

(** *** Progress of the shutdown *)

(** The actions of a task that needs no new input: no message, signal or timer. *)
Definition internal (l : label) : bool :=
  match l with Consume _ _ _ | Timer _ _ _ | Reload _ _ | Cancel => false | _ => true end.

Definition rank (m : mode) : nat :=
  match m with Running => 3 | Draining => 2 | Leaving => 1 | Stopped => 0 end.

(** An event is worth one scan and two steps for each alert it raises. *)
Definition event_work (reg : EngineRegistry Rules) (ev : TelemetryEvent) : nat :=
  S (2 * length (default [] (ok (evaluate scan (λ _, "") (λ _, 0%Z) reg ev)))).

Definition work (e : engine) : nat :=
  (if consuming e then 1 else 0) + rank (scanner_mode e) + rank (batcher_mode e)
  + list_sum (event_work (registry e) <$> events e) + 2 * length (todo e) + length (alerts e).

(** How many alerts an event raises does not depend on the ids and times drawn. *)
Lemma event_work_eq u n reg ev :
  event_work reg ev = S (2 * length (default [] (ok (evaluate scan u n reg ev)))).
Proof.
  unfold event_work. do 2 f_equal. unfold evaluate. destruct (rule_sets reg !! category ev) as [rules |]; [| done].
  destruct (str_is_empty _); [done |]. destruct (scan rules _); simpl; [| done]. by rewrite !length_imap.
Qed.

Lemma emit_alerts closed s a n :
  length (drop n (ScannerLoop.alert_channel (ScannerLoop.emit hash instant closed s a))) ≤
  S (length (drop n (ScannerLoop.alert_channel s))).
Proof.
  destruct (emit_channel closed s a) as [-> | [_ ->]]; rewrite !length_drop, ?length_app; simpl; lia.
Qed.

Lemma tail_drop {A} n (l : list A) x k : drop n l = x :: k → drop (S n) l = k.
Proof. intros Hd. replace (S n) with (n + 1) by lia. by rewrite <-drop_drop, Hd. Qed.

Lemma scan_works u n reg ev l a b c d :
  S (a + b + c + list_sum (event_work reg <$> l) + 2 * length (default [] (ok (evaluate scan u n reg ev))) + d) ≤
  a + b + c + list_sum (event_work reg <$> ev :: l) + 2 * length (@nil Alert) + d.
Proof.
  change (list_sum (event_work reg <$> ev :: l)) with (event_work reg ev + list_sum (event_work reg <$> l)).
  rewrite (event_work_eq u n). cbn [length]. lia.
Qed.

Lemma internal_works l e e' : internal l = true → fire l e = Some e' → S (work e') ≤ work e.
Proof.
  intros Hi Hf. destruct l; try discriminate Hi; fire_tac Hf; mode_tac; unfold work, events, alerts in *; simpl.
  - rewrite H0. lia.
  - rewrite H0. lia.
  - rewrite Heqm, Heql, Heql0, (tail_drop _ _ _ _ Heql0). apply scan_works.
  - rewrite Heqm, Heql, Heql0, (tail_drop _ _ _ _ Heql0). apply scan_works.
  - rewrite Heql. pose proof (emit_alerts (bool_decide (batcher_mode e = Stopped)) (sc e) a (collected e)).
    simpl. lia.
  - rewrite Heqm, Heql. simpl. lia.
  - rewrite Heqm, Heql, Heql0. simpl. lia.
  - rewrite H0. simpl. lia.
  - rewrite Heqm, Heql, Heql0. simpl. lia.
  - rewrite Heqm, Heql, (tail_drop _ _ _ _ Heql). simpl. lia.
  - rewrite H0. simpl. lia.
  - rewrite Heqm, Heql, (tail_drop _ _ _ _ Heql). simpl. lia.
  - rewrite Heqm, Heql. simpl. lia.
  - rewrite H0. simpl. lia.
Qed.

Lemma run_works ok ls e e' :
  forallb internal ls = true → fire_all fire ok ls e = Some e' → length ls + work e' ≤ work e.
Proof.
  revert e. induction ls as [| l ls IH]; intros e Hi Hf; simpl in Hf; [by simplify_eq |].
  destruct (ok e l); [| done]. apply bind_Some in Hf as (e1 & H1 & Hf).
  simpl in Hi. apply andb_true_iff in Hi as [Hl Hi].
  apply internal_works in H1; [| done]. specialize (IH e1 Hi Hf). simpl. lia.
Qed.

(** A task of a cancelled engine that is not over can act. *)
Lemma cancelled_progress e :
  cancelled e = true → finished e ∨ ∃ l e', internal l = true ∧ fire l e = Some e'.
Proof.
  intros Hc.
  assert (∀ l, internal l = true → is_Some (fire l e) → ∃ l e', internal l = true ∧ fire l e = Some e') as Hgo
    by (intros l Hl [e' He]; eauto).
  destruct (consuming e) eqn:Hon; [right; apply (Hgo ConsumerStop); [done |]; simpl; by rewrite Hon, Hc |].
  destruct (batcher_mode e) eqn:Hb.
  - right. apply (Hgo BatcherDrain); [done |]. simpl. by rewrite Hb, Hc.
  - right. destruct (alerts e) as [| a l] eqn:Ha.
    + apply (Hgo (BatcherLeave Sink.no_faults)); [done |]. simpl. by rewrite Hb, Ha.
    + apply (Hgo Collect); [done |]. simpl. by rewrite Hb, Ha.
  - right. apply (Hgo BatcherStop); [done |]. simpl. by rewrite Hb.
  - destruct (todo e) as [| a l] eqn:Ht.
    + destruct (scanner_mode e) eqn:Hs; [right.. | by left].
      * apply (Hgo ScannerDrain); [done |]. simpl. by rewrite Hs, Ht, Hc.
      * destruct (events e) as [| ev evs] eqn:He.
        -- apply (Hgo ScannerLeave); [done |]. simpl. by rewrite Hs, Ht, He.
        -- apply (Hgo Scan); [done |]. simpl. by rewrite Hs, Ht, He.
      * apply (Hgo ScannerStop); [done |]. simpl. by rewrite Hs.
    + right. apply (Hgo Emit); [done |]. simpl. rewrite Ht, Hb. by eexists.
Qed.

(** Scanning an event and handling its alerts is [scan_event] of the scanner loop
    when the batcher's end of the channel stays as it is. *)
Lemma emits_fold n e e' :
  fire_all fire any_order (replicate n Emit) e = Some e' → length (todo e) = n →
  sc e' = foldl (ScannerLoop.emit hash instant (bool_decide (batcher_mode e = Stopped))) (sc e) (todo e).
Proof.
  revert e. induction n as [| n IH]; intros e Hf Hn; simpl in Hf.
  - destruct (todo e); [by simplify_eq | done].
  - apply bind_Some in Hf as (e1 & H1 & Hf). fire_tac H1. injection Hn as Hn.
    by rewrite (IH _ Hf) by done.
Qed.

Lemma scan_is_scan_event ev rest n e e' :
  events e = ev :: rest →
  fire_all fire any_order (Scan :: replicate n Emit) e = Some e' →
  n = length (default [] (ok (evaluate scan (λ i, uuid (ScannerLoop.draws (sc e) + i))
                               (λ i, utc (ScannerLoop.draws (sc e) + i)) (registry e) ev))) →
  sc e' = ScannerLoop.scan_event scan hash uuid utc instant (registry e) (bool_decide (batcher_mode e = Stopped)) ev (sc e).
Proof.
  intros He Hf Hn. change (fire_all fire any_order (Scan :: replicate n Emit) e) with
    (e1 ← fire Scan e; fire_all fire any_order (replicate n Emit) e1) in Hf.
  apply bind_Some in Hf as (e1 & H1 & Hf).
  assert (todo e = []) as Ht by (by fire_tac H1).
  fire_tac H1; injection He as -> ->.
  all: rewrite (emits_fold _ _ _ Hf) by done; unfold ScannerLoop.scan_event; simpl; by destruct (evaluate _ _ _ _ _).
Qed.

(** ** Properties *)

(** C27 (invariant): in every interleaving of the consumer, the scanner, the
    batcher, reloads and the shutdown, the scanner has received a prefix of the
    events the consumer sent, and counted each (modulo the counter's width); what
    the batcher holds, or has handed over once it is past its last receive, is
    the prefix of the alerts sent that it received, in order and once each; every
    alert names one of the events received as its trigger, with that event's node;
    and until the batcher is over every generated alert was sent or counted as suppressed. *)
Theorem engine_accounts dedup reg now st e :
  reached fire any_order (started dedup reg now st) e →
  taken e ≤ length (Consumer.channel (cons e)) ∧
  (events_scanned (ScannerLoop.metrics (sc e)) mod 2 ^ 64 = Z.of_nat (taken e) mod 2 ^ 64)%Z ∧
  match batcher_mode e with
  | Running | Draining => concat (Sink.batches (ba e)).*1 ++ Sink.buffer (ba e)
  | Leaving | Stopped => concat (Sink.batches (ba e)).*1
  end = take (collected e) (ScannerLoop.alert_channel (sc e)) ∧
  (∀ a, a ∈ ScannerLoop.alert_channel (sc e) → ∃ ev,
     ev ∈ take (taken e) (Consumer.channel (cons e)) ∧ raised_for ev a) ∧
  (batcher_mode e ≠ Stopped →
   alerts_generated (ScannerLoop.metrics (sc e)) mod 2 ^ 64 =
   (alerts_suppressed (ScannerLoop.metrics (sc e))
    + Z.of_nat (length (ScannerLoop.alert_channel (sc e)))) mod 2 ^ 64)%Z.
Proof.
  intros [H1 H2 H3 H4 H5 H6]%reachable_accounts; [| apply started_accounts]. split_and!; try done.
  intros a Ha. apply Forall_app in H5 as [H5 _]. by eapply Forall_forall in H5.
Qed.

(** C26 (safety): when each task outlives the one that feeds it, nothing is lost by the
    shutdown: once all are over the scanner has received every event the consumer
    sent, the batches are exactly the alerts sent, in order, and the generated
    counter is the suppressed counter plus the alerts handed over (modulo the
    counters' width). *)
Theorem orderly_shutdown_loses_nothing dedup reg now st e :
  reached fire orderly (started dedup reg now st) e → finished e →
  taken e = length (Consumer.channel (cons e)) ∧
  concat (Sink.batches (ba e)).*1 = ScannerLoop.alert_channel (sc e) ∧
  (alerts_generated (ScannerLoop.metrics (sc e)) mod 2 ^ 64 =
   (alerts_suppressed (ScannerLoop.metrics (sc e))
    + Z.of_nat (length (concat (Sink.batches (ba e)).*1))) mod 2 ^ 64)%Z.
Proof.
  intros Hr (Hon & Hs & Hb). pose proof (reachable_in_order _ _ (started_in_order dedup reg now st) Hr) as [Hsc Hba].
  destruct (Hsc (or_intror Hs)) as (_ & _ & He). destruct (Hba (or_intror Hb)) as [_ Hal].
  apply drop_nil_le in He, Hal.
  pose proof (reachable_balanced _ _ (started_in_order dedup reg now st) eq_refl Hr) as Hbal.
  apply reached_any, reachable_accounts in Hr as [H1 H2 H3 H4 H5 H6]; [| apply started_accounts].
  rewrite Hb in H4. rewrite take_ge in H4 by lia. split_and!; [lia | done |]. by rewrite H4.
Qed.

(** C28 (termination): once the shutdown is signalled, and whatever the state of the tasks
    and channels, they all end: a run of steps that need no new message, signal
    or timer is at most [work] steps long, and until every task is over one of
    them can act, so no channel that is full blocks it for ever. *)
Theorem shutdown_terminates e :
  cancelled e = true →
  (∀ ls e', forallb internal ls = true → fire_all fire any_order ls e = Some e' →
     length ls ≤ work e ∧
     (finished e' ∨ ∃ l e'', internal l = true ∧ fire l e' = Some e'')).
Proof.
  intros Hc ls e' Hi Hf. split; [pose proof (run_works _ _ _ _ Hi Hf); lia |]. apply cancelled_progress.
  revert e Hc Hf. induction ls as [| l ls IH]; intros e Hc Hf; simpl in Hf; [by simplify_eq |].
  simpl in Hi. apply andb_true_iff in Hi as [Hl Hi]. apply bind_Some in Hf as (e1 & H1 & Hf).
  apply (IH Hi e1); [| done]. destruct l; try discriminate Hl; by fire_tac H1.
Qed.
End engine.

(** *** A small engine: one rule for processes, an event per message *)
#[local] Existing Instance MruList.mru_lru.
Definition example_config : RuleEngineConfig :=
  mkConfig "localhost:9092" "g" ["processes"] "rules" "mitre.json" "db" 4 1 8 1024 10 2 100 8080 "dlq" "alerts".
Definition example_serde : SerdeJson := table_serde [] "".
#[local] Existing Instance example_serde.
Definition example_parse (s : string) : result TelemetryEvent string :=
  if str_is_empty s then Err "EOF" else Ok (example_event s).
Definition example_message (offset : Z) (payload : string) : message :=
  Message "processes" 0 offset None (Some payload).
Definition example_start : engine (Rules := nat) :=
  started example_dedup example_registry 0 (Sink.Store [] ∅).
Definition example_fire :=
  @fire example_serde nat example_scan _ _ (λ _, 3%Z) (λ i, "u" +:+ pretty i) (λ _, 0%Z) (λ i, 20 * Z.of_nat i)%Z
    example_parse "dlq" (λ a, Ok (alert_id a)) "alerts" example_config.
Definition example_run := fire_all example_fire.

(** Two events; the tasks stop in order. *)
Definition example_orderly : list (label (Rules := nat)) :=
  [Consume (example_message 7 "e1") None None; Scan; Consume (example_message 8 "e2") None None; Emit;
   Batch 5 5 Sink.no_faults; Cancel; ConsumerStop; ScannerDrain; BatcherDrain; Scan; Emit;
   Collect; ScannerLeave; ScannerStop; BatcherLeave Sink.no_faults; BatcherStop].

(** The batcher is over before the scanner has emptied its channel. *)
Definition example_early_batcher : list (label (Rules := nat)) :=
  [Consume (example_message 7 "e1") None None; Cancel; BatcherDrain; BatcherLeave Sink.no_faults; BatcherStop;
   ConsumerStop; ScannerDrain; Scan; Emit; ScannerLeave; ScannerStop].

(** The scanner is over before the consumer sees the shutdown. *)
Definition example_early_scanner : list (label (Rules := nat)) :=
  [Cancel; ScannerDrain; ScannerLeave; Consume (example_message 7 "e1") None None; ScannerStop;
   ConsumerStop; BatcherDrain; BatcherLeave Sink.no_faults; BatcherStop].

Definition after (ok : engine → label → bool) (ls : list (label (Rules := nat))) : engine (Rules := nat) :=
  default example_start (example_run ok ls example_start).

Lemma after_reached ok ls :
  is_some (example_run ok ls example_start) = true → reached example_fire ok example_start (after ok ls).
Proof. intros Hs. eapply fire_all_reached; [apply reached_start |]. by apply some_default. Qed.

Lemma engine_accounts_witness :
  let e := after any_order example_early_batcher in
  alerts_generated (ScannerLoop.metrics (sc e)) = 1%Z ∧ taken e ≤ length (Consumer.channel (cons e)).
Proof.
  intros e. split; [by vm_compute |].
  refine (proj1 (engine_accounts example_scan (λ _, 3%Z) (λ i, "u" +:+ pretty i) (λ _, 0%Z) (λ i, 20 * Z.of_nat i)%Z
           example_parse "dlq" (λ a, Ok (alert_id a)) "alerts" example_config example_dedup example_registry 0 (Sink.Store [] ∅) e _)).
  apply after_reached. by vm_compute.
Defined.

Lemma orderly_shutdown_loses_nothing_witness :
  let e := after orderly example_orderly in
  length (ScannerLoop.alert_channel (sc e)) = 2 ∧ finished e ∧
  taken e = length (Consumer.channel (cons e)) ∧
  concat (Sink.batches (ba e)).*1 = ScannerLoop.alert_channel (sc e).
Proof.
  intros e. assert (finished e) as Hf by (by vm_compute). split; [by vm_compute |]. split; [done |].
  assert (∀ A B C : Prop, A ∧ B ∧ C → A ∧ B) as Hfst by (by intros ??? (? & ? & _)).
  eapply Hfst, (orderly_shutdown_loses_nothing example_scan (λ _, 3%Z) (λ i, "u" +:+ pretty i) (λ _, 0%Z) (λ i, 20 * Z.of_nat i)%Z
           example_parse "dlq" (λ a, Ok (alert_id a)) "alerts" example_config example_dedup example_registry 0 (Sink.Store [] ∅)); [| done].
  apply after_reached. by vm_compute.
Defined.

Lemma shutdown_terminates_witness :
  let e := after any_order (take 6 example_orderly) in
  cancelled e = true ∧ 10 ≤ @work example_serde nat example_scan _ _ e.
Proof.
  intros e. split; [by vm_compute |].
  apply (shutdown_terminates example_scan (λ _, 3%Z) (λ i, "u" +:+ pretty i) (λ _, 0%Z) (λ i, 20 * Z.of_nat i)%Z
           example_parse "dlq" (λ a, Ok (alert_id a)) "alerts" example_config e eq_refl
           (drop 6 example_orderly) (default e (example_run any_order (drop 6 example_orderly) e)) eq_refl).
  apply some_default. by vm_compute.
Defined.

(** Nothing in [main] makes the tasks stop in that order: all three wait for the
    same token.  An event whose offset is committed may raise an alert that no
    batch holds, because the batcher is over first, or may never be scanned,
    because the scanner is. *)
Lemma shutdown_may_lose :
  (let e := after any_order example_early_batcher in
   finished e ∧ Consumer.committed (cons e) = [("processes", 0%Z, 7%Z)] ∧ taken e = 1 ∧
   alerts_generated (ScannerLoop.metrics (sc e)) = 1%Z ∧ alerts_suppressed (ScannerLoop.metrics (sc e)) = 0%Z ∧
   Sink.batches (ba e) = []) ∧
  (let e := after any_order example_early_scanner in
   finished e ∧ Consumer.committed (cons e) = [("processes", 0%Z, 7%Z)] ∧
   length (Consumer.channel (cons e)) = 1 ∧ taken e = 0).
Proof. split; by vm_compute. Qed.
