(* ===== verification/FleetDb.v ===== *)
(** * The fleet server's database
      (fleet-server/crates: node-enrollment/src/store.rs, health-tracker/src/store.rs,
      postgres-interface/src/*_store.rs, models.rs, schema.rs)

    PostgreSQL tables with the constraints of fleet-server/migrations, the
    statements of the two stores, their transactions, and the interleaving of
    concurrent enrolments.  A UUID is its canonical text; fresh UUIDs and clock
    readings are arguments; every statement may fail. *)
From Stdlib Require Import ZArith Lia.
From S2P Require Import Prelude.
#[local] Open Scope string_scope.
#[local] Open Scope list_scope.
#[local] Open Scope nat_scope.

(** ** Tables (models.rs, schema.rs, migrations) *)

Record node := Node {
  machine_id : string;
  hostname : string;
  os_version : string;
  agent_version : string;
  agent_status : string;
  operator_status : string;
  first_seen_at : Z;
  last_enrolled_at : Z }.

Record health := Health {
  health_id : string; h_node_id : string; h_agent_status : string; events_buffered : Z; recorded_at : Z }.

Record enrollment_event := EnrollmentEvent {
  event_id : string; e_node_id : string; event_type : string;
  e_hostname : string; e_os_version : string; e_agent_version : string; enrolled_at : Z }.

(** [nodes] is keyed by [node_id]; the other tables are append-only. *)
Record db := Db {
  nodes : gmap string node; node_health : list health; enrollment_events : list enrollment_event }.

(** ** Statements *)

Definition unique_violation (c : string) : string :=
  "duplicate key value violates unique constraint " +:+ dquote +:+ c +:+ dquote.
Definition foreign_key_violation (c : string) : string :=
  "insert or update violates foreign key constraint " +:+ dquote +:+ c +:+ dquote.

Definition check_fault (f : option string) : SE db string unit :=
  match f with Some e => throw e | None => mret tt end.

(** The id of the row with a machine id, if there is one. *)
Definition find_machine (mid : string) (d : db) : option string :=
  fst <$> head (filter (λ kn, machine_id kn.2 = mid) (map_to_list (nodes d))).

Definition insert_node (f : option string) (node_id : string) (n : node) : SE db string unit :=
  check_fault f;;
  d ← gets id;
  match nodes d !! node_id, find_machine (machine_id n) d with
  | None, None => modify (λ d, Db (<[node_id := n]> (nodes d)) (node_health d) (enrollment_events d))
  | Some _, _ => throw (unique_violation "nodes_pkey")
  | None, Some _ => throw (unique_violation "nodes_machine_id_key")
  end.

(** [UPDATE nodes SET ... WHERE node_id = id]: no row is no error. *)
Definition update_node (f : option string) (node_id : string) (g : node → node) : SE db string unit :=
  check_fault f;;
  modify (λ d, Db (alter g node_id (nodes d)) (node_health d) (enrollment_events d)).

Definition insert_event (f : option string) (e : enrollment_event) : SE db string unit :=
  check_fault f;;
  d ← gets id;
  if decide (event_id e ∈ event_id <$> enrollment_events d) then throw (unique_violation "enrollment_events_pkey")
  else match nodes d !! e_node_id e with
       | None => throw (foreign_key_violation "enrollment_events_node_id_fkey")
       | Some _ => modify (λ d, Db (nodes d) (node_health d) (enrollment_events d ++ [e]))
       end.

Definition insert_health (f : option string) (h : health) : SE db string unit :=
  check_fault f;;
  d ← gets id;
  if decide (health_id h ∈ health_id <$> node_health d) then throw (unique_violation "node_health_pkey")
  else match nodes d !! h_node_id h with
       | None => throw (foreign_key_violation "node_health_node_id_fkey")
       | Some _ => modify (λ d, Db (nodes d) (node_health d ++ [h]) (enrollment_events d))
       end.

(** [conn.transaction(body)]: commit on [Ok], roll back on [Err]. *)
Definition transaction {A} (commit_fault : option string) (body : SE db string A) : SE db string A := λ d,
  match body d with
  | (Ok a, d') => match commit_fault with Some e => (Err e, d) | None => (Ok a, d') end
  | (Err e, _) => (Err e, d)
  end.

(** ** Node enrolment (node_store.rs) *)

Record NodeRecord := mkRecord {
  r_hostname : string; r_os_version : string; r_agent_version : string; r_machine_id : string }.

Inductive NodeEnrollmentError :=
  | Store (m : string)
  | TokenSign (m : string)
  | Clock (m : string).

(** What one call draws and meets: two fresh UUIDs, the clock, the faults of the
    pool, of the statements in order, and of the commit. *)
Record call_env := CallEnv {
  uuid1 : string; uuid2 : string; now : Z;
  pool_fault : option string; stmt_fault : nat → option string; commit_fault : option string }.

Definition select_existing (e : call_env) (r : NodeRecord) : SE db string (option string) :=
  check_fault (stmt_fault e 0);;
  gets (find_machine (r_machine_id r)).

(** The node row and the audit row, given what the SELECT found. *)
Definition write_enrollment (e : call_env) (r : NodeRecord) (existing : option string) : SE db string string :=
  id_type ← match existing with
    | None =>
        insert_node (stmt_fault e 1) (uuid1 e)
          (Node (r_machine_id r) (r_hostname r) (r_os_version r) (r_agent_version r)
             "healthy" "active" (now e) (now e));;
        mret (uuid1 e, "new_enrollment")
    | Some node_id =>
        update_node (stmt_fault e 1) node_id (λ n,
          Node (machine_id n) (r_hostname r) (r_os_version r) (r_agent_version r)
            (agent_status n) (operator_status n) (first_seen_at n) (now e));;
        mret (node_id, "re_enrollment")
    end;
  insert_event (stmt_fault e 2)
    (EnrollmentEvent (uuid2 e) id_type.1 id_type.2 (r_hostname r) (r_os_version r) (r_agent_version r) (now e));;
  mret id_type.1.

Definition upsert_body (e : call_env) (r : NodeRecord) : SE db string string :=
  existing ← select_existing e r;
  write_enrollment e r existing.

Definition pg_upsert_node (e : call_env) (r : NodeRecord) : SE db NodeEnrollmentError string := λ d,
  match pool_fault e with
  | Some p => (Err (Store p), d)
  | None => rethrow Store (transaction (commit_fault e) (upsert_body e r)) d
  end.

(** ** Heartbeats (health_store.rs) *)

Record HeartbeatRecord := mkHeartbeat {
  hb_node_id : string; hb_agent_status : string; hb_events_buffered : Z; hb_recorded_at : Z }.

Section heartbeat.
(** [Uuid::from_str], giving the canonical text. *)
Context (parse_uuid : string → result string string).

Definition heartbeat_body (e : call_env) (node_id : string) (r : HeartbeatRecord) : SE db string unit :=
  insert_health (stmt_fault e 0)
    (Health (uuid1 e) node_id (hb_agent_status r) (hb_events_buffered r) (hb_recorded_at r));;
  update_node (stmt_fault e 1) node_id (λ n,
    Node (machine_id n) (hostname n) (os_version n) (agent_version n) (hb_agent_status r)
      (operator_status n) (first_seen_at n) (last_enrolled_at n)).

(** The store error is a [HealthTrackerError::Store]. *)
Definition pg_record_heartbeat (e : call_env) (r : HeartbeatRecord) : SE db string unit := λ d,
  match parse_uuid (hb_node_id r) with
  | Err m => (Err ("invalid node_id uuid: " +:+ m), d)
  | Ok node_id =>
      match pool_fault e with
      | Some p => (Err p, d)
      | None => transaction (commit_fault e) (heartbeat_body e node_id r) d
      end
  end.
End heartbeat.

(** ** Well-formed databases *)

(** The UNIQUE and FOREIGN KEY constraints of the migrations, and the values
    their comments allow. *)
Record db_ok (d : db) : Prop := {
  ok_machine : ∀ i j m n, nodes d !! i = Some m → nodes d !! j = Some n → machine_id m = machine_id n → i = j;
  ok_events : Forall (λ e, is_Some (nodes d !! e_node_id e)) (enrollment_events d);
  ok_health : Forall (λ h, is_Some (nodes d !! h_node_id h)) (node_health d);
  ok_events_pk : NoDup (event_id <$> enrollment_events d);
  ok_health_pk : NoDup (health_id <$> node_health d)
}.

(** ** The NodeStore interface (node-enrollment/src/store.rs) *)

(** What [NodeEnroller] relies on, on a state [S] with a view of the node ids. *)
Class NodeStore (S : Type) := {
  upsert_node : call_env → NodeRecord → SE S NodeEnrollmentError string;
  node_of : S → string → option string;
  store_ok : S → Prop
}.

Class NodeStoreLaws (S : Type) `{NodeStore S} := {
  upsert_ok e r s id s' : store_ok s → upsert_node e r s = (Ok id, s') →
    store_ok s' ∧ node_of s' (r_machine_id r) = Some id ∧
    (∀ id0, node_of s (r_machine_id r) = Some id0 → id = id0) ∧
    (∀ mid, mid ≠ r_machine_id r → node_of s' mid = node_of s mid);
  upsert_err e r s err s' : upsert_node e r s = (Err err, s') → s' = s
}.

#[export] Instance pg_node_store : NodeStore db := {|
  upsert_node := pg_upsert_node;
  node_of d mid := find_machine mid d;
  store_ok := db_ok |}.

(** ** The HealthStore interface (health-tracker/src/store.rs) *)

(** What [HealthTracker] hands its records to, on a state [S] with a view of the
    operator's status, which the trait's documentation puts out of its reach. *)
Class HealthStore (S : Type) := {
  record_heartbeat : call_env → HeartbeatRecord → SE S string unit;
  operator_of : S → string → option string }.

Class HealthStoreLaws (S : Type) `{HealthStore S} := {
  heartbeat_operator e r s id : operator_of (record_heartbeat e r s).2 id = operator_of s id;
  heartbeat_err e r s err s' : record_heartbeat e r s = (Err err, s') → s' = s }.

Definition pg_health_store (parse_uuid : string → result string string) : HealthStore db := {|
  record_heartbeat := pg_record_heartbeat parse_uuid;
  operator_of d id := operator_status <$> nodes d !! id |}.

(** ** Concurrent enrolments

    Under READ COMMITTED a transaction's SELECT sees the committed rows, and a
    conflicting INSERT waits for the other transaction and then fails: the SELECT
    and the writes-with-commit are two atomic steps, between which other
    transactions commit. *)
Inductive tx_state :=
  | Started
  | Selected (existing : option string)
  | Committed (node_id : string)
  | Failed (error : string).

Record tx := Tx { tx_env : call_env; tx_record : NodeRecord; tx_pc : tx_state }.

Definition tx_step (t : tx) (d : db) : tx * db :=
  let goto pc := Tx (tx_env t) (tx_record t) pc in
  match tx_pc t with
  | Started =>
      match select_existing (tx_env t) (tx_record t) d with
      | (Ok x, _) => (goto (Selected x), d)
      | (Err e, _) => (goto (Failed e), d)
      end
  | Selected x =>
      match transaction (commit_fault (tx_env t)) (write_enrollment (tx_env t) (tx_record t) x) d with
      | (Ok i, d') => (goto (Committed i), d')
      | (Err e, d') => (goto (Failed e), d')
      end
  | _ => (t, d)
  end.

Inductive step : list tx * db → list tx * db → Prop :=
  | step_at ts d i t t' d' :
      ts !! i = Some t → tx_step t d = (t', d') → step (ts, d) (<[i := t']> ts, d').

Definition initial (calls : list (call_env * NodeRecord)) (d : db) : list tx * db :=
  ((λ '(e, r), Tx e r Started) <$> calls, d).

(** ** Lemmas *)

Lemma find_machine_some mid d i :
  find_machine mid d = Some i → ∃ n, nodes d !! i = Some n ∧ machine_id n = mid.
Proof.
  unfold find_machine. intros H. destruct (filter _ _) as [| [k n] l] eqn:Hf; [done |]. simpl in H. simplify_eq.
  assert ((i, n) ∈ filter (λ kn, machine_id kn.2 = mid) (map_to_list (nodes d))) as Hin by (rewrite Hf; by left).
  apply list_elem_of_filter in Hin as [Hm Hin]. apply elem_of_map_to_list in Hin. eauto.
Qed.

Lemma find_machine_none mid d i n :
  find_machine mid d = None → nodes d !! i = Some n → machine_id n ≠ mid.
Proof.
  unfold find_machine. intros H Hi Hm. destruct (filter _ _) as [| x l] eqn:Hf; [| done].
  assert ((i, n) ∈ filter (λ kn, machine_id kn.2 = mid) (map_to_list (nodes d))) as Hin.
  { apply list_elem_of_filter. split; [done |]. by apply elem_of_map_to_list. }
  rewrite Hf in Hin. by apply elem_of_nil in Hin.
Qed.

Lemma find_machine_iff mid d i : db_ok d →
  find_machine mid d = Some i ↔ ∃ n, nodes d !! i = Some n ∧ machine_id n = mid.
Proof.
  intros Hok. split; [apply find_machine_some |]. intros (n & Hn & Hm).
  destruct (find_machine mid d) as [j |] eqn:Hf.
  - apply find_machine_some in Hf as (m & Hj & Hmj). f_equal. eapply (ok_machine d Hok); [exact Hj | exact Hn |]. congruence.
  - by destruct (find_machine_none mid d i n Hf Hn).
Qed.

(** [find_machine] depends only on which machine ids the rows have. *)
Lemma find_machine_ext mid d d' : db_ok d → db_ok d' →
  (∀ i, (∃ n, nodes d !! i = Some n ∧ machine_id n = mid) ↔ (∃ n, nodes d' !! i = Some n ∧ machine_id n = mid)) →
  find_machine mid d' = find_machine mid d.
Proof.
  intros Hok Hok' Hiff. apply option_eq. intros i. rewrite !find_machine_iff by done. by rewrite Hiff.
Qed.

Lemma check_fault_ok f d x d' : check_fault f d = (Ok x, d') → f = None ∧ d' = d.
Proof. unfold check_fault. destruct f; [done |]. by intros [= <- <-]. Qed.

Lemma check_fault_bind {A} f (m : SE db string A) d :
  (check_fault f ≫= λ _, m) d = match f with None => m d | Some e => (Err e, d) end.
Proof. by destruct f. Qed.

(** The rows of an enrolment. *)
Definition new_node (e : call_env) (r : NodeRecord) : node :=
  Node (r_machine_id r) (r_hostname r) (r_os_version r) (r_agent_version r) "healthy" "active" (now e) (now e).
Definition re_node (e : call_env) (r : NodeRecord) (n : node) : node :=
  Node (machine_id n) (r_hostname r) (r_os_version r) (r_agent_version r)
    (agent_status n) (operator_status n) (first_seen_at n) (now e).
Definition audit (e : call_env) (r : NodeRecord) (id type : string) : enrollment_event :=
  EnrollmentEvent (uuid2 e) id type (r_hostname r) (r_os_version r) (r_agent_version r) (now e).

Lemma insert_event_ok f ev d x d' :
  insert_event f ev d = (Ok x, d') →
  event_id ev ∉ event_id <$> enrollment_events d ∧ is_Some (nodes d !! e_node_id ev) ∧
  d' = Db (nodes d) (node_health d) (enrollment_events d ++ [ev]).
Proof.
  unfold insert_event. rewrite check_fault_bind. destruct f; [done |]. unfold mbind, SE_bind, gets. simpl.
  case_decide; [done |]. destruct (nodes d !! e_node_id ev) eqn:Hn; [| done]. unfold modify.
  intros [= _ <-]. eauto.
Qed.

Lemma insert_node_ok f i n d x d' :
  insert_node f i n d = (Ok x, d') →
  nodes d !! i = None ∧ find_machine (machine_id n) d = None ∧
  d' = Db (<[i := n]> (nodes d)) (node_health d) (enrollment_events d).
Proof.
  unfold insert_node. rewrite check_fault_bind. destruct f; [done |]. unfold mbind, SE_bind, gets. simpl.
  destruct (nodes d !! i) eqn:Hn; [done |]. destruct (find_machine (machine_id n) d) eqn:Hf; [done |].
  unfold modify. by intros [= _ <-].
Qed.

(** The effect of the writes of an enrolment that succeeds. *)
Lemma write_enrollment_ok e r existing d id d' :
  write_enrollment e r existing d = (Ok id, d') →
  uuid2 e ∉ event_id <$> enrollment_events d ∧
  match existing with
  | None => id = uuid1 e ∧ nodes d !! id = None ∧ find_machine (r_machine_id r) d = None ∧
      d' = Db (<[id := new_node e r]> (nodes d)) (node_health d)
             (enrollment_events d ++ [audit e r id "new_enrollment"])
  | Some i => id = i ∧ is_Some (nodes d !! i) ∧
      d' = Db (alter (re_node e r) i (nodes d)) (node_health d)
             (enrollment_events d ++ [audit e r i "re_enrollment"])
  end.
Proof.
  unfold write_enrollment, mbind, SE_bind. destruct existing as [i |].
  - unfold update_node. rewrite check_fault_bind. destruct (stmt_fault e 1); [done |]. unfold modify at 1. simpl.
    destruct (insert_event _ _ _) as [[[] |] d2] eqn:Hev; [| done].
    apply insert_event_ok in Hev as (Hid & Hn & ->). intros [= <- <-]. simpl in *.
    split; [done |]. split_and!; [done | | done]. by rewrite lookup_alter_is_Some in Hn.
  - destruct (insert_node _ _ _ _) as [[[] |] d1] eqn:Hins; [| done].
    apply insert_node_ok in Hins as (Hi & Hm & ->). simpl.
    destruct (insert_event _ _ _) as [[[] |] d2] eqn:Hev; [| done].
    apply insert_event_ok in Hev as (Hid & Hn & ->). intros [= <- <-]. simpl in *. done.
Qed.

Lemma transaction_cases {A} cf (m : SE db string A) d :
  (∃ e, transaction cf m d = (Err e, d)) ∨
  ∃ a d', transaction cf m d = (Ok a, d') ∧ m d = (Ok a, d').
Proof.
  unfold transaction. destruct (m d) as [[a | e] d'] eqn:Hm; [| left; by eexists].
  destruct cf as [e |]; [left; by eexists | right; eauto].
Qed.

(** ** What enrolments keep *)

(** Rows are never deleted; ids, operator status and first sight never change;
    the logs only grow. *)
Definition extends (d d' : db) : Prop :=
  (∀ i n, nodes d !! i = Some n → ∃ n', nodes d' !! i = Some n' ∧ machine_id n' = machine_id n ∧
     operator_status n' = operator_status n ∧ first_seen_at n' = first_seen_at n) ∧
  (enrollment_events d) `prefix_of` (enrollment_events d') ∧ (node_health d) `prefix_of` (node_health d').

#[export] Instance extends_preorder : PreOrder extends.
Proof.
  split.
  - intros d. split_and!; [eauto | done | done].
  - intros d1 d2 d3 (H1 & H2 & H3) (H4 & H5 & H6). split_and!; [| by etrans | by etrans].
    intros i n Hi. destruct (H1 i n Hi) as (n2 & Hn2 & ? & ? & ?).
    destruct (H4 i n2 Hn2) as (n3 & ? & ? & ? & ?). exists n3. split_and!; [done | congruence..].
Qed.

Lemma write_extends e r existing d id d' :
  write_enrollment e r existing d = (Ok id, d') → extends d d'.
Proof.
  intros H%write_enrollment_ok. destruct H as [_ H]. destruct existing as [i |].
  - destruct H as (-> & _ & ->). split_and!; simpl; [| by apply prefix_app_r | done].
    intros j n Hj. destruct (decide (j = i)) as [-> | Hne].
    + exists (re_node e r n). rewrite lookup_alter_eq, Hj. done.
    + exists n. by rewrite lookup_alter_ne.
  - destruct H as (-> & Hi & _ & ->). split_and!; simpl; [| by apply prefix_app_r | done].
    intros j n Hj. exists n. rewrite lookup_insert_ne; [done | congruence].
Qed.

Lemma write_db_ok e r existing d id d' :
  write_enrollment e r existing d = (Ok id, d') → db_ok d → db_ok d'.
Proof.
  intros H Hok. pose proof (write_extends _ _ _ _ _ _ H) as (Hext & _ & _).
  apply write_enrollment_ok in H as [Hid H].
  assert (∀ i, is_Some (nodes d !! i) → is_Some (nodes d' !! i)) as Hmono.
  { intros i [n Hn]. destruct (Hext i n Hn) as (n' & -> & _). by eexists. }
  assert (is_Some (nodes d' !! id)) as Hnew.
  { destruct existing; destruct H as (-> & H).
    - destruct H as (Hs & _). by apply Hmono.
    - destruct H as (_ & _ & ->). simpl. rewrite lookup_insert_eq. by eexists. }
  assert (∃ ty, enrollment_events d' = enrollment_events d ++ [audit e r id ty]) as [ty Hev].
  { destruct existing; destruct H as (-> & H); [destruct H as (_ & ->) | destruct H as (_ & _ & ->)]; by eexists. }
  assert (node_health d' = node_health d) as Hh.
  { destruct existing; destruct H as (-> & H); [destruct H as (_ & ->) | destruct H as (_ & _ & ->)]; done. }
  split.
  - destruct existing as [i |].
    + destruct H as (-> & _ & ->). simpl. intros j k m n Hj Hk Hm.
      apply lookup_alter_Some in Hj as [(<- & m0 & Hj & ->) | (Hne & Hj)];
      apply lookup_alter_Some in Hk as [(<- & n0 & Hk & ->) | (Hne' & Hk)]; try done;
      by eapply (ok_machine d Hok).
    + destruct H as (-> & Hi & Hf & ->). simpl. intros j k m n Hj Hk Hm.
      apply lookup_insert_Some in Hj as [(<- & <-) | (Hne & Hj)];
      apply lookup_insert_Some in Hk as [(<- & <-) | (Hne' & Hk)]; try done.
      * by destruct (find_machine_none _ _ _ _ Hf Hk).
      * by destruct (find_machine_none _ _ _ _ Hf Hj).
      * by eapply (ok_machine d Hok).
  - rewrite Hev. apply Forall_app. split; [| by repeat constructor].
    eapply Forall_impl; [apply (ok_events d Hok) | auto].
  - rewrite Hh. eapply Forall_impl; [apply (ok_health d Hok) | auto].
  - rewrite Hev, fmap_app. apply NoDup_app. split_and!; [apply (ok_events_pk d Hok) | | by apply NoDup_singleton].
    intros x Hx ->%list_elem_of_singleton. done.
  - rewrite Hh. apply (ok_health_pk d Hok).
Qed.

(** After the writes the machine has the returned node id. *)
Lemma write_node_of e r existing d id d' :
  write_enrollment e r existing d = (Ok id, d') →
  (∀ i, existing = Some i → ∃ n, nodes d !! i = Some n ∧ machine_id n = r_machine_id r) →
  ∃ n, nodes d' !! id = Some n ∧ machine_id n = r_machine_id r.
Proof.
  intros H%write_enrollment_ok Hex. destruct H as [_ H]. destruct existing as [i |].
  - destruct (Hex i eq_refl) as (n & Hn & Hm). destruct H as (-> & _ & ->). exists (re_node e r n). simpl.
    rewrite lookup_alter_eq, Hn. done.
  - destruct H as (-> & _ & _ & ->). exists (new_node e r). simpl. by rewrite lookup_insert_eq.
Qed.

(** One enrolment, on every branch. *)
Lemma pg_upsert_cases e r d :
  (∃ err, pg_upsert_node e r d = (Err err, d)) ∨
  ∃ id d', pg_upsert_node e r d = (Ok id, d') ∧
    write_enrollment e r (find_machine (r_machine_id r) d) d = (Ok id, d').
Proof.
  unfold pg_upsert_node. destruct (pool_fault e); [left; by eexists |].
  unfold rethrow. destruct (transaction_cases (commit_fault e) (upsert_body e r) d)
    as [[x ->] | (id & d' & -> & Hb)]; [left; by eexists | right].
  exists id, d'. split; [done |]. revert Hb. unfold upsert_body, select_existing, mbind, SE_bind, check_fault.
  destruct (stmt_fault e 0); [done |]. done.
Qed.

Lemma other_machines e r d id d' mid :
  db_ok d → write_enrollment e r (find_machine (r_machine_id r) d) d = (Ok id, d') →
  mid ≠ r_machine_id r → find_machine mid d' = find_machine mid d.
Proof.
  intros Hok Hw Hne. pose proof (write_db_ok _ _ _ _ _ _ Hw Hok) as Hok'.
  apply find_machine_ext; [done | done |]. intros i.
  pose proof (write_enrollment_ok _ _ _ _ _ _ Hw) as [_ H].
  destruct (find_machine (r_machine_id r) d) as [j |] eqn:Hf.
  - destruct H as (-> & _ & ->). simpl. split.
    + intros (n & Hn & Hm). destruct (decide (i = j)) as [-> | ?].
      * exists (re_node e r n). by rewrite lookup_alter_eq, Hn.
      * exists n. by rewrite lookup_alter_ne.
    + intros (n & Hn & Hm). apply lookup_alter_Some in Hn as [(<- & n0 & Hn & ->) | (? & Hn)]; eauto.
  - destruct H as (-> & Hi & _ & ->). simpl. split.
    + intros (n & Hn & Hm). exists n. rewrite lookup_insert_ne; [done | congruence].
    + intros (n & Hn & Hm). apply lookup_insert_Some in Hn as [(<- & <-) | (? & Hn)]; [done | eauto].
Qed.

Lemma found_row r d : ∀ i, find_machine (r_machine_id r) d = Some i →
  ∃ n, nodes d !! i = Some n ∧ machine_id n = r_machine_id r.
Proof. intros i. apply find_machine_some. Qed.

(** PostgreSQL implements the interface. *)
#[export] Instance pg_node_store_laws : NodeStoreLaws db.
Proof.
  split.
  - intros e r d id d' Hok. simpl. destruct (pg_upsert_cases e r d) as [[err ->] | (i & d1 & -> & Hw)]; [done |].
    intros [= -> ->]. pose proof (write_db_ok _ _ _ _ _ _ Hw Hok) as Hok'. split_and!; [done | | |].
    + apply find_machine_iff; [done |]. eapply write_node_of; [exact Hw | apply found_row].
    + intros id0 Hid. rewrite Hid in Hw. apply write_enrollment_ok in Hw. naive_solver.
    + intros mid Hne. by eapply other_machines.
  - intros e r d err d'. simpl. destruct (pg_upsert_cases e r d) as [[e1 ->] | (i & d1 & -> & Hw)]; [| done].
    by intros [= _ <-].
Qed.

(** One heartbeat, on every branch. *)
Definition beat_node (st : string) (n : node) : node :=
  Node (machine_id n) (hostname n) (os_version n) (agent_version n) st (operator_status n)
    (first_seen_at n) (last_enrolled_at n).

Lemma heartbeat_cases parse_uuid e r d :
  (∃ err, pg_record_heartbeat parse_uuid e r d = (Err err, d)) ∨
  ∃ id, parse_uuid (hb_node_id r) = Ok id ∧ is_Some (nodes d !! id) ∧
    uuid1 e ∉ health_id <$> node_health d ∧
    pg_record_heartbeat parse_uuid e r d =
      (Ok tt, Db (alter (beat_node (hb_agent_status r)) id (nodes d))
         (node_health d ++ [Health (uuid1 e) id (hb_agent_status r) (hb_events_buffered r) (hb_recorded_at r)])
         (enrollment_events d)).
Proof.
  unfold pg_record_heartbeat. destruct (parse_uuid (hb_node_id r)) as [id |]; [| left; by eexists].
  destruct (pool_fault e); [left; by eexists |].
  destruct (transaction_cases (commit_fault e) (heartbeat_body e id r) d) as [[x ->] | ([] & d' & -> & Hb)];
    [left; by eexists | right].
  exists id. split; [done |]. revert Hb. unfold heartbeat_body, insert_health, mbind, SE_bind, check_fault, gets.
  destruct (stmt_fault e 0); [done |]. simpl. case_decide; [done |].
  destruct (nodes d !! id) eqn:Hn; [| done]. simpl. unfold update_node, mbind, SE_bind, check_fault.
  destruct (stmt_fault e 1); [done |]. simpl. intros [= <-]. eauto.
Qed.

(** PostgreSQL implements the interface. *)
Lemma pg_health_store_laws parse_uuid : @HealthStoreLaws db (pg_health_store parse_uuid).
Proof.
  split; simpl.
  - intros e r d id. destruct (heartbeat_cases parse_uuid e r d) as [[err ->] | (i & _ & _ & _ & ->)]; [done |]. simpl.
    destruct (decide (i = id)) as [-> | Hne]; [| by rewrite lookup_alter_ne].
    rewrite lookup_alter_eq. by destruct (nodes d !! id).
  - intros e r d err d'. destruct (heartbeat_cases parse_uuid e r d) as [[err' ->] | (i & _ & _ & _ & ->)]; [| done].
    by intros [= _ <-].
Qed.

Lemma heartbeat_extends parse_uuid e r d : extends d (pg_record_heartbeat parse_uuid e r d).2.
Proof.
  destruct (heartbeat_cases parse_uuid e r d) as [[err ->] | (id & _ & _ & _ & ->)]; [done |].
  split_and!; simpl; [| done | by apply prefix_app_r]. intros i n Hi. destruct (decide (i = id)) as [-> |].
  - exists (beat_node (hb_agent_status r) n). by rewrite lookup_alter_eq, Hi.
  - exists n. by rewrite lookup_alter_ne.
Qed.

(** ** Reachable interleavings *)

(** What a transaction knows at each point. *)
Definition tx_ok (d : db) (t : tx) : Prop :=
  match tx_pc t with
  | Selected (Some i) | Committed i =>
      ∃ n, nodes d !! i = Some n ∧ machine_id n = r_machine_id (tx_record t)
  | _ => True
  end.

Lemma tx_ok_extends d d' t : extends d d' → tx_ok d t → tx_ok d' t.
Proof.
  intros (Hext & _) Ht. unfold tx_ok in *. destruct (tx_pc t) as [| [i |] | i |]; try done;
    destruct Ht as (n & Hn & Hm); destruct (Hext i n Hn) as (n' & ? & ? & _); exists n'; split; congruence.
Qed.

Lemma tx_step_sound t d t' d' :
  tx_step t d = (t', d') → db_ok d → tx_ok d t → db_ok d' ∧ extends d d' ∧ tx_ok d' t'.
Proof.
  unfold tx_step. intros Hstep Hok Ht. destruct (tx_pc t) as [| x | i | err] eqn:Hpc; simplify_eq.
  - unfold select_existing, mbind, SE_bind, check_fault, gets in Hstep.
    destruct (stmt_fault (tx_env t) 0); simpl in Hstep; simplify_eq; (split_and!; [done | done |]); [done |].
    unfold tx_ok. simpl. destruct (find_machine _ _) as [i |] eqn:Hf; [| done]. by apply find_machine_some.
  - destruct (transaction_cases (commit_fault (tx_env t)) (write_enrollment (tx_env t) (tx_record t) x) d)
      as [[e He] | (id & d1 & He & Hw)]; rewrite He in Hstep; simplify_eq.
    + by split_and!.
    + split_and!; [by eapply write_db_ok | by eapply write_extends |].
      unfold tx_ok. simpl. eapply write_node_of; [exact Hw |]. intros i ->.
      unfold tx_ok in Ht. by rewrite Hpc in Ht.
  - by split_and!.
  - by split_and!.
Qed.

Lemma step_sound s s' : step s s' → db_ok s.2 → Forall (tx_ok s.2) s.1 →
  db_ok s'.2 ∧ extends s.2 s'.2 ∧ Forall (tx_ok s'.2) s'.1.
Proof.
  intros [ts d i t t' d' Hi Ht] Hok Hall. simpl in *.
  pose proof (Forall_lookup_1 _ _ _ _ Hall Hi) as Htx.
  destruct (tx_step_sound _ _ _ _ Ht Hok Htx) as (Hok' & Hext & Htx'). split_and!; [done | done |].
  apply Forall_insert; [| done]. eapply Forall_impl; [exact Hall |]. intros t0. by apply tx_ok_extends.
Qed.

Lemma reachable_sound s s' : rtc step s s' → db_ok s.2 → Forall (tx_ok s.2) s.1 →
  db_ok s'.2 ∧ extends s.2 s'.2 ∧ Forall (tx_ok s'.2) s'.1.
Proof.
  induction 1 as [s | s1 s2 s3 Hs _ IH]; intros Hok Hall; [done |].
  destruct (step_sound _ _ Hs Hok Hall) as (Hok2 & Hext & Hall2).
  destruct (IH Hok2 Hall2) as (? & ? & ?). split_and!; [done | by etrans | done].
Qed.

Lemma empty_db_ok : db_ok (Db ∅ [] []).
Proof. split; simpl; try constructor. intros i j m n Hi. by rewrite lookup_empty in Hi. Qed.

(** ** Properties *)

(** An enrolment either fails and changes nothing, or leaves exactly one
    more audit row, of the kind that says whether the machine was known, keeps a
    known machine's node id, operator status and first-seen time and every other
    machine's node id, and keeps the constraints. *)
Theorem enrollment_outcome e r d :
  db_ok d →
  match pg_upsert_node e r d with
  | (Err _, d') => d' = d
  | (Ok id, d') =>
      db_ok d' ∧ extends d d' ∧
      find_machine (r_machine_id r) d' = Some id ∧
      (∀ mid, mid ≠ r_machine_id r → find_machine mid d' = find_machine mid d) ∧
      enrollment_events d' = enrollment_events d ++
        [audit e r id (match find_machine (r_machine_id r) d with
                       | Some _ => "re_enrollment" | None => "new_enrollment" end)] ∧
      (∀ id0, find_machine (r_machine_id r) d = Some id0 → id = id0)
  end.
Proof.
  intros Hok. destruct (pg_upsert_cases e r d) as [[err ->] | (id & d' & -> & Hw)]; [done |].
  pose proof (write_db_ok _ _ _ _ _ _ Hw Hok) as Hok'. split_and!.
  - done.
  - by eapply write_extends.
  - apply find_machine_iff; [done |]. eapply write_node_of; [exact Hw | apply found_row].
  - intros mid Hne. by eapply other_machines.
  - apply write_enrollment_ok in Hw as [_ Hw]. destruct (find_machine _ d);
      [destruct Hw as (-> & _ & ->) | destruct Hw as (-> & _ & _ & ->)]; done.
  - intros id0 Hid. rewrite Hid in Hw. apply write_enrollment_ok in Hw. naive_solver.
Qed.

Definition example_env (u1 u2 : string) (t : Z) : call_env := CallEnv u1 u2 t None (λ _, None) None.
Definition example_record (m : string) : NodeRecord := mkRecord "host" "linux" "0.1" m.

Lemma enrollment_outcome_witness :
  let d1 := (pg_upsert_node (example_env "n1" "e1" 5) (example_record "m1") (Db ∅ [] [])).2 in
  find_machine "m1" d1 = Some "n1" ∧ enrollment_events d1 = [audit (example_env "n1" "e1" 5) (example_record "m1") "n1" "new_enrollment"].
Proof.
  pose proof (enrollment_outcome (example_env "n1" "e1" 5) (example_record "m1") (Db ∅ [] []) empty_db_ok) as H.
  destruct (pg_upsert_node _ _ _) as [[id | err] d'] eqn:Hr; [| by vm_compute in Hr].
  assert (id = "n1") as -> by (vm_compute in Hr; by simplify_eq).
  destruct H as (_ & _ & H1 & _ & H2 & _). split; [exact H1 | exact H2].
Defined.

(** In every reachable interleaving of concurrent enrolments the
    constraints hold (one row per machine id), rows are never lost, and the node
    id a committed enrolment returned is its machine's, so that two committed
    enrolments of one machine return the same id. *)
Theorem concurrent_enrollments_consistent calls d ts d' :
  db_ok d → rtc step (initial calls d) (ts, d') →
  db_ok d' ∧ extends d d' ∧
  (∀ t id, t ∈ ts → tx_pc t = Committed id → find_machine (r_machine_id (tx_record t)) d' = Some id) ∧
  (∀ t1 t2 id1 id2, t1 ∈ ts → t2 ∈ ts → tx_pc t1 = Committed id1 → tx_pc t2 = Committed id2 →
     r_machine_id (tx_record t1) = r_machine_id (tx_record t2) → id1 = id2).
Proof.
  intros Hok Hr. destruct (reachable_sound _ _ Hr Hok) as (Hok' & Hext & Hall).
  { simpl. apply Forall_forall. intros t ([e r] & -> & _)%list_elem_of_fmap. done. }
  simpl in *. assert (∀ t id, t ∈ ts → tx_pc t = Committed id →
    find_machine (r_machine_id (tx_record t)) d' = Some id) as Hc.
  { intros t id Ht Hpc. rewrite Forall_forall in Hall. specialize (Hall t Ht). unfold tx_ok in Hall.
    rewrite Hpc in Hall. by apply find_machine_iff. }
  split_and!; [done | done | done |].
  intros t1 t2 id1 id2 H1 H2 Hp1 Hp2 Hm. apply Hc in Hp1; [| done]. apply Hc in Hp2; [| done].
  rewrite Hm in Hp1. congruence.
Qed.

Definition race_calls : list (call_env * NodeRecord) :=
  [(example_env "n1" "e1" 5, example_record "m1"); (example_env "n2" "e2" 6, example_record "m1")].

(** Run the transactions at the given positions in turn. *)
Fixpoint schedule (l : list nat) (s : list tx * db) : list tx * db :=
  match l with
  | [] => s
  | i :: l =>
      match s.1 !! i with
      | Some t => let '(t', d') := tx_step t s.2 in schedule l (<[i := t']> s.1, d')
      | None => schedule l s
      end
  end.

Lemma schedule_reachable l s : rtc step s (schedule l s).
Proof.
  revert s. induction l as [| i l IH]; intros [ts d]; simpl; [done |].
  destruct (ts !! i) as [t |] eqn:Hi; [| apply IH].
  destruct (tx_step t d) as [t' d'] eqn:Ht. eapply rtc_l; [by econstructor | apply IH].
Qed.

Lemma concurrent_enrollments_consistent_witness :
  find_machine "m1" (schedule [0; 1; 1; 0] (initial race_calls (Db ∅ [] []))).2 = Some "n2".
Proof.
  destruct (concurrent_enrollments_consistent race_calls (Db ∅ [] [])
    (schedule [0; 1; 1; 0] (initial race_calls (Db ∅ [] []))).1
    (schedule [0; 1; 1; 0] (initial race_calls (Db ∅ [] []))).2 empty_db_ok) as (_ & _ & H & _).
  { rewrite <-surjective_pairing. apply schedule_reachable. }
  refine (H (Tx (example_env "n2" "e2" 6) (example_record "m1") (Committed "n2")) "n2" _ eq_refl).
  apply (list_elem_of_lookup_2 _ 1). by vm_compute.
Defined.

(** The transaction does not rule out the enrolment race: two first enrolments
    of one machine can both find no row, and then the second to write fails with
    a unique violation, although no statement or connection failed. *)
Theorem enrollment_race_loser_fails :
  ∃ ts d, rtc step (initial race_calls (Db ∅ [] [])) (ts, d) ∧
    tx_pc <$> ts = [Failed (unique_violation "nodes_machine_id_key"); Committed "n2"] ∧
    find_machine "m1" d = Some "n2".
Proof.
  exists (schedule [0; 1; 1; 0] (initial race_calls (Db ∅ [] []))).1,
         (schedule [0; 1; 1; 0] (initial race_calls (Db ∅ [] []))).2.
  split; [rewrite <-surjective_pairing; apply schedule_reachable |]. split; by vm_compute.
Qed.

(** A heartbeat writes the node's agent status and one health row together or
    not at all; it never touches an operator status, and for an unknown node it
    fails and changes nothing. *)
Theorem heartbeat_outcome parse_uuid e r d :
  match pg_record_heartbeat parse_uuid e r d with
  | (Err _, d') => d' = d
  | (Ok _, d') => ∃ id h, parse_uuid (hb_node_id r) = Ok id ∧ is_Some (nodes d !! id) ∧
      node_health d' = node_health d ++ [h] ∧ h_node_id h = id ∧ h_agent_status h = hb_agent_status r ∧
      enrollment_events d' = enrollment_events d ∧
      operator_status <$> nodes d' = operator_status <$> nodes d ∧
      (agent_status <$> nodes d') = <[id := hb_agent_status r]> (agent_status <$> nodes d)
  end.
Proof.
  destruct (heartbeat_cases parse_uuid e r d) as [[err ->] | (id & Hp & [n Hn] & _ & ->)]; [done |].
  do 2 eexists. split_and!; [exact Hp | by eexists | reflexivity | reflexivity.. | |]; simpl;
    apply map_eq; intros j; rewrite !lookup_fmap.
  - destruct (decide (j = id)) as [-> | Hne]; [| by rewrite lookup_alter_ne].
    by rewrite lookup_alter_eq, Hn.
  - destruct (decide (j = id)) as [-> | Hne].
    + by rewrite lookup_alter_eq, Hn, lookup_insert_eq.
    + by rewrite lookup_alter_ne, lookup_insert_ne, lookup_fmap.
Qed.
