(* ===== verification/FleetServer.v ===== *)
(** * The fleet server
      (fleet-server/crates: node-enrollment, health-tracker, grpc-listener,
      fleet-server-bin/src/ports.rs and settings.rs, kafka-handler)

    Enrolment, heartbeats and the event stream, with the tokens that tie them
    together.  JSON Web Tokens are the jsonwebtoken crate's: the class [Jwt] with
    its laws, and an instance. *)
From Stdlib Require Import ZArith Lia.
From S2P Require Import Prelude Json Pipeline FleetDb.
#[local] Open Scope string_scope.
#[local] Open Scope list_scope.
#[local] Open Scope nat_scope.

(** ** Status codes of tonic the server returns *)
Inductive code := Unauthenticated | Internal.
Record status := Status { st_code : code; st_message : string }.
Definition unauthenticated (m : string) : status := Status Unauthenticated m.
Definition internal (m : string) : status := Status Internal m.

(** ** Tokens *)

(** [NodeClaims] of token.rs and auth.rs *)
Record NodeClaims := Claims { node_id : string; exp : Z }.

Class Jwt := {
  encode : NodeClaims → string → result string string;
  (** [decode] with [Validation::new(HS256)], at a time in seconds. *)
  decode : string → string → Z → result NodeClaims string
}.

(** The default leeway of the expiry check. *)
Definition leeway : Z := 60.

Class JwtLaws `{Jwt} := {
  decode_encode c k t now :
    (0 ≤ exp c)%Z → encode c k = Ok t → (now - leeway ≤ exp c)%Z → decode t k now = Ok c;
  decode_expired c k t now :
    (0 ≤ exp c)%Z → encode c k = Ok t → (exp c < now - leeway)%Z → is_ok (decode t k now) = false
}.

Definition TOKEN_TTL_SECS : Z := 86400.

(** ** Ports (fleet-manager/src/ports.rs) *)

Record AgentRegistration := Registration {
  reg_hostname : string; reg_os_version : string; reg_agent_version : string; reg_machine_id : string }.
Record RegistrationResult := Registered { res_node_id : string; res_token : string }.
Record AgentHeartbeat := Heartbeat { ah_node_id : string; ah_status : string; ah_events_buffered : Z }.
Record IncomingEvent := Incoming {
  in_node_id : string; in_event_type : string; in_payload : string; in_timestamp_ns : Z; in_sequence_id : string }.
Inductive OutgoingCommand := Ack (sequence_id : string).

Section tokens.
Context `{Jwt}.

(** [sign_token]; the clock is [None] before the epoch. *)
Definition sign_token (now_secs : option Z) (node_id secret : string) : result string NodeEnrollmentError :=
  match now_secs with
  | None => Err (Clock "system clock before UNIX epoch")
  | Some secs => map_err TokenSign (encode (Claims node_id (sat_add_u 64 secs TOKEN_TTL_SECS)) secret)
  end.

(** ** Enrolment (enroller.rs) *)

Definition register_agent {S} `{NodeStore S} (jwt_secret : string) (e : call_env) (now_secs : option Z)
    (reg : AgentRegistration) : SE S status RegistrationResult :=
  node_id ← rethrow (λ _, internal "enrollment failed")
    (upsert_node e (mkRecord (reg_hostname reg) (reg_os_version reg) (reg_agent_version reg) (reg_machine_id reg)));
  match map_err (λ _, internal "token signing failed") (sign_token now_secs node_id jwt_secret) with
  | Err st => throw st
  | Ok token => mret (Registered node_id token)
  end.

(** ** Heartbeats (tracker.rs) *)

Definition sanitize_status (s : string) : string :=
  if String.eqb s "healthy" then "healthy"
  else if String.eqb s "degraded" then "degraded"
  else "degraded".

Definition track_heartbeat {S} `{HealthStore S} (e : call_env) (hb : AgentHeartbeat) : SE S status unit :=
  rethrow (λ _, internal "heartbeat store failed")
    (record_heartbeat e
       (mkHeartbeat (ah_node_id hb) (sanitize_status (ah_status hb)) (ah_events_buffered hb) (now e))).

(** ** Authentication (auth.rs) *)

(** Request metadata: keys to values; [to_str] fails on a value that is not
    visible ASCII. *)
Definition metadata : Type := list (string * string).

Definition is_visible (c : Ascii.ascii) : bool :=
  let n := Ascii.nat_of_ascii c in (n =? 9) || ((32 <=? n) && (n <? 127)).
Fixpoint all_visible (s : string) : bool :=
  match s with EmptyString => true | String c s => is_visible c && all_visible s end.
Definition to_str (v : string) : option string := if all_visible v then Some v else None.

Definition validate_token (md : metadata) (key : string) (now : Z) : result NodeClaims status :=
  match map_get "authorization" md with
  | None => Err (unauthenticated "missing authorization header")
  | Some header =>
      match to_str header with
      | None => Err (unauthenticated "authorization header is not valid utf-8")
      | Some header_str =>
          match strip_prefix "Bearer " header_str with
          | None => Err (unauthenticated "authorization header must use Bearer scheme")
          | Some token => map_err (λ _, unauthenticated "invalid or expired token") (decode token key now)
          end
      end
  end.
End tokens.

(** ** The gRPC service (service.rs, ports.rs) *)

(** The secret of the request: its own header first, else the bearer token. *)
Definition provided_secret (md : metadata) : option string :=
  match (v ← map_get "x-enrollment-secret" md; to_str v) with
  | Some s => Some s
  | None => v ← map_get "authorization" md; s ← to_str v; strip_prefix "Bearer " s
  end.

Definition secret_accepted (enrollment_secret : option string) (md : metadata) : bool :=
  match enrollment_secret with
  | None => true
  | Some expected =>
      if str_is_empty expected then true
      else match provided_secret md with
           | Some secret => String.eqb secret expected
           | None => false
           end
  end.

Record RegisterResponse := RegResponse { rr_node_id : string; rr_token : string }.

Section service.
Context `{Jwt} `{SerdeJson}.
(** [String::from_utf8_lossy] and [Uuid::from_str]. *)
Context (from_utf8_lossy : string → string) (parse_uuid : string → result string string).

(** [FleetServiceImpl::register_agent] *)
Definition rpc_register {S} `{NodeStore S} (enrollment_secret : option string) (jwt_secret : string)
    (e : call_env) (now_secs : option Z) (md : metadata) (req : AgentRegistration)
    : SE S status RegisterResponse :=
  if secret_accepted enrollment_secret md then
    result ← register_agent jwt_secret e now_secs req;
    mret (RegResponse (res_node_id result) (res_token result))
  else throw (unauthenticated "invalid or missing enrollment secret").

(** [FleetServiceImpl::heartbeat] *)
Definition rpc_heartbeat (jwt_secret : string) (e : call_env) (now_secs : Z) (md : metadata)
    (hb : AgentHeartbeat) : SE db status bool :=
  match validate_token md jwt_secret now_secs with
  | Err st => throw st
  | Ok _ => @track_heartbeat db (pg_health_store parse_uuid) e hb;; mret true
  end.

(** ** Event ingestion (ports.rs, kafka-handler) *)

Definition json_object (l : list (string * value)) : value :=
  JObject (foldl (λ m '(k, v), map_insert k v m) [] l).

Definition payload_value (payload : string) : value :=
  match from_slice payload with
  | Ok v => v
  | Err _ => json_object [("raw", JString (from_utf8_lossy payload))]
  end.

Definition telemetry_envelope (uuid : string) (ev : IncomingEvent) : value :=
  json_object [
    ("id", JString (if str_is_empty (in_sequence_id ev) then uuid else in_sequence_id ev));
    ("node_id", JString (in_node_id ev));
    ("hostname", JString "");
    ("event_type", JString (in_event_type ev));
    ("timestamp_ns", json_int (in_timestamp_ns ev));
    ("payload", payload_value (in_payload ev));
    ("raw_sequence_id", JString (in_sequence_id ev)) ].

Definition envelope_bytes (uuid : string) (ev : IncomingEvent) : string :=
  match to_vec (telemetry_envelope uuid ev) with Ok bytes => bytes | Err _ => in_payload ev end.

(** [KafkaPublisher::publish] appends to what the broker accepted. *)
Definition publish (fault : option string) (topic key payload : string)
    : SE (list EventRouter.record) string unit :=
  match fault with
  | Some e => throw e
  | None => modify (λ sent, sent ++ [EventRouter.Record_ topic payload key []])
  end.

Definition ingest_event (fault : option string) (topic uuid : string) (ev : IncomingEvent)
    : SE (list EventRouter.record) status (option OutgoingCommand) :=
  rethrow (λ _, internal "Failed to publish event to message broker")
    (publish fault topic (in_node_id ev) (envelope_bytes uuid ev));;
  mret (Some (Ack (in_sequence_id ev))).

(** ** The event stream (service.rs) *)

(** An item of the inbound stream: an event with the UUID drawn for it, the
    outcome of its publish and whether the agent stopped listening, or an error. *)
Inductive inbound :=
  | Event (ev : IncomingEvent) (uuid : string) (fault : option string) (closed : bool)
  | StreamError (e : string).

Record stream := Stream { published : list EventRouter.record; commands : list OutgoingCommand }.

(** The spawned task of [event_stream]. *)
Fixpoint stream_loop (topic : string) (items : list inbound) (s : stream) : stream :=
  match items with
  | [] | StreamError _ :: _ => s
  | Event ev uuid fault closed :: items =>
      let '(r, sent) := ingest_event fault topic uuid ev (published s) in
      match r with
      | Ok (Some cmd) =>
          if closed then Stream sent (commands s)
          else stream_loop topic items (Stream sent (commands s ++ [cmd]))
      | Ok None => stream_loop topic items (Stream sent (commands s))
      | Err _ => stream_loop topic items (Stream sent (commands s))
      end
  end.

Definition rpc_event_stream (jwt_secret : string) (now_secs : Z) (md : metadata) (topic : string)
    (items : list inbound) (s : stream) : result unit status * stream :=
  match validate_token md jwt_secret now_secs with
  | Err st => (Err st, s)
  | Ok _ => (Ok tt, stream_loop topic items s)
  end.

(** The events a stream accepts before it ends. *)
Fixpoint accepted (items : list inbound) : list (IncomingEvent * string * option string * bool) :=
  match items with
  | [] | StreamError _ :: _ => []
  | Event ev uuid fault closed :: items =>
      (ev, uuid, fault, closed) ::
      match fault with
      | None => if closed then [] else accepted items
      | Some _ => accepted items
      end
  end.

Definition acked_by (x : IncomingEvent * string * option string * bool) : list OutgoingCommand :=
  let '(ev, _, fault, closed) := x in
  match fault with None => if (closed : bool) then [] else [Ack (in_sequence_id ev)] | Some _ => [] end.
Definition published_by (topic : string) (x : IncomingEvent * string * option string * bool)
    : list EventRouter.record :=
  let '(ev, uuid, fault, _) := x in
  match fault with
  | None => [EventRouter.Record_ topic (envelope_bytes uuid ev) (in_node_id ev) []]
  | Some _ => []
  end.
End service.

(** ** The unary calls a server serves, one after the other *)
Inductive call :=
  | CallRegister (secret : option string) (jwt_secret : string) (e : call_env) (secs : option Z)
      (md : metadata) (req : AgentRegistration)
  | CallHeartbeat (jwt_secret : string) (e : call_env) (secs : Z) (md : metadata) (hb : AgentHeartbeat).

Definition serve `{Jwt} (parse_uuid : string → result string string) (c : call) (d : db) : db :=
  match c with
  | CallRegister secret jwt e secs md req => (rpc_register secret jwt e secs md req d).2
  | CallHeartbeat jwt e secs md hb => (rpc_heartbeat parse_uuid jwt e secs md hb d).2
  end.

(** Node rows as the fleet server may leave them. *)
Definition node_ok (n : node) : Prop :=
  (agent_status n = "healthy" ∨ agent_status n = "degraded") ∧ operator_status n = "active".
Definition rows_ok (d : db) : Prop := db_ok d ∧ map_Forall (λ _, node_ok) (nodes d).

(** ** Settings (settings.rs, main.rs, config.rs) *)

Record Settings := mkSettings {
  host : string; port : Z; rust_log : string; log_format : string; database_url : string;
  kafka_brokers : option string; kafka_topic_agents_events : option string;
  jwt_secret : string; fleet_enrollment_secret : option string; db_pool_max_size : Z }.

(** The configuration source's values by field name; [Err] for a missing
    database URL or a number that does not parse. *)
Definition setting_uint (w : Z) (v : option string) (d : Z) : result Z string :=
  match v with
  | None => Ok d
  | Some s => ok_or ("invalid value for an integer: " +:+ s) (parse_uint w s)
  end.

Definition load_settings (env : string → option string) : result Settings string :=
  match env "database_url" with
  | None => Err "missing field database_url"
  | Some url =>
      match setting_uint 16 (env "port") 50051, setting_uint 64 (env "db_pool_max_size") 20 with
      | Ok p, Ok n =>
          Ok (mkSettings (default "0.0.0.0" (env "host")) p (default "info" (env "rust_log"))
                (default "human" (env "log_format")) url (env "kafka_brokers")
                (env "kafka_topic_agents_events") (default "change-me-in-production" (env "jwt_secret"))
                (env "fleet_enrollment_secret") n)
      | Err e, _ | _, Err e => Err e
      end
  end.

(** What main derives from the settings. *)
Definition brokers_of (s : Settings) : string := default "localhost:9092" (kafka_brokers s).
Definition topic_of (s : Settings) : string := default "agents_events" (kafka_topic_agents_events s).
Definition bind_addr (s : Settings) : string := host s +:+ ":" +:+ pretty (port s).

(** ** An instance of [Jwt]: the expiry in binary, then the node id *)
Module ToyJwt.
Fixpoint bits (p : positive) (rest : string) : string :=
  match p with
  | xH => String dot rest
  | xO p => String slash (bits p rest)
  | xI p => String comma (bits p rest)
  end.
Fixpoint read (s : string) : option (positive * string) :=
  match s with
  | EmptyString => None
  | String c s =>
      if Ascii.eqb c dot then Some (xH, s)
      else match read s with
           | Some (p, r) => Some (if Ascii.eqb c slash then xO p else xI p, r)
           | None => None
           end
  end.

#[export] Instance toy_jwt : Jwt := {|
  encode c _ := Ok (match exp c with
                    | Zpos p => bits p (node_id c)
                    | _ => String colon (node_id c)
                    end);
  decode t _ now :=
    let check id e := if (e <? now - leeway)%Z then Err "ExpiredSignature" else Ok (Claims id e) in
    match t with
    | EmptyString => Err "InvalidToken"
    | String c id =>
        if Ascii.eqb c colon then check id 0%Z
        else match read t with
             | Some (p, id) => check id (Zpos p)
             | None => Err "InvalidToken"
             end
    end |}.

Lemma read_bits p r : read (bits p r) = Some (p, r).
Proof. induction p as [p IH | p IH |]; simpl; rewrite ?IH; done. Qed.

Lemma decode_bits p r k now :
  decode (bits p r) k now = if (Zpos p <? now - leeway)%Z then Err "ExpiredSignature" else Ok (Claims r (Zpos p)).
Proof.
  pose proof (read_bits p r) as H. unfold decode. simpl. destruct p; simpl in *; by rewrite ?H.
Qed.

#[export] Instance toy_laws : JwtLaws.
Proof.
  split; intros [id e] k t now He [= <-] Hn; simpl in He, Hn; cbn [exp node_id];
    (destruct e as [| p | p]; [| | lia]).
  - simpl. destruct (Z.ltb_spec 0 (now - leeway)); [lia | done].
  - rewrite decode_bits. destruct (Z.ltb_spec (Zpos p) (now - leeway)); [lia | done].
  - simpl. destruct (Z.ltb_spec 0 (now - leeway)); [done | lia].
  - rewrite decode_bits. destruct (Z.ltb_spec (Zpos p) (now - leeway)); [done | lia].
Qed.
End ToyJwt.

(** ** Lemmas *)

Lemma sanitize_values s : sanitize_status s = "healthy" ∨ sanitize_status s = "degraded".
Proof. unfold sanitize_status. repeat case_match; auto. Qed.

Lemma visible_app s t : all_visible (s +:+ t) = all_visible s && all_visible t.
Proof. induction s as [| c s IH]; simpl; [done |]. by rewrite IH, andb_assoc. Qed.

(** A bearer header with a visible token is read back. *)
Lemma validate_bearer `{Jwt} token md key now :
  all_visible token = true → map_get "authorization" md = Some ("Bearer " +:+ token) →
  validate_token md key now = map_err (λ _, unauthenticated "invalid or expired token") (decode token key now).
Proof.
  intros Hv Hm. unfold validate_token, to_str. rewrite Hm, visible_app, Hv.
  rewrite andb_true_r. replace (all_visible "Bearer ") with true by reflexivity.
  by rewrite strip_prefix_app.
Qed.

Lemma accepted_secret expected md :
  secret_accepted (Some expected) md = true → expected ≠ "" → provided_secret md = Some expected.
Proof.
  simpl. destruct expected as [| a r]; [done |]. simpl.
  destruct (provided_secret md); [| done]. by intros ->%String.eqb_eq.
Qed.

Lemma json_object_get k (v : value) l m :
  k ∉ l.*1 → map_get k m = Some v →
  map_get k (foldl (λ m '(k, v), map_insert k v m) m l) = Some v.
Proof.
  revert m. induction l as [| [k' v'] l IH]; intros m Hk Hm; [done |]. simpl in *.
  apply not_elem_of_cons in Hk as [Hne Hk]. apply IH; [done |]. by rewrite map_get_insert_ne.
Qed.

Lemma stream_loop_effects `{SerdeJson} lossy topic items s :
  published (stream_loop lossy topic items s) = published s ++ (accepted items ≫= published_by lossy topic) ∧
  commands (stream_loop lossy topic items s) = commands s ++ (accepted items ≫= acked_by).
Proof.
  revert s. induction items as [| [ev uuid fault closed | e] items IH]; intros s; simpl; [by rewrite !app_nil_r | |
    by rewrite !app_nil_r].
  unfold ingest_event, mbind, SE_bind, rethrow, publish, modify.
  destruct fault as [f |]; simpl.
  - destruct s as [sent cmds]. apply (IH (Stream sent cmds)).
  - destruct closed; simpl; [by rewrite app_nil_r |].
    match goal with |- context [stream_loop lossy topic items ?s'] => destruct (IH s') as [-> ->] end.
    simpl. by rewrite <-!app_assoc.
Qed.

Lemma register_state `{Jwt} secret jwt e secs md req d :
  (rpc_register secret jwt e secs md req d).2 = d ∨
  ∃ r id d', pg_upsert_node e r d = (Ok id, d') ∧ (rpc_register secret jwt e secs md req d).2 = d'.
Proof.
  unfold rpc_register. destruct (secret_accepted secret md); [| by left].
  unfold register_agent, mbind, SE_bind, rethrow. simpl.
  destruct (pg_upsert_cases e (mkRecord (reg_hostname req) (reg_os_version req) (reg_agent_version req)
    (reg_machine_id req)) d) as [[err Hu] | (id & d' & Hu & _)]; rewrite Hu; simpl; [by left | right].
  do 3 eexists. split; [exact Hu |]. by destruct (map_err _ (sign_token _ _ _)).
Qed.

(** What a registration that succeeds has done. *)
Lemma register_ok_inv `{Jwt} {S} `{NodeStore S} secret jwt e secs md req (s : S) resp s' :
  rpc_register secret jwt e secs md req s = (Ok resp, s') →
  secret_accepted secret md = true ∧
  upsert_node e (mkRecord (reg_hostname req) (reg_os_version req) (reg_agent_version req)
    (reg_machine_id req)) s = (Ok (rr_node_id resp), s') ∧
  ∃ now, secs = Some now ∧
    encode (Claims (rr_node_id resp) (sat_add_u 64 now TOKEN_TTL_SECS)) jwt = Ok (rr_token resp).
Proof.
  unfold rpc_register. destruct (secret_accepted secret md); [| done].
  unfold register_agent, mbind, SE_bind, rethrow.
  destruct (upsert_node _ _ s) as [[id | err] s1]; simpl; [| done].
  unfold sign_token. destruct secs as [now |]; simpl; [| done].
  destruct (encode _ _) as [tok | err] eqn:He; simpl; [| done].
  intros [= <- <-]. simpl. eauto.
Qed.

Lemma write_rows_ok e r existing d id d' :
  rows_ok d → write_enrollment e r existing d = (Ok id, d') → rows_ok d'.
Proof.
  intros [Hok Hrows] Hw. split; [by eapply write_db_ok |]. apply write_enrollment_ok in Hw as [_ Hw].
  destruct existing as [j |].
  - destruct Hw as (-> & _ & ->). simpl. intros i n Hn.
    apply lookup_alter_Some in Hn as [(<- & n0 & Hn & ->) | (_ & Hn)]; [| by apply (Hrows i n)].
    exact (Hrows j n0 Hn).
  - destruct Hw as (-> & _ & _ & ->). simpl. apply map_Forall_insert_2; [| done]. split; [by left | done].
Qed.

Lemma upsert_rows_ok e r d id d' : rows_ok d → pg_upsert_node e r d = (Ok id, d') → rows_ok d'.
Proof.
  intros Hd Hu. destruct (pg_upsert_cases e r d) as [[err Hu'] | (i & d1 & Hu' & Hw)];
    rewrite Hu' in Hu; [done |]. injection Hu as -> ->. by eapply write_rows_ok.
Qed.

Lemma heartbeat_rows_ok parse_uuid e r d :
  rows_ok d → hb_agent_status r = "healthy" ∨ hb_agent_status r = "degraded" →
  rows_ok (pg_record_heartbeat parse_uuid e r d).2.
Proof.
  intros [Hok Hrows] Hr. destruct (heartbeat_cases parse_uuid e r d) as [[err ->] | (id & _ & Hid & Hfresh & ->)];
    [done |]. simpl.
  assert (∀ i, is_Some (nodes d !! i) → is_Some (alter (beat_node (hb_agent_status r)) id (nodes d) !! i)) as Hmono.
  { intros i Hi. by apply lookup_alter_is_Some. }
  split; [split; simpl |].
  - intros i j m n Hi Hj Hm.
    apply lookup_alter_Some in Hi as [(<- & m0 & Hi & ->) | (? & Hi)];
    apply lookup_alter_Some in Hj as [(<- & n0 & Hj & ->) | (? & Hj)]; try done; by eapply (ok_machine d Hok).
  - eapply Forall_impl; [apply (ok_events d Hok) | auto].
  - apply Forall_app. split; [eapply Forall_impl; [apply (ok_health d Hok) | auto] |]. repeat constructor. auto.
  - apply (ok_events_pk d Hok).
  - rewrite fmap_app. apply NoDup_app. split_and!; [apply (ok_health_pk d Hok) | | by apply NoDup_singleton].
    intros x Hx ->%list_elem_of_singleton. done.
  - simpl. intros i n Hn. apply lookup_alter_Some in Hn as [(<- & n0 & Hn & ->) | (_ & Hn)];
      [| by apply (Hrows i n)]. split; [done |]. apply (Hrows id n0 Hn).
Qed.

(** Whatever store it was given, the tracker hands it one record, with a status an
    agent may report and the server's time; a failure is an internal error that
    changes nothing, and the operator's status stays. *)
Lemma tracker_delegates {S} `{HealthStoreLaws S} e hb s :
  let '(r, s') := track_heartbeat e hb s in
  (∀ id, operator_of s' id = operator_of s id) ∧
  ∃ rec, hb_node_id rec = ah_node_id hb ∧ hb_events_buffered rec = ah_events_buffered hb ∧
    hb_recorded_at rec = now e ∧ (hb_agent_status rec = "healthy" ∨ hb_agent_status rec = "degraded") ∧
    s' = (record_heartbeat e rec s).2 ∧
    match r with Ok _ => True | Err st => st_code st = Internal ∧ s' = s end.
Proof.
  unfold track_heartbeat, rethrow. set (rec := mkHeartbeat _ _ _ _).
  pose proof (heartbeat_operator e rec s) as Ho. pose proof (heartbeat_err e rec s) as He.
  destruct (record_heartbeat e rec s) as [[u | err] s'] eqn:Hr; (split; [exact Ho |]); exists rec;
    (split_and!; [done | done | done | apply sanitize_values | by rewrite Hr |]); [done |].
  split; [done |]. by eapply He.
Qed.

(** A heartbeat call does nothing or records a sanitized status. *)
Lemma rpc_heartbeat_state `{Jwt} parse_uuid jwt e secs md hb d :
  (rpc_heartbeat parse_uuid jwt e secs md hb d).2 = d ∨
  ∃ r, (hb_agent_status r = "healthy" ∨ hb_agent_status r = "degraded") ∧
    (rpc_heartbeat parse_uuid jwt e secs md hb d).2 = (pg_record_heartbeat parse_uuid e r d).2.
Proof.
  unfold rpc_heartbeat. destruct (validate_token md jwt secs); [right | by left].
  exists (mkHeartbeat (ah_node_id hb) (sanitize_status (ah_status hb)) (ah_events_buffered hb) (now e)).
  split; [apply sanitize_values |]. unfold track_heartbeat, mbind, SE_bind, rethrow. simpl.
  by destruct (pg_record_heartbeat _ _ _ d) as [[u | err] d'].
Qed.

Lemma serve_rows_ok `{Jwt} parse_uuid c d : rows_ok d → rows_ok (serve parse_uuid c d).
Proof.
  intros Hd. destruct c as [secret jwt e secs md req | jwt e secs md hb]; simpl.
  - destruct (register_state secret jwt e secs md req d) as [-> | (r & id & d' & Hu & ->)];
      [done | by eapply upsert_rows_ok].
  - destruct (rpc_heartbeat_state parse_uuid jwt e secs md hb d) as [-> | (r & Hr & ->)];
      [done | by apply heartbeat_rows_ok].
Qed.

(** ** Properties *)

(** Whatever registrations and heartbeats the server serves, the tables keep
    their constraints, every agent status is [healthy] or [degraded] and every
    operator status is [active]: no agent can report itself isolated, and no
    call of the fleet server isolates a node. *)
Theorem served_rows_ok `{Jwt} parse_uuid calls :
  rows_ok (foldl (λ d c, serve parse_uuid c d) (Db ∅ [] []) calls).
Proof.
  assert (rows_ok (Db ∅ [] [])) as H0 by (split; [apply empty_db_ok | apply map_Forall_empty]).
  revert H0. generalize (Db ∅ [] []). induction calls as [| c l IH]; intros d Hd; [done |].
  simpl. by apply IH, serve_rows_ok.
Qed.

(** C15 (roundtrip): the token an enrolment returns opens the authenticated calls: sent as a
    bearer header it validates to the enrolled node id, with the expiry 24 hours
    after the signing time, until a minute past that expiry, and not after. *)
Theorem enrolled_token_validates `{JwtLaws} {S} `{NodeStore S} secret env secs reg s res s' md now :
  (0 ≤ secs < 2 ^ 63)%Z →
  register_agent secret env (Some secs) reg s = (Ok res, s') →
  all_visible (res_token res) = true →
  map_get "authorization" md = Some ("Bearer " +:+ res_token res) →
  ((now ≤ secs + TOKEN_TTL_SECS + leeway)%Z →
     validate_token md secret now = Ok (Claims (res_node_id res) (secs + TOKEN_TTL_SECS))) ∧
  ((secs + TOKEN_TTL_SECS + leeway < now)%Z →
     validate_token md secret now = Err (unauthenticated "invalid or expired token")).
Proof.
  intros Hsecs Hreg Hv Hmd. rewrite (validate_bearer (res_token res)) by done.
  revert Hreg. unfold register_agent, mbind, SE_bind, rethrow.
  destruct (upsert_node _ _ s) as [[id | err] s1]; simpl; [| done].
  replace (sat_add_u 64 secs TOKEN_TTL_SECS) with (secs + TOKEN_TTL_SECS)%Z
    by (unfold sat_add_u, TOKEN_TTL_SECS; lia).
  destruct (encode (Claims id (secs + TOKEN_TTL_SECS)) secret) as [token | err] eqn:He; simpl; [| done].
  intros [= <- <-]. simpl. unfold TOKEN_TTL_SECS, leeway in *. split; intros Hnow.
  - rewrite (decode_encode (Claims id (secs + 86400)) secret token now); [done | simpl; lia | done |].
    simpl. unfold leeway. lia.
  - assert (is_ok (decode token secret now) = false) as Hx.
    { apply (decode_expired (Claims id (secs + 86400)) secret); [simpl; lia | done |]. simpl. unfold leeway. lia. }
    by destruct (decode token secret now).
Qed.

#[local] Existing Instance ToyJwt.toy_jwt.
#[local] Existing Instance ToyJwt.toy_laws.
Definition example_reg : AgentRegistration := Registration "host" "linux" "0.1" "m1".
Definition example_result : result RegistrationResult status * db :=
  register_agent "key" (example_env "n1" "e1" 5) (Some 1%Z) example_reg (Db ∅ [] []).
Definition example_token : string := match example_result.1 with Ok r => res_token r | Err _ => "" end.

Lemma enrolled_token_validates_witness :
  validate_token [("authorization", "Bearer " +:+ example_token)] "key" 100 = Ok (Claims "n1" 86401).
Proof.
  destruct (enrolled_token_validates "key" (example_env "n1" "e1" 5) 1 example_reg (Db ∅ [] [])
    (Registered "n1" example_token) example_result.2 [("authorization", "Bearer " +:+ example_token)] 100)
    as [H _]; [lia | by vm_compute | by vm_compute | done |].
  apply H. unfold TOKEN_TTL_SECS, leeway. lia.
Defined.

(** With a non-empty enrolment secret configured, a registration that does
    not present it, in [x-enrollment-secret] or else as bearer token, is refused
    and changes nothing; one that gets through and succeeds has stored the
    machine under the node id it returns. *)
Theorem registration_guarded `{Jwt} {S} `{NodeStoreLaws S} secret jwt_secret env secs md req s :
  store_ok s →
  let '(r, s') := rpc_register secret jwt_secret env secs md req s in
  (∀ expected, secret = Some expected → expected ≠ "" → provided_secret md ≠ Some expected →
     s' = s ∧ r = Err (unauthenticated "invalid or missing enrollment secret")) ∧
  (∀ resp, r = Ok resp → store_ok s' ∧ node_of s' (reg_machine_id req) = Some (rr_node_id resp) ∧
     secret_accepted secret md = true).
Proof.
  intros Hok. unfold rpc_register. destruct (secret_accepted secret md) eqn:Hacc; [| by split].
  assert (∀ expected, secret = Some expected → expected ≠ "" → provided_secret md = Some expected) as Hp.
  { intros expected ->. by apply accepted_secret. }
  unfold register_agent, mbind, SE_bind, rethrow.
  destruct (upsert_node env _ s) as [[id | err] s1] eqn:Hu; simpl; [| naive_solver].
  destruct (upsert_ok _ _ _ _ _ Hok Hu) as (Hok1 & Hn & _).
  destruct (map_err _ (sign_token _ _ _)) as [token | st]; simpl; [| naive_solver].
  split; [naive_solver | by intros resp [= <-]].
Qed.

Lemma registration_guarded_witness :
  rpc_register (Some "s3cret") "key" (example_env "n1" "e1" 5) (Some 1%Z)
    [("x-enrollment-secret", "guess"); ("authorization", "Bearer s3cret")]
    (Registration "host" "linux" "0.1" "m1") (Db ∅ [] [])
  = (Err (unauthenticated "invalid or missing enrollment secret"), Db ∅ [] []).
Proof.
  pose proof (registration_guarded (Some "s3cret") "key" (example_env "n1" "e1" 5) (Some 1%Z)
    [("x-enrollment-secret", "guess"); ("authorization", "Bearer s3cret")]
    (Registration "host" "linux" "0.1" "m1") (Db ∅ [] []) empty_db_ok) as H.
  destruct (rpc_register _ _ _ _ _ _ _) as [r s']. destruct H as [H _].
  destruct (H "s3cret" eq_refl ltac:(done) ltac:(done)) as [-> ->]. reflexivity.
Defined.

(** On an event stream, an acknowledgement follows the publication of its
    event: the broker gets the events whose publish succeeds, in order, and the
    agent the acknowledgement of each of them, in order, except for one whose
    sending finds the agent gone, which ends the stream; an unauthenticated
    stream does nothing. *)
Theorem event_stream_acks_published `{Jwt} `{SerdeJson} lossy secret now md topic items :
  let '(r, s) := rpc_event_stream lossy secret now md topic items (Stream [] []) in
  match r with
  | Err _ => s = Stream [] []
  | Ok _ => published s = accepted items ≫= published_by lossy topic ∧
            commands s = accepted items ≫= acked_by ∧
            length (commands s) ≤ length (published s)
  end.
Proof.
  unfold rpc_event_stream. destruct (validate_token md secret now); [| done].
  destruct (stream_loop_effects lossy topic items (Stream [] [])) as [Hp Hc]. simpl in Hp, Hc.
  rewrite Hp, Hc. split_and!; [done | done |]. clear Hp Hc.
  induction (accepted items) as [| [[[ev u] [f |]] closed] l IH]; simpl; [done | done |].
  destruct closed; simpl; [apply le_S | apply le_n_S]; exact IH.
Qed.

(** The envelope the server publishes carries what the pipeline routes by: the
    pipeline reads the agent's event type back unless it is [osquery], and then
    the payload's query name; so an event published under a routable type reaches
    its typed topic. *)
Theorem envelope_is_routable `{SerdeJson} lossy uuid ev key topic partition offset r t :
  from_slice (envelope_bytes lossy uuid ev) = Ok (telemetry_envelope lossy uuid ev) →
  in_event_type ev ≠ "osquery" →
  EventRouter.route_topic (in_event_type ev) = Some t →
  EventRouter.effective_type (telemetry_envelope lossy uuid ev) = in_event_type ev ∧
  ∃ out, EventRouter.sent (EventRouter.process None key (envelope_bytes lossy uuid ev) topic partition offset r).2
    = EventRouter.sent r ++ [EventRouter.Record_ t out (default "" key) []].
Proof.
  intros Hback Hne Ht.
  assert (EventRouter.effective_type (telemetry_envelope lossy uuid ev) = in_event_type ev) as Heff.
  { unfold EventRouter.effective_type, telemetry_envelope, json_object, get. simpl.
    destruct (String.eqb_spec (in_event_type ev) "osquery"); done. }
  split; [done |]. rewrite process_run. unfold routed_record. rewrite Hback, Heff, Ht. by eexists.
Qed.

Lemma envelope_is_routable_witness :
  let ev := Incoming "n1" "process_start" "{}" 7 "s1" in
  let env := @telemetry_envelope (table_serde [("{}", JObject [])] "out") id "u1" ev in
  let S := table_serde [("{}", JObject []); ("out", env)] "out" in
  ∃ out, EventRouter.sent (EventRouter.process None (Some "n1") "out" "aigis.events.raw" 0 0
                             (EventRouter.Router Metrics.new [])).2
    = [EventRouter.Record_ "aigis.events.process" out "n1" []].
Proof.
  intros ev env S.
  exact (proj2 (envelope_is_routable id "u1" ev (Some "n1") "aigis.events.raw" 0 0
    (EventRouter.Router Metrics.new []) "aigis.events.process" eq_refl ltac:(done) eq_refl)).
Defined.
