(* ===== verification/FleetSystem.v ===== *)
(** * The fleet server as concurrent tasks
      (fleet-server/crates/grpc-listener/src/service.rs, node-enrollment, health-tracker)

    One process serves every agent: the task of each event stream reads events,
    publishes them and sends acknowledgements through a channel of 64 slots that
    the response stream empties, while registrations run their transactions and
    heartbeats theirs.  One label is what a task does between two [await]s; [fire]
    runs it when the task can take it, and [reached] states arise from any
    interleaving. *)
From Stdlib Require Import ZArith Lia.
From S2P Require Import Prelude Json Pipeline FleetDb FleetServer.
#[local] Open Scope string_scope.
#[local] Open Scope list_scope.
#[local] Open Scope nat_scope.

(** [mpsc::channel::<Result<ServerCommand, Status>>(64)] *)
Definition COMMAND_SLOTS : nat := 64.

Section fleet.
Context `{Jwt} `{SerdeJson}.
Context (from_utf8_lossy : string → string) (parse_uuid : string → result string string).
Context (enrollment_secret : option string) (jwt_secret topic : string).

(** Where the spawned task of a stream is: at [inbound.next()], in
    [ingest_event], at [cmd_tx.send], or over. *)
Inductive task :=
  | Reading
  | Ingesting (ev : IncomingEvent) (uuid : string)
  | Sending (ev : IncomingEvent) (uuid : string) (cmd : OutgoingCommand)
  | Closed.
#[export] Instance task_closed_dec t : Decision (t = Closed).
Proof. destruct t; (by left) || (by right). Defined.
#[export] Instance task_reading_dec t : Decision (t = Reading).
Proof. destruct t; (by left) || (by right). Defined.

(** A stream: the claims of its token, the items of the request stream with the
    number taken and whether it has ended, the task, the commands sent on the
    channel with the number the response stream yielded, and whether the response
    stream is still held. *)
Record conn := Conn {
  claims : NodeClaims;
  arrived : list (result IncomingEvent string); taken : nat; ended : bool;
  phase : task;
  sent : list OutgoingCommand; delivered : nat; receiving : bool }.

(** A registration: its metadata, its transaction, the clock of the signature, the
    answer. *)
Record reg := Reg {
  reg_md : metadata; reg_tx : tx; reg_secs : option Z; answer : option (result RegisterResponse status) }.

(** The broker's log carries the number of the stream a record came from. *)
Record server := Server {
  tables : db; broker : list (nat * EventRouter.record); conns : list conn; regs : list reg }.

Inductive label :=
  (* a request for an event stream; what the agent's side of stream [i] does *)
  | Open (md : metadata) (now : Z)
  | Arrive (i : nat) (item : result IncomingEvent string)
  | EndInput (i : nat)
  | Hangup (i : nat)
  (* the task of stream [i], and its response stream *)
  | Take (i : nat) (uuid : string)
  | Finish (i : nat)
  | Publish (i : nat) (fault : option string)
  | Send (i : nat)
  | Deliver (i : nat)
  (* a registration, the steps of its transaction, its answer; a heartbeat *)
  | Register (e : call_env) (secs : option Z) (md : metadata) (req : AgentRegistration)
  | RegStep (k : nat)
  | RegAnswer (k : nat)
  | Beat (e : call_env) (secs : Z) (md : metadata) (hb : AgentHeartbeat).

Definition with_task (c : conn) (n : nat) (t : task) (s : list OutgoingCommand) : conn :=
  Conn (claims c) (arrived c) n (ended c) t s (delivered c) (receiving c).
Definition with_conn (e : server) (b : list (nat * EventRouter.record)) (i : nat) (c : conn) : server :=
  Server (tables e) b (<[i := c]> (conns e)) (regs e).
Definition with_reg (e : server) (d : db) (k : nat) (r : reg) : server :=
  Server d (broker e) (conns e) (<[k := r]> (regs e)).

(** [FleetServiceImpl::event_stream] up to the spawn *)
Definition open_stream (md : metadata) (now : Z) (e : server) : server :=
  match validate_token md jwt_secret now with
  | Err _ => e
  | Ok c => Server (tables e) (broker e) (conns e ++ [Conn c [] 0 false Reading [] 0 true]) (regs e)
  end.

(** One action of the spawned task. *)
Definition take_item (uuid : string) (c : conn) : option conn :=
  match phase c, arrived c !! taken c with
  | Reading, Some (Ok ev) => Some (with_task c (S (taken c)) (Ingesting ev uuid) (sent c))
  | Reading, Some (Err _) => Some (with_task c (S (taken c)) Closed (sent c))
  | _, _ => None
  end.
Definition finish_input (c : conn) : option conn :=
  match phase c, arrived c !! taken c, ended c with
  | Reading, None, true => Some (with_task c (taken c) Closed (sent c))
  | _, _, _ => None
  end.
Definition publish_item (fault : option string) (c : conn) (log : list EventRouter.record)
    : option (conn * list EventRouter.record) :=
  match phase c with
  | Ingesting ev uuid =>
      let '(r, log') := ingest_event from_utf8_lossy fault topic uuid ev log in
      Some (with_task c (taken c) (match r with
                                   | Ok (Some cmd) => Sending ev uuid cmd
                                   | Ok None | Err _ => Reading
                                   end) (sent c), log')
  | _ => None
  end.
Definition send_command (c : conn) : option conn :=
  match phase c with
  | Sending _ _ cmd =>
      if negb (receiving c) then Some (with_task c (taken c) Closed (sent c))
      else if length (sent c) <? delivered c + COMMAND_SLOTS
      then Some (with_task c (taken c) Reading (sent c ++ [cmd]))
      else None
  | _ => None
  end.

(** The end of [register_agent] after its transaction. *)
Definition reg_result (t : tx) (secs : option Z) : option (result RegisterResponse status) :=
  match tx_pc t with
  | Committed id =>
      Some match sign_token secs id jwt_secret with
           | Ok token => Ok (RegResponse id token)
           | Err _ => Err (internal "token signing failed")
           end
  | Failed _ => Some (Err (internal "enrollment failed"))
  | _ => None
  end.

Definition start_registration (e : call_env) (secs : option Z) (md : metadata) (req : AgentRegistration) : reg :=
  let r := mkRecord (reg_hostname req) (reg_os_version req) (reg_agent_version req) (reg_machine_id req) in
  if secret_accepted enrollment_secret md then
    Reg md (Tx e r match pool_fault e with Some p => Failed p | None => Started end) secs None
  else Reg md (Tx e r (Failed "")) secs (Some (Err (unauthenticated "invalid or missing enrollment secret"))).

Definition fire (l : label) (e : server) : option server :=
  match l with
  | Open md now => Some (open_stream md now e)
  | Arrive i item =>
      c ← conns e !! i;
      if ended c then None
      else Some (with_conn e (broker e) i
             (Conn (claims c) (arrived c ++ [item]) (taken c) false (phase c) (sent c) (delivered c) (receiving c)))
  | EndInput i =>
      c ← conns e !! i;
      Some (with_conn e (broker e) i
             (Conn (claims c) (arrived c) (taken c) true (phase c) (sent c) (delivered c) (receiving c)))
  | Hangup i =>
      c ← conns e !! i;
      Some (with_conn e (broker e) i
             (Conn (claims c) (arrived c) (taken c) (ended c) (phase c) (sent c) (delivered c) false))
  | Take i uuid => c ← conns e !! i; c' ← take_item uuid c; Some (with_conn e (broker e) i c')
  | Finish i => c ← conns e !! i; c' ← finish_input c; Some (with_conn e (broker e) i c')
  | Publish i fault =>
      c ← conns e !! i; '(c', log) ← publish_item fault c [];
      Some (with_conn e (broker e ++ (pair i <$> log)) i c')
  | Send i => c ← conns e !! i; c' ← send_command c; Some (with_conn e (broker e) i c')
  | Deliver i =>
      c ← conns e !! i;
      if receiving c && (delivered c <? length (sent c)) then
        Some (with_conn e (broker e) i
               (Conn (claims c) (arrived c) (taken c) (ended c) (phase c) (sent c) (S (delivered c)) true))
      else None
  | Register env secs md req =>
      Some (Server (tables e) (broker e) (conns e) (regs e ++ [start_registration env secs md req]))
  | RegStep k =>
      r ← regs e !! k;
      match tx_pc (reg_tx r) with
      | Started | Selected _ =>
          let '(t, d) := tx_step (reg_tx r) (tables e) in Some (with_reg e d k (Reg (reg_md r) t (reg_secs r) (answer r)))
      | _ => None
      end
  | RegAnswer k =>
      r ← regs e !! k;
      match answer r, reg_result (reg_tx r) (reg_secs r) with
      | None, Some a => Some (with_reg e (tables e) k (Reg (reg_md r) (reg_tx r) (reg_secs r) (Some a)))
      | _, _ => None
      end
  | Beat env secs md hb =>
      Some (Server (rpc_heartbeat parse_uuid jwt_secret env secs md hb (tables e)).2
              (broker e) (conns e) (regs e))
  end.

(** What the server does without a further request or item. *)
Definition internal_label (e : server) (l : label) : bool :=
  match l with
  | Take _ _ | Finish _ | Publish _ _ | Send _ | Deliver _ | RegStep _ | RegAnswer _ => true
  | _ => false
  end.

(** The same while the broker takes what it is given. *)
Definition smooth (e : server) (l : label) : bool :=
  internal_label e l && match l with Publish _ (Some _) => false | _ => true end.

Definition started_server (d : db) : server := Server d [] [] [].

(** The broker takes every record it is given. *)
Definition broker_takes (e : server) (l : label) : bool :=
  match l with Publish _ (Some _) => false | _ => true end.

(** ** Specification: one stream on its own *)

(** What the broker took from stream [i]. *)
Definition published_on (i : nat) (b : list (nat * EventRouter.record)) : list EventRouter.record :=
  snd <$> filter (λ x, x.1 = i) b.

Definition item_of (x : inbound) : result IncomingEvent string :=
  match x with Event ev _ _ _ => Ok ev | StreamError m => Err m end.

(** The items after which the loop of [stream_loop] goes on. *)
Definition goes_on (x : inbound) : bool :=
  match x with Event _ _ (Some _) _ | Event _ _ None false => true | _ => false end.

(** The event the task has taken and not done with, and its record once published. *)
Definition in_hand (t : task) : list (result IncomingEvent string) :=
  match t with Ingesting ev _ | Sending ev _ _ => [Ok ev] | Reading | Closed => [] end.
Definition record_of (uuid : string) (ev : IncomingEvent) : EventRouter.record :=
  EventRouter.Record_ topic (envelope_bytes from_utf8_lossy uuid ev) (in_node_id ev) [].
Definition at_broker (t : task) : list EventRouter.record :=
  match t with Sending ev uuid _ => [record_of uuid ev] | _ => [] end.

(** Why a task is over. *)
Definition reason (c : conn) (last_item : option inbound) : Prop :=
  match last_item with
  | Some (StreamError _) => True
  | Some (Event _ _ None true) => receiving c = false
  | _ => ended c = true ∧ taken c = length (arrived c)
  end.

(** Stream [i] did what the sequential loop does on [items]. *)
Record mirrors (b : list (nat * EventRouter.record)) (i : nat) (c : conn) (items : list inbound) : Prop := {
  mir_items : (item_of <$> items) ++ in_hand (phase c) = take (taken c) (arrived c);
  mir_published : published_on i b =
    published (stream_loop from_utf8_lossy topic items (Stream [] [])) ++ at_broker (phase c);
  mir_sent : sent c = commands (stream_loop from_utf8_lossy topic items (Stream [] []));
  mir_phase : match phase c with
              | Closed => reason c (last items)
              | Sending ev _ cmd => cmd = Ack (in_sequence_id ev) ∧ forallb goes_on items = true
              | _ => forallb goes_on items = true
              end }.

Record conn_ok (b : list (nat * EventRouter.record)) (i : nat) (c : conn) : Prop := {
  ok_claims : ∃ md now, validate_token md jwt_secret now = Ok (claims c);
  ok_taken : taken c ≤ length (arrived c);
  ok_delivered : delivered c ≤ length (sent c);
  ok_slots : length (sent c) ≤ delivered c + COMMAND_SLOTS;
  ok_mirrors : ∃ items, mirrors b i c items }.

Definition streams_ok (e : server) : Prop :=
  (∀ i c, conns e !! i = Some c → conn_ok (broker e) i c) ∧
  Forall (λ x, x.1 < length (conns e)) (broker e).

(** ** Lemmas: the streams *)

Lemma stream_loop_snoc items x s :
  forallb goes_on items = true →
  stream_loop from_utf8_lossy topic (items ++ [x]) s =
  stream_loop from_utf8_lossy topic [x] (stream_loop from_utf8_lossy topic items s).
Proof.
  revert s. induction items as [| y items IH]; intros s Hg; [done |].
  apply andb_true_iff in Hg as [Hy Hg]. destruct y as [ev uuid [f |] [] | m]; try discriminate Hy;
    cbn [app stream_loop ingest_event]; unfold mbind, SE_bind, rethrow, publish, modify, throw; simpl; by apply IH.
Qed.

Lemma published_on_app i b b' : published_on i (b ++ b') = published_on i b ++ published_on i b'.
Proof. unfold published_on. by rewrite filter_app, fmap_app. Qed.

Lemma published_on_own i l : published_on i (pair i <$> l) = l.
Proof.
  unfold published_on. rewrite filter_all by (apply Forall_fmap, Forall_true; done).
  rewrite <-list_fmap_compose. apply list_fmap_id.
Qed.

Lemma published_on_other i j l : i ≠ j → published_on i (pair j <$> l) = [].
Proof.
  intros Hne. unfold published_on. rewrite filter_none; [done |].
  apply Forall_fmap, Forall_true. simpl. congruence.
Qed.

Lemma published_on_fresh i b : Forall (λ x : nat * EventRouter.record, x.1 < i) b → published_on i b = [].
Proof. intros Hb. unfold published_on. rewrite filter_none; [done |]. eapply Forall_impl; [exact Hb |]. simpl. lia. Qed.

Lemma publish_item_cases fault c c' log :
  publish_item fault c [] = Some (c', log) →
  ∃ ev uuid, phase c = Ingesting ev uuid ∧
  match fault with
  | Some _ => c' = with_task c (taken c) Reading (sent c) ∧ log = []
  | None => c' = with_task c (taken c) (Sending ev uuid (Ack (in_sequence_id ev))) (sent c) ∧
            log = [record_of uuid ev]
  end.
Proof.
  unfold publish_item. destruct (phase c) as [| ev uuid | |]; try discriminate.
  unfold ingest_event, mbind, SE_bind, rethrow, publish, modify, throw. intros Hp. exists ev, uuid. split; [done |].
  destruct fault as [f |]; simpl in Hp; by simplify_eq.
Qed.

(** One stream's change leaves the others as they were. *)
Lemma with_conn_ok e i c c' log :
  streams_ok e → conns e !! i = Some c →
  (conn_ok (broker e) i c → conn_ok (broker e ++ (pair i <$> log)) i c') →
  streams_ok (with_conn e (broker e ++ (pair i <$> log)) i c').
Proof.
  intros [Hc Hb] Hi Hstep. split; simpl.
  - intros j cj. destruct (decide (i = j)) as [<- | Hne].
    + rewrite list_lookup_insert_eq by (by eapply lookup_lt_Some). intros [= <-]. by apply Hstep, Hc.
    + rewrite list_lookup_insert_ne by done. intros Hj. destruct (Hc j cj Hj) as [H1 H2 H3 H4 (items & [M1 M2 M3 M4])].
      constructor; try done. exists items. constructor; try done.
      by rewrite published_on_app, published_on_other, app_nil_r by done.
  - rewrite length_insert. apply Forall_app. split; [done |].
    apply Forall_fmap, Forall_true. intros r. simpl. by eapply lookup_lt_Some.
Qed.

Lemma with_conn_quiet_ok e i c c' :
  streams_ok e → conns e !! i = Some c → (conn_ok (broker e) i c → conn_ok (broker e) i c') →
  streams_ok (with_conn e (broker e) i c').
Proof.
  intros He Hi Hstep. pose proof (with_conn_ok e i c c' [] He Hi) as Hw. simpl in Hw. rewrite app_nil_r in Hw. auto.
Qed.

Lemma arrive_ok b i c item :
  ended c = false → conn_ok b i c →
  conn_ok b i (Conn (claims c) (arrived c ++ [item]) (taken c) false (phase c) (sent c) (delivered c) (receiving c)).
Proof.
  intros Hend [H1 H2 H3 H4 (items & [M1 M2 M3 M4])]. constructor; simpl; try done.
  - rewrite length_app. lia.
  - exists items. constructor; simpl; try done; [by rewrite take_app_le |].
    destruct (phase c); try done. unfold reason in *. simpl.
    destruct (last items) as [[ev u [f |] [] | m] |]; destruct_and?; congruence || done.
Qed.

Lemma end_ok b i c :
  conn_ok b i c →
  conn_ok b i (Conn (claims c) (arrived c) (taken c) true (phase c) (sent c) (delivered c) (receiving c)).
Proof.
  intros [H1 H2 H3 H4 (items & [M1 M2 M3 M4])]. constructor; simpl; try done.
  exists items. constructor; simpl; try done. destruct (phase c); try done. unfold reason in *. simpl.
  destruct (last items) as [[ev u [f |] [] | m] |]; tauto.
Qed.

Lemma hangup_ok b i c :
  conn_ok b i c →
  conn_ok b i (Conn (claims c) (arrived c) (taken c) (ended c) (phase c) (sent c) (delivered c) false).
Proof.
  intros [H1 H2 H3 H4 (items & [M1 M2 M3 M4])]. constructor; simpl; try done.
  exists items. constructor; simpl; try done. destruct (phase c); try done. unfold reason in *. simpl.
  destruct (last items) as [[ev u [f |] [] | m] |]; tauto.
Qed.

Lemma deliver_ok b i c :
  delivered c < length (sent c) → receiving c = true → conn_ok b i c →
  conn_ok b i (Conn (claims c) (arrived c) (taken c) (ended c) (phase c) (sent c) (S (delivered c)) true).
Proof.
  intros Hd Hr [H1 H2 H3 H4 (items & [M1 M2 M3 M4])]. constructor; simpl; try done; [lia |].
  exists items. constructor; simpl; try done. destruct (phase c); try done. unfold reason in *. simpl. by rewrite Hr in M4.
Qed.

Lemma take_item_ok b i uuid c c' : take_item uuid c = Some c' → conn_ok b i c → conn_ok b i c'.
Proof.
  unfold take_item. intros Ht [H1 H2 H3 H4 (items & [M1 M2 M3 M4])].
  destruct (phase c) eqn:Hp; try discriminate Ht.
  destruct (arrived c !! taken c) as [[ev | m] |] eqn:Hn; try discriminate Ht; injection Ht as <-;
    pose proof (lookup_lt_Some _ _ _ Hn); simpl in M1, M2; rewrite app_nil_r in M1; rewrite app_nil_r in M2;
    (constructor; simpl; [done | lia | done | done |]).
  - exists items. constructor; simpl; rewrite ?app_nil_r; try done. by rewrite (take_S_r _ _ _ Hn), M1.
  - exists (items ++ [StreamError m]).
    constructor; simpl; rewrite ?stream_loop_snoc, ?app_nil_r by done; simpl; try done.
    + rewrite fmap_app, M1. simpl. by rewrite (take_S_r _ _ _ Hn).
    + by rewrite last_snoc.
Qed.

Lemma finish_input_ok b i c c' : finish_input c = Some c' → conn_ok b i c → conn_ok b i c'.
Proof.
  unfold finish_input. intros Ht [H1 H2 H3 H4 (items & [M1 M2 M3 M4])].
  destruct (phase c) eqn:Hp; try discriminate Ht. destruct (arrived c !! taken c) eqn:Hn; [done |].
  destruct (ended c) eqn:He; [| done]. injection Ht as <-. apply lookup_ge_None in Hn.
  constructor; simpl; try done. exists items. constructor; simpl; try done.
  unfold reason. simpl. assert (taken c = length (arrived c)) by lia.
  destruct (last items) as [x |] eqn:Hl; [| done].
  apply last_Some in Hl as [l ->]. rewrite forallb_app in M4. apply andb_true_iff in M4 as [_ M4].
  by destruct x as [ev u [f |] [] | m].
Qed.

Lemma publish_item_ok b i fault c c' log :
  publish_item fault c [] = Some (c', log) → conn_ok b i c → conn_ok (b ++ (pair i <$> log)) i c'.
Proof.
  intros (ev & uuid & Hp & Hc')%publish_item_cases [H1 H2 H3 H4 (items & [M1 M2 M3 M4])]. rewrite Hp in *.
  simpl in M2. rewrite app_nil_r in M2. destruct fault as [f |]; destruct Hc' as [-> ->].
  - constructor; try done. exists (items ++ [Event ev uuid (Some f) false]).
    constructor; simpl; rewrite ?stream_loop_snoc by done; rewrite ?app_nil_r; try done.
    + by rewrite fmap_app.
    + by rewrite forallb_app, M4.
  - constructor; try done. exists items.
    constructor; rewrite ?published_on_app, ?published_on_own, ?M2; try done.
Qed.

Lemma send_command_ok b i c c' : send_command c = Some c' → conn_ok b i c → conn_ok b i c'.
Proof.
  unfold send_command. intros Ht [H1 H2 H3 H4 (items & [M1 M2 M3 M4])].
  destruct (phase c) as [| | ev uuid cmd |] eqn:Hp; try discriminate Ht. destruct M4 as [-> M4].
  destruct (receiving c) eqn:Hr; simpl in Ht.
  - destruct (Nat.ltb_spec (length (sent c)) (delivered c + COMMAND_SLOTS)); [| done]. injection Ht as <-.
    constructor; simpl; rewrite ?length_app; simpl; try done; [lia | lia |].
    exists (items ++ [Event ev uuid None false]).
    constructor; simpl; rewrite ?stream_loop_snoc by done; rewrite ?app_nil_r.
    + by rewrite fmap_app.
    + rewrite M2. reflexivity.
    + by rewrite M3.
    + by rewrite forallb_app, M4.
  - injection Ht as <-. constructor; try done. exists (items ++ [Event ev uuid None true]).
    constructor; simpl; rewrite ?stream_loop_snoc by done; rewrite ?app_nil_r.
    + by rewrite fmap_app.
    + rewrite M2. reflexivity.
    + by rewrite M3.
    + by rewrite last_snoc.
Qed.

Lemma fire_streams_ok l e e' : fire l e = Some e' → streams_ok e → streams_ok e'.
Proof.
  intros Hf He. destruct l; cbn [fire] in Hf;
    try (apply bind_Some in Hf as (c & Hi & Hf)).
  - injection Hf as <-. unfold open_stream. destruct (validate_token md jwt_secret now) as [cl |] eqn:Hv; [| done].
    destruct He as [Hc Hb]. split; simpl.
    + intros i c [Hi | (Hl & Hi)]%lookup_app_Some; [by apply Hc |].
      apply list_lookup_singleton_Some in Hi as [Hi <-]. constructor; simpl; [by do 2 eexists | lia.. |].
      exists []. constructor; simpl; try done. rewrite published_on_fresh; [done |].
      eapply Forall_impl; [exact Hb |]. simpl. lia.
    + rewrite length_app. eapply Forall_impl; [exact Hb |]. simpl. lia.
  - destruct (ended c) eqn:Hend; [done |]. injection Hf as <-.
    eapply with_conn_quiet_ok; [done | done |]. by apply arrive_ok.
  - injection Hf as <-. eapply with_conn_quiet_ok; [done | done | apply end_ok].
  - injection Hf as <-. eapply with_conn_quiet_ok; [done | done | apply hangup_ok].
  - apply bind_Some in Hf as (c' & Hs & [= <-]). eapply with_conn_quiet_ok; [done | done | by eapply take_item_ok].
  - apply bind_Some in Hf as (c' & Hs & [= <-]). eapply with_conn_quiet_ok; [done | done | by eapply finish_input_ok].
  - apply bind_Some in Hf as ([c' log] & Hs & [= <-]). eapply with_conn_ok; [done | done | by eapply publish_item_ok].
  - apply bind_Some in Hf as (c' & Hs & [= <-]). eapply with_conn_quiet_ok; [done | done | by eapply send_command_ok].
  - destruct (receiving c && _) eqn:Hd; [| done]. injection Hf as <-.
    apply andb_true_iff in Hd as [Hr Hd%Nat.ltb_lt]. eapply with_conn_quiet_ok; [done | done | by apply deliver_ok].
  - by injection Hf as <-.
  - repeat case_match; by simplify_eq.
  - repeat case_match; by simplify_eq.
  - by injection Hf as <-.
Qed.

Lemma reached_streams_ok d e : reached fire any_order (started_server d) e → streams_ok e.
Proof.
  apply reached_invariant; [by intros; eapply fire_streams_ok |].
  split; simpl; [by intros i c Hi | constructor].
Qed.

(** The events the sequential loop acknowledged, and the one it published last
    without being able to acknowledge it. *)
Definition acks_of (l : list (IncomingEvent * string)) : list OutgoingCommand :=
  (λ x, Ack (in_sequence_id x.1)) <$> l.
Definition records_of (l : list (IncomingEvent * string)) : list EventRouter.record :=
  (λ x, record_of x.2 x.1) <$> l.
Definition events_of (l : list (IncomingEvent * string)) : list (result IncomingEvent string) :=
  (λ x, Ok x.1) <$> l.

Lemma loop_events items :
  let s := stream_loop from_utf8_lossy topic items (Stream [] []) in
  ∃ evs rest, commands s = acks_of evs ∧ published s = records_of (evs ++ rest) ∧ length rest ≤ 1 ∧
    events_of (evs ++ rest) `sublist_of` (item_of <$> items) ∧ (forallb goes_on items = true → rest = []).
Proof.
  intros s. destruct (stream_loop_effects from_utf8_lossy topic items (Stream [] [])) as [Hp Hc].
  fold s in Hp, Hc. simpl in Hp, Hc. rewrite Hp, Hc. clear s Hp Hc.
  induction items as [| [ev uuid [f |] closed | m] items (evs & rest & Hc & Hp & Hl & Hs & Hg)]; simpl.
  - exists [], []. split_and!; (done || simpl; lia).
  - exists evs, rest. split_and!; try done. by apply sublist_cons.
  - destruct closed; simpl.
    + exists [], [(ev, uuid)]. split_and!; try done. simpl. apply sublist_skip, sublist_nil_l.
    + exists ((ev, uuid) :: evs), rest. split_and!; try done; [exact (f_equal (cons _) Hc) | exact (f_equal (cons _) Hp) | by apply sublist_skip].
  - exists [], []. split_and!; try done; [simpl; lia | by apply sublist_nil_l].
Qed.

(** The events a stream acknowledged, and the one it may be sending the
    acknowledgement of. *)
Lemma mirrored_events b i c items :
  mirrors b i c items →
  ∃ evs rest, sent c = acks_of evs ∧ published_on i b = records_of (evs ++ rest) ∧ length rest ≤ 1 ∧
    events_of (evs ++ rest) `sublist_of` take (taken c) (arrived c).
Proof.
  intros [M1 M2 M3 M4]. destruct (loop_events items) as (evs & rest & Hcmd & Hpub & Hl & Hsub & Hgo).
  rewrite <-M1, M2, Hpub. destruct (phase c) as [| ev uuid | ev uuid cmd |] eqn:Hp.
  3: { destruct M4 as [_ M4]. rewrite (Hgo M4), app_nil_r in *. exists evs, [(ev, uuid)].
       split_and!; [congruence | unfold records_of; by rewrite fmap_app | done |].
       unfold events_of in *. rewrite fmap_app. by apply sublist_app. }
  all: exists evs, rest; simpl; rewrite ?app_nil_r; split_and!; congruence || done || by apply sublist_inserts_r.
Qed.

(** With a broker that takes every record, an event taken off a stream is in hand
    or published. *)
Definition taken_published (e : server) : Prop := ∀ i c ev,
  conns e !! i = Some c → Ok ev ∈ take (taken c) (arrived c) →
  (∃ uuid, phase c = Ingesting ev uuid) ∨ ∃ uuid, (i, record_of uuid ev) ∈ broker e.

Lemma with_conn_taken e i c c' log :
  taken_published e → conns e !! i = Some c →
  (∀ ev, Ok ev ∈ take (taken c') (arrived c') →
     Ok ev ∈ take (taken c) (arrived c) ∧ (∀ uuid, phase c = Ingesting ev uuid → phase c' = Ingesting ev uuid ∨ record_of uuid ev ∈ log) ∨
     ∃ uuid, phase c' = Ingesting ev uuid) →
  taken_published (with_conn e (broker e ++ (pair i <$> log)) i c').
Proof.
  intros He Hi Hstep j cj ev. simpl. destruct (decide (i = j)) as [<- | Hne].
  - rewrite list_lookup_insert_eq by (by eapply lookup_lt_Some). intros [= <-] Hev.
    destruct (Hstep ev Hev) as [[Hold Hph] | ?]; [| by left].
    destruct (He i c ev Hi Hold) as [[uuid Hp] | [uuid Hp]].
    + destruct (Hph uuid Hp) as [? | Hin]; [left; by exists uuid | right; exists uuid].
      apply elem_of_app. right. by apply list_elem_of_fmap_2.
    + right. exists uuid. apply elem_of_app. by left.
  - rewrite list_lookup_insert_ne by done. intros Hj Hev. destruct (He j cj ev Hj Hev) as [? | [uuid Hp]]; [by left |].
    right. exists uuid. apply elem_of_app. by left.
Qed.

Lemma with_conn_quiet_taken e i c c' :
  taken_published e → conns e !! i = Some c →
  (∀ ev, Ok ev ∈ take (taken c') (arrived c') →
     Ok ev ∈ take (taken c) (arrived c) ∧ (∀ uuid, phase c = Ingesting ev uuid → phase c' = Ingesting ev uuid) ∨
     ∃ uuid, phase c' = Ingesting ev uuid) →
  taken_published (with_conn e (broker e) i c').
Proof.
  intros He Hi Hstep. pose proof (with_conn_taken e i c c' [] He Hi) as Hw. simpl in Hw. rewrite app_nil_r in Hw.
  apply Hw. intros ev Hev. destruct (Hstep ev Hev) as [[? ?] | ?]; [left | by right]. split; [done | auto].
Qed.

Lemma fire_taken l e e' :
  broker_takes e l = true → fire l e = Some e' → streams_ok e → taken_published e → taken_published e'.
Proof.
  intros Hl Hf [Hall _] He. destruct l; cbn [fire] in Hf; try (apply bind_Some in Hf as (c & Hi & Hf));
    try (pose proof (ok_taken _ _ _ (Hall _ _ Hi)) as Hle).
  - injection Hf as <-. unfold open_stream. destruct (validate_token md jwt_secret now); [| done].
    intros i c ev [Hi | (_ & Hi)]%lookup_app_Some; [by apply He |].
    apply list_lookup_singleton_Some in Hi as [_ <-]. by intros ?%elem_of_nil.
  - destruct (ended c); [done |]. injection Hf as <-. eapply with_conn_quiet_taken; [done | exact Hi |].
    intros ev. simpl. rewrite take_app_le by done. by left.
  - injection Hf as <-. eapply with_conn_quiet_taken; [done | exact Hi |]. by left.
  - injection Hf as <-. eapply with_conn_quiet_taken; [done | exact Hi |]. by left.
  - apply bind_Some in Hf as (c' & Hs & [= <-]). eapply with_conn_quiet_taken; [done | exact Hi |].
    intros ev. revert Hs. unfold take_item. destruct (phase c) eqn:Hp; try done.
    destruct (arrived c !! taken c) as [x |] eqn:Hx; [| done].
    destruct x as [ev0 | m]; intros [= <-]; simpl; rewrite (take_S_r _ _ _ Hx), elem_of_app, list_elem_of_singleton;
      (intros [? | Heq]; [by left |]); [right; injection Heq as ->; by eexists | done].
  - apply bind_Some in Hf as (c' & Hs & [= <-]). eapply with_conn_quiet_taken; [done | exact Hi |].
    intros ev. revert Hs. unfold finish_input. destruct (phase c) eqn:Hp; try done.
    destruct (arrived c !! taken c); [done |]. destruct (ended c); [| done]. intros [= <-]. by left.
  - apply bind_Some in Hf as ([c' log] & Hs & [= <-]). destruct fault; [done |].
    apply publish_item_cases in Hs as (ev0 & uuid & Hp & -> & ->). eapply with_conn_taken; [done | exact Hi |].
    intros ev Hev. left. split; [done |]. intros u. rewrite Hp. intros [= -> ->]. right. by left.
  - apply bind_Some in Hf as (c' & Hs & [= <-]). eapply with_conn_quiet_taken; [done | exact Hi |].
    intros ev. revert Hs. unfold send_command. destruct (phase c) eqn:Hp; try done.
    destruct (receiving c); simpl; [destruct (_ <? _); [| done] |]; intros [= <-]; by left.
  - destruct (receiving c && _); [| done]. injection Hf as <-. eapply with_conn_quiet_taken; [done | exact Hi |]. by left.
  - by injection Hf as <-.
  - repeat case_match; by simplify_eq.
  - repeat case_match; by simplify_eq.
  - by injection Hf as <-.
Qed.

Lemma reached_taken_published d e : reached fire broker_takes (started_server d) e → taken_published e.
Proof.
  intros Hr. apply (reached_invariant fire (λ s, streams_ok s ∧ taken_published s) broker_takes (started_server d)); [| | done].
  - intros s l s' _ Hok Hf [Hs Ht]. split; [by eapply fire_streams_ok | by eapply fire_taken].
  - split; [split; simpl; [by intros i c Hi | constructor] | by intros i c ev Hi].
Qed.

(** The broker's log is only appended to. *)
Lemma fire_broker l e e' : fire l e = Some e' → broker e `prefix_of` broker e'.
Proof.
  intros Hf. destruct l; cbn [fire] in Hf; try (apply bind_Some in Hf as (c & Hi & Hf)).
  - injection Hf as <-. unfold open_stream. by destruct (validate_token md jwt_secret now).
  - destruct (ended c); [done |]. by injection Hf as <-.
  - by injection Hf as <-.
  - by injection Hf as <-.
  - by apply bind_Some in Hf as (c' & _ & [= <-]).
  - by apply bind_Some in Hf as (c' & _ & [= <-]).
  - apply bind_Some in Hf as ([c' log] & _ & [= <-]). simpl. by apply prefix_app_r.
  - by apply bind_Some in Hf as (c' & _ & [= <-]).
  - destruct (receiving c && _); [| done]. by injection Hf as <-.
  - by injection Hf as <-.
  - by repeat case_match; simplify_eq.
  - by repeat case_match; simplify_eq.
  - by injection Hf as <-.
Qed.

Lemma published_on_elem i r b : r ∈ published_on i b ↔ (i, r) ∈ b.
Proof.
  unfold published_on. rewrite list_elem_of_fmap. split.
  - intros ([j r'] & -> & [Hj Hin]%list_elem_of_filter). simpl in *. by subst.
  - intros Hin. exists (i, r). split; [done |]. by apply list_elem_of_filter.
Qed.

(** Every record at the broker is that of an event that arrived on a stream whose
    token was valid when it was opened. *)
Lemma broker_source d e i r :
  reached fire any_order (started_server d) e → (i, r) ∈ broker e →
  ∃ c ev uuid, conns e !! i = Some c ∧ (∃ md now, validate_token md jwt_secret now = Ok (claims c)) ∧
    Ok ev ∈ arrived c ∧ r = record_of uuid ev.
Proof.
  intros [Hc Hb]%reached_streams_ok Hin. pose proof Hb as Hb'. rewrite Forall_forall in Hb'.
  destruct (lookup_lt_is_Some_2 (conns e) i) as [c Hi]; [exact (Hb' _ Hin) |].
  destruct (Hc i c Hi) as [Hclaims _ _ _ (items & Hm)].
  destruct (mirrored_events _ _ _ _ Hm) as (evs & rest & _ & Hp & _ & Hsub).
  apply published_on_elem in Hin. rewrite Hp in Hin. unfold records_of in Hin.
  apply list_elem_of_fmap in Hin as ([ev uuid] & -> & Hin). exists c, ev, uuid. split_and!; try done.
  assert (Ok ev ∈ take (taken c) (arrived c)) as Hev.
  { eapply sublist_subseteq; [exact Hsub |]. unfold events_of. exact (list_elem_of_fmap_2 (λ x, Ok x.1) _ _ Hin). }
  rewrite <-(take_drop (taken c) (arrived c)). apply elem_of_app. by left.
Qed.

(** The record of an acknowledged event is at the broker. *)
Lemma acknowledged_at_broker d e i c s :
  reached fire any_order (started_server d) e → conns e !! i = Some c → Ack s ∈ sent c →
  ∃ ev uuid, Ok ev ∈ take (taken c) (arrived c) ∧ in_sequence_id ev = s ∧ (i, record_of uuid ev) ∈ broker e.
Proof.
  intros [Hc _]%reached_streams_ok Hi Hs. destruct (Hc i c Hi) as [_ _ _ _ (items & Hm)].
  destruct (mirrored_events _ _ _ _ Hm) as (evs & rest & Hsent & Hp & _ & Hsub).
  rewrite Hsent in Hs. unfold acks_of in Hs. apply list_elem_of_fmap in Hs as ([ev uuid] & [= ->] & Hin).
  assert ((ev, uuid) ∈ evs ++ rest) as Hin' by (apply elem_of_app; by left).
  exists ev, uuid. split_and!; [| done |].
  - eapply sublist_subseteq; [exact Hsub |]. unfold events_of. exact (list_elem_of_fmap_2 (λ x, Ok x.1) _ _ Hin').
  - apply published_on_elem. rewrite Hp. unfold records_of.
    exact (list_elem_of_fmap_2 (λ x, record_of x.2 x.1) _ _ Hin').
Qed.

(** ** Lemmas: the tables and the registrations *)

Record reg_ok (d : db) (r : reg) : Prop := {
  ro_tx : tx_ok d (reg_tx r);
  ro_secret : secret_accepted enrollment_secret (reg_md r) = true ∨ ∃ m, tx_pc (reg_tx r) = Failed m;
  ro_answer resp : answer r = Some (Ok resp) →
    tx_pc (reg_tx r) = Committed (rr_node_id resp) ∧
    sign_token (reg_secs r) (rr_node_id resp) jwt_secret = Ok (rr_token resp) }.

Definition tables_ok (d0 : db) (e : server) : Prop :=
  rows_ok (tables e) ∧ extends d0 (tables e) ∧ Forall (reg_ok (tables e)) (regs e).

Lemma reg_ok_extends d d' r : extends d d' → reg_ok d r → reg_ok d' r.
Proof. intros Hd [H1 H2 H3]. constructor; try done. by eapply tx_ok_extends. Qed.

Lemma tx_step_rows t d t' d' : tx_step t d = (t', d') → rows_ok d → rows_ok d'.
Proof.
  unfold tx_step. intros Hs Hd. destruct (tx_pc t) as [| x | i | m]; simplify_eq; try done.
  - destruct (select_existing _ _ d) as [[x |] d1]; by simplify_eq.
  - destruct (transaction_cases (commit_fault (tx_env t)) (write_enrollment (tx_env t) (tx_record t) x) d)
      as [[m He] | (id & d1 & He & Hw)]; rewrite He in Hs; simplify_eq; [done | by eapply write_rows_ok].
Qed.

Lemma tx_step_record t d : tx_record (tx_step t d).1 = tx_record t.
Proof.
  unfold tx_step. destruct (tx_pc t) as [| x | i | m]; try done.
  - by destruct (select_existing _ _ d) as [[x |] d1].
  - by destruct (transaction _ _ d) as [[x' |] d1].
Qed.

Lemma start_reg_ok d env secs md req : reg_ok d (start_registration env secs md req).
Proof.
  unfold start_registration. destruct (secret_accepted enrollment_secret md) eqn:Hs.
  - constructor; simpl; [| by left | done]. unfold tx_ok. simpl. by destruct (pool_fault env).
  - constructor; simpl; [done | right; by eexists | done].
Qed.

Lemma reg_step_ok d0 e k r t d :
  tables_ok d0 e → regs e !! k = Some r → (∀ id, tx_pc (reg_tx r) ≠ Committed id) →
  (∀ m, tx_pc (reg_tx r) ≠ Failed m) → tx_step (reg_tx r) (tables e) = (t, d) →
  tables_ok d0 (with_reg e d k (Reg (reg_md r) t (reg_secs r) (answer r))).
Proof.
  intros (Hrows & Hext & Hall) Hk Hnc Hnf Hs. pose proof (Forall_lookup_1 _ _ _ _ Hall Hk) as [R1 R2 R3].
  destruct (tx_step_sound _ _ _ _ Hs (proj1 Hrows) R1) as (_ & Hd & Ht).
  split_and!; simpl; [by eapply tx_step_rows | by etrans |].
  apply Forall_insert; [eapply Forall_impl; [exact Hall |]; intros; by eapply reg_ok_extends |].
  constructor; simpl; [done | |].
  - left. destruct R2 as [? | [m Hm]]; [done | by destruct (Hnf m)].
  - intros resp [Hpc _]%R3. by destruct (Hnc _ Hpc).
Qed.

Lemma reg_answer_ok d0 e k r a :
  tables_ok d0 e → regs e !! k = Some r → reg_result (reg_tx r) (reg_secs r) = Some a →
  tables_ok d0 (with_reg e (tables e) k (Reg (reg_md r) (reg_tx r) (reg_secs r) (Some a))).
Proof.
  intros (Hrows & Hext & Hall) Hk Ha. pose proof (Forall_lookup_1 _ _ _ _ Hall Hk) as [R1 R2 R3].
  split_and!; simpl; [done | done |]. apply Forall_insert; [done |]. constructor; simpl; [done | done |].
  intros resp [= ->]. revert Ha. unfold reg_result. destruct (tx_pc (reg_tx r)) as [| | id | m]; try done.
  destruct (sign_token _ _ _) eqn:Ht; [| done]. by intros [= <-].
Qed.

Lemma fire_tables_ok d0 l e e' : fire l e = Some e' → tables_ok d0 e → tables_ok d0 e'.
Proof.
  intros Hf He. destruct l; cbn [fire] in Hf.
  1: { injection Hf as <-. unfold open_stream. by destruct (validate_token _ _ _). }
  9: { injection Hf as <-. destruct He as (? & ? & ?). split_and!; [done | done |].
       apply Forall_app. split; [done |]. constructor; [apply start_reg_ok | done]. }
  11: { injection Hf as <-. destruct He as (Hrows & Hext & Hall). unfold tables_ok. simpl.
        destruct (rpc_heartbeat_state parse_uuid jwt_secret e0 secs md hb (tables e)) as [-> | (r & Hr & ->)]; [done |].
        split_and!; [by apply heartbeat_rows_ok | etrans; [done | apply heartbeat_extends] |].
        eapply Forall_impl; [exact Hall |]. intros x. apply reg_ok_extends, heartbeat_extends. }
  10: { apply bind_Some in Hf as (r & Hk & Hf). destruct (answer r); [done |].
        destruct (reg_result _ _) eqn:Ha; [| done]. injection Hf as <-. by apply reg_answer_ok. }
  9: { apply bind_Some in Hf as (r & Hk & Hf).
       destruct (tx_pc (reg_tx r)) eqn:Hp; try discriminate Hf;
         destruct (tx_step _ _) as [t d] eqn:Ht; injection Hf as <-;
         (eapply reg_step_ok; [done | done | by rewrite Hp | by rewrite Hp | done]). }
  all: apply bind_Some in Hf as (c & Hi & Hf);
       try (apply bind_Some in Hf as (c' & Hs & Hf)); repeat case_match; by simplify_eq.
Qed.

Lemma reached_tables_ok d e : rows_ok d → reached fire any_order (started_server d) e → tables_ok d e.
Proof.
  intros Hd. apply reached_invariant; [by intros; eapply fire_tables_ok |]. by split_and!; simpl.
Qed.

(** ** Lemmas: the server settles *)

(** What is left to do for a stream and for a registration. *)
Definition conn_work (c : conn) : nat :=
  4 * (length (arrived c) - taken c) +
  match phase c with Reading => 1 | Ingesting _ _ => 4 | Sending _ _ _ => 3 | Closed => 0 end +
  (length (sent c) - delivered c).
Definition tx_work (t : tx) : nat := match tx_pc t with Started => 2 | Selected _ => 1 | _ => 0 end.
Definition reg_work (r : reg) : nat :=
  tx_work (reg_tx r) +
  match answer r with None => 1 | Some _ => 0 end.
Definition work (e : server) : nat := sum_list (conn_work <$> conns e) + sum_list (reg_work <$> regs e).

(** Every task waits for input or is over, every answer is given. *)
Definition conn_idle (c : conn) : Prop :=
  (phase c = Closed ∨ phase c = Reading ∧ taken c = length (arrived c) ∧ ended c = false) ∧
  (receiving c = true → delivered c = length (sent c)).
Definition settled (e : server) : Prop := Forall conn_idle (conns e) ∧ Forall (λ r, answer r ≠ None) (regs e).

Lemma sum_insert_lt {A} (f : A → nat) l i x y :
  l !! i = Some x → f y < f x → sum_list (f <$> <[i := y]> l) < sum_list (f <$> l).
Proof.
  revert i. induction l as [| z l IH]; intros [| i] Hi Hlt; simplify_eq/=; [lia |].
  specialize (IH i Hi Hlt). lia.
Qed.

Lemma conn_less e b i c c' :
  conns e !! i = Some c → conn_work c' < conn_work c → work (with_conn e b i c') < work e.
Proof. intros Hi Hlt. pose proof (sum_insert_lt conn_work _ _ _ _ Hi Hlt). unfold work. simpl. lia. Qed.

Lemma reg_less e d k r r' :
  regs e !! k = Some r → reg_work r' < reg_work r → work (with_reg e d k r') < work e.
Proof. intros Hk Hlt. pose proof (sum_insert_lt reg_work _ _ _ _ Hk Hlt). unfold work. simpl. lia. Qed.

Lemma tx_step_less t d t' d' : 0 < tx_work t → tx_step t d = (t', d') → tx_work t' < tx_work t.
Proof.
  unfold tx_work, tx_step. destruct (tx_pc t) as [| x | id | m]; intros Hw Ht; try (simpl in Hw; lia).
  - destruct (select_existing _ _ d) as [[x |] d1]; simplify_eq/=; lia.
  - destruct (transaction _ _ d) as [[x' |] d1]; simplify_eq/=; lia.
Qed.

Lemma internal_less l e e' : internal_label e l = true → fire l e = Some e' → work e' < work e.
Proof.
  intros Hin Hf. destruct l; try discriminate Hin; cbn [fire] in Hf; apply bind_Some in Hf as (c & Hi & Hf).
  - apply bind_Some in Hf as (c' & Hs & [= <-]). eapply conn_less; [done |]. revert Hs. unfold take_item.
    destruct (phase c) eqn:Hp; try done. destruct (arrived c !! taken c) as [x |] eqn:Hn; [| done].
    apply lookup_lt_Some in Hn. destruct x; intros [= <-]; unfold conn_work; simpl; rewrite Hp; lia.
  - apply bind_Some in Hf as (c' & Hs & [= <-]). eapply conn_less; [done |]. revert Hs. unfold finish_input.
    destruct (phase c) eqn:Hp; try done. destruct (arrived c !! taken c); [done |]. destruct (ended c); [| done].
    intros [= <-]. unfold conn_work. simpl. rewrite Hp. lia.
  - apply bind_Some in Hf as ([c' log] & Hs & [= <-]). eapply conn_less; [done |].
    apply publish_item_cases in Hs as (ev & uuid & Hp & Hc').
    destruct fault; destruct Hc' as [-> _]; unfold conn_work; simpl; rewrite Hp; lia.
  - apply bind_Some in Hf as (c' & Hs & [= <-]). eapply conn_less; [done |]. revert Hs. unfold send_command.
    destruct (phase c) eqn:Hp; try done. destruct (receiving c); simpl; [destruct (_ <? _); [| done] |];
      intros [= <-]; unfold conn_work; simpl; rewrite Hp, ?length_app; simpl; lia.
  - destruct (receiving c && _) eqn:Hd; [| done]. injection Hf as <-.
    apply andb_true_iff in Hd as [_ Hd%Nat.ltb_lt]. eapply conn_less; [done |]. unfold conn_work. simpl. lia.
  - assert (0 < tx_work (reg_tx c) ∧ ∃ t d, tx_step (reg_tx c) (tables e) = (t, d) ∧
      e' = with_reg e d k (Reg (reg_md c) t (reg_secs c) (answer c))) as (Hw & t & d & Ht & ->).
    { unfold tx_work. destruct (tx_pc (reg_tx c)), (tx_step (reg_tx c) (tables e)) as [t d]; simplify_eq;
        (split; [lia | by do 2 eexists]). }
    apply tx_step_less in Ht; [| done]. eapply reg_less; [done |]. unfold reg_work. simpl. lia.
  - destruct (answer c) eqn:Ha; [done |]. destruct (reg_result _ _); [| done]. injection Hf as <-.
    eapply reg_less; [done |]. unfold reg_work. simpl. rewrite Ha. lia.
Qed.

Lemma find_bad {A} (P : A → Prop) `{∀ x, Decision (P x)} (l : list A) :
  Forall P l ∨ ∃ i x, l !! i = Some x ∧ ¬ P x.
Proof.
  destruct (decide (Forall P l)) as [? | Hn]; [by left | right].
  apply not_Forall_Exists, Exists_exists in Hn as (x & [i Hi]%list_elem_of_lookup & Hx); [eauto | apply _].
Qed.

#[local] Instance conn_idle_dec c : Decision (conn_idle c).
Proof. unfold conn_idle. apply _. Defined.

(** A stream that is not idle has a label that can fire. *)
Lemma conn_moves e i c :
  conns e !! i = Some c → conn_ok (broker e) i c → ¬ conn_idle c →
  ∃ l e', smooth e l = true ∧ fire l e = Some e'.
Proof.
  intros Hi [_ Ht Hd Hs _] Hn.
  destruct (decide (receiving c = true ∧ delivered c < length (sent c))) as [[Hr Hlt] | Hdone].
  { exists (Deliver i). cbn [fire]. rewrite Hi. cbn [mbind option_bind].
    rewrite Hr, (proj2 (Nat.ltb_lt _ _) Hlt). by eexists. }
  destruct (phase c) as [| ev uuid | ev uuid cmd |] eqn:Hp.
  - destruct (arrived c !! taken c) as [x |] eqn:Hx.
    + exists (Take i ""). cbn [fire]. rewrite Hi. cbn [mbind option_bind]. unfold take_item. rewrite Hp, Hx.
      destruct x; by eexists.
    + exists (Finish i). cbn [fire]. rewrite Hi. cbn [mbind option_bind]. unfold finish_input. rewrite Hp, Hx.
      destruct (ended c) eqn:He; [by eexists |]. destruct Hn. apply lookup_ge_None in Hx.
      split; [right; split_and!; [done | lia | done] | intros Hr; destruct (decide (delivered c < length (sent c))); naive_solver lia].
  - exists (Publish i None). cbn [fire]. rewrite Hi. cbn [mbind option_bind]. unfold publish_item. rewrite Hp. by eexists.
  - exists (Send i). cbn [fire]. rewrite Hi. cbn [mbind option_bind]. unfold send_command. rewrite Hp.
    destruct (receiving c) eqn:Hr; simpl; [| by eexists].
    destruct (Nat.ltb_spec (length (sent c)) (delivered c + COMMAND_SLOTS)); [by eexists |].
    destruct Hdone. split; [done | unfold COMMAND_SLOTS in *; lia].
  - destruct Hn. split; [by left | intros Hr; destruct (decide (delivered c < length (sent c))); naive_solver lia].
Qed.

Lemma reg_moves e k r :
  regs e !! k = Some r → ¬ answer r ≠ None → ∃ l e', smooth e l = true ∧ fire l e = Some e'.
Proof.
  intros Hk Hn. assert (answer r = None) as Ha by (destruct (answer r); [by destruct Hn | done]).
  destruct (tx_pc (reg_tx r)) eqn:Hp.
  1,2: exists (RegStep k); cbn [fire]; rewrite Hk; cbn [mbind option_bind]; rewrite Hp;
    destruct (tx_step _ _); by eexists.
  all: exists (RegAnswer k); cbn [fire]; rewrite Hk; cbn [mbind option_bind]; unfold reg_result; rewrite Ha, Hp; by eexists.
Qed.

Lemma server_moves e : streams_ok e → settled e ∨ ∃ l e', smooth e l = true ∧ fire l e = Some e'.
Proof.
  intros [Hc _]. destruct (find_bad conn_idle (conns e)) as [? | (i & c & Hi & Hb)]; [| right; by eapply conn_moves; eauto].
  destruct (find_bad (λ r, answer r ≠ None) (regs e)) as [? | (k & r & Hk & Hb)]; [by left | right; by eapply reg_moves].
Qed.

Lemma smooth_internal e l : smooth e l = true → internal_label e l = true.
Proof. by intros [? _]%andb_true_iff. Qed.

(** Until the server has settled it can go on, and it cannot go on for ever. *)
Lemma server_settles_run e : streams_ok e → ∃ ls e', fire_all fire smooth ls e = Some e' ∧ settled e' ∧ streams_ok e'.
Proof.
  remember (work e) as n eqn:Hn. revert e Hn. induction (lt_wf n) as [n _ IH]. intros e -> He.
  destruct (server_moves e He) as [Hset | (l & e1 & Hl & Hf)]; [by exists [], e |].
  destruct (IH (work e1)) with e1 as (ls & e' & Hls & Hset & He'); [| done | by eapply fire_streams_ok |].
  - eapply internal_less; [by eapply smooth_internal | done].
  - exists (l :: ls), e'. cbn [fire_all]. rewrite Hl, Hf. done.
Qed.

(** A stream whose agent listens and sends events, and what it is due. *)
Definition listening (c : conn) : Prop :=
  receiving c = true ∧ (phase c = Closed → taken c = length (arrived c)) ∧
  Forall (λ x, is_ok x = true) (drop (taken c) (arrived c)).
Definition due (c : conn) : nat := length (sent c) + length (in_hand (phase c)) + (length (arrived c) - taken c).

Lemma smooth_listening l e e' i c :
  smooth e l = true → fire l e = Some e' → streams_ok e → conns e !! i = Some c → listening c →
  ∃ c', conns e' !! i = Some c' ∧ listening c' ∧ due c' = due c.
Proof.
  intros Hl Hf [Hall _] Hi Hlis. pose proof (ok_taken _ _ _ (Hall i c Hi)) as Hle.
  assert (∀ b j cj cj', conns e !! j = Some cj → e' = with_conn e b j cj' →
    (j = i → cj = c → listening cj' ∧ due cj' = due c) →
    ∃ c', conns e' !! i = Some c' ∧ listening c' ∧ due c' = due c) as Hone.
  { intros b j cj cj' Hj -> Hsame. simpl. destruct (decide (j = i)) as [-> | Hne].
    - exists cj'. rewrite list_lookup_insert_eq by (by eapply lookup_lt_Some). split; [done |]. apply Hsame; congruence.
    - exists c. by rewrite list_lookup_insert_ne. }
  destruct Hlis as (Hr & Hclosed & Hok).
  destruct l as [| | | | j uuid | j | j fault | j | j | | k | k |]; try discriminate Hl; cbn [fire] in Hf;
    apply bind_Some in Hf as (cj & Hj & Hf).
  - apply bind_Some in Hf as (c' & Hs & [= <-]). eapply Hone; [exact Hj | reflexivity |]. intros -> ->. revert Hs. unfold take_item.
    destruct (phase c) eqn:Hp; try done. destruct (arrived c !! taken c) as [x |] eqn:Hn; [| done].
    pose proof (lookup_lt_Some _ _ _ Hn). rewrite (drop_S _ _ _ Hn) in Hok. apply Forall_cons in Hok as [Hx Hok].
    destruct x; [| done]. intros [= <-]. unfold listening, due. simpl. rewrite Hp. simpl. split_and!; try done. lia.
  - apply bind_Some in Hf as (c' & Hs & [= <-]). eapply Hone; [exact Hj | reflexivity |]. intros -> ->. revert Hs. unfold finish_input.
    destruct (phase c) eqn:Hp; try done. destruct (arrived c !! taken c) eqn:Hn; [done |]. destruct (ended c); [| done].
    intros [= <-]. apply lookup_ge_None in Hn. unfold listening, due. simpl. rewrite Hp. split_and!; try done. intros _. lia.
  - apply bind_Some in Hf as ([c' log] & Hs & [= <-]). eapply Hone; [exact Hj | reflexivity |]. intros -> ->.
    destruct fault; [done |]. apply publish_item_cases in Hs as (ev & uuid & Hp & -> & _).
    unfold listening, due. simpl. by rewrite Hp.
  - apply bind_Some in Hf as (c' & Hs & [= <-]). eapply Hone; [exact Hj | reflexivity |]. intros -> ->. revert Hs. unfold send_command.
    destruct (phase c) eqn:Hp; try done. rewrite Hr. simpl. destruct (_ <? _); [| done]. intros [= <-].
    unfold listening, due. simpl. rewrite Hp, length_app. simpl. split_and!; try done. lia.
  - destruct (receiving cj && _) eqn:Hd; [| done]. injection Hf as <-. eapply Hone; [exact Hj | reflexivity |]. by intros -> ->.
  - exists c. split; [| done]. repeat case_match; by simplify_eq.
  - exists c. split; [| done]. repeat case_match; by simplify_eq.
Qed.

Lemma smooth_run_listening ls e e' i c :
  fire_all fire smooth ls e = Some e' → streams_ok e → conns e !! i = Some c → listening c →
  ∃ c', conns e' !! i = Some c' ∧ listening c' ∧ due c' = due c.
Proof.
  revert e c. induction ls as [| l ls IH]; intros e c Hf He Hi Hlis; cbn [fire_all] in Hf; [injection Hf as <-; eauto |].
  destruct (smooth e l) eqn:Hl; [| done]. apply bind_Some in Hf as (e1 & Hf1 & Hf).
  destruct (smooth_listening l e e1 i c Hl Hf1 He Hi Hlis) as (c1 & Hi1 & Hlis1 & Hdue1).
  destruct (IH e1 c1 Hf (fire_streams_ok _ _ _ Hf1 He) Hi1 Hlis1) as (c' & ? & ? & ?).
  exists c'. split_and!; [done | done | congruence].
Qed.

Lemma internal_run_bounded ls e e' : fire_all fire internal_label ls e = Some e' → length ls ≤ work e.
Proof.
  revert e. induction ls as [| l ls IH]; intros e Hf; cbn [fire_all] in Hf; [simpl; lia |].
  destruct (internal_label e l) eqn:Hl; [| done]. apply bind_Some in Hf as (e1 & Hf1 & Hf).
  apply IH in Hf. pose proof (internal_less _ _ _ Hl Hf1). simpl. lia.
Qed.

(** ** Properties *)

(** C18 (refinement): whatever registrations, heartbeats and other streams run in between, a
    stream that is open was opened with a valid token and does what the sequential
    task does: there is a list of the items it took, the one in hand aside, on
    which [stream_loop] publishes what the broker has from this stream, up to the
    record of the event in hand, and sends the commands sent; a task that is over
    ended on an error, on a command its agent no longer took, or at the end of its
    input. *)
Theorem streams_refine_the_loop d e i c :
  reached fire any_order (started_server d) e → conns e !! i = Some c →
  (∃ md now, validate_token md jwt_secret now = Ok (claims c)) ∧
  ∃ items, let s := stream_loop from_utf8_lossy topic items (Stream [] []) in
    (item_of <$> items) ++ in_hand (phase c) = take (taken c) (arrived c) ∧
    published_on i (broker e) = published s ++ at_broker (phase c) ∧
    sent c = commands s ∧ (phase c = Closed → reason c (last items)).
Proof.
  intros [Hc _]%reached_streams_ok Hi. destruct (Hc i c Hi) as [H1 _ _ _ (items & [M1 M2 M3 M4])].
  split; [done |]. exists items. split_and!; try done. intros Hp. by rewrite Hp in M4.
Qed.

(** C19 (bounds): in every interleaving, the commands of a stream are the acknowledgements of
    the events it published, in order, each after its record and the last one
    perhaps missing; these events came over this stream, in this order; and the
    broker is never more than 65 records ahead of what the agent was given. *)
Theorem acknowledgements_follow_records d e i c :
  reached fire any_order (started_server d) e → conns e !! i = Some c →
  ∃ evs rest, sent c = acks_of evs ∧ published_on i (broker e) = records_of (evs ++ rest) ∧ length rest ≤ 1 ∧
    events_of (evs ++ rest) `sublist_of` take (taken c) (arrived c) ∧
    delivered c ≤ length (sent c) ∧ length (published_on i (broker e)) ≤ delivered c + COMMAND_SLOTS + 1.
Proof.
  intros [Hc _]%reached_streams_ok Hi. destruct (Hc i c Hi) as [_ _ Hd Hs (items & Hm)].
  destruct (mirrored_events _ _ _ _ Hm) as (evs & rest & Hsent & Hp & Hl & Hsub).
  exists evs, rest. split_and!; try done.
  assert (length (sent c) = length evs) as Hev by (rewrite Hsent; apply length_fmap).
  rewrite Hp. unfold records_of. rewrite length_fmap, length_app. lia.
Qed.

(** C17 (invariant): registrations, heartbeats and streams interleaved keep the tables'
    constraints and statuses and lose no row; a registration answered with success
    presented the secret, the machine has the node id of the answer and keeps it,
    no other machine gets it, and the token of the answer opens a stream under that node id until a minute
    after its expiry. *)
Theorem registrations_answered `{!JwtLaws} d e :
  rows_ok d → reached fire any_order (started_server d) e →
  rows_ok (tables e) ∧ extends d (tables e) ∧
  ∀ r resp, r ∈ regs e → answer r = Some (Ok resp) →
    secret_accepted enrollment_secret (reg_md r) = true ∧
    find_machine (r_machine_id (tx_record (reg_tx r))) (tables e) = Some (rr_node_id resp) ∧
    (∀ r' resp', r' ∈ regs e → answer r' = Some (Ok resp') →
       (rr_node_id resp' = rr_node_id resp ↔
        r_machine_id (tx_record (reg_tx r')) = r_machine_id (tx_record (reg_tx r)))) ∧
    ∀ secs md now, reg_secs r = Some secs → (0 ≤ secs < 2 ^ 63)%Z → all_visible (rr_token resp) = true →
      map_get "authorization" md = Some ("Bearer " +:+ rr_token resp) →
      (now ≤ secs + TOKEN_TTL_SECS + leeway)%Z →
      ∃ c, conns (open_stream md now e) = conns e ++ [c] ∧ node_id (claims c) = rr_node_id resp ∧
        phase c = Reading.
Proof.
  intros Hd Hr. destruct (reached_tables_ok d e Hd Hr) as (Hrows & Hext & Hall).
  rewrite Forall_forall in Hall.
  assert (∀ r resp, r ∈ regs e → answer r = Some (Ok resp) →
    find_machine (r_machine_id (tx_record (reg_tx r))) (tables e) = Some (rr_node_id resp)) as Hfind.
  { intros r resp Hin Ha. destruct (Hall r Hin) as [R1 R2 R3]. destruct (R3 resp Ha) as [Hpc _].
    apply find_machine_iff; [apply Hrows |]. unfold tx_ok in R1. by rewrite Hpc in R1. }
  split_and!; [done | done |]. intros r resp Hin Ha.
  destruct (Hall r Hin) as [R1 R2 R3]. destruct (R3 resp Ha) as [Hpc Htok]. split_and!.
  - destruct R2 as [? | [m Hm]]; congruence.
  - by apply Hfind.
  - intros r' resp' Hin' Ha'. pose proof (Hfind r resp Hin Ha) as Hm1. pose proof (Hfind r' resp' Hin' Ha') as Hm2.
    split; [intros Heq | intros Heq; rewrite Heq in Hm2; congruence].
    apply find_machine_some in Hm1 as (n1 & Hn1 & <-). apply find_machine_some in Hm2 as (n2 & Hn2 & <-).
    rewrite Heq in Hn2. congruence.
  - intros secs md now Hsecs Hrange Hv Hmd Hnow. revert Htok. rewrite Hsecs. unfold sign_token.
    destruct (encode _ _) as [tok |] eqn:He; [| done]. intros [= ->].
    assert (validate_token md jwt_secret now =
            Ok (Claims (rr_node_id resp) (sat_add_u 64 secs TOKEN_TTL_SECS))) as Hval.
    { rewrite (validate_bearer (rr_token resp)) by done.
      rewrite (decode_encode (Claims (rr_node_id resp) (sat_add_u 64 secs TOKEN_TTL_SECS)) jwt_secret (rr_token resp) now);
        [done | | done |]; simpl; unfold sat_add_u, TOKEN_TTL_SECS, leeway in *; lia. }
    unfold open_stream. rewrite Hval. eexists. split; [reflexivity | done].
Qed.

(** C20 (liveness): the server's own work comes to an end: a run without new requests and
    items is bounded by [work], and there is one, with a broker that takes its
    records, after which every task waits for input or is over and every
    registration is answered; in it an agent that listens and has sent events alone
    is given the acknowledgement of each of them. *)
Theorem server_settles d e :
  reached fire any_order (started_server d) e →
  (∀ ls e', fire_all fire internal_label ls e = Some e' → length ls ≤ work e) ∧
  ∃ ls e', fire_all fire smooth ls e = Some e' ∧ settled e' ∧
    ∀ i c, conns e !! i = Some c → listening c →
      ∃ c', conns e' !! i = Some c' ∧ taken c' = length (arrived c') ∧ delivered c' = due c.
Proof.
  intros He%reached_streams_ok. split; [intros ls e'; apply internal_run_bounded |].
  destruct (server_settles_run e He) as (ls & e' & Hf & Hset & He'). exists ls, e'. split_and!; [done | done |].
  intros i c Hi Hlis. destruct (smooth_run_listening ls e e' i c Hf He Hi Hlis) as (c' & Hi' & (Hr & Hcl & _) & Hdue).
  exists c'. destruct Hset as [Hidle _]. destruct (Forall_lookup_1 _ _ _ _ Hidle Hi') as [Hphase Hdel].
  assert (taken c' = length (arrived c') ∧ in_hand (phase c') = []) as [Ht Hh]
    by (destruct Hphase as [Hp | (Hp & ? & _)]; rewrite Hp; auto).
  split_and!; [done | done |]. rewrite (Hdel Hr), <-Hdue. unfold due. rewrite Ht, Hh. simpl. lia.
Qed.
End fleet.

(** *** Two agents at one server *)
#[local] Existing Instance ToyJwt.toy_jwt.
#[local] Existing Instance ToyJwt.toy_laws.
#[local] Instance example_json : SerdeJson := table_serde [("{}", JObject [])] "out".

Definition example_fire : label → server → option server := fire id Ok (Some "s3cret") "key" "events".
Definition example_event (seq : string) : IncomingEvent := Incoming "n1" "process_events" "{}" 7 seq.
Definition bearer (token : string) : metadata := [("authorization", "Bearer " +:+ token)].
Definition secret_md : metadata := [("x-enrollment-secret", "s3cret")].

(** Two machines enrol at the same time, the first one twice; its stream sends two
    events, one of which the broker refuses, while it reports itself isolated. *)
Definition example_labels : list label :=
  [Register (example_env "n1" "e1" 5) (Some 1%Z) secret_md (Registration "h1" "linux" "0.1" "m1");
   Register (example_env "n2" "e2" 5) (Some 1%Z) secret_md (Registration "h2" "linux" "0.1" "m2");
   RegStep 0; RegStep 1; RegStep 1; RegStep 0; RegAnswer 0;
   Open (bearer example_token) 2; Arrive 0 (Ok (example_event "s1")); Arrive 0 (Ok (example_event "s2"));
   Take 0 "u1"; Beat (example_env "b1" "b2" 6) 2 (bearer example_token) (Heartbeat "n1" "isolated" 0);
   Publish 0 (Some "down"); Take 0 "u2"; Publish 0 None].
Definition example_server : server :=
  default (started_server (Db ∅ [] [])) (fire_all example_fire any_order example_labels (started_server (Db ∅ [] []))).

Lemma example_server_reached : reached example_fire any_order (started_server (Db ∅ [] [])) example_server.
Proof.
  eapply fire_all_reached; [apply reached_start |]. instantiate (1 := example_labels).
  apply some_default. by vm_compute.
Qed.

Lemma example_rows : rows_ok (Db ∅ [] []).
Proof. split; [apply empty_db_ok | apply map_Forall_empty]. Qed.

Definition example_conn : conn :=
  default (Conn (Claims "" 0) [] 0 false Reading [] 0 false) (conns example_server !! 0).

Lemma streams_refine_the_loop_witness :
  phase example_conn = Sending (example_event "s2") "u2" (Ack "s2") ∧
  ∃ items, (item_of <$> items) = [Ok (example_event "s1")] ∧
    length (published (stream_loop id "events" items (Stream [] []))) = 0.
Proof.
  split; [by vm_compute |].
  destruct (streams_refine_the_loop id Ok (Some "s3cret") "key" "events" (Db ∅ [] []) example_server 0 example_conn
    example_server_reached) as (_ & items & Hit & Hpub & _); [by apply some_default; vm_compute |].
  exists items. split.
  - apply (app_inv_tail [Ok (example_event "s2")]). etrans; [exact Hit | by vm_compute].
  - apply (f_equal length) in Hpub. rewrite length_app in Hpub.
    assert (length (published_on 0 (broker example_server)) = 1) as Hl by (by vm_compute).
    rewrite Hl in Hpub. assert (length (at_broker id "events" (phase example_conn)) = 1) as Ha by (by vm_compute).
    rewrite Ha in Hpub. lia.
Defined.

Lemma acknowledgements_follow_records_witness :
  sent example_conn = [] ∧ length (published_on 0 (broker example_server)) = 1 ∧
  length (published_on 0 (broker example_server)) ≤ 65.
Proof.
  split; [by vm_compute |]. split; [by vm_compute |].
  destruct (acknowledgements_follow_records id Ok (Some "s3cret") "key" "events" (Db ∅ [] []) example_server 0 example_conn
    example_server_reached) as (evs & rest & _ & _ & _ & _ & _ & Hb); [by apply some_default; vm_compute |].
  exact Hb.
Defined.

Definition example_answer : RegisterResponse := RegResponse "n1" example_token.

Lemma registrations_answered_witness :
  answer <$> regs example_server = [Some (Ok example_answer); None] ∧
  find_machine "m1" (tables example_server) = Some "n1" ∧
  ∃ c, conns (open_stream "key" (bearer example_token) 9 example_server) = conns example_server ++ [c] ∧
    node_id (claims c) = "n1".
Proof.
  split; [by vm_compute |].
  destruct (registrations_answered id Ok (Some "s3cret") "key" "events" (Db ∅ [] []) example_server
    example_rows example_server_reached) as (_ & _ & Hr).
  destruct (regs example_server) as [| r l] eqn:Hregs; [by vm_compute in Hregs |].
  assert (head (regs example_server) = Some r) as Hr0 by (by rewrite Hregs).
  destruct (Hr r example_answer ltac:(by left)) as (_ & Hm & _ & Hopen).
  { vm_compute in Hr0. by injection Hr0 as <-. }
  split; [vm_compute in Hr0; injection Hr0 as <-; exact Hm |].
  destruct (Hopen 1%Z (bearer example_token) 9%Z) as (c & Hc & Hid & _).
  - vm_compute in Hr0. by injection Hr0 as <-.
  - lia.
  - by vm_compute.
  - done.
  - unfold TOKEN_TTL_SECS, leeway. lia.
  - exists c. split; [exact Hc | exact Hid].
Defined.

Lemma server_settles_witness :
  work example_server = 4 ∧
  ∃ ls e', fire_all example_fire smooth ls example_server = Some e' ∧ settled e' ∧
    ∃ c', conns e' !! 0 = Some c' ∧ delivered c' = 1.
Proof.
  split; [by vm_compute |].
  destruct (server_settles id Ok (Some "s3cret") "key" "events" (Db ∅ [] []) example_server example_server_reached)
    as (_ & ls & e' & Hf & Hset & Hdue).
  exists ls, e'. split_and!; [exact Hf | exact Hset |].
  destruct (Hdue 0 example_conn) as (c' & Hc' & _ & Hd).
  - by apply some_default; vm_compute.
  - split_and!; [by vm_compute | by vm_compute | vm_compute; constructor].
  - exists c'. split; [exact Hc' |]. rewrite Hd. by vm_compute.
Defined.
