(* ===== verification/Osquery.v ===== *)
(** * The osquery collector (agent/crates/osquery-client/src)

    types.rs, diff.rs, scheduler.rs and lib.rs: the table of scheduled queries
    in SQLite, the differential of two results, and the task of one query as a
    step function on its ticks.  The iteration orders of Rust's hash tables are
    arguments, any permutation of the elements. *)
From Stdlib Require Import ZArith Lia.
From S2P Require Import Prelude.
#[local] Open Scope string_scope.
#[local] Open Scope list_scope.
#[local] Open Scope nat_scope.

(** ** types.rs *)

Record ScheduledQuery := Query {
  q_name : string; q_query : string; q_interval_secs : Z; q_snapshot : bool }.

Definition OsqueryRow : Type := gmap string string.

Record QueryResponse := Response { status_code : Z; status_message : string; resp_rows : list OsqueryRow }.

Inductive ResultAction := Snapshot | Added | Removed.

Definition action_as_str (a : ResultAction) : string :=
  match a with Snapshot => "SNAPSHOT" | Added => "ADDED" | Removed => "REMOVED" end.

Record ColumnEntry := Column { col_name : string; col_value : string }.
Record OsqueryResultRow := ResultRow { columns : list ColumnEntry }.
Record OsqueryResult := mkResult {
  query_name : string; agent_uuid : string; timestamp_ns : Z; rows : list OsqueryResultRow; action : ResultAction }.

(** ** Hash table orders *)

(** The order in which a [HashSet] of rows and a [HashMap] row are iterated. *)
Class HashOrder := {
  set_iter : gset OsqueryRow → list OsqueryRow;
  row_iter : OsqueryRow → list (string * string);
  set_iter_perm s : set_iter s ≡ₚ elements s;
  row_iter_perm r : row_iter r ≡ₚ map_to_list r
}.

(** The order stdpp's own traversal gives. *)
Definition canonical_order : HashOrder := {|
  set_iter := elements; row_iter := map_to_list;
  set_iter_perm s := reflexivity _; row_iter_perm r := reflexivity _ |}.

Section collector.
Context `{HashOrder}.

(** ** diff.rs *)

(** [keys.sort()] *)
Fixpoint insert_sorted (k : string) (l : list string) : list string :=
  match l with
  | [] => [k]
  | k' :: l' => if String.leb k k' then k :: l else k' :: insert_sorted k l'
  end.
Definition sort_keys (l : list string) : list string := foldr insert_sorted [] l.

(** What [HashableRow::hash] feeds the hasher: keys in order, each with its value. *)
Definition hash_feed (r : OsqueryRow) : list string :=
  mjoin ((λ k, k :: match r !! k with Some v => [v] | None => [] end) <$>
    sort_keys (row_iter r).*1).

(** Inserting rows one by one into a [HashSet]. *)
Definition row_set (l : list OsqueryRow) : gset OsqueryRow := foldl (λ s r, {[r]} ∪ s) ∅ l.

Definition compute_diff (previous_rows current_rows : list OsqueryRow)
    : list OsqueryRow * list OsqueryRow :=
  let prev_set := row_set previous_rows in
  let curr_set := row_set current_rows in
  let added := set_iter (curr_set ∖ prev_set) in
  let removed := set_iter (prev_set ∖ curr_set) in
  (added, removed).

(** ** The table of scheduled queries (scheduler.rs) *)

Record sched_row := SchedRow {
  s_name : string; s_query : string; s_interval : Z; s_snapshot : Z; s_updated_at : Z }.

(** The table in rowid order; [name] is its primary key. *)
Definition sched_table : Type := list sched_row.

Definition check_fault (f : option string) : SE sched_table string unit :=
  match f with Some e => throw e | None => mret tt end.

(** [u64] parameters above [i64::MAX] are refused by rusqlite. *)
Definition to_sql (n : Z) : result Z string :=
  if (n <? 2 ^ 63)%Z then Ok n else Err "out of range integral type conversion".

Definition insert_default (f : option string) (now : Z) (d : string * string * Z) : SE sched_table string unit :=
  check_fault f;;
  t ← gets id;
  let '(name, query, interval) := d in
  if decide (name ∈ s_name <$> t) then throw "UNIQUE constraint failed: scheduled_queries.name"
  else modify (λ t, t ++ [SchedRow name query interval 0 now]).

Definition defaults : list (string * string * Z) :=
  [("running_processes", "SELECT pid, name, path, cmdline, uid FROM processes;", 30%Z);
   ("listening_ports", "SELECT pid, port, protocol, address FROM listening_ports;", 30%Z);
   ("users", "SELECT username, uid, gid, shell, directory FROM users;", 300%Z)].

Fixpoint seed (faults : nat → option string) (i : nat) (now : Z) (ds : list (string * string * Z))
    : SE sched_table string unit :=
  match ds with
  | [] => mret tt
  | d :: ds => insert_default (faults i) now d;; seed faults (S i) now ds
  end.

(** [QueryScheduler::new] on the table the file holds, [None] when it has none. *)
Definition new (open_fault count_fault : option string) (faults : nat → option string) (now : Z)
    (file : option sched_table) : result unit string * sched_table :=
  let t := default [] file in
  match open_fault, count_fault with
  | Some e, _ | None, Some e => (Err e, t)
  | None, None => if length t =? 0 then seed faults 0 now defaults t else (Ok tt, t)
  end.

(** One row of [load_queries]; a negative interval is not a [u64]. *)
Definition load_row (r : sched_row) : result ScheduledQuery string :=
  if (s_interval r <? 0)%Z then Err "Integer out of range"
  else Ok (Query (s_name r) (s_query r) (s_interval r) (negb (s_snapshot r =? 0)%Z)).

Fixpoint load_rows (t : sched_table) : result (list ScheduledQuery) string :=
  match t with
  | [] => Ok []
  | r :: t =>
      match load_row r, load_rows t with
      | Ok q, Ok qs => Ok (q :: qs)
      | Err e, _ | _, Err e => Err e
      end
  end.

Definition load_queries (f : option string) (t : sched_table) : result (list ScheduledQuery) string :=
  match f with Some e => Err e | None => load_rows t end.

(** [INSERT ... ON CONFLICT(name) DO UPDATE]: an existing row is overwritten in place. *)
Fixpoint upsert_row (r : sched_row) (t : sched_table) : sched_table :=
  match t with
  | [] => [r]
  | r' :: t => if String.eqb (s_name r') (s_name r) then r :: t else r' :: upsert_row r t
  end.

Fixpoint upsert_all (faults : nat → option string) (i : nat) (now : Z) (qs : list ScheduledQuery)
    : SE sched_table string unit :=
  match qs with
  | [] => mret tt
  | q :: qs =>
      check_fault (faults i);;
      match to_sql (q_interval_secs q) with
      | Err e => throw e
      | Ok n =>
          modify (upsert_row (SchedRow (q_name q) (q_query q) n (if q_snapshot q then 1 else 0)%Z now));;
          upsert_all faults (S i) now qs
      end
  end.

(** [upsert_queries]: one transaction. *)
Definition upsert_queries (begin_fault commit_fault : option string) (faults : nat → option string)
    (now : Z) (qs : list ScheduledQuery) : SE sched_table string unit := λ t,
  match begin_fault with
  | Some e => (Err e, t)
  | None =>
      match upsert_all faults 0 now qs t with
      | (Ok _, t') => match commit_fault with Some e => (Err e, t) | None => (Ok tt, t') end
      | (Err e, _) => (Err e, t)
      end
  end.

(** ** The task of one query (scheduler.rs) *)

Definition build_result (query_name agent_uuid : string) (now_ns : option Z) (rows : list OsqueryRow)
    (action : ResultAction) : OsqueryResult :=
  mkResult query_name agent_uuid (default 0%Z now_ns)
    ((λ row, ResultRow ((λ '(k, v), Column k v) <$> row_iter row)) <$> rows) action.

(** What a tick finds: a query error, or a response, with the clock and whether
    the channel is closed at its first and its second send. *)
Inductive tick :=
  | QueryError (e : string)
  | Answer (r : QueryResponse) (now_ns : option Z) (closed1 closed2 : bool).

Record task := Task { previous_rows : list OsqueryRow; first_run : bool; sent : list OsqueryResult }.
Definition task_start : task := Task [] true [].

(** [tx.send(result)]: [None] breaks the loop. *)
Definition send (closed : bool) (r : OsqueryResult) (t : task) : option task :=
  if closed then None else Some (Task (previous_rows t) (first_run t) (sent t ++ [r])).

Definition send_unless_empty (closed : bool) (mk : list OsqueryRow → OsqueryResult) (l : list OsqueryRow)
    (t : task) : option task :=
  match l with [] => Some t | _ => send closed (mk l) t end.

(** One pass of the loop: the task that goes on, or [None] and the last state. *)
Definition tick_step (q : ScheduledQuery) (uuid : string) (k : tick) (t : task) : option task * task :=
  match k with
  | QueryError _ => (Some t, t)
  | Answer r now_ns closed1 closed2 =>
      if negb (status_code r =? 0)%Z then (Some t, t) else
      let current_rows := resp_rows r in
      let mk a l := build_result (q_name q) uuid now_ns l a in
      if q_snapshot q then
        match send closed1 (mk Snapshot current_rows) t with
        | None => (None, t)
        | Some t' => (Some t', t')
        end
      else if first_run t then
        match send closed1 (mk Snapshot current_rows) t with
        | None => (None, t)
        | Some t' => let t'' := Task current_rows false (sent t') in (Some t'', t'')
        end
      else
        let '(added, removed) := compute_diff (previous_rows t) current_rows in
        match send_unless_empty closed1 (mk Added) added t with
        | None => (None, t)
        | Some t1 =>
            match send_unless_empty closed2 (mk Removed) removed t1 with
            | None => (None, t1)
            | Some t2 => let t3 := Task current_rows (first_run t2) (sent t2) in (Some t3, t3)
            end
        end
  end.

Fixpoint run_ticks (q : ScheduledQuery) (uuid : string) (ks : list tick) (t : task) : task :=
  match ks with
  | [] => t
  | k :: ks =>
      match tick_step q uuid k t with
      | (Some t', _) => run_ticks q uuid ks t'
      | (None, t') => t'
      end
  end.

(** The connection attempts before the loop: how many fail before one succeeds. *)
Fixpoint connect_attempts (outcomes : list (option string)) : option nat :=
  match outcomes with
  | [] => None
  | None :: _ => Some 0
  | Some _ :: outcomes => n ← connect_attempts outcomes; Some (S n)
  end.

(** The whole task: [None] when it panics, since a zero period is refused by
    [tokio::time::interval], or while it still waits for osquery. *)
Definition query_task (q : ScheduledQuery) (uuid : string) (outcomes : list (option string))
    (ks : list tick) : option task :=
  match connect_attempts outcomes with
  | None => None
  | Some _ => if (q_interval_secs q =? 0)%Z then None else Some (run_ticks q uuid ks task_start)
  end.

(** [QueryScheduler::run]: the queries that get a task. *)
Definition run (load_fault : option string) (t : sched_table) : list ScheduledQuery :=
  match load_queries load_fault t with Ok qs => qs | Err _ => [] end.

(** ** Specification: what a receiver can rebuild *)

Definition row_of (r : OsqueryResultRow) : OsqueryRow :=
  list_to_map ((λ c, (col_name c, col_value c)) <$> columns r).

(** A receiver that keeps the table's set of rows. *)
Definition replay (s : gset OsqueryRow) (r : OsqueryResult) : gset OsqueryRow :=
  let l : gset OsqueryRow := list_to_set (row_of <$> rows r) in
  match action r with
  | Snapshot => l
  | Added => s ∪ l
  | Removed => s ∖ l
  end.

(** The rows of the last successful answer. *)
Fixpoint last_answer (ks : list tick) (acc : option (list OsqueryRow)) : option (list OsqueryRow) :=
  match ks with
  | [] => acc
  | QueryError _ :: ks => last_answer ks acc
  | Answer r _ _ _ :: ks =>
      last_answer ks (if (status_code r =? 0)%Z then Some (resp_rows r) else acc)
  end.

Definition channel_open (k : tick) : bool :=
  match k with QueryError _ => true | Answer _ _ c1 c2 => negb c1 && negb c2 end.
End collector.

(** ** Lemmas *)

#[local] Arguments compute_diff : simpl never.
#[local] Arguments send_unless_empty : simpl never.

Section collector_lemmas.
Context `{HashOrder}.

Lemma row_set_spec l : row_set l = list_to_set l.
Proof.
  unfold row_set. assert (∀ s : gset OsqueryRow, foldl (λ s r, {[r]} ∪ s) s l = list_to_set l ∪ s) as Hgen.
  { induction l as [| r l IH]; intros s; simpl; [set_solver |]. rewrite IH. set_solver. }
  rewrite Hgen. set_solver.
Qed.

Lemma set_iter_set s : list_to_set (set_iter s) = s.
Proof. rewrite set_iter_perm. apply list_to_set_elements_L. Qed.

(** The differential, as sets. *)
Lemma compute_diff_spec prev curr added removed :
  compute_diff prev curr = (added, removed) →
  list_to_set added = (list_to_set curr ∖ list_to_set prev : gset OsqueryRow) ∧
  list_to_set removed = (list_to_set prev ∖ list_to_set curr : gset OsqueryRow) ∧
  NoDup added ∧ NoDup removed.
Proof.
  unfold compute_diff. rewrite !row_set_spec. intros [= <- <-]. rewrite !set_iter_set.
  split_and!; [done | done | |]; rewrite set_iter_perm; apply NoDup_elements.
Qed.

Lemma row_of_build r : row_of (ResultRow ((λ '(k, v), Column k v) <$> row_iter r)) = r.
Proof.
  unfold row_of. simpl. rewrite <-list_fmap_compose.
  rewrite (list_fmap_ext _ id (row_iter r)) by (by intros i [k v]).
  rewrite list_fmap_id. rewrite <-(list_to_map_to_list r) at 2.
  apply list_to_map_proper; [| apply row_iter_perm].
  rewrite row_iter_perm. apply NoDup_fst_map_to_list.
Qed.

Lemma rows_of_build name uuid now l a :
  row_of <$> rows (build_result name uuid now l a) = l.
Proof.
  unfold build_result. simpl. rewrite <-list_fmap_compose.
  rewrite (list_fmap_ext _ id l); [apply list_fmap_id | intros i r _; apply row_of_build].
Qed.

Lemma replay_build s name uuid now l a :
  replay s (build_result name uuid now l a) =
  match a with Snapshot => list_to_set l | Added => s ∪ list_to_set l | Removed => s ∖ list_to_set l end.
Proof. unfold replay. rewrite rows_of_build. by destruct a. Qed.

(** Sending the added rows, then the removed ones, replays to the union and the
    difference, whether or not either is empty. *)
Lemma send_replay s t t' a mk l :
  (∀ s0 l0, replay s0 (mk l0) =
     match a with Snapshot => list_to_set l0 | Added => s0 ∪ list_to_set l0 | Removed => s0 ∖ list_to_set l0 end) →
  a ≠ Snapshot → send_unless_empty false mk l t = Some t' →
  foldl replay s (sent t') =
    match a with
    | Snapshot => list_to_set l
    | Added => foldl replay s (sent t) ∪ list_to_set l
    | Removed => foldl replay s (sent t) ∖ list_to_set l
    end ∧ previous_rows t' = previous_rows t ∧ first_run t' = first_run t.
Proof.
  intros Hmk Ha. unfold send_unless_empty. destruct l as [| r l]; simpl; intros [= <-]; (split; [| done]); simpl.
  - destruct a; [done | set_solver | set_solver].
  - rewrite foldl_app. simpl. by rewrite Hmk.
Qed.

(** A differential task in step with its receiver. *)
Definition in_step (s : gset OsqueryRow) (t : task) (last : option (list OsqueryRow)) : Prop :=
  match last with
  | None => t = task_start
  | Some l => first_run t = false ∧ previous_rows t = l ∧ foldl replay s (sent t) = list_to_set l
  end.

Lemma tick_in_step s q uuid k t last :
  q_snapshot q = false → channel_open k = true → in_step s t last →
  ∃ t', tick_step q uuid k t = (Some t', t') ∧ in_step s t' (last_answer [k] last).
Proof.
  intros Hq Ho Hin. unfold tick_step. destruct k as [e | r now c1 c2]; [by exists t |].
  cbn [channel_open last_answer] in *. apply andb_true_iff in Ho as [->%negb_true_iff ->%negb_true_iff].
  destruct (status_code r =? 0)%Z; cbn [negb]; [| by exists t]. rewrite Hq.
  destruct last as [l |]; cbn [in_step] in Hin.
  - destruct Hin as (Hf & Hp & Hs). rewrite Hf, Hp.
    destruct (compute_diff l (resp_rows r)) as [added removed] eqn:Hd.
    destruct (compute_diff_spec _ _ _ _ Hd) as (Ha & Hr & _).
    destruct (send_unless_empty false (λ l, build_result (q_name q) uuid now l Added) added t)
      as [t1 |] eqn:H1; [| by destruct added].
    destruct (send_replay s _ _ Added _ _ ltac:(intros; apply replay_build) ltac:(done) H1) as (Hs1 & Hp1 & Hf1).
    destruct (send_unless_empty false (λ l, build_result (q_name q) uuid now l Removed) removed t1)
      as [t2 |] eqn:H2; [| by destruct removed].
    destruct (send_replay s _ _ Removed _ _ ltac:(intros; apply replay_build) ltac:(done) H2) as (Hs2 & Hp2 & Hf2).
    eexists. split; [done |]. simpl. split_and!; [congruence | done |].
    rewrite Hs2, Hs1, Hs, Ha, Hr. apply set_eq. intros x. set_unfold.
    destruct (decide (x ∈ l)), (decide (x ∈ resp_rows r)); naive_solver.
  - subst t. simpl. eexists. split; [done |]. simpl. split_and!; [done | done |]. apply replay_build.
Qed.

Lemma run_in_step s q uuid ks t last :
  q_snapshot q = false → forallb channel_open ks = true → in_step s t last →
  in_step s (run_ticks q uuid ks t) (last_answer ks last).
Proof.
  intros Hq. revert t last. induction ks as [| k ks IH]; intros t last Ho Hin; [done |].
  apply andb_true_iff in Ho as [Hk Ho].
  destruct (tick_in_step s q uuid k t last Hq Hk Hin) as (t' & Hstep & Hin').
  replace (last_answer (k :: ks) last) with (last_answer ks (last_answer [k] last)) by (by destruct k).
  cbn [run_ticks]. rewrite Hstep. by apply IH.
Qed.

End collector_lemmas.

(** ** Lemmas on the table of scheduled queries *)

Lemma upsert_row_names r t :
  s_name <$> upsert_row r t = if decide (s_name r ∈ s_name <$> t) then s_name <$> t else (s_name <$> t) ++ [s_name r].
Proof.
  induction t as [| r' t IH]; [done |]. simpl. destruct (String.eqb_spec (s_name r') (s_name r)) as [He | He].
  - rewrite decide_True by (rewrite He; by left). rewrite fmap_cons. by rewrite He.
  - rewrite fmap_cons, IH. case_decide as Hin; case_decide as Hin'; try done.
    + destruct Hin'. by right.
    + apply elem_of_cons in Hin' as [? | ?]; [by destruct He | done].
Qed.

Lemma upsert_row_in r t : r ∈ upsert_row r t.
Proof. induction t as [| r' t IH]; simpl; [by left |]. case_match; [by left | by right]. Qed.

Lemma upsert_row_others r t x : s_name x ≠ s_name r → x ∈ upsert_row r t ↔ x ∈ t.
Proof.
  intros Hne. induction t as [| r' t IH]; simpl; [rewrite list_elem_of_singleton; split; [by intros -> | by intros ?%elem_of_nil] |].
  destruct (String.eqb_spec (s_name r') (s_name r)) as [He | He]; rewrite !elem_of_cons, ?IH; [| done].
  split; [intros [-> | ?]; [done | by right] | intros [-> | ?]; [done | by right]].
Qed.

(** The rows an update leaves. *)
Definition row_for (now : Z) (q : ScheduledQuery) : sched_row :=
  SchedRow (q_name q) (q_query q) (q_interval_secs q) (if q_snapshot q then 1 else 0)%Z now.

Lemma upsert_all_ok faults i now qs t t' :
  upsert_all faults i now qs t = (Ok tt, t') →
  Forall (λ q, q_interval_secs q < 2 ^ 63)%Z qs ∧ t' = foldl (λ t q, upsert_row (row_for now q) t) t qs.
Proof.
  revert i t. induction qs as [| q qs IH]; intros i t Hu; simpl in Hu; [injection Hu as <-; by split |].
  unfold mbind, SE_bind, check_fault in Hu. destruct (faults i); [done |]. simpl in Hu.
  unfold to_sql in Hu. destruct (Z.ltb_spec (q_interval_secs q) (2 ^ 63)); [| done].
  unfold modify in Hu. apply IH in Hu as [Hall ->]. split; [by constructor | done].
Qed.

Lemma load_rows_ok t : Forall (λ r, 0 ≤ s_interval r)%Z t →
  load_rows t = Ok ((λ r, Query (s_name r) (s_query r) (s_interval r) (negb (s_snapshot r =? 0)%Z)) <$> t).
Proof.
  induction 1 as [| r t Hr _ IH]; [done |]. simpl. unfold load_row. rewrite IH.
  by destruct (Z.ltb_spec (s_interval r) 0); [lia |].
Qed.

Lemma upsert_row_forall (P : sched_row → Prop) r t : P r → Forall P t → Forall P (upsert_row r t).
Proof.
  intros Hr. induction 1 as [| r' t Hr' Ht IH]; simpl; [by repeat constructor |].
  case_match; by constructor.
Qed.

(** ** Properties *)

(** The differential of two results holds, each once, the rows that are in the
    current result only and those that are in the previous one only, whatever
    order the hash sets are iterated in. *)
Theorem compute_diff_is_difference `{HashOrder} prev curr :
  let '(added, removed) := compute_diff prev curr in
  (∀ r, r ∈ added ↔ r ∈ curr ∧ r ∉ prev) ∧ (∀ r, r ∈ removed ↔ r ∈ prev ∧ r ∉ curr) ∧
  NoDup added ∧ NoDup removed.
Proof.
  destruct (compute_diff prev curr) as [added removed] eqn:Hd.
  destruct (compute_diff_spec _ _ _ _ Hd) as (Ha & Hr & Hna & Hnr). split_and!; [| | done | done]; intros r.
  - rewrite <-(elem_of_list_to_set (C := gset OsqueryRow) r added), Ha. set_solver.
  - rewrite <-(elem_of_list_to_set (C := gset OsqueryRow) r removed), Hr. set_solver.
Qed.

(** A receiver that replays the results of a differential query over an open
    channel (a snapshot sets, added rows join, removed rows leave) holds, after
    any ticks, exactly the set of rows of the last successful answer. *)
Theorem differential_replays_table `{HashOrder} q uuid ks l :
  q_snapshot q = false → forallb channel_open ks = true → last_answer ks None = Some l →
  foldl replay ∅ (sent (run_ticks q uuid ks task_start)) = list_to_set l.
Proof.
  intros Hq Ho Hl. pose proof (run_in_step ∅ q uuid ks task_start None Hq Ho eq_refl) as Hin.
  rewrite Hl in Hin. by destruct Hin as (_ & _ & ?).
Qed.

#[local] Existing Instance canonical_order.
Definition example_row (v : string) : OsqueryRow := {["pid" := v]}.
Definition example_ticks : list tick :=
  [Answer (Response 0 "OK" [example_row "1"; example_row "2"]) None false false;
   QueryError "timeout";
   Answer (Response 0 "OK" [example_row "2"; example_row "3"]) None false false].

Lemma differential_replays_table_witness :
  foldl replay ∅ (sent (run_ticks (Query "p" "SELECT" 30 false) "u" example_ticks task_start))
  = list_to_set [example_row "2"; example_row "3"].
Proof. exact (differential_replays_table (Query "p" "SELECT" 30 false) "u" example_ticks _ eq_refl eq_refl eq_refl). Defined.

(** An update of the schedule is all or nothing, and after a successful one
    of a single query, loading the (well-formed) table gives that query back
    under its name, with one entry per name and the other entries unchanged. *)
Theorem upsert_then_load now q t faults bf cf :
  NoDup (s_name <$> t) → Forall (λ r, 0 ≤ s_interval r)%Z t → (0 ≤ q_interval_secs q)%Z →
  match upsert_queries bf cf faults now [q] t with
  | (Err _, t') => t' = t
  | (Ok _, t') => ∃ qs, load_queries None t' = Ok qs ∧ q ∈ qs ∧ NoDup (q_name <$> qs) ∧
      ∀ q', q_name q' ≠ q_name q → q' ∈ qs ↔ ∃ qs0, load_queries None t = Ok qs0 ∧ q' ∈ qs0
  end.
Proof.
  intros Hnd Hall Hq. unfold upsert_queries. destruct bf; [done |].
  destruct (upsert_all faults 0 now [q] t) as [[[] | e] t'] eqn:Hu; [| done]. destruct cf; [done |].
  apply upsert_all_ok in Hu as [_ ->]. simpl.
  assert (Forall (λ r, 0 ≤ s_interval r)%Z (upsert_row (row_for now q) t)) as Hall'
    by (by apply upsert_row_forall).
  eexists. split; [by apply load_rows_ok |].
  set (f := λ r, Query (s_name r) (s_query r) (s_interval r) (negb (s_snapshot r =? 0)%Z)).
  assert (f (row_for now q) = q) as Hf by (unfold f, row_for; simpl; by destruct q as [? ? ? []]).
  split_and!.
  - rewrite <-Hf at 1. apply list_elem_of_fmap_2, upsert_row_in.
  - rewrite <-list_fmap_compose. change (q_name ∘ f) with s_name. rewrite upsert_row_names.
    case_decide as Hin; [done |]. apply NoDup_app. split_and!; [done | | by apply NoDup_singleton].
    intros x Hx ->%list_elem_of_singleton. done.
  - intros q' Hne. rewrite load_rows_ok by done. split.
    + intros (r & -> & Hr)%list_elem_of_fmap. eexists. split; [done |].
      apply (list_elem_of_fmap_2 f _ r). exact (proj1 (upsert_row_others (row_for now q) t r Hne) Hr).
    + intros (qs0 & [= <-] & Hin). apply list_elem_of_fmap in Hin as (r & -> & Hr).
      apply (list_elem_of_fmap_2 f _ r). exact (proj2 (upsert_row_others (row_for now q) t r Hne) Hr).
Qed.

Lemma upsert_then_load_witness :
  ∃ qs, load_queries None (upsert_queries None None (λ _, None) 9 [Query "users" "SELECT 1" 60 true]
          [SchedRow "users" "SELECT 2" 300 0 1]).2 = Ok qs ∧ Query "users" "SELECT 1" 60 true ∈ qs.
Proof.
  destruct (upsert_then_load 9 (Query "users" "SELECT 1" 60 true) [SchedRow "users" "SELECT 2" 300 0 1]
    (λ _, None) None None) as (qs & H1 & H2 & _);
    [apply NoDup_singleton | repeat constructor; simpl; lia | simpl; lia |]. by exists qs.
Defined.
