(* ===== verification/Thrift.v ===== *)
(** * Apache Thrift, as the osquery client uses it

    The Thrift crate is not part of the repository: its protocol reader and
    writer are the operations of the classes [ThriftIn] and [ThriftOut].  What the client
    relies on are their laws: a reader works from left to right on the bytes it
    has ([Streaming]), a field or map header takes at least one byte, and values are read
    back as they were written.  The module [Binary] is the strict binary protocol,
    an instance on which every law is proved. *)
From Stdlib Require Import ZArith Lia Ascii.
From S2P Require Import Prelude.
#[local] Open Scope string_scope.
#[local] Open Scope list_scope.
#[local] Open Scope nat_scope.

Definition bytes : Type := list ascii.
Definition bytes_of (s : string) : bytes := String.list_ascii_of_string s.
Definition string_of (b : bytes) : string := String.string_of_list_ascii b.

(** [thrift::protocol::TType] and [TMessageType] *)
Inductive TType :=
  | TStop | TVoid | TBool | TI08 | TDouble | TI16 | TI32 | TI64 | TString
  | TStruct | TMap | TSet | TList | TUtf8 | TUtf16.
#[export] Instance TType_eq_dec : EqDecision TType.
Proof. solve_decision. Defined.

Inductive TMessageType := Call | Reply | Exception | OneWay.
#[export] Instance TMessageType_eq_dec : EqDecision TMessageType.
Proof. solve_decision. Defined.

(** The error of a reading loop: a failure with its text, or no fuel left. *)
Inductive perr := Failed (text : string) | OutOfFuel.

(** A computation on the bytes still to be read. *)
Definition reader (A : Type) : Type := SE bytes perr A.

(** ** The input protocol *)

Class ThriftIn := {
  read_message_begin : reader (string * TMessageType * Z);
  read_message_end : reader unit;
  read_application_error : reader unit;
  read_struct_begin : reader unit;
  read_struct_end : reader unit;
  read_field_begin : reader (TType * option Z);
  read_field_end : reader unit;
  read_i32 : reader Z;
  read_string : reader string;
  read_list_begin : reader (TType * Z);
  read_list_end : reader unit;
  read_map_begin : reader Z;
  read_map_end : reader unit;
  skip : TType → reader unit;
  (** The text of the error that reports the end of the input. *)
  eof_text : string;
  (** [String::from_utf8] accepts the bytes. *)
  utf8 : string → bool
}.

(** A reader that works from left to right: a result does not depend on what
    follows the bytes it took, and neither does an error other than the end of
    the input. *)
Definition Streaming {A} (eof : string) (m : reader A) : Prop := ∀ b,
  match m b with
  | (Ok a, rest) => (∃ used, b = used ++ rest) ∧ ∀ more, m (b ++ more) = (Ok a, rest ++ more)
  | (Err OutOfFuel, _) => True
  | (Err (Failed e), _) => e = eof ∨ ∀ more, (m (b ++ more)).1 = Err (Failed e)
  end.

(** A reader that never runs out of fuel on fewer than [n] bytes. *)
Definition Fueled {A} (n : nat) (m : reader A) : Prop :=
  ∀ b, length b < n → (m b).1 ≠ Err OutOfFuel.

(** [m'] gives what [m] gives wherever [m] has enough fuel. *)
Definition Extends {A} (m m' : reader A) : Prop :=
  ∀ b, (m b).1 ≠ Err OutOfFuel → m' b = m b.

(** Taking at least one byte. *)
Definition Consuming {A} (m : reader A) : Prop :=
  ∀ b a rest, m b = (Ok a, rest) → length rest < length b.

Class ThriftInLaws `{ThriftIn} := {
  message_begin_streaming : Streaming eof_text read_message_begin;
  message_end_streaming : Streaming eof_text read_message_end;
  application_error_streaming : Streaming eof_text read_application_error;
  struct_begin_streaming : Streaming eof_text read_struct_begin;
  struct_end_streaming : Streaming eof_text read_struct_end;
  field_begin_streaming : Streaming eof_text read_field_begin;
  field_end_streaming : Streaming eof_text read_field_end;
  i32_streaming : Streaming eof_text read_i32;
  string_streaming : Streaming eof_text read_string;
  list_begin_streaming : Streaming eof_text read_list_begin;
  list_end_streaming : Streaming eof_text read_list_end;
  map_begin_streaming : Streaming eof_text read_map_begin;
  map_end_streaming : Streaming eof_text read_map_end;
  skip_streaming t : Streaming eof_text (skip t);
  field_begin_consuming : Consuming read_field_begin;
  (** The operations of the crate are no loops of the client: they have no fuel. *)
  message_begin_fueled n : Fueled n read_message_begin;
  message_end_fueled n : Fueled n read_message_end;
  application_error_fueled n : Fueled n read_application_error;
  struct_begin_fueled n : Fueled n read_struct_begin;
  struct_end_fueled n : Fueled n read_struct_end;
  field_begin_fueled n : Fueled n read_field_begin;
  field_end_fueled n : Fueled n read_field_end;
  i32_fueled n : Fueled n read_i32;
  string_fueled n : Fueled n read_string;
  list_begin_fueled n : Fueled n read_list_begin;
  list_end_fueled n : Fueled n read_list_end;
  map_begin_fueled n : Fueled n read_map_begin;
  map_end_fueled n : Fueled n read_map_end;
  skip_fueled n t : Fueled n (skip t)
}.

(** ** The output protocol and the in-memory channel *)

Class ThriftOut := {
  put_message_begin : string → TMessageType → Z → bytes;
  put_field_begin : TType → Z → bytes;
  put_field_stop : bytes;
  put_i32 : Z → bytes;
  put_i64 : Z → bytes;
  put_string : string → bytes;
  put_list_begin : TType → Z → bytes;
  put_map_begin : TType → TType → Z → bytes;
  (** [TBufferChannel]: its write buffer has a fixed size. *)
  channel_write : nat → bytes → bytes → result bytes string
}.

(** A Rust string that fits a wire string: its length fits an [i32]. *)
Definition wire_text `{ThriftIn} (s : string) : Prop :=
  utf8 s = true ∧ (Z.of_nat (String.length s) < 2 ^ 31)%Z.

(** Reading back what was written. *)
Class ThriftRoundTrip `{ThriftIn} `{ThriftOut} := {
  get_message_begin n t s rest : wire_text n → fits_i 32 s →
    read_message_begin (put_message_begin n t s ++ rest) = (Ok (n, t, s), rest);
  get_message_end rest : read_message_end rest = (Ok tt, rest);
  get_struct_begin rest : read_struct_begin rest = (Ok tt, rest);
  get_struct_end rest : read_struct_end rest = (Ok tt, rest);
  get_field_begin t i rest : t ≠ TStop → fits_i 16 i →
    read_field_begin (put_field_begin t i ++ rest) = (Ok (t, Some i), rest);
  get_field_stop rest : read_field_begin (put_field_stop ++ rest) = (Ok (TStop, None), rest);
  get_field_end rest : read_field_end rest = (Ok tt, rest);
  get_i32 z rest : fits_i 32 z → read_i32 (put_i32 z ++ rest) = (Ok z, rest);
  get_string s rest : wire_text s → read_string (put_string s ++ rest) = (Ok s, rest);
  get_list_begin t n rest : fits_i 32 n → read_list_begin (put_list_begin t n ++ rest) = (Ok (t, n), rest);
  get_list_end rest : read_list_end rest = (Ok tt, rest);
  get_map_begin k v n rest : fits_i 32 n → read_map_begin (put_map_begin k v n ++ rest) = (Ok n, rest);
  get_map_end rest : read_map_end rest = (Ok tt, rest);
  skip_i64 z rest : skip TI64 (put_i64 z ++ rest) = (Ok tt, rest);
  write_fits cap w b : length w + length b ≤ cap → channel_write cap w b = Ok (w ++ b);
  write_full cap w b : cap < length w + length b → is_ok (channel_write cap w b) = false
}.

(** ** Loops over the input *)

(** [for _ in 0..n { acc = body(acc)? }] *)
Fixpoint times {A} (n : nat) (body : A → reader A) (acc : A) : reader A :=
  match n with
  | O => mret acc
  | S n => acc ← body acc; times n body acc
  end.

(** The loop over the fields of a struct: read the field's header, stop at the
    stop field, the body, the field's end.  Every turn takes a byte, so fuel above
    the length of the input is enough. *)
Fixpoint fields_loop {A} (field_begin : reader (TType * option Z)) (field_end : reader unit) (fuel : nat)
    (body : TType → option Z → A → reader A) (acc : A) : reader A :=
  match fuel with
  | O => throw OutOfFuel
  | S fuel =>
      '(field_type, id) ← field_begin;
      if decide (field_type = TStop) then mret acc else
      acc ← body field_type id acc;
      field_end;;
      fields_loop field_begin field_end fuel body acc
  end.

(** [loop { let field = in_prot.read_field_begin()?; ... read_field_end()? }] *)
Definition fields `{ThriftIn} {A} (fuel : nat) (body : TType → option Z → A → reader A) (acc : A) : reader A :=
  fields_loop read_field_begin read_field_end fuel body acc.

(** A reader with the fuel its input needs. *)
Definition saturate {A} (m : nat → reader A) : reader A := λ b, m (S (length b)) b.

(** ** Composing readers *)

Section composition.
Context (eof : string).

Lemma streaming_ret {A} (a : A) : Streaming eof (mret a : reader A).
Proof. intros b. split; [by exists [] | done]. Qed.

Lemma streaming_throw {A} t : Streaming eof (throw (Failed t) : reader A).
Proof. intros b. by right. Qed.

Lemma streaming_fuel {A} : Streaming eof (throw OutOfFuel : reader A).
Proof. by intros b. Qed.

Lemma streaming_bind {A B} (m : reader A) (f : A → reader B) :
  Streaming eof m → (∀ a, Streaming eof (f a)) → Streaming eof (m ≫= f).
Proof.
  intros Hm Hf b. unfold mbind, SE_bind. specialize (Hm b).
  destruct (m b) as [[a | [e |]] rest]; simpl; [| | done].
  - destruct Hm as [[used ->] Hm]. specialize (Hf a rest).
    destruct (f a rest) as [[c | [e |]] rest'] eqn:Hfa; [| | done].
    + destruct Hf as [[used' ->] Hf]. split; [exists (used ++ used'); by rewrite app_assoc |].
      intros more. by rewrite Hm, Hf.
    + destruct Hf as [-> | Hf]; [by left | right]. intros more. by rewrite Hm, Hf.
  - destruct Hm as [-> | Hm]; [by left | right]. intros more. specialize (Hm more).
    destruct (m (b ++ more)) as [[a' | e'] r]; simpl in Hm; by simplify_eq.
Qed.

Lemma fueled_ret {A} n (a : A) : Fueled n (mret a : reader A).
Proof. done. Qed.

Lemma fueled_throw {A} n t : Fueled n (throw (Failed t) : reader A).
Proof. done. Qed.

(** What follows a streaming reader has fewer bytes, by one when it takes one. *)
Lemma streaming_length {A} (m : reader A) b a rest :
  Streaming eof m → m b = (Ok a, rest) → length rest ≤ length b.
Proof.
  intros Hm Hb. specialize (Hm b). rewrite Hb in Hm. destruct Hm as [[used ->] _]. rewrite length_app. lia.
Qed.

Lemma fueled_bind {A B} n (m : reader A) (f : A → reader B) :
  Streaming eof m → Fueled n m → (∀ a, Fueled n (f a)) → Fueled n (m ≫= f).
Proof.
  intros Hs Hm Hf b Hb. specialize (Hm b Hb). unfold mbind, SE_bind.
  destruct (m b) as [[a | e] rest] eqn:Hmb; simpl in *; [| intros [= ->]; by destruct Hm].
  apply Hf. pose proof (streaming_length m b a rest Hs Hmb). lia.
Qed.

Lemma fueled_bind_consuming {A B} n (m : reader A) (f : A → reader B) :
  Consuming m → Fueled (S n) m → (∀ a, Fueled n (f a)) → Fueled (S n) (m ≫= f).
Proof.
  intros Hc Hm Hf b Hb. specialize (Hm b Hb). unfold mbind, SE_bind.
  destruct (m b) as [[a | e] rest] eqn:Hmb; simpl in *; [| intros [= ->]; by destruct Hm].
  apply Hf. specialize (Hc b a rest Hmb). lia.
Qed.

Lemma extends_refl {A} (m : reader A) : Extends m m.
Proof. by intros b. Qed.

Lemma extends_fuel {A} (m : reader A) : Extends (throw OutOfFuel) m.
Proof. intros b Hb. by destruct Hb. Qed.

Lemma extends_bind {A B} (m m' : reader A) (f f' : A → reader B) :
  Extends m m' → (∀ a, Extends (f a) (f' a)) → Extends (m ≫= f) (m' ≫= f').
Proof.
  intros Hm Hf b. unfold mbind, SE_bind. specialize (Hm b). intros Hb.
  destruct (m b) as [[a | e] rest]; simpl in *.
  - rewrite Hm by done. by apply Hf.
  - rewrite Hm; [done | congruence].
Qed.

Lemma streaming_times {A} n (body : A → reader A) acc :
  (∀ a, Streaming eof (body a)) → Streaming eof (times n body acc).
Proof.
  intros Hb. revert acc. induction n as [| n IH]; intros acc; [apply streaming_ret |].
  simpl. by apply streaming_bind.
Qed.

Lemma fueled_times {A} k n (body : A → reader A) acc :
  (∀ a, Streaming eof (body a)) → (∀ a, Fueled k (body a)) → Fueled k (times n body acc).
Proof.
  intros Hs Hb. revert acc. induction n as [| n IH]; intros acc; [apply fueled_ret |].
  simpl. by apply fueled_bind.
Qed.

Lemma extends_times {A} n (body body' : A → reader A) acc :
  (∀ a, Extends (body a) (body' a)) → Extends (times n body acc) (times n body' acc).
Proof.
  intros Hb. revert acc. induction n as [| n IH]; intros acc; [apply extends_refl |].
  simpl. by apply extends_bind.
Qed.
End composition.

(** The loop over fields, given the laws of the two readers it uses. *)
Section fields.
Context (eof : string) (fb : reader (TType * option Z)) (fe : reader unit).
Context (fb_streaming : Streaming eof fb) (fb_consuming : Consuming fb) (fb_fueled : ∀ n, Fueled n fb).
Context (fe_streaming : Streaming eof fe) (fe_fueled : ∀ n, Fueled n fe).

Lemma streaming_loop {A} n (body : TType → option Z → A → reader A) acc :
  (∀ t i a, Streaming eof (body t i a)) → Streaming eof (fields_loop fb fe n body acc).
Proof.
  intros Hb. revert acc. induction n as [| n IH]; intros acc; [apply streaming_fuel |].
  cbn [fields_loop]. apply streaming_bind; [done |]. intros [t i].
  case_decide; [apply streaming_ret |]. apply streaming_bind; [apply Hb |]. intros a.
  apply streaming_bind; [done | intros _; apply IH].
Qed.

(** Fuel above the number of bytes is enough, whatever the body's own fuel. *)
Lemma fueled_loop {A} n k (body : TType → option Z → A → reader A) acc :
  n ≤ k → (∀ t i a, Streaming eof (body t i a)) → (∀ t i a, Fueled k (body t i a)) →
  Fueled n (fields_loop fb fe n body acc).
Proof.
  intros Hk Hs Hb. revert acc Hk. induction n as [| n IH]; intros acc Hk; [by intros b Hlen; lia |].
  cbn [fields_loop]. apply fueled_bind_consuming; [done..|].
  intros [t i]. case_decide; [apply fueled_ret |]. apply (fueled_bind eof); [apply Hs | |].
  - intros b Hlen. apply Hb. lia.
  - intros a. apply (fueled_bind eof); [done.. |]. intros _. apply IH. lia.
Qed.
End fields.

Lemma extends_loop {A} fb fe n m (body body' : TType → option Z → A → reader A) acc :
  n ≤ m → (∀ t i a, Extends (body t i a) (body' t i a)) →
  Extends (fields_loop fb fe n body acc) (fields_loop fb fe m body' acc).
Proof.
  intros Hm Hb. revert m acc Hm. induction n as [| n IH]; intros m acc Hm; [apply extends_fuel |].
  destruct m as [| m]; [lia |]. cbn [fields_loop]. apply extends_bind; [apply extends_refl |]. intros [t i].
  case_decide; [apply extends_refl |]. apply extends_bind; [apply Hb |]. intros a.
  apply extends_bind; [apply extends_refl |]. intros _. apply IH. lia.
Qed.

(** A family of readers that agree once they have fuel, with the fuel it needs. *)
Section saturate.
Context {A} (eof : string) (m : nat → reader A).
Context (m_streaming : ∀ n, Streaming eof (m n)) (m_fueled : ∀ n, Fueled n (m n))
  (m_extends : ∀ n k, n ≤ k → Extends (m n) (m k)).

Lemma saturate_with n b : length b < n → m n b = saturate m b.
Proof. intros Hn. apply m_extends; [lia |]. apply m_fueled. lia. Qed.

Lemma fueled_saturate n : Fueled n (saturate m).
Proof. intros b _. apply m_fueled. lia. Qed.

Lemma streaming_saturate : Streaming eof (saturate m).
Proof.
  intros b. set (len := λ more, S (length (b ++ more))).
  assert (∀ more, length b < len more) as Hlen by (intros; unfold len; rewrite length_app; lia).
  destruct (saturate m b) as [[a | [e |]] rest] eqn:Hb; [| | done].
  - pose proof (m_streaming (S (length b)) b) as Hs. unfold saturate in Hb. rewrite Hb in Hs.
    destruct Hs as [Hused Hs]. split; [done |]. intros more. unfold saturate.
    pose proof (m_streaming (len more) b) as Hs'. rewrite (saturate_with (len more)) in Hs' by apply Hlen.
    unfold saturate in Hs'. rewrite Hb in Hs'. by destruct Hs' as [_ ->].
  - destruct (decide (e = eof)) as [-> | Hne]; [by left | right]. intros more.
    pose proof (m_streaming (len more) b) as Hs'. rewrite (saturate_with (len more)) in Hs' by apply Hlen.
    rewrite Hb in Hs'. destruct Hs' as [-> | Hs']; [done |]. unfold saturate. apply Hs'.
Qed.
End saturate.

(** The client's loop, given the laws of the protocol. *)
Section client_fields.
Context `{ThriftInLaws}.

Lemma streaming_fields {A} n (body : TType → option Z → A → reader A) acc :
  (∀ t i a, Streaming eof_text (body t i a)) → Streaming eof_text (fields n body acc).
Proof. apply streaming_loop; [apply field_begin_streaming | apply field_end_streaming]. Qed.

Lemma fueled_fields {A} n k (body : TType → option Z → A → reader A) acc :
  n ≤ k → (∀ t i a, Streaming eof_text (body t i a)) → (∀ t i a, Fueled k (body t i a)) →
  Fueled n (fields n body acc).
Proof.
  apply fueled_loop; [apply field_begin_consuming | apply field_begin_fueled | apply field_end_streaming
    | apply field_end_fueled].
Qed.

Lemma extends_fields {A} n m (body body' : TType → option Z → A → reader A) acc :
  n ≤ m → (∀ t i a, Extends (body t i a) (body' t i a)) → Extends (fields n body acc) (fields m body' acc).
Proof. apply extends_loop. Qed.
End client_fields.

(** The automation of the three composition properties: ends at the readers of
    the protocol, whose laws are hints. *)
Create HintDb thrift.
#[export] Hint Resolve streaming_ret streaming_throw streaming_bind streaming_times streaming_fields
  fueled_ret fueled_throw extends_refl extends_bind extends_times : thrift.
#[export] Hint Resolve message_begin_streaming message_end_streaming application_error_streaming
  struct_begin_streaming struct_end_streaming field_begin_streaming field_end_streaming i32_streaming
  string_streaming list_begin_streaming list_end_streaming map_begin_streaming map_end_streaming
  skip_streaming : thrift.
#[export] Hint Resolve message_begin_fueled message_end_fueled application_error_fueled
  struct_begin_fueled struct_end_fueled field_begin_fueled field_end_fueled i32_fueled string_fueled
  list_begin_fueled list_end_fueled map_begin_fueled map_end_fueled skip_fueled : thrift.

(** [fueled_bind] at the protocol's end-of-input text, as a hint. *)
Lemma fueled_seq `{ThriftInLaws} {A B} n (m : reader A) (f : A → reader B) :
  Streaming eof_text m → Fueled n m → (∀ a, Fueled n (f a)) → Fueled n (m ≫= f).
Proof. apply fueled_bind. Qed.
Lemma fueled_repeat `{ThriftInLaws} {A} k n (body : A → reader A) acc :
  (∀ a, Streaming eof_text (body a)) → (∀ a, Fueled k (body a)) → Fueled k (times n body acc).
Proof. apply fueled_times. Qed.
#[export] Hint Resolve fueled_seq fueled_repeat : thrift.

Ltac thrift_tac := by eauto 8 with thrift.
