(* ===== verification/ThriftBinary.v ===== *)
(** * The strict binary protocol of Thrift

    A concrete instance of the classes of [Thrift] on which all their laws hold,
    for the examples and for what the client's theorems say of real messages:
    big-endian integers, strings and containers with their length in front, field
    headers of a type and an id. *)
From Stdlib Require Import ZArith Lia Ascii NArith.
From S2P Require Import Prelude Thrift.
#[local] Open Scope string_scope.
#[local] Open Scope list_scope.
#[local] Open Scope nat_scope.

(** ** Big-endian integers *)

Definition byte_of (z : Z) : ascii := Ascii.ascii_of_N (Z.to_N (z mod 256)).
Definition byte_val (c : ascii) : Z := Z.of_N (Ascii.N_of_ascii c).

Fixpoint be (n : nat) (z : Z) : bytes :=
  match n with
  | O => []
  | S n => byte_of (z / 256 ^ Z.of_nat n) :: be n z
  end.

Definition unbe (b : bytes) : Z := foldl (λ acc c, acc * 256 + byte_val c)%Z 0%Z b.

Lemma byte_val_of z : byte_val (byte_of z) = (z mod 256)%Z.
Proof.
  unfold byte_val, byte_of. pose proof (Z.mod_pos_bound z 256 ltac:(lia)).
  rewrite Ascii.N_ascii_embedding by lia. lia.
Qed.

Lemma be_length n z : length (be n z) = n.
Proof. induction n as [| n IH]; simpl; [done |]. by rewrite IH. Qed.

Lemma unbe_be n z : unbe (be n z) = (z mod 256 ^ Z.of_nat n)%Z.
Proof.
  unfold unbe.
  assert (∀ acc, foldl (λ acc c, acc * 256 + byte_val c) acc (be n z)
    = acc * 256 ^ Z.of_nat n + z mod 256 ^ Z.of_nat n)%Z as Hgen.
  { induction n as [| n IH]; intros acc; cbn [be foldl]; [change (Z.of_nat 0) with 0%Z; rewrite Z.mod_1_r; lia |].
    rewrite IH, byte_val_of, Nat2Z.inj_succ, Z.pow_succ_r by lia.
    rewrite (Z.mul_comm 256), Z.rem_mul_r by lia. lia. }
  rewrite Hgen. lia.
Qed.

Lemma unbe_be_signed n w z :
  (0 < w)%Z → (256 ^ Z.of_nat n = 2 ^ w)%Z → fits_i w z → wrap_i w (unbe (be n z)) = z.
Proof.
  intros Hw Hp Hz. rewrite unbe_be, Hp. unfold wrap_i. rewrite Zplus_mod_idemp_l. by apply wrap_i_small.
Qed.

(** ** Codes *)

Definition ttype_code (t : TType) : Z :=
  match t with
  | TStop => 0 | TVoid => 1 | TBool => 2 | TI08 => 3 | TDouble => 4 | TI16 => 6 | TI32 => 8 | TI64 => 10
  | TString => 11 | TStruct => 12 | TMap => 13 | TSet => 14 | TList => 15 | TUtf8 => 16 | TUtf16 => 17
  end.
Definition ttype_of (z : Z) : option TType :=
  list_find (λ t, ttype_code t = z)
    [TStop; TVoid; TBool; TI08; TDouble; TI16; TI32; TI64; TString; TStruct; TMap; TSet; TList; TUtf8; TUtf16]
  ≫= λ p, Some p.2.
Lemma ttype_of_code t : ttype_of (ttype_code t) = Some t.
Proof. by destruct t. Qed.
Lemma ttype_code_byte t : (ttype_code t mod 256 = ttype_code t)%Z.
Proof. by destruct t. Qed.

Definition mtype_code (t : TMessageType) : Z := match t with Call => 1 | Reply => 2 | Exception => 3 | OneWay => 4 end.
Definition mtype_of (z : Z) : option TMessageType :=
  if (z =? 1)%Z then Some Call else if (z =? 2)%Z then Some Reply
  else if (z =? 3)%Z then Some Exception else if (z =? 4)%Z then Some OneWay else None.

(** ** Reading *)

Definition eof : string := "end of file".
Definition bad_data : string := "bad data".

Section binary.
Context (utf8_ok : string → bool).

Definition take_bytes (n : nat) : reader bytes := λ b,
  if length b <? n then (Err (Failed eof), b) else (Ok (take n b), drop n b).

Definition get_int (n : nat) (w : Z) : reader Z := b ← take_bytes n; mret (wrap_i w (unbe b)).
Definition get_type : reader TType :=
  b ← take_bytes 1;
  match ttype_of (unbe b) with Some t => mret t | None => throw (Failed bad_data) end.

Definition get_text : reader string :=
  len ← get_int 4 32;
  if (len <? 0)%Z then throw (Failed bad_data) else
  b ← take_bytes (Z.to_nat len);
  if utf8_ok (string_of b) then mret (string_of b) else throw (Failed bad_data).

Definition get_field : reader (TType * option Z) :=
  t ← get_type;
  if decide (t = TStop) then mret (TStop, None) else
  id ← get_int 2 16; mret (t, Some id).

Definition get_message : reader (string * TMessageType * Z) :=
  version ← take_bytes 2;
  if negb (unbe version =? 32769)%Z then throw (Failed bad_data) else
  _ ← take_bytes 1;
  kind ← take_bytes 1;
  match mtype_of (unbe kind) with
  | None => throw (Failed bad_data)
  | Some t => name ← get_text; seqid ← get_int 4 32; mret (name, t, seqid)
  end.

Definition get_list : reader (TType * Z) := t ← get_type; n ← get_int 4 32; mret (t, n).
Definition get_map_types : reader (TType * TType * Z) :=
  k ← get_type; v ← get_type; n ← get_int 4 32; mret (k, v, n).
Definition get_map : reader Z := '(_, _, n) ← get_map_types; mret n.

(** Skipping a value, at most [depth] levels deep. *)
Fixpoint skip_at (depth : nat) (t : TType) (fuel : nat) : reader unit :=
  match depth with
  | O => throw (Failed "depth limit")
  | S depth =>
      match t with
      | TBool | TI08 => take_bytes 1;; mret tt
      | TI16 => take_bytes 2;; mret tt
      | TI32 => take_bytes 4;; mret tt
      | TI64 | TDouble => take_bytes 8;; mret tt
      | TString | TUtf8 | TUtf16 => get_text;; mret tt
      | TStruct => fields_loop get_field (mret tt) fuel (λ t _ _, skip_at depth t fuel) tt
      | TList | TSet => '(t, n) ← get_list; times (Z.to_nat n) (λ _, skip_at depth t fuel) tt
      | TMap =>
          '(k, v, n) ← get_map_types;
          times (Z.to_nat n) (λ _, skip_at depth k fuel;; skip_at depth v fuel) tt
      | TStop | TVoid => throw (Failed bad_data)
      end
  end.

Definition skip_value (t : TType) : reader unit := saturate (skip_at 64 t).

#[export] Instance binary_in : ThriftIn := {|
  read_message_begin := get_message;
  read_message_end := mret tt;
  read_application_error := skip_value TStruct;
  read_struct_begin := mret tt;
  read_struct_end := mret tt;
  read_field_begin := get_field;
  read_field_end := mret tt;
  read_i32 := get_int 4 32;
  read_string := get_text;
  read_list_begin := get_list;
  read_list_end := mret tt;
  read_map_begin := get_map;
  read_map_end := mret tt;
  skip := skip_value;
  eof_text := eof;
  utf8 := utf8_ok |}.

(** ** Writing *)

Definition put_type (t : TType) : bytes := be 1 (ttype_code t).
Definition put_text (s : string) : bytes := be 4 (Z.of_nat (String.length s)) ++ bytes_of s.

#[export] Instance binary_out : ThriftOut := {|
  put_message_begin name t seqid :=
    be 2 32769 ++ be 1 0 ++ be 1 (mtype_code t) ++ put_text name ++ be 4 seqid;
  put_field_begin t id := put_type t ++ be 2 id;
  put_field_stop := put_type TStop;
  put_i32 z := be 4 z;
  put_i64 z := be 8 z;
  put_string := put_text;
  put_list_begin t n := put_type t ++ be 4 n;
  put_map_begin k v n := put_type k ++ put_type v ++ be 4 n;
  channel_write cap w b := if length w + length b <=? cap then Ok (w ++ b) else Err "failed to write whole buffer" |}.
End binary.

(** ** The laws *)

Section laws.
Context (utf8_ok : string → bool).
#[local] Abbreviation get_text := (get_text utf8_ok).
#[local] Abbreviation get_message := (get_message utf8_ok).
#[local] Abbreviation skip_at := (skip_at utf8_ok).

Lemma streaming_take n : Streaming eof (take_bytes n).
Proof.
  intros b. unfold take_bytes. destruct (Nat.ltb_spec (length b) n) as [Hn | Hn]; [by left |].
  split; [exists (take n b); by rewrite take_drop |]. intros more.
  destruct (Nat.ltb_spec (length (b ++ more)) n) as [Hm | Hm]; [rewrite length_app in Hm; lia |].
  by rewrite take_app_le, drop_app_le by lia.
Qed.
Lemma fueled_take k n : Fueled k (take_bytes n).
Proof. intros b _. unfold take_bytes. by case_match. Qed.
#[local] Hint Resolve streaming_take fueled_take : thrift.

Lemma consuming_take n : Consuming (take_bytes (S n)).
Proof.
  intros b a rest. unfold take_bytes. destruct (Nat.ltb_spec (length b) (S n)); [done |].
  intros [= <- <-]. rewrite length_drop. lia.
Qed.
Lemma consuming_bind {A B} (m : reader A) (f : A → reader B) :
  Consuming m → (∀ a, Streaming eof (f a)) → Consuming (m ≫= f).
Proof.
  intros Hm Hf b a rest. unfold mbind, SE_bind. destruct (m b) as [[c | e] r] eqn:Hmb; [| done].
  intros Hfa. pose proof (streaming_length eof _ _ _ _ (Hf c) Hfa). specialize (Hm _ _ _ Hmb). lia.
Qed.

(** [fueled_bind] at this protocol's end of input. *)
Lemma fueled_then {A B} n (m : reader A) (f : A → reader B) :
  Streaming eof m → Fueled n m → (∀ a, Fueled n (f a)) → Fueled n (m ≫= f).
Proof. apply fueled_bind. Qed.
#[local] Hint Resolve fueled_then : thrift.

Lemma streaming_int n w : Streaming eof (get_int n w).
Proof. unfold get_int. thrift_tac. Qed.
Lemma fueled_int k n w : Fueled k (get_int n w).
Proof. unfold get_int. thrift_tac. Qed.
#[local] Hint Resolve streaming_int fueled_int : thrift.
Lemma streaming_type : Streaming eof get_type.
Proof. unfold get_type. apply streaming_bind; [thrift_tac |]. intros b. case_match; thrift_tac. Qed.
Lemma fueled_type k : Fueled k get_type.
Proof. unfold get_type. apply fueled_then; [thrift_tac.. |]. intros b. case_match; thrift_tac. Qed.
#[local] Hint Resolve streaming_type fueled_type : thrift.
Lemma streaming_text : Streaming eof get_text.
Proof.
  unfold ThriftBinary.get_text. apply streaming_bind; [thrift_tac |]. intros len. case_match; [thrift_tac |].
  apply streaming_bind; [thrift_tac |]. intros b. case_match; thrift_tac.
Qed.
Lemma fueled_text k : Fueled k get_text.
Proof.
  unfold ThriftBinary.get_text. apply fueled_then; [thrift_tac.. |]. intros len. case_match; [thrift_tac |].
  apply fueled_then; [thrift_tac.. |]. intros b. case_match; thrift_tac.
Qed.
#[local] Hint Resolve streaming_text fueled_text : thrift.
Lemma streaming_field : Streaming eof get_field.
Proof. unfold get_field. apply streaming_bind; [thrift_tac |]. intros t. case_decide; thrift_tac. Qed.
Lemma fueled_field k : Fueled k get_field.
Proof. unfold get_field. apply fueled_then; [thrift_tac.. |]. intros t. case_decide; thrift_tac. Qed.
Lemma consuming_field : Consuming get_field.
Proof.
  unfold get_field, get_type. apply consuming_bind.
  - apply consuming_bind; [apply consuming_take |]. intros b. case_match; thrift_tac.
  - intros t. case_decide; thrift_tac.
Qed.
#[local] Hint Resolve streaming_field fueled_field consuming_field : thrift.
Lemma streaming_message : Streaming eof get_message.
Proof.
  unfold ThriftBinary.get_message. apply streaming_bind; [thrift_tac |]. intros v. case_match; [thrift_tac |].
  apply streaming_bind; [thrift_tac |]. intros _. apply streaming_bind; [thrift_tac |]. intros kind.
  case_match; thrift_tac.
Qed.
Lemma fueled_message k : Fueled k get_message.
Proof.
  unfold ThriftBinary.get_message. apply fueled_then; [thrift_tac.. |]. intros v. case_match; [thrift_tac |].
  apply fueled_then; [thrift_tac.. |]. intros _. apply fueled_then; [thrift_tac.. |]. intros kind.
  case_match; thrift_tac.
Qed.
Lemma streaming_list : Streaming eof get_list.
Proof. unfold get_list. thrift_tac. Qed.
Lemma fueled_list k : Fueled k get_list.
Proof. unfold get_list. thrift_tac. Qed.
Lemma streaming_map_types : Streaming eof get_map_types.
Proof. unfold get_map_types. thrift_tac. Qed.
Lemma fueled_map_types k : Fueled k get_map_types.
Proof. unfold get_map_types. thrift_tac. Qed.
#[local] Hint Resolve streaming_list fueled_list streaming_map_types fueled_map_types : thrift.
Lemma streaming_map : Streaming eof get_map.
Proof. unfold get_map. apply streaming_bind; [thrift_tac |]. intros [[? ?] n]. thrift_tac. Qed.
Lemma fueled_map k : Fueled k get_map.
Proof. unfold get_map. apply fueled_then; [thrift_tac.. |]. intros [[? ?] n]. thrift_tac. Qed.

Lemma streaming_skip_at d t n : Streaming eof (skip_at d t n).
Proof.
  revert t n. induction d as [| d IH]; intros t n; [apply streaming_throw |].
  destruct t; cbn [ThriftBinary.skip_at]; try thrift_tac.
  - apply streaming_loop; [thrift_tac.. |]. intros. apply IH.
  - apply streaming_bind; [thrift_tac |]. intros [[k v] m]. apply streaming_times. intros _.
    apply streaming_bind; [apply IH | intros _; apply IH].
  - apply streaming_bind; [thrift_tac |]. intros [t m]. apply streaming_times. intros _. apply IH.
  - apply streaming_bind; [thrift_tac |]. intros [t m]. apply streaming_times. intros _. apply IH.
Qed.

Lemma fueled_skip_at d t n : Fueled n (skip_at d t n).
Proof.
  revert t n. induction d as [| d IH]; intros t n; [apply fueled_throw |].
  destruct t; cbn [ThriftBinary.skip_at]; try thrift_tac.
  - apply (fueled_loop eof) with (k := n); try thrift_tac; intros; (apply streaming_skip_at || apply IH).
  - apply fueled_then; [thrift_tac.. |]. intros [[k v] m].
    apply (fueled_times eof); intros _; [apply streaming_bind | apply fueled_then];
      intros; (apply streaming_skip_at || apply IH).
  - apply fueled_then; [thrift_tac.. |]. intros [t m].
    apply (fueled_times eof); intros _; [apply streaming_skip_at | apply IH].
  - apply fueled_then; [thrift_tac.. |]. intros [t m].
    apply (fueled_times eof); intros _; [apply streaming_skip_at | apply IH].
Qed.

Lemma extends_skip_at d t n k : n ≤ k → Extends (skip_at d t n) (skip_at d t k).
Proof.
  intros Hk. revert t. induction d as [| d IH]; intros t; [apply extends_refl |].
  destruct t; cbn [ThriftBinary.skip_at]; try apply extends_refl.
  - apply extends_loop; [done |]. intros. apply IH.
  - apply extends_bind; [apply extends_refl |]. intros [[t v] m]. apply extends_times. intros _.
    apply extends_bind; [apply IH | intros _; apply IH].
  - apply extends_bind; [apply extends_refl |]. intros [t m]. apply extends_times. intros _. apply IH.
  - apply extends_bind; [apply extends_refl |]. intros [t m]. apply extends_times. intros _. apply IH.
Qed.

#[export] Instance binary_laws : @ThriftInLaws (binary_in utf8_ok).
Proof.
  split; cbn [read_message_begin read_message_end read_application_error read_struct_begin read_struct_end
    read_field_begin read_field_end read_i32 read_string read_list_begin read_list_end read_map_begin
    read_map_end skip eof_text binary_in]; intros;
    first [ apply streaming_message | apply streaming_field | apply streaming_int | apply streaming_text
          | apply streaming_list | apply streaming_map | apply consuming_field
          | apply fueled_message | apply fueled_field | apply fueled_int | apply fueled_text
          | apply fueled_list | apply fueled_map
          | apply streaming_saturate; intros; [apply streaming_skip_at | apply fueled_skip_at | by apply extends_skip_at]
          | apply fueled_saturate; intros; apply fueled_skip_at
          | apply streaming_ret | apply fueled_ret ].
Qed.

(** ** Reading back *)

#[local] Tactic Notation "read_by" uconstr(H) := rewrite (bind_ok _ _ _ _ _ H); cbv beta iota.

Lemma take_app_bytes b rest : take_bytes (length b) (b ++ rest) = (Ok b, rest).
Proof.
  unfold take_bytes. destruct (Nat.ltb_spec (length (b ++ rest)) (length b)); [rewrite length_app in *; lia |].
  by rewrite take_app_length, drop_app_length.
Qed.
Lemma take_be n z rest : take_bytes n (be n z ++ rest) = (Ok (be n z), rest).
Proof. rewrite <-(be_length n z) at 1. apply take_app_bytes. Qed.

Lemma get_int_be n w z rest :
  (0 < w)%Z → (256 ^ Z.of_nat n = 2 ^ w)%Z → fits_i w z → get_int n w (be n z ++ rest) = (Ok z, rest).
Proof. intros. unfold get_int. read_by (take_be n z rest). by rewrite unbe_be_signed. Qed.

Lemma get_type_put t rest : get_type (put_type t ++ rest) = (Ok t, rest).
Proof.
  unfold get_type, put_type. read_by (take_be 1 _ rest).
  rewrite unbe_be. change (256 ^ Z.of_nat 1)%Z with 256%Z. by rewrite ttype_code_byte, ttype_of_code.
Qed.

Lemma string_of_bytes_of s : string_of (bytes_of s) = s.
Proof. apply String.string_of_list_ascii_of_string. Qed.
Lemma bytes_of_length s : length (bytes_of s) = String.length s.
Proof. unfold bytes_of. induction s as [| c s IH]; [done |]. simpl. by rewrite IH. Qed.

Lemma get_text_put s rest : @wire_text (binary_in utf8_ok) s → get_text (put_text s ++ rest) = (Ok s, rest).
Proof.
  intros [Hu Hlen]. simpl in Hu. unfold ThriftBinary.get_text, put_text. rewrite <-app_assoc.
  assert (fits_i 32 (Z.of_nat (String.length s))) as Hfits by (unfold fits_i; simpl in *; lia).
  read_by (get_int_be 4 32 _ _ ltac:(lia) eq_refl Hfits).
  destruct (Z.ltb_spec (Z.of_nat (String.length s)) 0); [lia |]. rewrite Nat2Z.id, <-bytes_of_length.
  read_by (take_app_bytes (bytes_of s) rest). by rewrite string_of_bytes_of, Hu.
Qed.

#[export] Instance binary_round_trip : @ThriftRoundTrip (binary_in utf8_ok) binary_out.
Proof.
  split; cbn [read_message_begin read_message_end read_struct_begin read_struct_end read_field_begin read_field_end
    read_i32 read_string read_list_begin read_list_end read_map_begin read_map_end skip binary_in
    put_message_begin put_field_begin put_field_stop put_i32 put_i64 put_string put_list_begin put_map_begin
    channel_write binary_out]; try done.
  - intros n t z rest Hn Hz. unfold ThriftBinary.get_message. rewrite <-!app_assoc.
    read_by (take_be 2 32769 _). change (unbe (be 2 32769) =? 32769)%Z with true. cbv beta iota delta [negb].
    read_by (take_be 1 0 _). read_by (take_be 1 (mtype_code t) _).
    replace (mtype_of (unbe (be 1 (mtype_code t)))) with (Some t) by by destruct t.
    read_by (get_text_put n _ Hn). by read_by (get_int_be 4 32 z rest ltac:(lia) eq_refl Hz).
  - intros t i rest Ht Hi. unfold get_field. rewrite <-app_assoc. read_by (get_type_put t _).
    rewrite decide_False by done. by read_by (get_int_be 2 16 i rest ltac:(lia) eq_refl Hi).
  - intros z rest Hz. by apply get_int_be.
  - intros s rest Hs. by apply get_text_put.
  - intros t n rest Hn. unfold get_list. rewrite <-app_assoc. read_by (get_type_put t _).
    by read_by (get_int_be 4 32 n rest ltac:(lia) eq_refl Hn).
  - intros k v n rest Hn. unfold get_map, get_map_types. rewrite <-!app_assoc.
    erewrite (bind_ok (S := bytes) (E := perr) _ _ _ (k, v, n) rest); [done |]. read_by (get_type_put k _). read_by (get_type_put v _).
    by read_by (get_int_be 4 32 n rest ltac:(lia) eq_refl Hn).
  - intros cap w b Hb. by rewrite (proj2 (Nat.leb_le _ _)).
  - intros cap w b Hb. by rewrite (proj2 (Nat.leb_gt _ _)).
Qed.
End laws.
