(* ===== verification/OsqueryClient.v ===== *)
(** * The client of osquery's extension socket
      (agent/crates/osquery-client/src/client.rs, lib.rs)

    One query: the request written to an in-memory channel of fixed size, the
    socket, and the reading loop that parses what has arrived after every read.
    The readers of [parse_query_response] are computations on the bytes of the
    buffer over the class [ThriftIn]; its three nested field loops are instances
    of [Thrift.fields]. *)
From Stdlib Require Import ZArith Lia Ascii.
From S2P Require Import Prelude Thrift ThriftBinary Osquery.
#[local] Open Scope string_scope.
#[local] Open Scope list_scope.
#[local] Open Scope nat_scope.

(** ** Parsing a response *)

Section parse.
Context `{ThriftIn}.

(** The status before anything is read: code -1 and no message. *)
Definition no_response : QueryResponse := Response (-1) "" [].

Definition set_code (z : Z) (r : QueryResponse) : QueryResponse := Response z (status_message r) (resp_rows r).
Definition set_message (s : string) (r : QueryResponse) : QueryResponse := Response (status_code r) s (resp_rows r).
Definition add_row (row : OsqueryRow) (r : QueryResponse) : QueryResponse :=
  Response (status_code r) (status_message r) (resp_rows r ++ [row]).

(** A field of [ExtensionStatus]. *)
Definition status_field (field_type : TType) (id : option Z) (r : QueryResponse) : reader QueryResponse :=
  if decide (id = Some 1%Z) then code ← read_i32; mret (set_code code r)
  else if decide (id = Some 2%Z) then message ← read_string; mret (set_message message r)
  else skip field_type;; mret r.

Definition read_entry (row : OsqueryRow) : reader OsqueryRow :=
  k ← read_string; v ← read_string; mret (<[k := v]> row).

Definition read_row (r : QueryResponse) : reader QueryResponse :=
  size ← read_map_begin;
  row ← times (Z.to_nat size) read_entry ∅;
  read_map_end;;
  mret (add_row row r).

(** A field of [ExtensionResponse]. *)
Definition response_field (fuel : nat) (field_type : TType) (id : option Z) (r : QueryResponse)
    : reader QueryResponse :=
  if decide (id = Some 1%Z) then
    read_struct_begin;;
    r ← fields fuel status_field r;
    read_struct_end;;
    mret r
  else if decide (id = Some 2%Z) then
    '(_, size) ← read_list_begin;
    r ← times (Z.to_nat size) read_row r;
    read_list_end;;
    mret r
  else skip field_type;; mret r.

(** A field of the reply's result struct. *)
Definition result_field (fuel : nat) (field_type : TType) (id : option Z) (r : QueryResponse)
    : reader QueryResponse :=
  if decide (id = Some 0%Z ∧ field_type = TStruct) then
    read_struct_begin;;
    r ← fields fuel (response_field fuel) r;
    read_struct_end;;
    mret r
  else skip field_type;; mret r.

Definition read_query_response (fuel : nat) : reader QueryResponse :=
  '(_, message_type, _) ← read_message_begin;
  if decide (message_type = Exception) then
    read_application_error;;
    throw (Failed "Thrift exception returned")
  else
    read_struct_begin;;
    r ← fields fuel (result_field fuel) no_response;
    read_struct_end;;
    read_message_end;;
    mret r.

(** [parse_query_response] on a buffer; the fuel covers every field loop. *)
Definition parse_query_response (buf : bytes) : result QueryResponse perr :=
  (saturate read_query_response buf).1.

(** ** One query *)

(** The errors after which the client reads on. *)
Definition is_eof (err_str : string) : bool :=
  str_contains "UnexpectedEof" err_str || str_contains "end of file" err_str
  || str_contains "EOF" err_str || str_contains "unexpected end of file" err_str.

(** What [stream.read] gives: some bytes (none: the remote closed), or an error. *)
Inductive received := Data (chunk : bytes) | ReadFault (e : string).

(** The reading loop on what arrives; [None] while it waits for more. *)
Fixpoint read_loop (buf : bytes) (reads : list received) : option (result QueryResponse string) :=
  match reads with
  | [] => None
  | ReadFault e :: _ => Some (Err e)
  | Data [] :: _ => Some (Err "Connection closed by remote before complete response received")
  | Data chunk :: reads =>
      let buf := buf ++ chunk in
      match parse_query_response buf with
      | Ok resp => Some (Ok resp)
      | Err OutOfFuel => None
      | Err (Failed err_str) => if is_eof err_str then read_loop buf reads else Some (Err err_str)
      end
  end.
End parse.

Section client.
Context `{ThriftIn} `{ThriftOut}.

(** Writing to the channel of [TBufferChannel::with_capacity(0, 1024)]. *)
Definition REQUEST_CAPACITY : nat := 1024.
Definition put (b : bytes) : SE bytes string unit := λ written,
  match channel_write REQUEST_CAPACITY written b with
  | Ok written' => (Ok tt, written')
  | Err e => (Err e, written)
  end.

(** The serialized call [query(sql)]; struct and field ends write nothing. *)
Definition write_request (sql : string) : SE bytes string unit :=
  put (put_message_begin "query" Call 1);;
  put (put_field_begin TString 1);;
  put (put_string sql);;
  put put_field_stop.

(** The outcomes of the socket's operations. *)
Record socket := Socket {
  connect_fault : option string; write_fault : option string; flush_fault : option string;
  reads : list received }.

(** [OsqueryClient::query]: what it sent, and its result, [None] while it waits. *)
Definition query (sql : string) (s : socket) : option bytes * option (result QueryResponse string) :=
  match write_request sql [] with
  | (Err e, _) => (None, Some (Err e))
  | (Ok _, request_bytes) =>
      match connect_fault s, write_fault s, flush_fault s with
      | Some e, _, _ | None, Some e, _ => (None, Some (Err e))
      | None, None, Some e => (Some request_bytes, Some (Err e))
      | None, None, None => (Some request_bytes, read_loop [] (reads s))
      end
  end.

(** [OsqueryClient::connect] opens nothing; [live_query], [get_query_columns]. *)
Definition connect (socket_path : string) : result string string := Ok socket_path.
Definition live_query (sql : string) (s : socket) : option bytes * option (result QueryResponse string) :=
  query sql s.
Definition get_query_columns (sql : string) : result QueryResponse string := Ok (Response 0 "OK" []).

(** ** The collector (lib.rs) *)

(** [OsqueryCollector::live_query] *)
Definition collector_live_query (socket_path sql : string) (s : socket)
    : option bytes * option (result QueryResponse string) :=
  match connect socket_path with
  | Err e => (None, Some (Err e))
  | Ok _ => live_query sql s
  end.

(** The faults of opening the table. *)
Record open_faults := OpenFaults {
  of_open : option string; of_count : option string; of_seed : nat → option string }.

(** [OsqueryCollector::update_schedule] on the table the file holds. *)
Definition update_schedule (f : open_faults) (begin_fault commit_fault : option string)
    (faults : nat → option string) (now : Z) (queries : list ScheduledQuery) (file : option sched_table)
    : result unit string * sched_table :=
  match Osquery.new (of_open f) (of_count f) (of_seed f) now file with
  | (Err e, t) => (Err e, t)
  | (Ok _, t) => upsert_queries begin_fault commit_fault faults now queries t
  end.

(** [OsqueryCollector::start]: the queries that get a task. *)
Definition start (f : open_faults) (load_fault : option string) (now : Z) (file : option sched_table)
    : list ScheduledQuery :=
  match Osquery.new (of_open f) (of_count f) (of_seed f) now file with
  | (Err _, _) => []
  | (Ok _, t) => Osquery.run load_fault t
  end.

(** What a query's tick finds of its exchange with osquery. *)
Definition tick_of (r : result QueryResponse string) (now_ns : option Z) (closed1 closed2 : bool) : tick :=
  match r with
  | Err e => QueryError e
  | Ok resp => Answer resp now_ns closed1 closed2
  end.
End client.

(** ** Specification: what osquery answers *)

Section responses.
Context `{ThriftOut}.

Definition put_row (row : list (string * string)) : bytes :=
  put_map_begin TString TString (Z.of_nat (length row)) ++
  mjoin ((λ '(k, v), put_string k ++ put_string v) <$> row).

(** The reply to a query: an [ExtensionResponse] with its [ExtensionStatus],
    which carries the extension's uuid as well, and the rows. *)
Definition put_response (seqid code : Z) (message : string) (uuid : Z) (rows : list (list (string * string)))
    : bytes :=
  put_message_begin "query" Reply seqid ++
  put_field_begin TStruct 0 ++
    put_field_begin TStruct 1 ++
      put_field_begin TI32 1 ++ put_i32 code ++
      put_field_begin TString 2 ++ put_string message ++
      put_field_begin TI64 3 ++ put_i64 uuid ++
      put_field_stop ++
    put_field_begin TList 2 ++
      put_list_begin TMap (Z.of_nat (length rows)) ++ mjoin (put_row <$> rows) ++
    put_field_stop ++
  put_field_stop.

(** The response such a reply is parsed to: the last of equal column names counts. *)
Definition response_of (code : Z) (message : string) (rows : list (list (string * string))) : QueryResponse :=
  Response code message (foldl (λ m '(k, v), <[k := v]> m) (∅ : OsqueryRow) <$> rows).
End responses.

(** Rows whose texts and sizes fit the protocol. *)
Definition wire_row `{ThriftIn} (row : list (string * string)) : Prop :=
  fits_i 32 (Z.of_nat (length row)) ∧ Forall (λ kv, wire_text kv.1 ∧ wire_text kv.2) row.

(** ** Lemmas *)

Section parse_lemmas.
Context `{ThriftInLaws}.

Lemma streaming_entry row : Streaming eof_text (read_entry row).
Proof. unfold read_entry. thrift_tac. Qed.
Lemma streaming_row r : Streaming eof_text (read_row r).
Proof.
  unfold read_row. apply streaming_bind; [thrift_tac |]. intros size.
  apply streaming_bind; [apply streaming_times, streaming_entry | thrift_tac].
Qed.
Lemma streaming_status t i r : Streaming eof_text (status_field t i r).
Proof. unfold status_field. repeat case_decide; thrift_tac. Qed.
Lemma streaming_response n t i r : Streaming eof_text (response_field n t i r).
Proof.
  unfold response_field. repeat case_decide.
  - apply streaming_bind; [thrift_tac |]. intros _.
    apply streaming_bind; [apply streaming_fields, streaming_status | thrift_tac].
  - apply streaming_bind; [thrift_tac |]. intros [? size].
    apply streaming_bind; [apply streaming_times, streaming_row | thrift_tac].
  - thrift_tac.
Qed.
Lemma streaming_result n t i r : Streaming eof_text (result_field n t i r).
Proof.
  unfold result_field. case_decide; [| thrift_tac].
  apply streaming_bind; [thrift_tac |]. intros _.
  apply streaming_bind; [apply streaming_fields, streaming_response | thrift_tac].
Qed.
Lemma streaming_read n : Streaming eof_text (read_query_response n).
Proof.
  unfold read_query_response. apply streaming_bind; [thrift_tac |]. intros [[? t] ?].
  case_decide; [thrift_tac |].
  apply streaming_bind; [thrift_tac |]. intros _.
  apply streaming_bind; [apply streaming_fields, streaming_result | thrift_tac].
Qed.

#[local] Hint Resolve streaming_entry streaming_row streaming_status streaming_response streaming_result : thrift.

(** Fuel [n] is enough for fewer than [n] bytes. *)
Lemma fueled_response n t i r : Fueled n (response_field n t i r).
Proof.
  unfold response_field. repeat case_decide; [| |unfold status_field; thrift_tac].
  - apply fueled_seq; [thrift_tac.. |]. intros _.
    apply fueled_seq; [thrift_tac | | thrift_tac].
    apply (fueled_fields n n); [done | thrift_tac |]. intros. unfold status_field.
    repeat case_decide; thrift_tac.
  - apply fueled_seq; [thrift_tac.. |]. intros [? size].
    apply fueled_seq; [thrift_tac | | thrift_tac].
    apply fueled_repeat; [thrift_tac |]. intros a. unfold read_row.
    apply fueled_seq; [thrift_tac.. |]. intros k.
    apply fueled_seq; [thrift_tac | | thrift_tac].
    apply fueled_repeat; [thrift_tac |]. unfold read_entry. thrift_tac.
Qed.
Lemma fueled_result n t i r : Fueled n (result_field n t i r).
Proof.
  unfold result_field. case_decide; [| thrift_tac].
  apply fueled_seq; [thrift_tac.. |]. intros _. apply fueled_seq; [thrift_tac | | thrift_tac].
  apply (fueled_fields n n); [done | thrift_tac | apply fueled_response].
Qed.
Lemma fueled_read n : Fueled n (read_query_response n).
Proof.
  unfold read_query_response. apply fueled_seq; [thrift_tac.. |]. intros [[? t] ?].
  case_decide; [thrift_tac |].
  apply fueled_seq; [thrift_tac.. |]. intros _. apply fueled_seq; [thrift_tac | | thrift_tac].
  apply (fueled_fields n n); [done | thrift_tac | apply fueled_result].
Qed.

(** More fuel changes nothing. *)
Lemma extends_response n m t i r : n ≤ m → Extends (response_field n t i r) (response_field m t i r).
Proof.
  intros Hm. unfold response_field. repeat case_decide; [| thrift_tac..].
  apply extends_bind; [thrift_tac |]. intros _.
  apply extends_bind; [| thrift_tac]. apply extends_fields; [done | thrift_tac].
Qed.
Lemma extends_result n m t i r : n ≤ m → Extends (result_field n t i r) (result_field m t i r).
Proof.
  intros Hm. unfold result_field. case_decide; [| thrift_tac].
  apply extends_bind; [thrift_tac |]. intros _.
  apply extends_bind; [| thrift_tac]. apply extends_fields; [done |]. intros. by apply extends_response.
Qed.
Lemma extends_read n m : n ≤ m → Extends (read_query_response n) (read_query_response m).
Proof.
  intros Hm. unfold read_query_response. apply extends_bind; [thrift_tac |]. intros [[? t] ?].
  case_decide; [thrift_tac |].
  apply extends_bind; [thrift_tac |]. intros _.
  apply extends_bind; [| thrift_tac]. apply extends_fields; [done |]. intros. by apply extends_result.
Qed.
End parse_lemmas.

Section reading.
Context `{ThriftInLaws}.

Lemma streaming_parse : Streaming eof_text (saturate read_query_response).
Proof. apply streaming_saturate; [apply streaming_read | apply fueled_read | apply extends_read]. Qed.

Lemma parse_fueled buf : parse_query_response buf ≠ Err OutOfFuel.
Proof. apply (fueled_saturate read_query_response fueled_read (S (length buf))). lia. Qed.

(** What a prefix of the input says of the whole. *)
Lemma parse_prefix buf more :
  match parse_query_response buf with
  | Ok r => parse_query_response (buf ++ more) = Ok r
  | Err e => e = Failed eof_text ∨ parse_query_response (buf ++ more) = Err e
  end.
Proof.
  pose proof (parse_fueled buf) as Hf. unfold parse_query_response in *. pose proof (streaming_parse buf) as Hs.
  destruct (saturate read_query_response buf) as [[r | [e |]] rest]; simpl in *; [| | done].
  - destruct Hs as [_ Hs]. by rewrite Hs.
  - destruct Hs as [-> | Hs]; [by left | right]. apply Hs.
Qed.

Lemma read_loop_step buf chunk reads :
  chunk ≠ [] → read_loop buf (Data chunk :: reads) =
  match parse_query_response (buf ++ chunk) with
  | Ok resp => Some (Ok resp)
  | Err OutOfFuel => None
  | Err (Failed t) => if is_eof t then read_loop (buf ++ chunk) reads else Some (Err t)
  end.
Proof. by destruct chunk. Qed.

(** Two reads are as good as one of their concatenation. *)
Lemma read_loop_merge buf c1 c2 reads :
  is_eof eof_text = true → c1 ≠ [] → c2 ≠ [] →
  read_loop buf (Data c1 :: Data c2 :: reads) = read_loop buf (Data (c1 ++ c2) :: reads).
Proof.
  intros He H1 H2. rewrite !read_loop_step by (done || by destruct c1).
  rewrite app_assoc. pose proof (parse_prefix (buf ++ c1) c2) as Hp.
  destruct (parse_query_response (buf ++ c1)) as [r | [e |]] eqn:Hb; [by rewrite Hp | | by apply parse_fueled in Hb].
  destruct (is_eof e) eqn:Hee; [done |]. destruct Hp as [[= ->] | Hp]; [congruence |].
  by rewrite Hp, Hee.
Qed.

Lemma read_loop_concat buf chunks reads :
  is_eof eof_text = true → chunks ≠ [] → Forall (λ c, c ≠ []) chunks →
  read_loop buf ((Data <$> chunks) ++ reads) = read_loop buf (Data (mjoin chunks) :: reads).
Proof.
  intros He Hne Hall. destruct chunks as [| c chunks]; [done |]. clear Hne.
  revert c Hall. induction chunks as [| c2 chunks IH]; intros c Hall.
  { change (mjoin [c]) with (c ++ []). by rewrite app_nil_r. }
  inversion_clear Hall as [| ? ? Hc Hall']. inversion_clear Hall' as [| ? ? Hc2 Hall].
  change (mjoin (c :: c2 :: chunks)) with (c ++ c2 ++ mjoin chunks). rewrite app_assoc.
  rewrite !fmap_cons. cbn [app]. rewrite read_loop_merge by done.
  apply (IH (c ++ c2)). constructor; [by destruct c | done].
Qed.
End reading.

(** Run the first reader of a sequence. *)
#[local] Tactic Notation "read_by" uconstr(H) := rewrite (bind_ok _ _ _ _ _ H); cbv beta iota.

Section round_trip.
Context `{HI : ThriftIn} `{!ThriftInLaws} `{HO : ThriftOut} `{!ThriftRoundTrip}.

Lemma fields_stop {A} n (body : TType → option Z → A → reader A) acc rest :
  fields (S n) body acc (put_field_stop ++ rest) = (Ok acc, rest).
Proof. unfold fields; cbn [fields_loop]; fold (@fields HI). by read_by (get_field_stop rest). Qed.

Lemma fields_step {A} n (body : TType → option Z → A → reader A) acc t i b acc' rest :
  t ≠ TStop → fits_i 16 i → body t (Some i) acc b = (Ok acc', rest) →
  fields (S n) body acc (put_field_begin t i ++ b) = fields n body acc' rest.
Proof.
  intros Ht Hi Hb. unfold fields; cbn [fields_loop]; fold (@fields HI). read_by (get_field_begin t i b Ht Hi).
  rewrite decide_False by done. read_by Hb.
  by read_by (get_field_end rest).
Qed.

Lemma times_read {A B} (body : A → reader A) (write : B → bytes) step l acc rest :
  (∀ a x r, x ∈ l → body a (write x ++ r) = (Ok (step a x), r)) →
  times (length l) body acc (mjoin (write <$> l) ++ rest) = (Ok (foldl step acc l), rest).
Proof.
  revert acc. induction l as [| x l IH]; intros acc Hb; [done |]. cbn [length times].
  change (mjoin (write <$> x :: l)) with (write x ++ mjoin (write <$> l)). rewrite <-app_assoc.
  read_by (Hb acc x _ ltac:(by left)). apply IH. intros. apply Hb. by right.
Qed.
Lemma read_put_row row r rest :
  wire_row row →
  read_row r (put_row row ++ rest) = (Ok (add_row (foldl (λ m '(k, v), <[k := v]> m) (∅ : OsqueryRow) row) r), rest).
Proof.
  intros [Hlen Htexts]. unfold read_row, put_row. rewrite <-app_assoc.
  read_by (get_map_begin TString TString _ _ Hlen). rewrite Nat2Z.id. cbn beta.
  erewrite (bind_ok (S := bytes) (E := perr) _ _ _ (foldl (λ m '(k, v), <[k := v]> m) ∅ row) rest).
  - by read_by (get_map_end rest).
  - apply times_read. intros a [k v] rest' Hin. unfold read_entry. rewrite <-app_assoc.
    rewrite Forall_forall in Htexts. destruct (Htexts _ Hin) as [Hk Hv].
    read_by (get_string k _ Hk). by read_by (get_string v _ Hv).
Qed.

Lemma foldl_add_row rows r :
  foldl (λ r row, add_row (foldl (λ m '(k, v), <[k := v]> m) (∅ : OsqueryRow) row) r) r rows =
  Response (status_code r) (status_message r)
    (resp_rows r ++ ((λ row, foldl (λ m '(k, v), <[k := v]> m) (∅ : OsqueryRow) row) <$> rows)).
Proof.
  revert r. induction rows as [| row rows IH]; intros [c m l]; simpl; [by rewrite app_nil_r |].
  rewrite IH. simpl. by rewrite <-app_assoc.
Qed.

Lemma read_put_status n code message uuid r rest :
  fits_i 32 code → wire_text message →
  fields (S (S (S (S n)))) status_field r
    (put_field_begin TI32 1 ++ put_i32 code ++ put_field_begin TString 2 ++ put_string message ++
     put_field_begin TI64 3 ++ put_i64 uuid ++ put_field_stop ++ rest)
  = (Ok (Response code message (resp_rows r)), rest).
Proof.
  intros Hc Hm.
  erewrite fields_step; [| done | by unfold fits_i; simpl; lia |].
  2: { unfold status_field. rewrite decide_True by done. by read_by (get_i32 code _ Hc). }
  erewrite fields_step; [| done | by unfold fits_i; simpl; lia |].
  2: { unfold status_field. rewrite decide_False, decide_True by done.
       by read_by (get_string message _ Hm). }
  erewrite fields_step; [| done | by unfold fits_i; simpl; lia |].
  2: { unfold status_field. rewrite !decide_False by done. by read_by (skip_i64 uuid _). }
  apply fields_stop.
Qed.

(** A reply is read back with fuel for its four levels. *)
Lemma read_put_response n seqid code message uuid rows rest :
  fits_i 32 seqid → fits_i 32 code → wire_text "query" → wire_text message →
  fits_i 32 (Z.of_nat (length rows)) → Forall wire_row rows →
  read_query_response (S (S (S (S n)))) (put_response seqid code message uuid rows ++ rest)
  = (Ok (response_of code message rows), rest).
Proof.
  intros Hs Hc Hq Hm Hlen Hrows. unfold read_query_response, put_response. rewrite <-!app_assoc.
  read_by (get_message_begin "query" Reply seqid _ Hq Hs).
  rewrite decide_False by done. read_by (get_struct_begin _).
  erewrite (bind_ok (S := bytes) (E := perr) _ _ _ (response_of code message rows) rest).
  { read_by (get_struct_end rest). by read_by (get_message_end rest). }
  erewrite fields_step; [apply fields_stop | done | by unfold fits_i; simpl; lia |].
  unfold result_field at 1. rewrite decide_True by done. read_by (get_struct_begin _).
  erewrite (bind_ok (S := bytes) (E := perr)); [by read_by (get_struct_end _) |].
  erewrite fields_step; [| done | by unfold fits_i; simpl; lia |].
  2: { unfold response_field. rewrite decide_True by done. read_by (get_struct_begin _).
       read_by (read_put_status n code message uuid no_response _ Hc Hm).
       by read_by (get_struct_end _). }
  erewrite fields_step; [apply fields_stop | done | by unfold fits_i; simpl; lia |].
  unfold response_field. rewrite decide_False, decide_True by done.
  read_by (get_list_begin TMap _ _ Hlen). rewrite Nat2Z.id.
  erewrite (bind_ok (S := bytes) (E := perr)); [by read_by (get_list_end _) |].
  rewrite (times_read read_row put_row (λ r row, add_row (foldl (λ m '(k, v), <[k := v]> m) ∅ row) r)).
  - by rewrite foldl_add_row.
  - intros a row rest' Hin. apply read_put_row. rewrite Forall_forall in Hrows. by apply Hrows.
Qed.

Lemma parse_put_response seqid code message uuid rows rest :
  fits_i 32 seqid → fits_i 32 code → wire_text "query" → wire_text message →
  fits_i 32 (Z.of_nat (length rows)) → Forall wire_row rows →
  saturate read_query_response (put_response seqid code message uuid rows ++ rest)
  = (Ok (response_of code message rows), rest).
Proof.
  intros. set (b := put_response seqid code message uuid rows ++ rest).
  rewrite <-(saturate_with read_query_response fueled_read extends_read (S (S (S (S (length b)))))) by lia.
  unfold b. by rewrite read_put_response.
Qed.
End round_trip.

(** A reply cut short is no response: the client reads on. *)
Lemma truncated_is_eof `{HI : ThriftIn} `{!ThriftInLaws} buf missing r :
  is_eof eof_text = true → missing ≠ [] →
  saturate read_query_response (buf ++ missing) = (Ok r, []) →
  ∃ e, parse_query_response buf = Err (Failed e) ∧ is_eof e = true.
Proof.
  intros He Hne Hr. pose proof (parse_prefix buf missing) as Hp.
  pose proof (streaming_parse buf) as Hs. unfold parse_query_response in *.
  destruct (saturate read_query_response buf) as [[r' | e] rest]; simpl in *.
  - destruct Hs as [_ Hs]. rewrite Hs in Hr. injection Hr as -> Hrest. by apply app_nil in Hrest as [_ ->].
  - rewrite Hr in Hp. destruct Hp as [-> | Hp]; [by exists eof_text | done].
Qed.

Lemma request_written `{ThriftIn} `{ThriftOut} sql req s :
  write_request sql [] = (Ok tt, req) →
  query sql (Socket None None None s) = (Some req, read_loop [] s).
Proof. intros Hw. unfold query. by rewrite Hw. Qed.

(** The bytes of a reply, of texts and sizes the protocol can hold. *)
Record reply := Reply_ {
  rp_seqid : Z; rp_code : Z; rp_message : string; rp_uuid : Z; rp_rows : list (list (string * string)) }.
Definition reply_ok `{ThriftIn} (r : reply) : Prop :=
  fits_i 32 (rp_seqid r) ∧ fits_i 32 (rp_code r) ∧ wire_text (rp_message r) ∧
  fits_i 32 (Z.of_nat (length (rp_rows r))) ∧ Forall wire_row (rp_rows r).
Definition reply_bytes `{ThriftOut} (r : reply) : bytes :=
  put_response (rp_seqid r) (rp_code r) (rp_message r) (rp_uuid r) (rp_rows r).
Definition reply_response (r : reply) : QueryResponse := response_of (rp_code r) (rp_message r) (rp_rows r).

(** [chunks] cut [b] into non-empty reads. *)
Definition cuts (chunks : list bytes) (b : bytes) : Prop :=
  chunks ≠ [] ∧ Forall (λ c, c ≠ []) chunks ∧ mjoin chunks = b.

Section exchange.
Context `{HI : ThriftIn} `{!ThriftInLaws} `{HO : ThriftOut} `{!ThriftRoundTrip}.

Lemma mjoin_nonempty (chunks : list bytes) : chunks ≠ [] → Forall (λ c, c ≠ []) chunks → mjoin chunks ≠ [].
Proof. destruct chunks as [| c l]; [done |]. intros _ Hall. inversion_clear Hall. by destruct c. Qed.

Lemma parse_reply r : wire_text "query" → reply_ok r →
  saturate read_query_response (reply_bytes r) = (Ok (reply_response r), []).
Proof.
  intros Hq (Hs & Hc & Hm & Hl & Hr).
  pose proof (parse_put_response (rp_seqid r) (rp_code r) (rp_message r) (rp_uuid r) (rp_rows r) []
    Hs Hc Hq Hm Hl Hr) as Hp. by rewrite app_nil_r in Hp.
Qed.

Lemma query_reads_reply sql req r chunks later :
  is_eof eof_text = true → wire_text "query" → write_request sql [] = (Ok tt, req) →
  reply_ok r → cuts chunks (reply_bytes r) →
  query sql (Socket None None None ((Data <$> chunks) ++ later)) = (Some req, Some (Ok (reply_response r))).
Proof.
  intros He Hq Hw Hok (Hne & Hall & Hc). rewrite (request_written _ _ _ Hw), read_loop_concat by done.
  rewrite read_loop_step by (by apply mjoin_nonempty). unfold parse_query_response. simpl.
  by rewrite Hc, parse_reply.
Qed.
End exchange.

(** ** Properties *)

(** C24 (roundtrip): a query returns the reply osquery wrote, however the socket
    cuts it into reads: the status and the rows are those of the reply, the uuid
    is skipped, and what would come after is not waited for; and when the remote closes
    before the whole reply has come, the query fails instead of returning a part
    of it. *)
Theorem query_any_chunking `{HI : ThriftIn} `{!ThriftInLaws} `{HO : ThriftOut} `{!ThriftRoundTrip} sql req r :
  is_eof eof_text = true → wire_text "query" → write_request sql [] = (Ok tt, req) → reply_ok r →
  (∀ chunks later, cuts chunks (reply_bytes r) →
     query sql (Socket None None None ((Data <$> chunks) ++ later))
     = (Some req, Some (Ok (response_of (rp_code r) (rp_message r) (rp_rows r))))) ∧
  (∀ chunks missing, missing ≠ [] → Forall (λ c, c ≠ []) chunks → mjoin chunks ++ missing = reply_bytes r →
     query sql (Socket None None None ((Data <$> chunks) ++ [Data []]))
     = (Some req, Some (Err "Connection closed by remote before complete response received"))).
Proof.
  intros He Hq Hw Hok. split; [intros; by apply query_reads_reply |].
  intros chunks missing Hmiss Hall Hc. rewrite (request_written _ _ _ Hw).
  destruct (decide (chunks = [])) as [-> | Hne]; [done |]. rewrite read_loop_concat by done.
  rewrite read_loop_step by (by apply mjoin_nonempty). simpl.
  destruct (truncated_is_eof (mjoin chunks) missing (reply_response r)) as (e & -> & ->);
    [done | done | by rewrite Hc, parse_reply | done].
Qed.

(** The examples' protocol: every byte string is text. *)
#[local] Instance example_in : ThriftIn := binary_in (λ _, true).
#[local] Instance example_out : ThriftOut := binary_out.
Definition example_rows : list (list (string * string)) := [[("pid", "1"); ("name", "init")]; [("pid", "7")]].

Definition example_reply (rows : list (list (string * string))) : reply := Reply_ 1 0 "OK" 42 rows.

Lemma example_reply_ok rows :
  forallb (λ row, (Z.of_nat (length row) <? 2 ^ 31)%Z &&
    forallb (λ kv, (Z.of_nat (String.length kv.1) <? 2 ^ 31)%Z && (Z.of_nat (String.length kv.2) <? 2 ^ 31)%Z) row) rows
  = true → (Z.of_nat (length rows) < 2 ^ 31)%Z → reply_ok (example_reply rows).
Proof.
  intros Hrows Hlen. unfold reply_ok, example_reply, fits_i. simpl. split_and!; try lia; try done.
  apply Forall_forall. intros row Hin. rewrite forallb_forall in Hrows.
  specialize (Hrows row (proj1 (list_elem_of_In _ _) Hin)). apply andb_true_iff in Hrows as [Hl Htexts].
  split; [unfold fits_i; simpl; lia |]. apply Forall_forall. intros kv Hkv. rewrite forallb_forall in Htexts.
  specialize (Htexts kv (proj1 (list_elem_of_In _ _) Hkv)). apply andb_true_iff in Htexts as [? ?].
  repeat split; simpl; lia.
Qed.

Lemma query_any_chunking_witness :
  let b := reply_bytes (example_reply example_rows) in
  (query "SELECT pid FROM processes;" (Socket None None None [Data (take 9 b); Data (drop 9 b)])).2
    = Some (Ok (response_of 0 "OK" example_rows)) ∧
  (query "SELECT pid FROM processes;" (Socket None None None [Data (take 9 b); Data []])).2
    = Some (Err "Connection closed by remote before complete response received").
Proof.
  destruct (query_any_chunking "SELECT pid FROM processes;"
    (write_request "SELECT pid FROM processes;" []).2 (example_reply example_rows)) as [Hall Hpart].
  - by vm_compute.
  - by vm_compute.
  - by vm_compute.
  - apply example_reply_ok; by vm_compute.
  - intros b. split.
    + refine (f_equal snd (Hall [take 9 b; drop 9 b] [] _)).
      split_and!; [done | by repeat constructor | by vm_compute].
    + refine (f_equal snd (Hpart [take 9 b] (drop 9 b) _ _ _));
        [done | by repeat constructor | by vm_compute].
Defined.

Lemma put_fits `{HI : ThriftIn} `{HO : ThriftOut} `{!ThriftRoundTrip} b w :
  length w + length b ≤ REQUEST_CAPACITY → put b w = (Ok tt, w ++ b).
Proof. intros Hb. unfold put. by rewrite write_fits. Qed.
Lemma put_full `{HI : ThriftIn} `{HO : ThriftOut} `{!ThriftRoundTrip} b w :
  REQUEST_CAPACITY < length w + length b → ∃ e, put b w = (Err e, w).
Proof.
  intros Hb. unfold put. pose proof (write_full REQUEST_CAPACITY w b Hb).
  destruct (channel_write _ _ _); [done | by eexists].
Qed.

(** Writing pieces one after the other: all of them when they fit together. *)
Fixpoint put_all `{ThriftOut} (l : list bytes) : SE bytes string unit :=
  match l with
  | [] => mret tt
  | b :: l => put b;; put_all l
  end.

Lemma put_all_spec `{HI : ThriftIn} `{HO : ThriftOut} `{!ThriftRoundTrip} l w :
  length w ≤ REQUEST_CAPACITY →
  if length w + length (mjoin l) <=? REQUEST_CAPACITY then put_all l w = (Ok tt, w ++ mjoin l)
  else ∃ e w', put_all l w = (Err e, w').
Proof.
  revert w. induction l as [| b l IH]; intros w Hw; cbn [put_all].
  { rewrite Nat.add_0_r, (proj2 (Nat.leb_le _ _)) by done. change (mjoin []) with (@nil ascii). by rewrite app_nil_r. }
  change (mjoin (b :: l)) with (b ++ mjoin l). rewrite length_app.
  destruct (decide (length w + length b ≤ REQUEST_CAPACITY)) as [Hb | Hb].
  - rewrite (bind_ok _ _ _ _ _ (put_fits b w Hb)). specialize (IH (w ++ b)).
    rewrite length_app, <-app_assoc, <-Nat.add_assoc in IH. by apply IH.
  - rewrite (proj2 (Nat.leb_gt _ _)) by lia. destruct (put_full b w) as [e He]; [lia |].
    exists e, w. by rewrite (bind_err _ _ _ _ _ He).
Qed.

Lemma write_request_all `{ThriftOut} sql w :
  write_request sql w =
  put_all [put_message_begin "query" Call 1; put_field_begin TString 1; put_string sql; put_field_stop] w.
Proof.
  unfold write_request, put_all, mbind, SE_bind.
  destruct (put _ w) as [[u1 | e] w1]; [| done]. destruct (put _ w1) as [[u2 | e] w2]; [| done].
  destruct (put _ w2) as [[u3 | e] w3]; [| done]. by destruct (put _ w3) as [[[] | e] w4].
Qed.

(** On the wire of the strict binary protocol a query of at most 999
    bytes is sent whole, in 25 bytes more than its text; a longer one overflows
    the request's 1024-byte channel and always fails before the socket is
    opened. *)
Theorem request_capacity (utf8_ok : string → bool) sql s :
  let q := @query (binary_in utf8_ok) binary_out sql s in
  (String.length sql ≤ 999 → ∃ req,
     write_request sql [] = (Ok tt, req) ∧ length req = 25 + String.length sql ∧
     (connect_fault s = None → write_fault s = None → q.1 = Some req)) ∧
  (999 < String.length sql → ∃ e, q = (None, Some (Err e))).
Proof.
  pose proof (@put_all_spec (binary_in utf8_ok) binary_out _
    [put_message_begin "query" Call 1; put_field_begin TString 1; put_string sql; put_field_stop] []) as Hput.
  rewrite <-write_request_all in Hput. unfold query.
  set (req := mjoin _) in Hput. assert (length req = 25 + String.length sql) as Hreq.
  { unfold req. cbn [mjoin list_join put_message_begin put_field_begin put_string put_field_stop binary_out].
    change (length ((be 2 32769 ++ be 1 0 ++ be 1 (mtype_code Call) ++ put_text "query" ++ be 4 1) ++
      (put_type TString ++ be 2 1) ++ put_text sql ++ put_type TStop ++ []) = 25 + String.length sql).
    unfold put_text, put_type. rewrite !length_app, !be_length, !bytes_of_length. simpl. lia. }
  rewrite Hreq in Hput. specialize (Hput (Nat.le_0_l _)). unfold REQUEST_CAPACITY in Hput. split; intros Hlen.
  - rewrite (proj2 (Nat.leb_le _ _)) in Hput by (simpl; lia). exists req. split_and!; [done | done |].
    rewrite Hput. intros -> ->. by destruct (flush_fault s).
  - rewrite (proj2 (Nat.leb_gt _ _)) in Hput by (simpl; lia). destruct Hput as (e & w & ->). by exists e.
Qed.

(** Parsing ends on every buffer whatever its bytes, and a
    query ends once the remote has closed the socket or a read has failed. *)
Theorem query_ends `{HI : ThriftIn} `{!ThriftInLaws} `{HO : ThriftOut} sql s :
  (∀ buf, parse_query_response buf ≠ Err OutOfFuel) ∧
  (Data [] ∈ reads s ∨ (∃ e, ReadFault e ∈ reads s) → is_Some (query sql s).2).
Proof.
  split; [apply parse_fueled |]. intros Hend. unfold query.
  destruct (write_request sql []) as [[u | e] req]; [| by eexists].
  destruct (connect_fault s), (write_fault s), (flush_fault s); try by eexists. simpl.
  generalize (@nil ascii) as buf. induction (reads s) as [| r l IH]; intros buf.
  { exfalso. destruct Hend as [Hin | [e Hin]]; by apply elem_of_nil in Hin. }
  destruct r as [[| c chunk] | e]; [by eexists | | by eexists].
  rewrite read_loop_step by done.
  destruct (parse_query_response (buf ++ c :: chunk)) as [resp | [t |]] eqn:Hp;
    [by eexists | | by apply parse_fueled in Hp].
  destruct (is_eof t); [| by eexists]. apply IH.
  destruct Hend as [Hin | [e Hin]]; apply elem_of_cons in Hin as [? | ?]; try done; [by left | right; by exists e].
Qed.

Lemma query_ends_witness :
  is_Some (query "SELECT 1" (Socket None None None [Data (take 5 (put_response 1 0 "" 0 [])); Data []])).2.
Proof.
  refine (proj2 (query_ends "SELECT 1"
    (Socket None None None [Data (take 5 (put_response 1 0 "" 0 [])); Data []])) _).
  left. right. left.
Defined.

(** What the tick of a query finds when osquery's reply arrives in [chunks]. *)
Definition reply_tick `{ThriftIn} `{ThriftOut} (sql : string) (x : reply * list bytes * option Z) : tick :=
  let '(r, chunks, now_ns) := x in
  match (query sql (Socket None None None (Data <$> chunks))).2 with
  | Some res => tick_of res now_ns false false
  | None => QueryError "waiting"
  end.

(** The rows of the last reply of status 0. *)
Definition last_rows (xs : list (reply * list bytes * option Z)) : option (list OsqueryRow) :=
  last ((λ x, resp_rows (reply_response x.1.1)) <$> filter (λ x, rp_code x.1.1 = 0%Z) xs).

Lemma last_answer_replies `{HI : ThriftIn} `{!ThriftInLaws} `{HO : ThriftOut} `{!ThriftRoundTrip} sql req xs acc :
  is_eof eof_text = true → wire_text "query" → write_request sql [] = (Ok tt, req) →
  Forall (λ x, reply_ok x.1.1 ∧ cuts x.1.2 (reply_bytes x.1.1)) xs →
  forallb channel_open (reply_tick sql <$> xs) = true ∧
  last_answer (reply_tick sql <$> xs) acc = match last_rows xs with Some l => Some l | None => acc end.
Proof.
  intros He Hq Hw. revert acc. induction xs as [| [[r chunks] now_ns] xs IH]; intros acc Hall; [done |].
  inversion_clear Hall as [| ? ? [Hr Hc] Hall']. simpl in Hr, Hc. rewrite fmap_cons. cbn [reply_tick].
  pose proof (query_reads_reply sql req r chunks [] He Hq Hw Hr Hc) as Hquery. rewrite app_nil_r in Hquery.
  rewrite Hquery. cbn [snd tick_of last_answer forallb channel_open]. simpl andb.
  destruct (IH (if (status_code (reply_response r) =? 0)%Z then Some (resp_rows (reply_response r)) else acc) Hall')
    as [-> ->]. split; [done |]. unfold last_rows. rewrite filter_cons. simpl.
  destruct (Z.eqb_spec (rp_code r) 0) as [Hz | Hz].
  - rewrite decide_True by done. rewrite fmap_cons, last_cons. by destruct (last _).
  - rewrite decide_False by done. by destruct (last _).
Qed.

(** C25 (refinement): over the wire as well, replaying a differential query's
    results rebuilds the table: when every exchange of the task brings a reply,
    cut into any reads, a receiver holds exactly the set of rows of the last
    reply of status 0. *)
Theorem polled_table_replays `{HI : ThriftIn} `{!ThriftInLaws} `{HO : ThriftOut} `{!ThriftRoundTrip} `{HashOrder}
    q uuid req xs l :
  is_eof eof_text = true → wire_text "query" → write_request (q_query q) [] = (Ok tt, req) →
  q_snapshot q = false → Forall (λ x, reply_ok x.1.1 ∧ cuts x.1.2 (reply_bytes x.1.1)) xs →
  last_rows xs = Some l →
  foldl replay ∅ (sent (run_ticks q uuid (reply_tick (q_query q) <$> xs) task_start)) = list_to_set l.
Proof.
  intros He Hq Hw Hsnap Hall Hl. destruct (last_answer_replies (q_query q) req xs None He Hq Hw Hall) as [Ho Hlast].
  rewrite Hl in Hlast. pose proof (run_in_step ∅ q uuid _ task_start None Hsnap Ho eq_refl) as Hin.
  rewrite Hlast in Hin. by destruct Hin as (_ & _ & ?).
Qed.

#[local] Existing Instance canonical_order.
Lemma polled_table_replays_witness :
  let r1 := example_reply [[("pid", "1")]; [("pid", "2")]] in
  let r2 := example_reply [[("pid", "2")]; [("pid", "3")]] in
  foldl replay ∅ (sent (run_ticks (Query "p" "SELECT pid FROM processes;" 30 false) "u"
    (reply_tick "SELECT pid FROM processes;" <$>
       [(r1, [reply_bytes r1], None); (r2, [take 9 (reply_bytes r2); drop 9 (reply_bytes r2)], None)]) task_start))
  = list_to_set [{["pid" := "2"]}; {["pid" := "3"]}].
Proof.
  intros r1 r2.
  refine (polled_table_replays (Query "p" "SELECT pid FROM processes;" 30 false) "u"
    (write_request "SELECT pid FROM processes;" []).2
    [(r1, [reply_bytes r1], None); (r2, [take 9 (reply_bytes r2); drop 9 (reply_bytes r2)], None)] _ _ _ _ _ _ _).
  - by vm_compute.
  - by vm_compute.
  - by vm_compute.
  - done.
  - repeat constructor; simpl; try (apply example_reply_ok; by vm_compute); try done; by vm_compute.
  - reflexivity.
Defined.
