(* ===== verification/Isolation.v ===== *)
(** * Network isolation and server commands
      (agent/crates/isolation/src/lib.rs, agent-core/src/command_handler.rs,
      parse_endpoint of agent-bin/src/main.rs)

    The [nft] program is an argument: the class [Nft], its laws on the declarations
    of the one table, and an instance that reads a declaration and keeps its chains.  IPv6 addresses are their canonical text, and
    their parsing and the resolver are arguments. *)
From Stdlib Require Import ZArith Lia Ascii.
From S2P Require Import Prelude Json.
#[local] Open Scope string_scope.
#[local] Open Scope list_scope.
#[local] Open Scope nat_scope.

Definition newline : ascii := Ascii.ascii_of_nat 10.

(** ** Addresses *)

Inductive IpAddr :=
  | V4 (a b c d : N)
  | V6 (text : string).

Definition show_v4 (a b c d : N) : string := str_join "." (pretty <$> [a; b; c; d]).
Definition show_ip (ip : IpAddr) : string :=
  match ip with V4 a b c d => show_v4 a b c d | V6 t => t end.

(** A decimal octet without leading zeros. *)
Definition parse_octet (s : string) : option N :=
  match s with
  | String c (String _ _) => if Ascii.eqb c "0"%char then None else
      n ← parse_nat s; if (n <=? 255)%Z then Some (Z.to_N n) else None
  | _ => n ← parse_nat s; if (n <=? 255)%Z then Some (Z.to_N n) else None
  end.

Definition parse_v4 (s : string) : option IpAddr :=
  match parse_octet <$> split_on dot s with
  | [Some a; Some b; Some c; Some d] => Some (V4 a b c d)
  | _ => None
  end.

(** ** nft *)

(** Where running a program can fail: starting it, writing its input, or waiting
    for its end. *)
Inductive run_stage := Spawn | WriteInput | Wait.

(** What running a program gives: an error, or its success and its standard error. *)
Definition exec : Type := result (bool * string) (run_stage * string).

(** The table [inet aigis_isolation]: its base chains by name, each with the hook it
    filters at, the policy for what no rule of it takes, and its rules. *)
Inductive policy := Accept | Drop.
Record nft_chain := Chain {
  chain_hook : string; chain_priority : string; chain_policy : policy; chain_rules : list string }.
Notation nft_table := (gmap string nft_chain).

(** How nft's language declares the table with some chains: the lines of the text. *)
Definition policy_word (p : policy) : string := match p with Accept => "accept" | Drop => "drop" end.
Definition chain_lines (nc : string * nft_chain) : list string :=
  ("    chain " +:+ nc.1 +:+ " {") ::
  ("        type filter hook " +:+ chain_hook nc.2 +:+ " priority " +:+ chain_priority nc.2 +:+ "; policy "
     +:+ policy_word (chain_policy nc.2) +:+ ";") ::
  (String.append "        " <$> chain_rules nc.2) ++ ["    }"].
Definition declaration_lines (d : list (string * nft_chain)) : list string :=
  "table inet aigis_isolation {" :: mjoin (chain_lines <$> d) ++ ["}"].
Definition declaration (d : list (string * nft_chain)) : string := str_join nl (declaration_lines d).

(** Words of the language, and lines of it. *)
Definition line_ok (s : string) : bool := negb (has_char newline s).
Definition word_ok (s : string) : bool := line_ok s && negb (has_char " "%char s) && negb (has_char ";"%char s).
Definition chain_ok (nc : string * nft_chain) : bool :=
  word_ok nc.1 && word_ok (chain_hook nc.2) && word_ok (chain_priority nc.2) && forallb line_ok (chain_rules nc.2).

(** Loading a declaration adds to the table that is there: a chain of its name
    is kept, and the rules are added at its end. *)
Definition load_chain (t : nft_table) (nc : string * nft_chain) : nft_table :=
  let '(n, c) := nc in
  <[n := Chain (chain_hook c) (chain_priority c) (chain_policy c) (default [] (chain_rules <$> t !! n) ++ chain_rules c)]> t.
Definition load (d : list (string * nft_chain)) (t : option nft_table) : nft_table := foldl load_chain (default ∅ t) d.

Class Nft := {
  nft_state : Type;
  (** the table [inet aigis_isolation], if there is one *)
  installed : nft_state → option nft_table;
  (** [nft -f -] with a text on its input. *)
  nft_apply : string → nft_state → exec * nft_state;
  nft_delete : nft_state → exec * nft_state;
  nft_list : nft_state → exec * nft_state
}.

(** A text is loaded whole or not at all.  One that succeeded with a declaration of the
    table loaded just that; nothing is known of other texts.  A
    command that failed or did not start changed nothing; of one whose end was
    not seen, either may hold. *)
Class NftLaws `{Nft} := {
  apply_law d s : forallb chain_ok d = true → let '(e, s') := nft_apply (declaration d) s in
    match e with
    | Ok (true, _) => installed s' = Some (load d (installed s))
    | Ok (false, _) | Err (Spawn, _) => s' = s
    | Err _ => s' = s ∨ installed s' = Some (load d (installed s))
    end;
  delete_law s : let '(e, s') := nft_delete s in
    match e with
    | Ok (true, _) => installed s' = None
    | Ok (false, _) | Err (Spawn, _) => s' = s
    | Err _ => s' = s ∨ installed s' = None
    end;
  list_law s : let '(e, s') := nft_list s in
    s' = s ∧ match e with Ok (true, _) => is_Some (installed s) | _ => True end
}.

Record IsolationManager := Manager { fleet_ip : IpAddr; fleet_port : Z }.

Definition ip_family (ip : IpAddr) : string := match ip with V4 _ _ _ _ => "ip" | V6 _ => "ip6" end.

(** The text [isolate] formats, line by line. *)
Definition ruleset (m : IsolationManager) : string :=
  let family := ip_family (fleet_ip m) in
  let ip := show_ip (fleet_ip m) in
  let port := pretty (fleet_port m) in
  str_join nl [
    "table inet aigis_isolation {";
    "    chain input {";
    "        type filter hook input priority -100; policy drop;";
    "        ct state established,related accept";
    "        iif lo accept";
    "        " +:+ family +:+ " saddr " +:+ ip +:+ " tcp sport " +:+ port +:+ " accept";
    "    }";
    "    chain output {";
    "        type filter hook output priority -100; policy drop;";
    "        ct state established,related accept";
    "        oif lo accept";
    "        " +:+ family +:+ " daddr " +:+ ip +:+ " tcp dport " +:+ port +:+ " accept";
    "    }";
    "    chain forward {";
    "        type filter hook forward priority -100; policy drop;";
    "    }";
    "}"].

(** An [anyhow] error: what it displays, and what caused it. *)
Record anyhow := Anyhow { message : string; source : option string }.

Section isolation.
Context `{Nft}.

Definition apply_error (stage : run_stage) : string :=
  match stage with
  | Spawn => "Failed to spawn nft process"
  | WriteInput => "Failed to write ruleset to nft stdin"
  | Wait => "Failed to wait for nft output"
  end.

(** [IsolationManager::isolate] *)
Definition isolate (m : IsolationManager) : SE nft_state anyhow unit := λ s,
  match nft_apply (ruleset m) s with
  | (Err (stage, e), s') => (Err (Anyhow (apply_error stage) (Some e)), s')
  | (Ok (false, err), s') => (Err (Anyhow ("nft failed to apply rules: " +:+ err) None), s')
  | (Ok (true, _), s') => (Ok tt, s')
  end.

(** The standard error texts [de_isolate] takes for a missing table. *)
Definition benign_error (err : string) : bool :=
  let l := to_lowercase err in
  str_contains "no such file or directory" l || str_contains "does not exist" l
  || str_contains "could not process rule" l.

Definition de_isolate : SE nft_state anyhow unit := λ s,
  match nft_delete s with
  | (Err (_, e), s') => (Err (Anyhow "Failed to execute nft command" (Some e)), s')
  | (Ok (true, _), s') => (Ok tt, s')
  | (Ok (false, err), s') =>
      if benign_error err then (Ok tt, s') else (Err (Anyhow ("nft delete table failed: " +:+ err) None), s')
  end.

Definition is_isolated : SE nft_state anyhow bool := λ s,
  match nft_list s with
  | (Err (_, e), s') => (Err (Anyhow "Failed to execute nft command" (Some e)), s')
  | (Ok (b, _), s') => (Ok b, s')
  end.

(** ** Server commands (command_handler.rs) *)

Inductive Command :=
  | Isolate (isolate : bool) (reason : string)
  | ConfigUpdate (config : option value)
  | AckCmd (sequence_id : string).

Definition status_json (s : string) : value := JObject [("status", JString s)].

(** [CommandHandler::handle] *)
Definition handle (m : IsolationManager) (msg : option Command) : SE nft_state string value :=
  match msg with
  | None => throw "missing command"
  | Some (Isolate true _) => rethrow message (isolate m);; mret (status_json "isolated")
  | Some (Isolate false _) => rethrow message de_isolate;; mret (status_json "unisolated")
  | Some (ConfigUpdate _) => mret (status_json "config_updated")
  | Some (AckCmd _) => mret (status_json "acked")
  end.

Fixpoint handle_all (m : IsolationManager) (msgs : list (option Command)) (s : nft_state) : nft_state :=
  match msgs with
  | [] => s
  | msg :: msgs => handle_all m msgs (handle m msg s).2
  end.
End isolation.

(** ** The endpoint (agent-bin/src/main.rs) *)

Definition strip_scheme (endpoint : string) : string :=
  trim_start_matches "https://" (trim_start_matches "http://" endpoint).

(** [parse_v6] and [resolve] (the first address of [host:port]) are arguments. *)
Definition parse_endpoint (parse_v6 : string → option string) (resolve : string → option IpAddr)
    (endpoint : string) : IpAddr * Z :=
  let clean := strip_scheme endpoint in
  let host_port := default clean (head (split_on slash clean)) in
  let parts := split_on colon host_port in
  let host := default "127.0.0.1" (parts !! 0) in
  let port := default 50051%Z (p ← parts !! 1; parse_uint 16 p) in
  let trimmed := drop_end_while (Ascii.eqb "]"%char) (drop_while (Ascii.eqb "["%char) host) in
  let parsed := match parse_v4 trimmed with
                | Some ip => Some ip
                | None => V6 <$> parse_v6 trimmed
                end in
  let ip := match parsed with
            | Some ip => ip
            | None => default (V4 127 0 0 1) (resolve (host +:+ ":" +:+ pretty port))
            end in
  (ip, port).

(** ** An instance: a kernel that may refuse, and a reader of declarations *)
Module KernelNft.
Record kernel := Kernel { table : option nft_table; permitted : bool }.

(** The rules of a chain, up to the line that closes it. *)
Fixpoint read_rules (ls : list string) : option (list string * list string) :=
  match ls with
  | [] => None
  | l :: ls =>
      if String.eqb l "    }" then Some ([], ls)
      else r ← strip_prefix "        " l; '(rs, rest) ← read_rules ls; Some (r :: rs, rest)
  end.
Definition read_name (l : string) : option string :=
  l ← strip_prefix "    chain " l;
  match split_on " "%char l with [n; "{"] => Some n | _ => None end.
Definition read_base (l : string) : option (string * string * policy) :=
  l ← strip_prefix "        type filter hook " l;
  match split_on ";"%char l with
  | [hook; p; ""] =>
      pol ← (if String.eqb p " policy drop" then Some Drop else if String.eqb p " policy accept" then Some Accept else None);
      match split_on " "%char hook with [h; "priority"; prio] => Some (h, prio, pol) | _ => None end
  | _ => None
  end.
Fixpoint read_chains (fuel : nat) (ls : list string) : option (list (string * nft_chain)) :=
  match fuel, ls with
  | _, ["}"] => Some []
  | S fuel, name :: base :: ls =>
      n ← read_name name; '(h, prio, pol) ← read_base base; '(rs, rest) ← read_rules ls;
      cs ← read_chains fuel rest; Some ((n, Chain h prio pol rs) :: cs)
  | _, _ => None
  end.
Definition read_declaration (text : string) : option (list (string * nft_chain)) :=
  match split_on newline text with
  | "table inet aigis_isolation {" :: ls => read_chains (length ls) ls
  | _ => None
  end.

Definition refused (k : kernel) : exec * kernel :=
  (Ok (false, "Error: Could not process rule: Operation not permitted"), k).

#[export] Instance kernel_nft : Nft := {|
  nft_state := kernel;
  installed := table;
  nft_apply text k :=
    match read_declaration text with
    | None => (Ok (false, "Error: syntax error"), k)
    | Some d => if permitted k then (Ok (true, ""), Kernel (Some (load d (table k))) true) else refused k
    end;
  nft_delete k :=
    if permitted k then
      match table k with
      | None => (Ok (false, "Error: Could not process rule: No such file or directory"), k)
      | Some _ => (Ok (true, ""), Kernel None true)
      end
    else refused k;
  nft_list k := (Ok (permitted k && bool_decide (is_Some (table k)), ""), k) |}.

(** A declaration is read as the chains it declares. *)
Lemma word_chars s : word_ok s = true →
  has_char newline s = false ∧ has_char " "%char s = false ∧ has_char ";"%char s = false.
Proof. unfold word_ok, line_ok. by intros [[? ?]%andb_true_iff ?]%andb_true_iff; rewrite <-!negb_true_iff. Qed.

Lemma read_rules_written rules rest :
  read_rules ((String.append "        " <$> rules) ++ "    }" :: rest) = Some (rules, rest).
Proof.
  induction rules as [| r rules IH]; [done |]. cbn [fmap list_fmap app read_rules].
  change (String.eqb ("        " +:+ r) "    }") with false. cbv iota. rewrite strip_prefix_app.
  cbn [mbind option_bind]. by rewrite IH.
Qed.

Lemma read_name_written n : word_ok n = true → read_name ("    chain " +:+ n +:+ " {") = Some n.
Proof.
  intros (_ & Hn & _)%word_chars. unfold read_name. rewrite strip_prefix_app. cbn [mbind option_bind].
  change (n +:+ " {") with (n +:+ String " "%char "{"). by rewrite split_on_app.
Qed.

Lemma read_base_written h prio pol : word_ok h = true → word_ok prio = true →
  read_base ("        type filter hook " +:+ h +:+ " priority " +:+ prio +:+ "; policy " +:+ policy_word pol +:+ ";")
  = Some (h, prio, pol).
Proof.
  intros (_ & Hh & Hh')%word_chars (_ & Hp & Hp')%word_chars. unfold read_base. rewrite strip_prefix_app.
  cbn [mbind option_bind].
  replace (h +:+ " priority " +:+ prio +:+ "; policy " +:+ policy_word pol +:+ ";")
    with ((h +:+ " priority " +:+ prio) +:+ String ";"%char (" policy " +:+ policy_word pol +:+ ";"))
    by (rewrite !str_app_assoc; reflexivity).
  rewrite split_on_app by (rewrite !has_char_app, Hh', Hp'; reflexivity).
  assert (split_on " "%char (h +:+ " priority " +:+ prio) = [h; "priority"; prio]) as Hs.
  { change (" priority " +:+ prio) with (String " "%char ("priority" +:+ String " "%char prio)).
    by rewrite !split_on_app, split_on_none. }
  destruct pol; cbn -[split_on String.append] in *;
    [change (split_on ";" (" policy accept;")) with [" policy accept"; ""]
    |change (split_on ";" (" policy drop;")) with [" policy drop"; ""]]; cbn -[split_on String.append]; by rewrite Hs.
Qed.

Lemma read_chains_written d fuel :
  length d ≤ fuel → forallb chain_ok d = true → read_chains fuel (mjoin (chain_lines <$> d) ++ ["}"]) = Some d.
Proof.
  revert fuel. induction d as [| [n [h prio pol rs]] d IH]; intros fuel Hf Hd; [by destruct fuel |].
  destruct fuel as [| fuel]; [simpl in Hf; lia |]. cbn [forallb] in Hd. apply andb_true_iff in Hd as [Hc Hd].
  unfold chain_ok in Hc. cbn [fst snd chain_hook chain_priority] in Hc.
  apply andb_true_iff in Hc as [[[Hn Hh]%andb_true_iff Hp]%andb_true_iff _].
  cbn [fmap list_fmap mjoin list_join]. rewrite <-app_assoc. unfold chain_lines at 1. cbn [fst snd chain_hook chain_priority chain_policy chain_rules].
  rewrite <-app_comm_cons, <-app_comm_cons, <-app_assoc. cbn [read_chains].
  destruct ((String.append "        " <$> rs) ++ ["    }"] ++ mjoin (chain_lines <$> d) ++ ["}"]) eqn:Hrest.
  { by destruct rs. }
  rewrite <-Hrest. rewrite read_name_written, read_base_written by done. cbn [mbind option_bind].
  change (["    }"] ++ ?l) with ("    }" :: l). rewrite read_rules_written. cbn [mbind option_bind].
  rewrite IH; [done | simpl in Hf; lia | done].
Qed.

Lemma chain_lines_whole nc : chain_ok nc = true → Forall (λ l, has_char newline l = false) (chain_lines nc).
Proof.
  unfold chain_ok. intros [[[Hn Hh]%andb_true_iff Hp]%andb_true_iff Hr]%andb_true_iff.
  apply word_chars in Hn as [Hn _], Hh as [Hh _], Hp as [Hp _].
  unfold chain_lines. rewrite Forall_cons, Forall_cons, Forall_app. split_and!.
  - rewrite !has_char_app, Hn. reflexivity.
  - rewrite !has_char_app, Hh, Hp. by destruct (chain_policy nc.2).
  - apply Forall_fmap, Forall_forall. intros r Hin%list_elem_of_In. rewrite forallb_forall in Hr.
    specialize (Hr r Hin). apply negb_true_iff in Hr. unfold compose. by rewrite has_char_app, Hr.
  - by repeat constructor.
Qed.

Lemma chain_lines_many d : length d ≤ length (mjoin (chain_lines <$> d)).
Proof.
  induction d as [| nc d IH]; [done |].
  change (mjoin (chain_lines <$> nc :: d)) with (chain_lines nc ++ mjoin (chain_lines <$> d)).
  rewrite length_app. simpl. lia.
Qed.

Lemma read_declaration_written d : forallb chain_ok d = true → read_declaration (declaration d) = Some d.
Proof.
  intros Hd. unfold read_declaration, declaration. change nl with (String newline ""). rewrite split_join; [| done |].
  - cbn [declaration_lines]. apply read_chains_written; [| done].
    rewrite length_app. pose proof (chain_lines_many d). simpl. lia.
  - unfold declaration_lines. constructor; [done |]. apply Forall_app. split; [| by repeat constructor].
    apply Forall_join, Forall_fmap, Forall_forall. intros nc Hin%list_elem_of_In. rewrite forallb_forall in Hd.
    apply chain_lines_whole, Hd, Hin.
Qed.

#[export] Instance kernel_laws : NftLaws.
Proof.
  split.
  - intros d [t p] Hd. unfold nft_apply, kernel_nft. rewrite read_declaration_written by done. by destruct p.
  - intros [[t |] []]; by simpl.
  - intros [[t |] []]; by simpl.
Qed.
End KernelNft.

(** ** Lemmas *)

Lemma parse_octet_pretty n : (n < 256)%N → parse_octet (pretty n) = Some n.
Proof.
  intros Hn. assert (forallb (λ k, bool_decide (parse_octet (pretty (N.of_nat k)) = Some (N.of_nat k))) (seq 0 256) = true)
    as Hall by (vm_compute; reflexivity).
  rewrite forallb_forall in Hall. specialize (Hall (N.to_nat n)). rewrite N2Nat.id in Hall.
  apply (bool_decide_eq_true_1 (parse_octet (pretty n) = Some n)), Hall, in_seq. lia.
Qed.

Lemma parse_show_v4 a b c d :
  (a < 256 ∧ b < 256 ∧ c < 256 ∧ d < 256)%N → parse_v4 (show_v4 a b c d) = Some (V4 a b c d).
Proof.
  intros (Ha & Hb & Hc & Hd). unfold parse_v4, show_v4.
  change "." with (String dot EmptyString). rewrite split_join.
  - simpl. by rewrite !parse_octet_pretty.
  - done.
  - repeat constructor; by apply has_char_pretty.
Qed.

Lemma show_v4_has_char x a b c d :
  digit x = None → Ascii.eqb dot x = false → has_char x (show_v4 a b c d) = false.
Proof.
  intros Hx Hd. apply has_char_join; [cbn [has_char]; unfold dot in Hd; by rewrite Hd |]. repeat constructor; by apply has_char_pretty.
Qed.

Lemma drop_while_keep p c s : p c = false → drop_while p (String c s) = String c s.
Proof. simpl. by intros ->. Qed.

Lemma drop_end_while_none p s : (∀ c, p c = true → has_char c s = false) → drop_end_while p s = s.
Proof.
  induction s as [| c s IH]; [done |]. intros Hp. simpl. rewrite IH.
  - destruct s; [| done]. destruct (p c) eqn:Hc; [| done]. specialize (Hp c Hc). simpl in Hp.
    by rewrite Ascii.eqb_refl in Hp.
  - intros x Hx. specialize (Hp x Hx). simpl in Hp. by apply orb_false_iff in Hp as [_ ?].
Qed.

Lemma drop_while_none p s : (∀ c, p c = true → has_char c s = false) → drop_while p s = s.
Proof.
  destruct s as [| c s]; [done |]. intros Hp. simpl. destruct (p c) eqn:Hc; [| done].
  specialize (Hp c Hc). simpl in Hp. by rewrite Ascii.eqb_refl in Hp.
Qed.

(** The address and the port from the pieces between colons. *)
Lemma parse_endpoint_parts parse_v6 resolve e hp h ps :
  head (split_on slash (strip_scheme e)) = Some hp → split_on colon hp = h :: ps →
  parse_endpoint parse_v6 resolve e =
  let port := default 50051%Z (p ← ps !! 0; parse_uint 16 p) in
  let trimmed := drop_end_while (Ascii.eqb "]"%char) (drop_while (Ascii.eqb "["%char) h) in
  (match (match parse_v4 trimmed with Some ip => Some ip | None => V6 <$> parse_v6 trimmed end) with
   | Some ip => ip
   | None => default (V4 127 0 0 1) (resolve (h +:+ ":" +:+ pretty port))
   end, port).
Proof. intros Hh Hp. unfold parse_endpoint. by rewrite Hh; simpl; rewrite Hp. Qed.

(** *** The ruleset declares three chains *)

Definition established : string := "ct state established,related accept".
Definition fleet_rule (m : IsolationManager) (addr port : string) : string :=
  ip_family (fleet_ip m) +:+ " " +:+ addr +:+ " " +:+ show_ip (fleet_ip m) +:+ " tcp " +:+ port +:+ " "
    +:+ pretty (fleet_port m) +:+ " accept".

Definition isolation_chains (m : IsolationManager) : list (string * nft_chain) := [
  ("input", Chain "input" "-100" Drop [established; "iif lo accept"; fleet_rule m "saddr" "sport"]);
  ("output", Chain "output" "-100" Drop [established; "oif lo accept"; fleet_rule m "daddr" "dport"]);
  ("forward", Chain "forward" "-100" Drop [])].

(** A quarantined host: at each hook a chain that drops what is not of an established
    connection, on the loopback device, or from or to the fleet server; forwarding
    nothing. *)
Definition quarantined (m : IsolationManager) (t : nft_table) : Prop :=
  ∀ n c, (n, c) ∈ isolation_chains m →
    ∃ rules, t !! n = Some (Chain (chain_hook c) (chain_priority c) Drop rules) ∧
             chain_rules c ⊆ rules ∧ rules ⊆ chain_rules c.

Lemma ruleset_declares m : ruleset m = declaration (isolation_chains m).
Proof. reflexivity. Qed.

Definition ip_ok (ip : IpAddr) : bool := match ip with V4 _ _ _ _ => true | V6 text => line_ok text end.

Lemma pretty_line n : has_char newline (pretty (n : Z)) = false.
Proof.
  destruct n as [| p | p]; [done | apply (has_char_pretty newline (N.pos p)); reflexivity |].
  change (has_char newline ("-" +:+ pretty (N.pos p)) = false). rewrite has_char_app.
  by rewrite (has_char_pretty newline (N.pos p)).
Qed.

Lemma show_ip_line ip : ip_ok ip = true → has_char newline (show_ip ip) = false.
Proof.
  destruct ip as [a b c d | text]; [by intros _; apply show_v4_has_char |]. apply negb_true_iff.
Qed.

Lemma fleet_rule_line m addr port :
  ip_ok (fleet_ip m) = true → line_ok addr = true → line_ok port = true → line_ok (fleet_rule m addr port) = true.
Proof.
  intros Hip Ha%negb_true_iff Hp%negb_true_iff. unfold line_ok, fleet_rule. apply negb_true_iff.
  rewrite !has_char_app, show_ip_line, pretty_line, Ha, Hp by done. by destruct (fleet_ip m).
Qed.

Lemma isolation_chains_ok m : ip_ok (fleet_ip m) = true → forallb chain_ok (isolation_chains m) = true.
Proof.
  intros Hip. cbn [isolation_chains forallb]. unfold chain_ok. cbn [fst snd chain_rules forallb chain_hook chain_priority].
  by rewrite !fleet_rule_line by done.
Qed.

(** What a loaded declaration leaves under the name of a chain of it, and elsewhere. *)
Lemma load_other d t n : n ∉ d.*1 → foldl load_chain t d !! n = t !! n.
Proof.
  revert t. induction d as [| [n' c] d IH]; intros t Hn; [done |]. apply not_elem_of_cons in Hn as [Hne Hn].
  cbn [foldl load_chain]. rewrite IH by done. by rewrite lookup_insert_ne.
Qed.

Lemma load_lookup d t n c : NoDup d.*1 → (n, c) ∈ d →
  load d t !! n = Some (Chain (chain_hook c) (chain_priority c) (chain_policy c)
                          (default [] (chain_rules <$> default ∅ t !! n) ++ chain_rules c)).
Proof.
  unfold load. generalize (default ∅ t). intros u. revert u.
  induction d as [| [n' c'] d IH]; intros u Hnd Hin; [by apply not_elem_of_nil in Hin |].
  apply NoDup_cons in Hnd as [Hn' Hnd]. cbn [foldl load_chain].
  apply elem_of_cons in Hin as [[= <- <-] | Hin].
  - rewrite load_other by done. by rewrite lookup_insert_eq.
  - assert (n ≠ n') as Hne.
    { intros ->. apply Hn', list_elem_of_fmap. by exists (n', c). }
    rewrite IH by done. by rewrite lookup_insert_ne.
Qed.

(** Loading the chains quarantines a host that had no table, or was quarantined. *)
Lemma load_quarantines m t :
  (∀ t', t = Some t' → quarantined m t') → quarantined m (load (isolation_chains m) t).
Proof.
  intros Ht n c Hin. assert (chain_policy c = Drop) as Hdrop.
  { cbv [isolation_chains] in Hin. rewrite !elem_of_cons in Hin. by destruct Hin as [[= _ ->] | [[= _ ->] | [[= _ ->] | []%not_elem_of_nil]]]. }
  rewrite (load_lookup _ _ n c), Hdrop; [| by apply (bool_decide_unpack _); vm_compute | done].
  eexists. split; [done |].
  destruct t as [t' |]; simpl; [| rewrite lookup_empty; set_solver].
  destruct (Ht t' eq_refl n c Hin) as (rules & -> & Hsub & Hsup). simpl. set_solver.
Qed.

(** The ruleset is in the table, which quarantines the host if it was free before,
    or quarantined. *)
Definition ruleset_loaded `{Nft} (m : IsolationManager) (s s' : nft_state) : Prop :=
  installed s' = Some (load (isolation_chains m) (installed s)) ∧
  ((∀ t, installed s = Some t → quarantined m t) → ∀ t, installed s' = Some t → quarantined m t).

Section isolation_lemmas.
Context `{NftLaws}.

(** What [nft -f -] does with the ruleset. *)
Lemma apply_ruleset m s : ip_ok (fleet_ip m) = true → let '(e, s') := nft_apply (ruleset m) s in
  match e with
  | Ok (true, _) => ruleset_loaded m s s'
  | Ok (false, _) | Err (Spawn, _) => s' = s
  | Err _ => s' = s ∨ ruleset_loaded m s s'
  end.
Proof.
  intros Hip. pose proof (apply_law (isolation_chains m) s (isolation_chains_ok m Hip)) as Hl.
  rewrite <-ruleset_declares in Hl. destruct (nft_apply (ruleset m) s) as [e s'].
  assert (installed s' = Some (load (isolation_chains m) (installed s)) → ruleset_loaded m s s') as Hload.
  { intros Hi. split; [done |]. intros Hq t. rewrite Hi. intros [= <-]. by apply load_quarantines. }
  destruct e as [[[] err] | [[] err]]; naive_solver.
Qed.
End isolation_lemmas.

(** ** Properties *)

(** C30 (functional): what a command leaves and what it answers, whatever nft makes of
    it.  Isolating answers "isolated" exactly when nft reports success: the three
    chains of the manager are then in the table, and a host that was free or
    quarantined is quarantined, letting through only established connections, the
    loopback device and the fleet server.  De-isolating answers "unisolated" when
    the table is gone, and also, with nothing changed, when nft failed
    with a message taken for a missing table.  Other failures are answered by their
    text and change nothing, unless nft started and its end was not seen.
    Configuration updates and acknowledgements do nothing. *)
Theorem handle_outcome `{NftLaws} m msg s : ip_ok (fleet_ip m) = true →
  let '(r, s') := handle m msg s in
  match msg with
  | Some (Isolate true _) =>
      match (nft_apply (ruleset m) s).1 with
      | Ok (true, _) => r = Ok (status_json "isolated") ∧ ruleset_loaded m s s'
      | Ok (false, err) => r = Err ("nft failed to apply rules: " +:+ err) ∧ s' = s
      | Err (Spawn, _) => r = Err "Failed to spawn nft process" ∧ s' = s
      | Err (stage, _) => r = Err (apply_error stage) ∧ (s' = s ∨ ruleset_loaded m s s')
      end
  | Some (Isolate false _) =>
      match (nft_delete s).1 with
      | Ok (true, _) => r = Ok (status_json "unisolated") ∧ installed s' = None
      | Ok (false, err) =>
          s' = s ∧ r = if benign_error err then Ok (status_json "unisolated") else Err ("nft delete table failed: " +:+ err)
      | Err (Spawn, _) => r = Err "Failed to execute nft command" ∧ s' = s
      | Err (_, _) => r = Err "Failed to execute nft command" ∧ (s' = s ∨ installed s' = None)
      end
  | Some (ConfigUpdate _) => r = Ok (status_json "config_updated") ∧ s' = s
  | Some (AckCmd _) => r = Ok (status_json "acked") ∧ s' = s
  | None => r = Err "missing command" ∧ s' = s
  end.
Proof.
  intros Hip.
  destruct msg as [[[|] reason | cfg | sid] |]; simpl; [| | done | done | done]; unfold mbind, SE_bind, rethrow.
  - pose proof (apply_ruleset m s Hip) as Hl. unfold isolate.
    destruct (nft_apply (ruleset m) s) as [[[[] err] | [[] e]] s']; simpl in *; by subst.
  - pose proof (delete_law s) as Hl. unfold de_isolate.
    destruct (nft_delete s) as [[[[] err] | [[] e]] s']; simpl in *; subst; try done.
    by destruct (benign_error err).
Qed.

(** De-isolation can report success while the host stays isolated: every
    nft failure to process a rule, even for lack of permission, is taken for a
    missing table. *)
Theorem de_isolate_may_lie `{Nft} s err s' :
  nft_delete s = (Ok (false, err), s') →
  str_contains "could not process rule" (to_lowercase err) = true →
  de_isolate s = (Ok tt, s').
Proof.
  intros Hd Herr. unfold de_isolate. rewrite Hd. unfold benign_error. rewrite Herr.
  by rewrite orb_true_r.
Qed.

#[local] Existing Instance KernelNft.kernel_nft.
#[local] Existing Instance KernelNft.kernel_laws.

Definition example_manager : IsolationManager := Manager (V4 10 0 0 1) 50051.
Definition free_host : KernelNft.kernel := KernelNft.Kernel None true.

Lemma handle_outcome_witness :
  let '(r, s') := handle example_manager (Some (Isolate true "r")) free_host in
  r = Ok (status_json "isolated") ∧ ∃ t, installed s' = Some t ∧ quarantined example_manager t.
Proof.
  pose proof (handle_outcome example_manager (Some (Isolate true "r")) free_host eq_refl) as Ho.
  assert ((nft_apply (ruleset example_manager) free_host).1 = Ok (true, "")) as He by (by vm_compute).
  rewrite He in Ho. destruct (handle _ _ _) as [r s']. destruct Ho as (Hr & Hi & Hq). split; [exact Hr |].
  eexists. split; [exact Hi |]. apply Hq; [by intros t' [=] | exact Hi].
Defined.

Lemma de_isolate_may_lie_witness :
  let k := KernelNft.Kernel (Some ∅) false in
  de_isolate k = (Ok tt, k) ∧ installed k ≠ None.
Proof.
  intros k. split; [| discriminate].
  exact (de_isolate_may_lie k "Error: Could not process rule: Operation not permitted" k eq_refl eq_refl).
Defined.

(** For an endpoint with an IPv4 host, with or without a scheme and a path, the
    address and port parsed for the isolation rules are those of the endpoint,
    whatever the resolver does. *)
Theorem parse_endpoint_v4 parse_v6 resolve scheme path a b c d (port : N) :
  scheme ∈ ["http://"; "https://"; ""] → (path = "" ∨ ∃ p, path = String slash p) →
  (a < 256 ∧ b < 256 ∧ c < 256 ∧ d < 256)%N → (port < 65536)%N →
  parse_endpoint parse_v6 resolve (scheme +:+ show_v4 a b c d +:+ ":" +:+ pretty port +:+ path)
  = (V4 a b c d, Z.of_N port).
Proof.
  intros Hsch Hpath Hr Hport.
  set (hp := show_v4 a b c d +:+ ":" +:+ pretty port).
  assert (∃ x r, pretty a = String x r ∧ digit x ≠ None) as (x & r & Hx & Hdig).
  { assert (forallb (λ k, match pretty (N.of_nat k) with
        | String x _ => match digit x with Some _ => true | None => false end
        | _ => false end) (seq 0 256) = true) as Hall by (vm_compute; reflexivity).
    rewrite forallb_forall in Hall. specialize (Hall (N.to_nat a)). rewrite N2Nat.id in Hall.
    destruct (pretty a) as [| x r]; [discriminate Hall; apply in_seq; lia |].
    exists x, r. split; [done |]. intros Hn. rewrite Hn in Hall. discriminate Hall. apply in_seq. lia. }
  assert (∀ p rest, starts_with (String "h"%char p) (hp +:+ rest) = false) as Hnoh.
  { intros p rest. unfold hp, show_v4. simpl. rewrite Hx. unfold starts_with. simpl.
    match goal with |- context [if ?e then _ else _] => destruct e as [<- |] end; [by destruct Hdig | done]. }
  assert (strip_scheme (scheme +:+ hp +:+ path) = hp +:+ path) as Hstrip.
  { unfold strip_scheme. apply elem_of_cons in Hsch as [-> | Hsch].
    { by rewrite trim_start_once, trim_start_none by (done || apply Hnoh). }
    rewrite (trim_start_none "http://").
    - apply elem_of_cons in Hsch as [-> | Hsch]; [by rewrite trim_start_once by (done || apply Hnoh) |].
      apply list_elem_of_singleton in Hsch as ->. by rewrite trim_start_none by apply Hnoh.
    - apply elem_of_cons in Hsch as [-> | Hsch]; [reflexivity |].
      apply list_elem_of_singleton in Hsch as ->. apply Hnoh. }
  assert (has_char slash hp = false) as Hsl.
  { unfold hp. rewrite !has_char_app, show_v4_has_char, has_char_pretty by done. done. }
  assert (head (split_on slash (hp +:+ path)) = Some hp) as Hhead.
  { destruct Hpath as [-> | [p ->]]; [| by rewrite split_on_app].
    by rewrite str_app_nil, split_on_none. }
  assert (split_on colon hp = [show_v4 a b c d; pretty port]) as Hparts.
  { unfold hp. change (":" +:+ pretty port) with (String colon (pretty port)).
    rewrite split_on_app by (by apply show_v4_has_char). by rewrite split_on_none by (by apply has_char_pretty). }
  replace (scheme +:+ show_v4 a b c d +:+ ":" +:+ pretty port +:+ path) with (scheme +:+ hp +:+ path)
    by (unfold hp; by rewrite !str_app_assoc).
  rewrite (parse_endpoint_parts _ _ _ hp (show_v4 a b c d) [pretty port]) by (done || by rewrite Hstrip).
  simpl.
  rewrite drop_while_none, drop_end_while_none.
  - rewrite parse_show_v4 by done. by rewrite parse_uint_pretty by lia.
  - intros y Hy%Ascii.eqb_eq. subst. by apply show_v4_has_char.
  - intros y Hy%Ascii.eqb_eq. subst. by apply show_v4_has_char.
Qed.

Lemma parse_endpoint_v4_witness :
  parse_endpoint (λ _, None) (λ _, None) "https://10.0.0.5:8443/api" = (V4 10 0 0 5, 8443%Z).
Proof.
  refine (parse_endpoint_v4 (λ _, None) (λ _, None) "https://" "/api" 10 0 0 5 8443 _ _ _ _).
  - right. left.
  - right. by exists "api".
  - lia.
  - lia.
Defined.

(** An endpoint with a bracketed IPv6 host is cut at the host's first colon: when
    the resolver does not know the remaining fragment, the isolation rules are
    built for the loopback address and the default port, and so let nothing
    through to the fleet server. *)
Theorem parse_endpoint_v6_broken parse_v6 resolve frag seg rest :
  has_char colon frag = false → has_char slash frag = false →
  has_char colon seg = false → has_char slash seg = false →
  has_char "["%char frag = false → has_char "]"%char frag = false →
  parse_v4 frag = None → parse_v6 frag = None → parse_uint 16 seg = None →
  resolve ("[" +:+ frag +:+ ":50051") = None → has_char slash rest = false →
  parse_endpoint parse_v6 resolve ("https://[" +:+ frag +:+ ":" +:+ seg +:+ ":" +:+ rest)
  = (V4 127 0 0 1, 50051%Z).
Proof.
  intros Hf1 Hf2 Hs1 Hs2 Hb1 Hb2 H4 H6 Hp Hres Hrest.
  set (hp := String "["%char (frag +:+ String colon (seg +:+ String colon rest))).
  assert (strip_scheme ("https://[" +:+ frag +:+ ":" +:+ seg +:+ ":" +:+ rest) = hp) as Hstrip by reflexivity.
  assert (has_char slash hp = false) as Hsl.
  { change (has_char slash hp) with (has_char slash (frag +:+ String colon (seg +:+ String colon rest))).
    rewrite has_char_app, Hf2. cbn [orb].
    change (has_char slash (String colon (seg +:+ String colon rest)))
      with (has_char slash (seg +:+ String colon rest)).
    by rewrite has_char_app, Hs2. }
  assert (split_on colon hp = ("[" +:+ frag) :: seg :: split_on colon rest) as Hparts.
  { unfold hp. change (String "[" (frag +:+ ?t)) with (("[" +:+ frag) +:+ t).
    rewrite split_on_app by exact Hf1. by rewrite split_on_app. }
  rewrite (parse_endpoint_parts _ _ _ hp ("[" +:+ frag) (seg :: split_on colon rest))
    by (done || by rewrite Hstrip, (split_on_none slash hp) by exact Hsl).
  simpl. rewrite Hp. simpl.
  rewrite drop_while_none, drop_end_while_none.
  - change ("" +:+ frag) with frag. rewrite H4, H6. cbn [fmap option_fmap option_map].
    change (pretty 50051%Z) with "50051". rewrite str_app_assoc. change (":" +:+ "50051") with ":50051".
    by rewrite Hres.
  - intros y <-%Ascii.eqb_eq. exact Hb2.
  - intros y <-%Ascii.eqb_eq. exact Hb1.
Qed.

Lemma parse_endpoint_v6_broken_witness :
  parse_endpoint (λ _, None) (λ _, None) "https://[2001:db8::1]:8443" = (V4 127 0 0 1, 50051%Z).
Proof.
  exact (parse_endpoint_v6_broken (λ _, None) (λ _, None) "2001" "db8" ":1]:8443"
    eq_refl eq_refl eq_refl eq_refl eq_refl eq_refl eq_refl eq_refl eq_refl eq_refl eq_refl).
Defined.
