(* ===== verification/FleetClient.v ===== *)
(** * The agent's fleet client (agent/crates/fleet-client/src/lib.rs)

    [FleetClient] holds the gRPC client, the two channels of the event stream,
    the node id and the token.  The network is an argument of each operation:
    what dialling gives, the server's reply to a call, and how many sends the
    outbound channel still takes before its receiver is dropped.  tonic's
    metadata values and the uuid crate are arguments too. *)
From Stdlib Require Import ZArith Lia.
From S2P Require Import Prelude Json FleetDb FleetServer Isolation.
#[local] Open Scope string_scope.
#[local] Open Scope list_scope.
#[local] Open Scope nat_scope.

(** The proto message [AgentEvent] *)
Record AgentEvent := mkEvent {
  ev_node_id : string; ev_event_type : string; ev_payload : string;
  ev_timestamp_ns : Z; ev_sequence_id : string }.

Definition ServerCommand : Type := option Command.

(** What went into the outbound channel, and whether its receiver is gone. *)
Record outbound := Outbound { ob_sent : list AgentEvent; ob_closed : bool }.
(** What waits in the inbound channel, and whether its sender is gone. *)
Record inbound := Inbound { ib_queue : list ServerCommand; ib_closed : bool }.

(** [client] is the connected gRPC client, whose only observable part is that
    it is there. *)
Record FleetClient := Client {
  endpoint : string; client : bool; outbound_tx : option outbound; inbound_rx : option inbound;
  node_id : option string; token : option string }.

Definition set_connection (tok : option string) (c : FleetClient) : FleetClient :=
  Client (endpoint c) true (outbound_tx c) (inbound_rx c) (node_id c) tok.
Definition set_channels (o : outbound) (i : inbound) (c : FleetClient) : FleetClient :=
  Client (endpoint c) (client c) (Some o) (Some i) (node_id c) (token c).
Definition set_outbound (o : outbound) (c : FleetClient) : FleetClient :=
  Client (endpoint c) (client c) (Some o) (inbound_rx c) (node_id c) (token c).
Definition set_inbound (i : inbound) (c : FleetClient) : FleetClient :=
  Client (endpoint c) (client c) (outbound_tx c) (Some i) (node_id c) (token c).
Definition set_identity (id tok : string) (c : FleetClient) : FleetClient :=
  Client (endpoint c) (client c) (outbound_tx c) (inbound_rx c) (Some id) (Some tok).

(** What dialling meets: an error up to the connected channel, an error
    opening the event stream. *)
Record dial := Dial { dial_fault : option string; stream_fault : option string }.

Record EventAck := mkAck { success : bool; ack_error : option string }.
Record HeartbeatRequest := HbRequest { hb_node_id : string; hb_status : string; hb_events_buffered : Z }.

Definition fault_check {S} (f : option string) : SE S string unit :=
  match f with Some e => throw e | None => mret tt end.

(** [val["k"]]: [Null] when the key is missing or [val] is no object. *)
Definition index (k : string) (v : value) : value := default JNull (get k v).

(** The largest [Duration], in nanoseconds. *)
Definition duration_max : Z := ((2 ^ 64 - 1) * 1000000000 + 999999999)%Z.

(** How a retry loop ends: [Panicked] when a delay overflows [Duration]. *)
Inductive retry_end := Connected | GaveUp (e : string) | Panicked.

Section client.
Context `{SerdeJson}.
(** [MetadataValue::try_from] and [Uuid::parse_str]. *)
Context (metadata_value : string → result string string) (parse_uuid : string → result string string).

(** [FleetClient::new] *)
Definition new (endpoint : string) : FleetClient := Client endpoint false None None None None.

(** [FleetClient::connect].  Without a token no stream is opened, and the other
    ends of both channels are dropped when the call returns. *)
Definition connect (d : dial) (tok : option string) : SE FleetClient string unit :=
  fault_check (dial_fault d);;
  modify (set_connection tok);;
  match tok with
  | Some t =>
      match metadata_value ("Bearer " +:+ t) with Err e => throw e | Ok _ => mret tt end;;
      fault_check (stream_fault d)
  | None => mret tt
  end;;
  let dropped := match tok with Some _ => false | None => true end in
  modify (set_channels (Outbound [] dropped) (Inbound [] dropped)).

(** The delay after a failed attempt, [None] when the product overflows. *)
Definition retry_delay (base_delay attempt : Z) : option Z :=
  let d := (base_delay * 2 ^ Z.min attempt 5)%Z in
  if (d <=? duration_max)%Z then Some d else None.

(** The loop of [connect_with_retry]: [dials i] is what its [i]-th call of
    [connect] meets, [delays] the sleeps so far. *)
Fixpoint retry_loop (fuel : nat) (max_attempts base_delay : Z) (dials : nat → dial)
    (tok : option string) (i : nat) (attempt : Z) (delays : list Z) (c : FleetClient)
    : option (retry_end * list Z * FleetClient) :=
  match fuel with
  | O => None
  | S fuel =>
      let attempt := wrap_u 32 (attempt + 1) in
      match connect (dials i) tok c with
      | (Ok _, c') => Some (Connected, delays, c')
      | (Err e, c') =>
          if (0 <? max_attempts)%Z && (max_attempts <=? attempt)%Z then Some (GaveUp e, delays, c')
          else match retry_delay base_delay attempt with
               | None => Some (Panicked, delays, c')
               | Some d => retry_loop fuel max_attempts base_delay dials tok (S i) attempt (delays ++ [d]) c'
               end
      end
  end.

Definition connect_with_retry (fuel : nat) (max_attempts base_delay : Z) (dials : nat → dial)
    (tok : option string) (c : FleetClient) : option (retry_end * list Z * FleetClient) :=
  retry_loop fuel max_attempts base_delay dials tok 0 0 [] c.

(** The metadata of an enrolment: a secret that is no metadata value is left out. *)
Definition secret_metadata (secret : option string) : metadata :=
  match secret with
  | Some sec => match metadata_value sec with Ok v => [("x-enrollment-secret", v)] | Err _ => [] end
  | None => []
  end.

(** [FleetClient::enroll_with_secret]; [rpc] is the server's reply. *)
Definition enroll_with_secret (rpc : metadata → AgentRegistration → result RegisterResponse string)
    (request : AgentRegistration) (secret : option string) : SE FleetClient string RegisterResponse :=
  c ← gets id;
  if client c then
    match rpc (secret_metadata secret) request with
    | Err e => throw e
    | Ok response =>
        match parse_uuid (rr_node_id response) with
        | Err e => throw ("Fleet server returned malformed node_id '" +:+ rr_node_id response +:+ "': " +:+ e)
        | Ok id => modify (set_identity id (rr_token response));; mret response
        end
    end
  else throw "Not connected".

Definition enroll (rpc : metadata → AgentRegistration → result RegisterResponse string)
    (request : AgentRegistration) : SE FleetClient string RegisterResponse :=
  enroll_with_secret rpc request None.

Definition event_type_of (v : value) : string :=
  match as_str v with
  | Some s => s
  | None =>
      match as_i64 v with
      | Some i =>
          if (i =? 0)%Z then "osquery" else if (i =? 1)%Z then "process"
          else if (i =? 2)%Z then "file" else if (i =? 3)%Z then "network" else pretty i
      | None => ""
      end
  end.

(** The event built from a JSON value, [None] when its payload is skipped. *)
Definition proto_event (v : value) : option AgentEvent :=
  payload ← ok (to_vec (index "payload" v));
  Some (mkEvent (default "" (as_str (index "node_id" v))) (event_type_of (index "event_type" v)) payload
          (default 0%Z (as_i64 (index "timestamp_ns" v))) (default "" (as_str (index "sequence_id" v)))).

(** The loop of [send_events]; [room] is how many sends the channel takes before
    its receiver is dropped, [None] when it is not. *)
Fixpoint send_loop (room : option nat) (events : list value) (o : outbound) : result unit string * outbound :=
  match events with
  | [] => (Ok tt, o)
  | v :: events =>
      match proto_event v with
      | None => send_loop room events o
      | Some ev =>
          if ob_closed o || bool_decide (room = Some 0) then (Err "Send channel closed", Outbound (ob_sent o) true)
          else send_loop (pred <$> room) events (Outbound (ob_sent o ++ [ev]) false)
      end
  end.

Definition send_events (room : option nat) (events : list value) : SE FleetClient string EventAck := λ c,
  match outbound_tx c with
  | None => (Err "Stream not connected", c)
  | Some o =>
      match send_loop room events o with
      | (Ok _, o') => (Ok (mkAck true None), set_outbound o' c)
      | (Err e, o') => (Err e, set_outbound o' c)
      end
  end.

Definition heartbeat (rpc : metadata → AgentHeartbeat → result bool string) (request : HeartbeatRequest)
    : SE FleetClient string bool :=
  c ← gets id;
  let req := Heartbeat (default "" (node_id c)) (hb_status request) (hb_events_buffered request) in
  if client c then
    match token c with
    | Some t =>
        match metadata_value ("Bearer " +:+ t) with
        | Err e => throw e
        | Ok v => match rpc [("authorization", v)] req with Ok b => mret b | Err e => throw e end
        end
    | None => match rpc [] req with Ok b => mret b | Err e => throw e end
    end
  else throw "Not connected".

Definition try_receive : SE FleetClient string (option ServerCommand) := λ c,
  match inbound_rx c with
  | None => (Err "Not connected", c)
  | Some i =>
      match ib_queue i with
      | msg :: q => (Ok (Some msg), set_inbound (Inbound q (ib_closed i)) c)
      | [] => if ib_closed i then (Err "Inbound channel closed (server disconnected)", c) else (Ok None, c)
      end
  end.

(** [receive]: [None] while it waits for a message. *)
Definition receive (c : FleetClient) : option (result (option ServerCommand) string * FleetClient) :=
  match inbound_rx c with
  | None => Some (Err "Not connected", c)
  | Some i =>
      match ib_queue i with
      | msg :: q => Some (Ok (Some msg), set_inbound (Inbound q (ib_closed i)) c)
      | [] => if ib_closed i then Some (Ok None, c) else None
      end
  end.

(** What the reader of the inbound stream meets, and its effect on the channel. *)
Inductive wire := Message (msg : ServerCommand) | StreamEnd | ReadError (e : string).

Fixpoint read_inbound (ws : list wire) (i : inbound) : inbound :=
  match ws with
  | [] => i
  | Message msg :: ws => read_inbound ws (Inbound (ib_queue i ++ [msg]) (ib_closed i))
  | StreamEnd :: _ | ReadError _ :: _ => Inbound (ib_queue i) true
  end.

(** ** Specification *)

Definition dial_ok (tok : option string) (d : dial) : bool :=
  bool_decide (dial_fault d = None) &&
  match tok with
  | Some t => is_ok (metadata_value ("Bearer " +:+ t)) && bool_decide (stream_fault d = None)
  | None => true
  end.

(** The client a successful [connect] leaves. *)
Definition connected (tok : option string) (c : FleetClient) : FleetClient :=
  let dropped := match tok with Some _ => false | None => true end in
  Client (endpoint c) true (Some (Outbound [] dropped)) (Some (Inbound [] dropped)) (node_id c) tok.

(** The sleeps of a loop that fails [k] times. *)
Definition retry_delays (base_delay : Z) (k : nat) : list Z :=
  (λ i, base_delay * 2 ^ Z.min (Z.of_nat (S i)) 5)%Z <$> seq 0 k.

Definition proto_events (events : list value) : list AgentEvent := omap proto_event events.
End client.

(** ** Lemmas *)

#[local] Arguments decide : simpl never.

Section client_lemmas.
Context `{SerdeJson}.
Context (metadata_value : string → result string string) (parse_uuid : string → result string string).
#[local] Abbreviation connect := (connect metadata_value).
#[local] Abbreviation dial_ok := (dial_ok metadata_value).
#[local] Abbreviation retry_loop := (retry_loop metadata_value).

Lemma connect_ok d tok c : dial_ok tok d = true → connect d tok c = (Ok tt, connected tok c).
Proof.
  unfold FleetClient.dial_ok, FleetClient.connect, mbind, SE_bind, fault_check.
  intros [Hd%bool_decide_eq_true Ht]%andb_true_iff. rewrite Hd. simpl.
  destruct tok as [t |]; simpl; [| done].
  apply andb_true_iff in Ht as [Hm Hs%bool_decide_eq_true]. rewrite Hs.
  by destruct (metadata_value _).
Qed.

(** A failed [connect] keeps the endpoint and the node id. *)
Lemma connect_err d tok c :
  dial_ok tok d = false →
  ∃ e c', connect d tok c = (Err e, c') ∧ connected tok c' = connected tok c ∧
          (token c = tok → token c' = tok).
Proof.
  unfold FleetClient.dial_ok, FleetClient.connect, mbind, SE_bind, fault_check.
  destruct (dial_fault d) as [e |]; simpl; [by eauto |].
  destruct tok as [t |]; simpl; [| done].
  destruct (metadata_value _) as [v | e]; simpl; [| by eauto].
  destruct (stream_fault d) as [e |]; [by eauto | done].
Qed.

Lemma pow_le_32 n : (0 ≤ n)%Z → (1 ≤ 2 ^ Z.min n 5 ≤ 32)%Z.
Proof.
  intros Hn. pose proof (Z.pow_pos_nonneg 2 (Z.min n 5)).
  pose proof (Z.pow_le_mono_r 2 (Z.min n 5) 5). lia.
Qed.

Lemma retry_delay_some base n :
  (0 ≤ base)%Z → (32 * base ≤ duration_max)%Z → (0 ≤ n)%Z →
  retry_delay base n = Some (base * 2 ^ Z.min n 5)%Z.
Proof.
  intros Hb Hm Hn. unfold retry_delay. pose proof (pow_le_32 n Hn).
  destruct (Z.leb_spec (base * 2 ^ Z.min n 5) duration_max); [done | nia].
Qed.

(** Going through [k] failed attempts that do not exhaust [max]. *)
Lemma retry_failures k fuel max base dials tok i delays c :
  (0 ≤ base)%Z → (32 * base ≤ duration_max)%Z → (Z.of_nat (i + k) < 2 ^ 32)%Z →
  (max = 0 ∨ Z.of_nat (i + k) < max)%Z →
  (∀ j, i ≤ j < i + k → dial_ok tok (dials j) = false) →
  ∃ c', connected tok c' = connected tok c ∧
    retry_loop (k + fuel) max base dials tok i (Z.of_nat i) delays c =
    retry_loop fuel max base dials tok (i + k) (Z.of_nat (i + k))
      (delays ++ ((λ j, base * 2 ^ Z.min (Z.of_nat (S j)) 5)%Z <$> seq i k)) c'.
Proof.
  intros Hb Hm. revert i delays c. induction k as [| k IH]; intros i delays c Hw Hmax Hf.
  { exists c. rewrite Nat.add_0_r, app_nil_r. done. }
  destruct (connect_err (dials i) tok c (Hf i ltac:(lia))) as (e & c1 & Hc & Hc1 & _).
  cbn [FleetClient.retry_loop plus]. rewrite Hc.
  rewrite (wrap_u_small 32) by (unfold fits_u; lia).
  rewrite (proj2 (andb_false_iff _ _)).
  2: { destruct Hmax as [-> | ?]; [by left | right]. apply Z.leb_gt. lia. }
  rewrite retry_delay_some by lia.
  destruct (IH (S i) (delays ++ [(base * 2 ^ Z.min (Z.of_nat i + 1) 5)%Z]) c1) as (c' & Hc' & Hr).
  - by replace (S i + k) with (i + S k) by lia.
  - by replace (S i + k) with (i + S k) by lia.
  - intros j Hj. apply Hf. lia.
  - exists c'. split; [congruence |]. replace (Z.of_nat i + 1)%Z with (Z.of_nat (S i)) in * by lia.
    rewrite Hr. replace (S i + k) with (i + S k) by lia. by rewrite <-app_assoc.
Qed.

(** The first dial that succeeds ends the loop. *)
Lemma retry_first_success max base dials tok c k fuel :
  (0 ≤ base)%Z → (32 * base ≤ duration_max)%Z → k < fuel → (Z.of_nat k < 2 ^ 32 - 1)%Z →
  (max = 0 ∨ Z.of_nat k < max)%Z →
  (∀ i, i < k → dial_ok tok (dials i) = false) → dial_ok tok (dials k) = true →
  connect_with_retry metadata_value fuel max base dials tok c
  = Some (Connected, retry_delays base k, connected tok c).
Proof.
  intros Hb Hm Hk Hw Hlim Hfail Hok. unfold connect_with_retry.
  replace fuel with (k + S (fuel - k - 1)) by lia.
  destruct (retry_failures k (S (fuel - k - 1)) max base dials tok 0 [] c)
    as (c' & Hc' & Hr); [lia | lia | lia | lia | intros; apply Hfail; lia |].
  change (Z.of_nat 0) with 0%Z in Hr. rewrite Hr. simpl.
  rewrite (connect_ok _ _ _ Hok). by rewrite Hc'.
Qed.

(** When every allowed dial fails, so does the loop. *)
Lemma retry_exhausted max base dials tok c fuel :
  (0 ≤ base)%Z → (32 * base ≤ duration_max)%Z → (0 < max < 2 ^ 32)%Z → Z.to_nat max ≤ fuel →
  (∀ i, i < Z.to_nat max → dial_ok tok (dials i) = false) →
  ∃ e c0 c', connect (dials (Z.to_nat max - 1)) tok c0 = (Err e, c') ∧
    connected tok c0 = connected tok c ∧
    connect_with_retry metadata_value fuel max base dials tok c
    = Some (GaveUp e, retry_delays base (Z.to_nat max - 1), c').
Proof.
  intros Hb Hm Hpos Hfuel Hfail. unfold connect_with_retry. set (k := Z.to_nat max - 1).
  replace fuel with (k + S (fuel - k - 1)) by lia.
  destruct (retry_failures k (S (fuel - k - 1)) max base dials tok 0 [] c)
    as (c0 & Hc0 & Hr); [lia | lia | lia | lia | intros; apply Hfail; lia |].
  change (Z.of_nat 0) with 0%Z in Hr. rewrite Hr. simpl.
  destruct (connect_err (dials k) tok c0) as (e & c' & He & _ & _); [apply Hfail; lia |].
  exists e, c0, c'. rewrite He. split_and!; [done | done |].
  rewrite (wrap_u_small 32) by (unfold fits_u; lia).
  rewrite (proj2 (Z.ltb_lt 0 max)) by lia. by rewrite (proj2 (Z.leb_le max (Z.of_nat k + 1))) by lia.
Qed.

Lemma first_true (f : nat → bool) n :
  (∃ k, k < n ∧ f k = true ∧ ∀ i, i < k → f i = false) ∨ (∀ i, i < n → f i = false).
Proof.
  induction n as [| n [(k & Hk & Hf & Hlt) | IH]]; [right; lia | left; exists k; split_and!; [lia | done | done] |].
  destruct (f n) eqn:Hn; [left; exists n; split_and!; [lia | done | done] | right].
  intros i Hi. destruct (decide (i = n)) as [-> |]; [done | apply IH; lia].
Qed.

(** A loop that connects leaves the client of a dial that succeeded. *)
Lemma retry_connected fuel max base dials tok i attempt ds c ds' c' :
  retry_loop fuel max base dials tok i attempt ds c = Some (Connected, ds', c') →
  c' = connected tok c ∧ ∃ k, dial_ok tok (dials k) = true.
Proof.
  revert i attempt ds c. induction fuel as [| fuel IH]; intros i attempt ds c; [done |].
  cbn [FleetClient.retry_loop]. destruct (dial_ok tok (dials i)) eqn:Hd.
  - rewrite (connect_ok _ _ _ Hd). intros [= <- <-]. eauto.
  - destruct (connect_err _ _ c Hd) as (e & c1 & -> & Hc1 & _). case_match; [done |].
    destruct (retry_delay _ _); [| done]. intros Hr. destruct (IH _ _ _ _ Hr) as [-> ?]. by rewrite Hc1.
Qed.

(** With a limit and enough fuel the loop ends, one way or the other. *)
Lemma retry_total max base dials tok c fuel :
  (0 ≤ base)%Z → (32 * base ≤ duration_max)%Z → (0 < max < 2 ^ 32)%Z → Z.to_nat max ≤ fuel →
  (∃ ds, connect_with_retry metadata_value fuel max base dials tok c = Some (Connected, ds, connected tok c)) ∨
  ((∃ e ds c', connect_with_retry metadata_value fuel max base dials tok c = Some (GaveUp e, ds, c')) ∧
   ∀ i, i < Z.to_nat max → dial_ok tok (dials i) = false).
Proof.
  intros Hb Hm Hpos Hfuel.
  destruct (first_true (λ i, dial_ok tok (dials i)) (Z.to_nat max)) as [(k & Hk & Hf & Hlt) | Hall].
  - left. eexists. apply (retry_first_success max base dials tok c k fuel); try done; lia.
  - right. destruct (retry_exhausted max base dials tok c fuel Hb Hm Hpos Hfuel Hall) as (e & _ & c' & _ & _ & Hr).
    split; [eauto | done].
Qed.

(** What the channel still takes. *)
Definition takes (room : option nat) (o : outbound) : option nat :=
  if ob_closed o then Some 0 else room.

Lemma send_loop_spec room events o :
  send_loop room events o =
  let evs := proto_events events in
  match takes room o with
  | Some n => if decide (length evs ≤ n) then (Ok tt, Outbound (ob_sent o ++ evs) (ob_closed o))
              else (Err "Send channel closed", Outbound (ob_sent o ++ take n evs) true)
  | None => (Ok tt, Outbound (ob_sent o ++ evs) (ob_closed o))
  end.
Proof.
  unfold takes, proto_events. revert room o.
  induction events as [| v events IH]; intros room [snt closed]; simpl;
    change (list_omap value AgentEvent proto_event) with (omap (M:=list) proto_event) in *.
  { rewrite app_nil_r. destruct closed, room; simpl; try done; by rewrite decide_True by lia. }
  destruct (proto_event v) as [ev |]; simpl; [| exact (IH room (Outbound snt closed))].
  destruct closed; simpl; [by rewrite app_nil_r |].
  destruct room as [[| n] |]; simpl.
  - by rewrite app_nil_r.
  - rewrite IH. cbn [ob_closed ob_sent]. destruct (decide (length (omap proto_event events) ≤ n)).
    + rewrite decide_True by lia. by rewrite <-app_assoc.
    + rewrite decide_False by lia. by rewrite <-app_assoc.
  - rewrite IH. simpl. by rewrite <-app_assoc.
Qed.
End client_lemmas.

(** ** Properties *)

(** Connecting with a positive limit of attempts always ends: at the first dial
    that succeeds, if it comes before the limit, with the connected client, and
    otherwise with the error of the last dial allowed; without a limit it ends at
    the first success.  Each failure but a final one is followed by a sleep of the
    base delay doubled with each attempt, up to 32 times the base. *)
Theorem connect_with_retry_outcome metadata_value max base dials tok c :
  (0 ≤ base)%Z → (32 * base ≤ duration_max)%Z → (0 ≤ max < 2 ^ 32)%Z →
  (∀ k fuel, k < fuel → (Z.of_nat k < 2 ^ 32 - 1)%Z → (max = 0 ∨ Z.of_nat k < max)%Z →
     (∀ i, i < k → dial_ok metadata_value tok (dials i) = false) →
     dial_ok metadata_value tok (dials k) = true →
     connect_with_retry metadata_value fuel max base dials tok c
     = Some (Connected, retry_delays base k, connected tok c)) ∧
  (∀ fuel, (0 < max)%Z → Z.to_nat max ≤ fuel →
     (∀ i, i < Z.to_nat max → dial_ok metadata_value tok (dials i) = false) →
     ∃ e c0 c', connect metadata_value (dials (Z.to_nat max - 1)) tok c0 = (Err e, c') ∧
       connected tok c0 = connected tok c ∧
       connect_with_retry metadata_value fuel max base dials tok c
       = Some (GaveUp e, retry_delays base (Z.to_nat max - 1), c')).
Proof.
  intros Hb Hm Hmax. split.
  - intros. by apply retry_first_success.
  - intros. apply retry_exhausted; try done. lia.
Qed.

Lemma connect_with_retry_outcome_witness :
  connect_with_retry Ok 9 5 1000 (λ i, Dial (if decide (i < 2) then Some "refused" else None) None)
    (Some "t") (new "http://fleet:50051")
  = Some (Connected, [2000%Z; 4000%Z], connected (Some "t") (new "http://fleet:50051")).
Proof.
  refine (proj1 (connect_with_retry_outcome Ok 5 1000
    (λ i, Dial (if decide (i < 2) then Some "refused" else None) None) (Some "t")
    (new "http://fleet:50051") _ _ _) 2 9 _ _ _ _ _).
  - lia.
  - unfold duration_max. lia.
  - lia.
  - lia.
  - lia.
  - right. lia.
  - intros [| [| i]] Hi; [reflexivity | reflexivity | lia].
  - reflexivity.
Defined.

(** Sending a batch puts its events into the outbound channel in order, those
    whose payload does not print left out; when the channel closes after [n] sends
    the batch fails, and exactly its first [n] events went in. *)
Theorem send_events_outcome `{SerdeJson} room events c :
  match outbound_tx c with
  | None => send_events room events c = (Err "Stream not connected", c)
  | Some o =>
      let evs := proto_events events in
      let fits := match takes room o with Some n => length evs ≤ n | None => True end in
      (fits → send_events room events c
              = (Ok (mkAck true None), set_outbound (Outbound (ob_sent o ++ evs) (ob_closed o)) c)) ∧
      (∀ n, takes room o = Some n → n < length evs →
         send_events room events c
         = (Err "Send channel closed", set_outbound (Outbound (ob_sent o ++ take n evs) true) c))
  end.
Proof.
  unfold send_events. destruct (outbound_tx c) as [o |]; [| done]. rewrite send_loop_spec. simpl. split.
  - destruct (takes room o); intros Hf; [by rewrite decide_True | done].
  - intros n -> Hn. by rewrite decide_False by lia.
Qed.

(** An enrolment over a client that was never connected is refused without a
    call to the server, which is what the orchestrator's attempt does. *)
Theorem enroll_unconnected parse_uuid metadata_value rpc req secret e :
  enroll_with_secret metadata_value parse_uuid rpc req secret (new e) = (Err "Not connected", new e).
Proof. reflexivity. Qed.
