(* ===== verification/Agent.v ===== *)
(** * The agent's tasks
      (agent/crates/agent-core/src/lib.rs, orchestrator.rs, config.rs,
      agent/crates/agent-bin/src/main.rs)

    Start-up, the osquery polling loop, the command listener, and the heartbeat
    and drain loops of main, as functions of what each pass meets.  They work on
    the event buffer's table and on the fleet client, and call the operations of
    those components. *)
From Stdlib Require Import ZArith Lia Ascii.
From S2P Require Import Prelude Json EventBuffer FleetDb FleetServer Osquery Isolation FleetClient.
#[local] Open Scope string_scope.
#[local] Open Scope list_scope.
#[local] Open Scope nat_scope.

(** ** Configuration (config.rs); paths are strings *)

Record AgentServerSection := ServerSection { srv_bind_addr : string; srv_port : Z }.
Record AgentSection := mkAgentSection {
  ag_node_id : option string; ag_name : string; ag_log_level : string; ag_log_format : string;
  ag_log_dir : string; ag_data_dir : string; ag_event_buffer_db : string; ag_event_buffer_max : Z;
  ag_event_drain_batch : Z; ag_event_drain_interval_secs : Z; ag_server : AgentServerSection }.
Record OsquerySection := mkOsquerySection {
  osq_socket_path : string; osq_conf_path : string; osq_flags_path : string; osq_pid_file : string;
  osq_log_path : string; osq_connect_timeout_secs : Z; osq_query_timeout_secs : Z }.
Record FleetSection := mkFleetSection {
  fl_host : string; fl_port : Z; fl_endpoint : string; fl_enrollment_secret : string;
  fl_tls_ca_cert : string; fl_tls_client_cert : option string; fl_tls_client_key : option string;
  fl_heartbeat_interval_secs : Z; fl_reconnect_interval_secs : Z; fl_max_reconnect_attempts : Z }.
Record IsolationSection := mkIsolationSection { iso_enabled : bool; iso_fleet_ip : string; iso_fleet_port : Z }.
Record AgentConfig := mkAgentConfig {
  cfg_agent : AgentSection; cfg_osquery : OsquerySection; cfg_fleet : FleetSection;
  cfg_isolation : IsolationSection }.

(** ** The node id in the configuration file (main.rs) *)

Definition node_id_line (node_id : string) : string :=
  "node_id = " +:+ dquote +:+ node_id +:+ dquote.

(** The loop of [save_node_id_to_config] on the lines, with its flags
    [in_agent] and [inserted]. *)
Fixpoint save_loop (new : string) (in_agent : bool) (lines : list string) : list string * bool * bool :=
  match lines with
  | [] => ([], in_agent, false)
  | l :: ls =>
      if String.eqb (trim l) "[agent]" then
        let '(ls', a, i) := save_loop new true ls in (l :: ls', a, i)
      else if in_agent && starts_with "node_id" l then (new :: ls, true, true)
      else if in_agent && starts_with "[" l then (new :: l :: ls, true, true)
      else let '(ls', a, i) := save_loop new in_agent ls in (l :: ls', a, i)
  end.

Definition save_lines (node_id : string) (lines : list string) : list string :=
  let '(ls, in_agent, inserted) := save_loop (node_id_line node_id) false lines in
  if in_agent && negb inserted then ls ++ [node_id_line node_id] else ls.

(** [save_node_id_to_config] on the file's content. *)
Definition save_node_id_to_config (node_id content : string) : string :=
  str_join nl (save_lines node_id (str_lines content)).

(** The node id line a reader of the [agent] section finds. *)
Fixpoint find_node_line (in_agent : bool) (lines : list string) : option string :=
  match lines with
  | [] => None
  | l :: ls =>
      if String.eqb (trim l) "[agent]" then find_node_line true ls
      else if in_agent && starts_with "node_id" l then Some l
      else if in_agent && starts_with "[" l then None
      else find_node_line in_agent ls
  end.

(** ** Host identity (orchestrator.rs) *)

Definition machine_id_of (file : result string string) : option string :=
  match file with
  | Ok id => let trimmed := trim id in if str_is_empty trimmed then None else Some trimmed
  | Err _ => None
  end.

(** [read_machine_id] on what the two files hold. *)
Definition read_machine_id (etc dbus : result string string) : string :=
  match machine_id_of etc with
  | Some id => id
  | None => match machine_id_of dbus with Some id => id | None => "unknown-machine-id" end
  end.

Definition trim_quotes (s : string) : string := trim_matches (Ascii.ascii_of_nat 34) s.

Record os_release := OsRelease { os_name : option string; os_ver : option string; os_pretty : option string }.

Definition os_release_line (r : os_release) (line : string) : os_release :=
  let trimmed := trim line in
  if starts_with "#" trimmed || str_is_empty trimmed then r else
  match split_once equals_sign trimmed with
  | None => r
  | Some (k, v) =>
      let key := trim k in
      let val := trim_quotes (trim v) in
      if String.eqb key "PRETTY_NAME" then OsRelease (os_name r) (os_ver r) (Some val)
      else if String.eqb key "NAME" then OsRelease (Some val) (os_ver r) (os_pretty r)
      else if String.eqb key "VERSION" then OsRelease (os_name r) (Some val) (os_pretty r)
      else r
  end.

(** [get_os_version]: [exists_] is whether the file exists, [lines] what opening
    it and reading lines until the first error gives. *)
Definition get_os_version (exists_ : bool) (lines : option (list string)) : string :=
  if exists_ then
    match lines with
    | None => "Unknown Linux (unable to open os-release)"
    | Some lines =>
        let r := foldl os_release_line (OsRelease None None None) lines in
        match os_pretty r with
        | Some pretty => pretty
        | None =>
            let os_name := default "Linux" (os_name r) in
            match os_ver r with Some ver => os_name +:+ " " +:+ ver | None => os_name end
        end
    end
  else "Unknown Linux (os-release not found)".

(** ** Events (lib.rs, orchestrator.rs) *)

Section tasks.
Context `{SerdeJson} `{Nft} `{HashOrder}.
(** SQLite's numeric test, [MetadataValue::try_from] and [Uuid::parse_str]. *)
Context (looks_numeric : string → bool).
Context (metadata_value : string → result string string) (parse_uuid : string → result string string).

Definition column_json (c : ColumnEntry) : value :=
  json_object [("name", JString (col_name c)); ("value", JString (col_value c))].
Definition row_json (r : OsqueryResultRow) : value :=
  json_object [("columns", JArray (column_json <$> columns r))].

(** [serde_json::to_value] of an [OsqueryResult] *)
Definition result_json (r : OsqueryResult) : value :=
  json_object [
    ("query_name", JString (query_name r)); ("agent_uuid", JString (agent_uuid r));
    ("timestamp_ns", json_int (timestamp_ns r)); ("rows", JArray (row_json <$> Osquery.rows r));
    ("action", JString (action_as_str (action r))) ].

(** The agent's own [AgentEvent] as it is written, fields in declaration order. *)
Definition agent_event_json (uuid : string) (r : OsqueryResult) : value :=
  JObject [("node_id", JString (agent_uuid r)); ("event_type", json_int 0);
           ("payload", result_json r); ("timestamp_ns", json_int (timestamp_ns r));
           ("sequence_id", JString uuid)].

(** [encode_osquery_result] and the orchestrator's [encode_result]; [uuid] is the
    fresh sequence id. *)
Definition encode_osquery_result (uuid : string) (r : OsqueryResult) : option string :=
  ok (to_vec (agent_event_json uuid r)).
Definition encode_result (uuid : string) (r : OsqueryResult) : string :=
  default "" (ok (to_vec (agent_event_json uuid r))).

(** ** The osquery polling loop (lib.rs) *)

(** A received result with its sequence id and what its push meets. *)
Record arrival := Arrival { ar_result : OsqueryResult; ar_uuid : string; ar_faults : push_faults; ar_now : Z }.

Inductive osquery_poll :=
  | Received (a : arrival)
  | CollectorGone
  | Cancelled (pending : list arrival).

Definition buffer_result (max : Z) (t : table) (a : arrival) : table :=
  match encode_osquery_result (ar_uuid a) (ar_result a) with
  | None => t
  | Some json => (push looks_numeric (ar_faults a) max (ar_now a) json t).2
  end.

Fixpoint osquery_loop (max : Z) (polls : list osquery_poll) (t : table) : table :=
  match polls with
  | [] | CollectorGone :: _ => t
  | Cancelled pending :: _ => foldl (buffer_result max) t pending
  | Received a :: polls => osquery_loop max polls (buffer_result max t a)
  end.

(** The results a run of the loop takes. *)
Fixpoint taken (polls : list osquery_poll) : list arrival :=
  match polls with
  | [] | CollectorGone :: _ => []
  | Cancelled pending :: _ => pending
  | Received a :: polls => a :: taken polls
  end.

(** ** The command listener (lib.rs) *)

Definition CMD_MAX_BACKOFF_ERRORS : Z := 8.
Definition CMD_BACKOFF_BASE_MS : Z := 50.
Definition CMD_BACKOFF_CEILING_MS : Z := 12800.
Definition CMD_POLL_INTERVAL_MS : Z := 5.

Record listener := Listener { consecutive_errors : Z; fleet : FleetClient; host_nft : nft_state }.

Definition backoff_ms (consecutive_errors : Z) : Z :=
  Z.min (CMD_BACKOFF_BASE_MS * 2 ^ Z.min consecutive_errors CMD_MAX_BACKOFF_ERRORS) CMD_BACKOFF_CEILING_MS.

(** One pass of the loop: the next state and the sleep in milliseconds.  [d] is
    what a reconnection would meet. *)
Definition poll_step (m : IsolationManager) (d : dial) (l : listener) : listener * Z :=
  match try_receive (fleet l) with
  | (Ok None, c) => (Listener 0 c (host_nft l), CMD_POLL_INTERVAL_MS)
  | (Ok (Some msg), c) => (Listener 0 c (handle m msg (host_nft l)).2, 0%Z)
  | (Err _, c) =>
      let n := sat_add_u 32 (consecutive_errors l) 1 in
      match connect metadata_value d (token c) c with
      | (Ok _, c') => (Listener 0 c' (host_nft l), backoff_ms n)
      | (Err _, c') => (Listener n c' (host_nft l), backoff_ms n)
      end
  end.

(** The reader task delivers, or the listener polls. *)
Inductive cmd_event := Deliver (ws : list wire) | Poll (d : dial).

Definition deliver (ws : list wire) (c : FleetClient) : FleetClient :=
  match inbound_rx c with
  | Some i => if ib_closed i then c else set_inbound (read_inbound ws i) c
  | None => c
  end.

Definition cmd_step (m : IsolationManager) (e : cmd_event) (l : listener) : listener :=
  match e with
  | Deliver ws => Listener (consecutive_errors l) (deliver ws (fleet l)) (host_nft l)
  | Poll d => (poll_step m d l).1
  end.

Fixpoint listen (m : IsolationManager) (es : list cmd_event) (l : listener) : listener :=
  match es with [] => l | e :: es => listen m es (cmd_step m e l) end.

(** The messages waiting, and those that arrive during a run. *)
Definition waiting (c : FleetClient) : list ServerCommand :=
  match inbound_rx c with Some i => ib_queue i | None => [] end.

Fixpoint arrived (m : IsolationManager) (es : list cmd_event) (l : listener) : list ServerCommand :=
  match es with
  | [] => []
  | e :: es =>
      match e with
      | Deliver ws => drop (length (waiting (fleet l))) (waiting (deliver ws (fleet l)))
      | Poll _ => []
      end ++ arrived m es (cmd_step m e l)
  end.

(** ** The heartbeat and drain loops (main.rs) *)

Definition heartbeat_tick (len_fault : option string)
    (rpc : metadata → AgentHeartbeat → result bool string) (node_id : string) (t : table)
    (c : FleetClient) : result bool string * FleetClient :=
  let count := wrap_i 64 (default 0%Z (ok (len len_fault t).1)) in
  heartbeat metadata_value rpc (HbRequest node_id "healthy" count) c.

(** What the pushes of a re-queued batch meet. *)
Record requeue_env := RequeueEnv { rq_faults : nat → push_faults; rq_now : nat → Z }.

Fixpoint requeue (env : requeue_env) (i : nat) (max : Z) (events : list string) (t : table) : table :=
  match events with
  | [] => t
  | e :: events =>
      requeue env (S i) max events (push looks_numeric (rq_faults env i) max (rq_now env i) e t).2
  end.

Definition parse_events (events : list string) : list value := omap (λ e, ok (from_slice e)) events.

(** One tick of the drain loop. *)
Definition drain_tick (fl : drain_faults) (env : requeue_env) (max batch_size : Z) (room : option nat)
    (s : table * FleetClient) : table * FleetClient :=
  let '(t, c) := s in
  match drain fl batch_size t with
  | (Err _, t1) => (t1, c)
  | (Ok events, t1) =>
      if decide (events = []) then (t1, c) else
      if decide (parse_events events = []) then (t1, c) else
      match send_events room (parse_events events) c with
      | (Ok ack, c1) => if success ack then (t1, c1) else (requeue env 0 max events t1, c1)
      | (Err _, c1) => (requeue env 0 max events t1, c1)
      end
  end.

(** ** Start-up (main.rs) *)

(** What the steps of main meet, from the first connection to the second. *)
Record boot_env := BootEnv {
  be_dials1 : nat → dial; be_dials2 : nat → dial;
  be_rpc : metadata → AgentRegistration → result RegisterResponse string;
  be_hostname : result string string; be_os_version : string; be_machine_id : string;
  be_version : string; be_file : result string string; be_write_fault : option string }.

Definition enrollment_secret_of (cfg : AgentConfig) : option string :=
  if str_is_empty (fl_enrollment_secret (cfg_fleet cfg)) then None
  else Some (fl_enrollment_secret (cfg_fleet cfg)).

(** [connect_with_retry(...).await?]; [None] while it goes on, or when it panics. *)
Definition connect_phase (fuel : nat) (cfg : AgentConfig) (dials : nat → dial) (tok : option string)
    (c : FleetClient) : option (result FleetClient string) :=
  match connect_with_retry metadata_value fuel (fl_max_reconnect_attempts (cfg_fleet cfg))
          (fl_reconnect_interval_secs (cfg_fleet cfg) * 1000000000)%Z dials tok c with
  | Some (Connected, _, c) => Some (Ok c)
  | Some (GaveUp e, _, _) => Some (Err e)
  | Some (Panicked, _, _) | None => None
  end.

(** The node id is saved when it changed or [--enroll] is given: the file's new
    content, [None] when it is not written. *)
Definition save_phase (cfg : AgentConfig) (force : bool) (env : boot_env) (node_id : string)
    : result (option string) string :=
  if negb (bool_decide (ag_node_id (cfg_agent cfg) = Some node_id)) || force then
    match be_file env with
    | Err e => Err e
    | Ok content =>
        match be_write_fault env with
        | Some e => Err e
        | None => Ok (Some (save_node_id_to_config node_id content))
        end
    end
  else Ok None.

(** The fleet part of [main]: the client it leaves and the file it writes. *)
Definition boot (fuel : nat) (cfg : AgentConfig) (force : bool) (env : boot_env)
    : option (result (FleetClient * option string) string) :=
  r ← connect_phase fuel cfg (be_dials1 env) None (FleetClient.new (fl_endpoint (cfg_fleet cfg)));
  match r with
  | Err e => Some (Err e)
  | Ok c1 =>
      match be_hostname env with
      | Err e => Some (Err e)
      | Ok host =>
          match enroll_with_secret metadata_value parse_uuid (be_rpc env)
                  (Registration host (be_os_version env) (be_version env) (be_machine_id env))
                  (enrollment_secret_of cfg) c1 with
          | (Err e, _) => Some (Err e)
          | (Ok resp, c2) =>
              match save_phase cfg force env (default "" (node_id c2)) with
              | Err e => Some (Err e)
              | Ok written =>
                  r ← connect_phase fuel cfg (be_dials2 env) (Some (rr_token resp)) c2;
                  match r with
                  | Err e => Some (Err e)
                  | Ok c3 => Some (Ok (c3, written))
                  end
              end
          end
      end
  end.
End tasks.

(** ** Specification of the drain loop *)

Section drain_spec.
Context `{SerdeJson}.

Definition requeued (max : nat) (batch q : list string) : list string :=
  foldl (λ q x, spec_push max x q) q batch.

(** A tick on the abstract queue: the batch leaves; when it cannot all be sent it
    comes back behind the events that waited. *)
Definition drain_spec (max n : nat) (room : option nat) (q : list string) (c : FleetClient)
    : list string * FleetClient :=
  let batch := take n q in
  if decide (parse_events batch = []) then (drop n q, c) else
  let evs := proto_events (parse_events batch) in
  match outbound_tx c with
  | None => (requeued max batch (drop n q), c)
  | Some o =>
      match takes room o with
      | Some k =>
          if decide (length evs ≤ k)
          then (drop n q, set_outbound (Outbound (ob_sent o ++ evs) (ob_closed o)) c)
          else (requeued max batch (drop n q), set_outbound (Outbound (ob_sent o ++ take k evs) true) c)
      | None => (drop n q, set_outbound (Outbound (ob_sent o ++ evs) (ob_closed o)) c)
      end
  end.
End drain_spec.

(** No disk fault in a re-queue. *)
Definition quiet (now : Z) : requeue_env := RequeueEnv (λ _, no_push_faults) (λ _, now).

(** The event an agent's string becomes on the wire. *)
Definition wire_event `{SerdeJson} (s : string) : option AgentEvent :=
  v ← ok (from_slice s); proto_event v.

Definition sent_events (c : FleetClient) : list AgentEvent :=
  match outbound_tx c with Some o => ob_sent o | None => [] end.

(** ** Lemmas *)

#[local] Arguments decide : simpl never.

Section drain_spec_lemmas.
Context `{SerdeJson}.

(** A queue within its capacity loses nothing to a re-queue. *)
Lemma requeued_app max batch q :
  length q + length batch ≤ max → requeued max batch q = q ++ batch.
Proof.
  revert q. induction batch as [| x batch IH]; intros q Hl; simpl in *; [by rewrite app_nil_r |].
  unfold spec_push. rewrite keep_last_all by (rewrite length_app; simpl; lia).
  rewrite IH by (rewrite length_app; simpl; lia). by rewrite <-app_assoc.
Qed.

(** What went out stays out. *)
Lemma drain_spec_sent max n room q c q' c' e :
  drain_spec max n room q c = (q', c') → e ∈ sent_events c → e ∈ sent_events c'.
Proof.
  unfold drain_spec, sent_events. case_decide; [by intros [= <- <-] |].
  destruct (outbound_tx c) as [o |] eqn:Ho; [| by intros [= <- <-] ?%elem_of_nil].
  destruct (takes room o) as [k |]; [case_decide |]; intros [= <- <-] He; apply elem_of_app; by left.
Qed.

(** The events of a batch go on the wire. *)
Lemma parsed_on_wire batch x ev :
  x ∈ batch → wire_event x = Some ev → ev ∈ proto_events (parse_events batch).
Proof.
  intros Hb Hev. unfold wire_event in Hev. destruct (from_slice x) as [v |] eqn:Hv; [| done]. simpl in Hev.
  unfold proto_events. apply list_elem_of_omap. exists v. split; [| done].
  unfold parse_events. apply list_elem_of_omap. exists x. by rewrite Hv.
Qed.

(** Where the events of a queue are after a tick. *)
Lemma drain_spec_keeps max n room q c x ev :
  length q ≤ max → x ∈ q → wire_event x = Some ev →
  let '(q', c') := drain_spec max n room q c in
  length q' ≤ length q ∧ (x ∈ q' ∨ ev ∈ sent_events c') ∧
  (∀ e, e ∈ sent_events c → e ∈ sent_events c') ∧ (∀ y, y ∈ q' → y ∈ q).
Proof.
  intros Hlen Hx Hev. unfold drain_spec.
  set (batch := take n q). set (rest := drop n q).
  assert (batch ++ rest = q) as Hq by apply take_drop.
  assert (length batch + length rest = length q) as Hql by (rewrite <-Hq, length_app; done).
  assert (x ∈ batch ∨ x ∈ rest) as Hin by (rewrite <-elem_of_app, Hq; done).
  assert (x ∈ batch → ev ∈ proto_events (parse_events batch)) as Hbatch by (intros; by eapply parsed_on_wire).
  assert (∀ y, y ∈ rest → y ∈ q) as Hrest by (intros y; rewrite <-Hq, elem_of_app; by right).
  assert (requeued max batch rest = rest ++ batch) as Hre by (apply requeued_app; lia).
  assert (∀ y, y ∈ rest ++ batch → y ∈ q) as Hback by (intros y; rewrite <-Hq, !elem_of_app; tauto).
  assert (length (rest ++ batch) ≤ length q) as Hbl by (rewrite length_app; lia).
  assert (x ∈ rest ++ batch) as Hxb by (rewrite elem_of_app; tauto).
  case_decide as Hp.
  { assert (x ∈ rest) as Hxr. { destruct Hin as [Hb |]; [| done]. specialize (Hbatch Hb). rewrite Hp in Hbatch. by apply elem_of_nil in Hbatch. }
    split_and!; [lia | by left | done | done]. }
  rewrite Hre.
  destruct (outbound_tx c) as [o |] eqn:Ho; [| split_and!; [done | by left | done | done]].
  assert (sent_events c = ob_sent o) as -> by (unfold sent_events; by rewrite Ho).
  unfold sent_events. destruct (takes room o) as [k |]; [case_decide |]; simpl; split_and!; try done; try lia.
  - destruct Hin as [Hb | Hr]; [right; rewrite elem_of_app; right; auto | by left].
  - intros e. rewrite elem_of_app. tauto.
  - by left.
  - intros e. rewrite elem_of_app. tauto.
  - destruct Hin as [Hb | Hr]; [right; rewrite elem_of_app; right; auto | by left].
  - intros e. rewrite elem_of_app. tauto.
Qed.

Lemma requeued_bounds max batch q :
  length (requeued max batch q) ≤ length q + length batch ∧
  (∀ y, y ∈ requeued max batch q → y ∈ q ∨ y ∈ batch).
Proof.
  revert q. induction batch as [| x batch IH]; intros q; simpl; [split; [lia | by left] |].
  destruct (IH (spec_push max x q)) as [IH1 IH2].
  assert (∀ y, y ∈ spec_push max x q → y ∈ q ∨ y = x) as Hp.
  { unfold spec_push, keep_last. intros y Hy.
    apply subseteq_drop in Hy. by apply elem_of_app in Hy as [? | ?%list_elem_of_singleton]; [left | right]. }
  pose proof (spec_push_length max x q). split; [lia |].
  intros y [Hy | Hy]%IH2; [| right; by right].
  destruct (Hp y Hy) as [? | ->]; [by left | right; by left].
Qed.

Lemma drain_spec_bounds max n room q c :
  length (drain_spec max n room q c).1 ≤ length q ∧
  (∀ y, y ∈ (drain_spec max n room q c).1 → y ∈ q).
Proof.
  assert (length (drop n q) ≤ length q ∧ ∀ y, y ∈ drop n q → y ∈ q) as Hdrop.
  { split; [rewrite length_drop; lia | intros y; apply subseteq_drop]. }
  assert (length (requeued max (take n q) (drop n q)) ≤ length q ∧
          ∀ y, y ∈ requeued max (take n q) (drop n q) → y ∈ q) as Hreq.
  { destruct (requeued_bounds max (take n q) (drop n q)) as [Hb Hi]. split.
    - rewrite length_drop, length_take in Hb. lia.
    - intros y [? | ?]%Hi; [by eapply subseteq_drop | by eapply subseteq_take]. }
  unfold drain_spec. case_decide; [exact Hdrop |].
  destruct (outbound_tx c) as [o |]; [| exact Hreq].
  destruct (takes room o); [case_decide |]; simpl; done.
Qed.
End drain_spec_lemmas.

Section drain_lemmas.
Context `{SerdeJson} (looks_numeric : string → bool).

Lemma requeue_represents env i max batch t q :
  rq_faults env = (λ _, no_push_faults) →
  represents t q → (0 ≤ max < 2 ^ 63)%Z → Forall (λ x, looks_numeric x = false) batch →
  (seq t + Z.of_nat (length batch) ≤ i64_max)%Z → (Z.of_nat (length q) ≤ seq t)%Z →
  represents (requeue looks_numeric env i max batch t) (requeued (Z.to_nat max) batch q) ∧
  seq (requeue looks_numeric env i max batch t) = (seq t + Z.of_nat (length batch))%Z.
Proof.
  intros Hf. revert i t q. induction batch as [| x batch IH]; intros i t q Hr Hmax Hx Hs Hl.
  { simpl. split; [done | lia]. }
  inversion Hx; subst. simpl in *. rewrite Hf.
  destruct (push_represents looks_numeric max t q x (rq_now env i)) as (t' & Hp & Hr' & Hs'); try done; [lia | lia |].
  rewrite Hp. simpl. pose proof (spec_push_length (Z.to_nat max) x q).
  destruct (IH (S i) t' (spec_push (Z.to_nat max) x q)) as [IH1 IH2]; try done; [lia | lia |].
  split; [done | lia].
Qed.

(** The arithmetic that keeps the table's ids in range during a tick. *)
Definition table_ok (n : nat) (t : table) (q : list string) : Prop :=
  represents t q ∧ (seq t + Z.of_nat n ≤ i64_max)%Z ∧ (Z.of_nat (length q) ≤ seq t)%Z ∧
  Forall (λ x, looks_numeric x = false) q.

Lemma drain_tick_spec now max n room t q c :
  table_ok n t q → (0 ≤ max < 2 ^ 63)%Z → (Z.of_nat n ≤ i64_max)%Z →
  let '(t', c') := drain_tick looks_numeric no_drain_faults (quiet now) max (Z.of_nat n) room (t, c) in
  represents t' (drain_spec (Z.to_nat max) n room q c).1 ∧
  c' = (drain_spec (Z.to_nat max) n room q c).2 ∧
  (seq t ≤ seq t' ≤ seq t + Z.of_nat n)%Z.
Proof.
  intros (Hr & Hs & Hl & Hx) Hmax Hn. unfold drain_tick, drain_spec.
  destruct (drain_represents t q n Hr Hn) as (t1 & Hd & Hr1 & Hs1). rewrite Hd.
  assert (length (take n q) ≤ n) as Hle by (rewrite length_take; lia).
  destruct (requeue_represents (quiet now) 0 max (take n q) t1 (drop n q)) as [Hq1 Hq2]; try done.
  { by apply Forall_take. } { lia. } { rewrite length_drop. lia. }
  destruct (decide (take n q = [])) as [He | He].
  { rewrite He. rewrite decide_True by done. simpl. split_and!; [done | done | lia | lia]. }
  case_decide as Hp; [simpl; split_and!; [done | done | lia | lia] |].
  unfold send_events. destruct (outbound_tx c) as [o |]; [| simpl; split_and!; [done | done | lia | lia]].
  rewrite send_loop_spec. simpl.
  destruct (takes room o) as [k |]; [case_decide |]; simpl; split_and!; done || lia.
Qed.

End drain_lemmas.

Section drain_ticks.
Context `{SerdeJson} (looks_numeric : string → bool).

(** Ticks of the drain loop over one connection, [rooms] being what the channel
    takes at each. *)
Fixpoint drain_ticks (now max : Z) (n : nat) (rooms : list (option nat)) (s : table * FleetClient)
    : table * FleetClient :=
  match rooms with
  | [] => s
  | room :: rooms =>
      drain_ticks now max n rooms
        (drain_tick looks_numeric no_drain_faults (quiet now) max (Z.of_nat n) room s)
  end.

Fixpoint drain_specs (max n : nat) (rooms : list (option nat)) (s : list string * FleetClient)
    : list string * FleetClient :=
  match rooms with
  | [] => s
  | room :: rooms => drain_specs max n rooms (drain_spec max n room s.1 s.2)
  end.

Lemma drain_ticks_specs now max n rooms t q c :
  table_ok looks_numeric (n * length rooms) t q → (0 ≤ max < 2 ^ 63)%Z → (Z.of_nat n ≤ i64_max)%Z →
  let '(t', c') := drain_ticks now max n rooms (t, c) in
  represents t' (drain_specs (Z.to_nat max) n rooms (q, c)).1 ∧
  c' = (drain_specs (Z.to_nat max) n rooms (q, c)).2.
Proof.
  intros Hok Hmax Hn. revert t q c Hok.
  induction rooms as [| room rooms IH]; intros t q c Hok; [by destruct Hok |].
  assert (table_ok looks_numeric n t q) as Hok1.
  { destruct Hok as (? & ? & ? & ?). split_and!; try done. cbn [length] in *. lia. }
  pose proof (drain_tick_spec looks_numeric now max n room t q c Hok1 Hmax Hn) as Hs.
  destruct Hok as (_ & Hseq & Hl & Hx).
  cbn [drain_ticks drain_specs fst snd].
  destruct (drain_tick _ _ _ _ _ room (t, c)) as [t1 c1]. destruct Hs as (Hr1 & -> & Hs1).
  destruct (drain_spec_bounds (Z.to_nat max) n room q c) as [Hlen Hsub].
  destruct (drain_spec (Z.to_nat max) n room q c) as [q1 c1] eqn:Hd. simpl in *.
  apply IH. split_and!; [done | lia | lia |].
  apply Forall_forall. intros y Hy. rewrite Forall_forall in Hx. auto.
Qed.

(** Over an open channel each tick sends a batch. *)
Lemma drain_specs_open max n k q c o :
  0 < n → length q ≤ n * k → outbound_tx c = Some o → ob_closed o = false →
  (drain_specs max n (replicate k None) (q, c)).1 = [] ∧
  sent_events (drain_specs max n (replicate k None) (q, c)).2
  = ob_sent o ++ proto_events (parse_events q).
Proof.
  intros Hn. revert q c o. induction k as [| k IH]; intros q c o Hlen Ho Hc; simpl.
  { destruct q; simpl in Hlen; [| lia]. unfold sent_events. rewrite Ho. by rewrite app_nil_r. }
  assert (drain_spec max n None q c
          = (drop n q, match decide (parse_events (take n q) = []) with
                       | left _ => c
                       | right _ => set_outbound (Outbound (ob_sent o ++ proto_events (parse_events (take n q))) false) c
                       end)) as ->.
  { unfold drain_spec. case_decide; [done |]. rewrite Ho. unfold takes. by rewrite Hc. }
  assert (proto_events (parse_events q)
          = proto_events (parse_events (take n q)) ++ proto_events (parse_events (drop n q))) as Hsplit.
  { unfold proto_events, parse_events. by rewrite <-!omap_app, take_drop. }
  assert (length (drop n q) ≤ n * k) by (rewrite length_drop; lia).
  case_decide as Hp.
  - destruct (IH (drop n q) c o) as [IH1 IH2]; try done. split; [done |].
    simpl in *. rewrite IH2, Hsplit, Hp. done.
  - destruct (IH (drop n q) (set_outbound (Outbound (ob_sent o ++ proto_events (parse_events (take n q))) false) c)
      (Outbound (ob_sent o ++ proto_events (parse_events (take n q))) false)) as [IH1 IH2]; try done.
    split; [done |]. simpl in *. by rewrite IH2, Hsplit, <-app_assoc.
Qed.
End drain_ticks.

(** ** The command listener *)

Section listener_lemmas.
Context `{Nft}.
Context (metadata_value : string → result string string).
#[local] Abbreviation cmd_step := (cmd_step metadata_value).
#[local] Abbreviation listen := (listen metadata_value).
#[local] Abbreviation poll_step := (poll_step metadata_value).

(** The reader only adds messages behind those that wait. *)
Lemma read_inbound_queue ws i : ∃ new, ib_queue (read_inbound ws i) = ib_queue i ++ new.
Proof.
  revert i. induction ws as [| [msg | | e] ws IH]; intros i; simpl.
  - exists []. by rewrite app_nil_r.
  - destruct (IH (Inbound (ib_queue i ++ [msg]) (ib_closed i))) as [new Hn]. simpl in Hn.
    exists (msg :: new). by rewrite Hn, <-app_assoc.
  - exists []. by rewrite app_nil_r.
  - exists []. by rewrite app_nil_r.
Qed.

Lemma deliver_waiting ws c :
  waiting (deliver ws c) = waiting c ++ drop (length (waiting c)) (waiting (deliver ws c)).
Proof.
  assert (∃ new, waiting (deliver ws c) = waiting c ++ new) as [new Hn].
  { unfold deliver, waiting. destruct (inbound_rx c) as [i |] eqn:Hi.
    - destruct (ib_closed i); [exists []; rewrite Hi; by rewrite app_nil_r |].
      simpl. apply read_inbound_queue.
    - exists []. by rewrite Hi. }
  rewrite Hn. by rewrite drop_app_length.
Qed.

(** A poll takes the head of the queue, or finds it empty. *)
Lemma poll_waiting m d l :
  (∃ msg, waiting (fleet l) = msg :: waiting (fleet (poll_step m d l).1) ∧
          host_nft (poll_step m d l).1 = (handle m msg (host_nft l)).2) ∨
  (waiting (fleet l) = [] ∧ waiting (fleet (poll_step m d l).1) = [] ∧
   host_nft (poll_step m d l).1 = host_nft l).
Proof.
  unfold Agent.poll_step, try_receive, waiting. destruct (inbound_rx (fleet l)) as [i |] eqn:Hi.
  - destruct (ib_queue i) as [| msg q] eqn:Hq; [| left; exists msg; done].
    right. split; [done |]. destruct (ib_closed i); [| simpl; rewrite Hi; done].
    destruct (dial_ok metadata_value (token (fleet l)) d) eqn:Hd.
    + by rewrite connect_ok.
    + unfold connect, mbind, SE_bind, FleetClient.fault_check.
      destruct (dial_fault d); simpl; [by rewrite Hi |].
      destruct (token (fleet l)); simpl; [| done].
      destruct (metadata_value _); simpl; [| by rewrite Hi].
      destruct (stream_fault d); simpl; [by rewrite Hi | done].
  - right. split; [done |].
    unfold connect, mbind, SE_bind, FleetClient.fault_check.
    destruct (dial_fault d); simpl; [by rewrite Hi |].
    destruct (token (fleet l)); simpl; [| done].
    destruct (metadata_value _); simpl; [| by rewrite Hi].
    destruct (stream_fault d); simpl; [by rewrite Hi | done].
Qed.

Lemma handle_all_app m xs ys s : handle_all m (xs ++ ys) s = handle_all m ys (handle_all m xs s).
Proof. revert s. induction xs as [| x xs IH]; intros s; [done |]. apply IH. Qed.

(** A pass keeps the token and the node id. *)
Lemma cmd_step_identity m e l t :
  token (fleet l) = Some t →
  token (fleet (cmd_step m e l)) = Some t ∧ node_id (fleet (cmd_step m e l)) = node_id (fleet l) ∧
  endpoint (fleet (cmd_step m e l)) = endpoint (fleet l).
Proof.
  intros Ht. destruct e as [ws | d]; simpl.
  - unfold deliver. destruct (inbound_rx (fleet l)); [destruct (ib_closed _) |]; done.
  - unfold Agent.poll_step. destruct (try_receive (fleet l)) as [r c] eqn:Hr.
    assert (token c = Some t ∧ node_id c = node_id (fleet l) ∧ endpoint c = endpoint (fleet l)) as (Hc & Hn & He).
    { unfold try_receive in Hr. destruct (inbound_rx (fleet l)) as [i |]; [| by simplify_eq].
      destruct (ib_queue i); [destruct (ib_closed i) |]; by simplify_eq. }
    destruct r as [[msg |] | e]; simpl; [done | done |]. rewrite Hc.
    destruct (dial_ok metadata_value (Some t) d) eqn:Hd.
    + by rewrite connect_ok.
    + destruct (connect_err metadata_value d (Some t) c Hd) as (e' & c' & -> & Hcc & Htok).
      simpl. split; [by apply Htok |]. unfold connected in Hcc. injection Hcc as ? ?. split; congruence.
Qed.
End listener_lemmas.

(** ** The configuration file *)

Lemma trim_keeps_head c s : is_ws c = false → ∃ r, trim (String c s) = String c r.
Proof.
  intros Hc. unfold trim. cbn [drop_while]. rewrite Hc. cbn [drop_end_while].
  destruct (drop_end_while is_ws s) as [| d t]; [rewrite Hc |]; by eexists.
Qed.

Lemma node_id_line_facts id :
  String.eqb (trim (node_id_line id)) "[agent]" = false ∧ starts_with "node_id" (node_id_line id) = true.
Proof.
  split.
  - destruct (trim_keeps_head "n"%char ("ode_id = " +:+ dquote +:+ id +:+ dquote)) as [r Hr]; [done |].
    change (node_id_line id) with (String "n"%char ("ode_id = " +:+ dquote +:+ id +:+ dquote)).
    rewrite Hr. reflexivity.
  - unfold node_id_line. exact (starts_with_app "node_id" (" = " +:+ dquote +:+ id +:+ dquote)).
Qed.

(** The loop changes one line, or none, and then the section ran to the end. *)
Lemma save_loop_spec new in_agent lines ls a i :
  save_loop new in_agent lines = (ls, a, i) →
  (i = true ∧ a = true ∧ ∃ pre post,
     ls = pre ++ [new] ++ post ∧
     (∀ rest, String.eqb (trim new) "[agent]" = false → starts_with "node_id" new = true →
        find_node_line in_agent (pre ++ new :: rest) = Some new) ∧
     ((find_node_line in_agent lines = None ∧ lines = pre ++ post) ∨
      ∃ old, find_node_line in_agent lines = Some old ∧ lines = pre ++ [old] ++ post)) ∨
  (i = false ∧ ls = lines ∧ find_node_line in_agent lines = None ∧
   (in_agent = true ∨ Exists (λ l, String.eqb (trim l) "[agent]" = true) lines → a = true) ∧
   (a = true → ∀ rest, find_node_line in_agent (lines ++ rest) = find_node_line true rest)).
Proof.
  revert in_agent ls a i. induction lines as [| l lines IH]; intros in_agent ls a i Hs; simpl in Hs.
  { simplify_eq. right. split_and!; [done | done | done | |].
    - intros [? | ?%Exists_nil]; done.
    - intros -> rest. done. }
  destruct (String.eqb (trim l) "[agent]") eqn:Hl.
  { destruct (save_loop new true lines) as [[ls' a'] i'] eqn:Hr. simplify_eq.
    destruct (IH _ _ _ _ Hr) as [(-> & -> & pre & post & -> & Hf & Hold) | (-> & -> & Hn & Ha & Hf)].
    - left. split_and!; [done | done |]. exists (l :: pre), post. split_and!; [done | |].
      + intros rest H1 H2. cbn [app find_node_line]. rewrite Hl. by apply Hf.
      + destruct Hold as [[Ho ->] | (old & Ho & ->)]; cbn [find_node_line]; rewrite Hl;
          [left; done | right; by exists old].
    - right. split_and!; [done | done | | |]; cbn [app find_node_line]; rewrite ?Hl; [done | |].
      + intros _. apply Ha. by left.
      + intros Hat rest. by apply Hf. }
  destruct (in_agent && starts_with "node_id" l) eqn:Hn.
  { simplify_eq. apply andb_true_iff in Hn as [-> Hn]. left. split_and!; [done | done |].
    exists [], lines. split_and!; [done | |].
    - intros rest H1 H2. cbn [app find_node_line]. by rewrite H1, H2.
    - right. exists l. cbn [find_node_line]. by rewrite Hl, Hn. }
  destruct (in_agent && starts_with "[" l) eqn:Hb.
  { simplify_eq. apply andb_true_iff in Hb as [-> Hb]. left. split_and!; [done | done |].
    exists [], (l :: lines). split_and!; [done | |].
    - intros rest H1 H2. cbn [app find_node_line]. by rewrite H1, H2.
    - left. cbn [find_node_line]. by rewrite Hl, Hn, Hb. }
  destruct (save_loop new in_agent lines) as [[ls' a'] i'] eqn:Hr. simplify_eq.
  destruct (IH _ _ _ _ Hr) as [(-> & -> & pre & post & -> & Hf & Hold) | (-> & -> & Hnn & Ha & Hf)].
  - left. split_and!; [done | done |]. exists (l :: pre), post. split_and!; [done | |].
    + intros rest H1 H2. cbn [app find_node_line]. rewrite Hl, Hn, Hb. by apply Hf.
    + destruct Hold as [[Ho ->] | (old & Ho & ->)]; cbn [find_node_line]; rewrite Hl, Hn, Hb;
        [left; done | right; by exists old].
  - right. split_and!; [done | done | | |]; cbn [app find_node_line]; rewrite ?Hl, ?Hn, ?Hb; [done | |].
    + intros [? | Hex]; [apply Ha; by left |]. apply Ha. right.
      apply Exists_cons in Hex as [? |]; [congruence | done].
    + intros Hat rest. by apply Hf.
Qed.

(** ** Properties *)

(** C2 (refinement): a tick of the drain loop on the SQLite table is the tick on the
    abstract queue: a batch that is sent leaves the buffer; a batch that cannot
    all be sent, even when some of its events went out, comes back whole behind
    the waiting events; a batch without a parsable event is dropped. *)
Theorem drain_tick_refines `{SerdeJson} nm now max n room t q c :
  table_ok nm n t q → (0 ≤ max < 2 ^ 63)%Z → (Z.of_nat n ≤ i64_max)%Z →
  let '(t', c') := drain_tick nm no_drain_faults (quiet now) max (Z.of_nat n) room (t, c) in
  represents t' (drain_spec (Z.to_nat max) n room q c).1 ∧
  c' = (drain_spec (Z.to_nat max) n room q c).2.
Proof.
  intros Hok Hmax Hn. pose proof (drain_tick_spec nm now max n room t q c Hok Hmax Hn) as Hs.
  destruct (drain_tick _ _ _ _ _ _ _) as [t' c']. by destruct Hs as (? & ? & _).
Qed.

(** The example agent: one event in the buffer, and a stream. *)
Definition example_serde : SerdeJson :=
  table_serde [("e1", JObject [("event_type", json_int 1); ("payload", JNull); ("sequence_id", JString "s1")])] "null".
Definition example_table : table := Table [Row 1 (SqlText "e1") 0] 1.
Definition example_client : FleetClient := connected (Some "tok") (FleetClient.new "http://fleet").
Definition example_event : AgentEvent := mkEvent "" "process" "null" 0 "s1".

Lemma example_table_ok n : (Z.of_nat n ≤ 100)%Z → table_ok (λ _, false) n example_table ["e1"].
Proof.
  intros Hn. split_and!; [| cbn [example_table EventBuffer.seq]; unfold i64_max; lia | done | by repeat constructor].
  split; [| done]. split_and!; simpl; [repeat constructor | repeat constructor; simpl; lia |].
  unfold i64_max. lia.
Qed.

#[local] Existing Instance example_serde.

Lemma drain_tick_refines_witness :
  let '(t', c') := drain_tick (λ _, false) no_drain_faults (quiet 9) 10 (Z.of_nat 1) (Some 0) (example_table, example_client) in
  represents t' ["e1"] ∧ c' = set_outbound (Outbound [] true) example_client.
Proof.
  refine (drain_tick_refines (λ _, false) 9 10 1 (Some 0) example_table ["e1"] example_client _ _ _).
  - apply example_table_ok. lia.
  - lia.
  - unfold i64_max. lia.
Defined.

#[local] Remove Hints example_serde : typeclass_instances.

(** Over any ticks on one connection, however often the channel closes,
    an event of the buffer whose text parses is still in the buffer or went into
    the channel, as long as the buffer is within its capacity. *)
Theorem drain_delivers_or_keeps `{SerdeJson} nm now max n rooms t q c x ev :
  table_ok nm (n * length rooms) t q → (0 ≤ max < 2 ^ 63)%Z → (Z.of_nat n ≤ i64_max)%Z →
  (Z.of_nat (length q) ≤ max)%Z → x ∈ q → wire_event x = Some ev →
  let '(t', c') := drain_ticks nm now max n rooms (t, c) in
  (∃ q', represents t' q' ∧ x ∈ q') ∨ ev ∈ sent_events c'.
Proof.
  intros Hok Hmax Hn Hlen Hx Hev.
  pose proof (drain_ticks_specs nm now max n rooms t q c Hok Hmax Hn) as Hs.
  destruct (drain_ticks nm now max n rooms (t, c)) as [t' c']. destruct Hs as [Hr ->].
  enough (x ∈ (drain_specs (Z.to_nat max) n rooms (q, c)).1 ∨
          ev ∈ sent_events (drain_specs (Z.to_nat max) n rooms (q, c)).2) as [? | ?]; [left; eauto | by right |].
  assert (x ∈ q ∨ ev ∈ sent_events c) as Hinv by (by left).
  assert (length q ≤ Z.to_nat max) as Hle by lia.
  clear -Hinv Hle Hev. revert q c Hinv Hle.
  induction rooms as [| room rooms IH]; intros q c Hinv Hle; [done |]. cbn [drain_specs fst snd].
  destruct (drain_spec (Z.to_nat max) n room q c) as [q1 c1] eqn:Hd.
  assert (length q1 ≤ length q) as Hq1.
  { pose proof (drain_spec_bounds (Z.to_nat max) n room q c) as [Hb _]. by rewrite Hd in Hb. }
  apply IH; [| lia]. destruct Hinv as [Hx | Hs].
  - pose proof (drain_spec_keeps (Z.to_nat max) n room q c x ev Hle Hx Hev) as Hk. rewrite Hd in Hk.
    tauto.
  - right. by eapply drain_spec_sent.
Qed.

#[local] Existing Instance example_serde.

Lemma drain_delivers_or_keeps_witness :
  let '(t', c') := drain_ticks (λ _, false) 9 10 1 [Some 0; None] (example_table, example_client) in
  (∃ q', represents t' q' ∧ "e1" ∈ q') ∨ example_event ∈ sent_events c'.
Proof.
  refine (drain_delivers_or_keeps (λ _, false) 9 10 1 [Some 0; None] example_table ["e1"]
    example_client "e1" example_event _ _ _ _ _ _).
  - apply example_table_ok. simpl. lia.
  - lia.
  - unfold i64_max. lia.
  - simpl. lia.
  - by left.
  - reflexivity.
Defined.

#[local] Remove Hints example_serde : typeclass_instances.

(** C9 (liveness): over a channel that stays open, enough ticks empty the buffer, and the
    events went out in the order they were buffered. *)
Theorem open_channel_drains_all `{SerdeJson} nm now max n k t q c o :
  table_ok nm (n * k) t q → (0 ≤ max < 2 ^ 63)%Z → (Z.of_nat n ≤ i64_max)%Z →
  0 < n → length q ≤ n * k → outbound_tx c = Some o → ob_closed o = false →
  let '(t', c') := drain_ticks nm now max n (replicate k None) (t, c) in
  represents t' [] ∧ sent_events c' = ob_sent o ++ proto_events (parse_events q).
Proof.
  intros Hok Hmax Hn Hpos Hlen Ho Hc.
  pose proof (drain_ticks_specs nm now max n (replicate k None) t q c) as Hs.
  rewrite length_replicate in Hs. specialize (Hs Hok Hmax Hn).
  destruct (drain_ticks _ _ _ _ _ _) as [t' c']. destruct Hs as [Hr ->].
  destruct (drain_specs_open (Z.to_nat max) n k q c o Hpos Hlen Ho Hc) as [Hq Hsent].
  by rewrite Hq in Hr.
Qed.

#[local] Existing Instance example_serde.

Lemma open_channel_drains_all_witness :
  let '(t', c') := drain_ticks (λ _, false) 9 10 5 (replicate 2 None) (example_table, example_client) in
  represents t' [] ∧ sent_events c' = [example_event].
Proof.
  refine (open_channel_drains_all (λ _, false) 9 10 5 2 example_table ["e1"]
    example_client (Outbound [] false) _ _ _ _ _ _ _).
  - apply example_table_ok. simpl. lia.
  - lia.
  - unfold i64_max. lia.
  - lia.
  - simpl. lia.
  - reflexivity.
  - reflexivity.
Defined.

#[local] Remove Hints example_serde : typeclass_instances.

(** The wire event of a text that parses to the collector's event. *)
Lemma wire_of_parsed `{SerdeJson} uuid r s payload :
  from_slice s = Ok (json_object [
    ("node_id", JString (agent_uuid r)); ("event_type", json_int 0); ("payload", result_json r);
    ("timestamp_ns", json_int (timestamp_ns r)); ("sequence_id", JString uuid)]) →
  fits_i 64 (timestamp_ns r) → to_vec (result_json r) = Ok payload →
  wire_event s = Some (mkEvent (agent_uuid r) "osquery" payload (timestamp_ns r) uuid).
Proof.
  intros Hs Hts Hp. unfold wire_event. rewrite Hs. simpl. unfold proto_event, index, json_object. simpl.
  change (JObject [("action", _); ("agent_uuid", _); ("query_name", _); ("rows", _); ("timestamp_ns", _)])
    with (result_json r). rewrite Hp. simpl. unfold json_int, fits_i in *. simpl in Hts.
  destruct (Z.leb_spec 0 (timestamp_ns r)); simpl; [| done].
  destruct (Z.ltb_spec (timestamp_ns r) (2 ^ 63)); [done | lia].
Qed.

(** What the collector's result is on the wire: when parsing
    gives back the object that was written, the event sent carries the agent's id, the
    result's time, the type "osquery", the fresh sequence id and the result itself
    as payload. *)
Theorem osquery_result_on_the_wire `{SerdeJson} uuid r s payload :
  (∀ text, to_vec (agent_event_json uuid r) = Ok text → from_slice text = Ok (json_object [
    ("node_id", JString (agent_uuid r)); ("event_type", json_int 0); ("payload", result_json r);
    ("timestamp_ns", json_int (timestamp_ns r)); ("sequence_id", JString uuid)])) →
  encode_osquery_result uuid r = Some s →
  fits_i 64 (timestamp_ns r) → to_vec (result_json r) = Ok payload →
  wire_event s = Some (mkEvent (agent_uuid r) "osquery" payload (timestamp_ns r) uuid).
Proof.
  intros Hround Henc Hts Hp. unfold encode_osquery_result in Henc.
  destruct (to_vec (agent_event_json uuid r)) as [text |]; [| done]. injection Henc as ->.
  by apply wire_of_parsed; [apply Hround | |].
Qed.

Lemma osquery_result_on_the_wire_witness :
  let r := mkResult "users" "agent-7" 5 [] Snapshot in
  let parsed := json_object [
    ("node_id", JString "agent-7"); ("event_type", json_int 0); ("payload", result_json r);
    ("timestamp_ns", json_int 5); ("sequence_id", JString "u1")] in
  @wire_event (table_serde [("text", parsed)] "text") "text"
  = Some (mkEvent "agent-7" "osquery" "text" 5 "u1").
Proof.
  intros r parsed.
  refine (@osquery_result_on_the_wire (table_serde [("text", parsed)] "text") "u1" r "text" "text" _ _ _ _).
  - intros text Ht. injection Ht as <-. reflexivity.
  - reflexivity.
  - unfold fits_i. simpl. lia.
  - reflexivity.
Defined.

(** The polling loop buffers every result it takes, those waiting at shutdown
    included, in order; the buffer keeps the newest within its capacity. *)
Theorem osquery_loop_buffers `{SerdeJson} nm max polls t q :
  represents t q → (0 ≤ max < 2 ^ 63)%Z →
  Forall (λ a, ar_faults a = no_push_faults ∧
    ∀ s, encode_osquery_result (ar_uuid a) (ar_result a) = Some s → nm s = false) (taken polls) →
  (seq t + Z.of_nat (length (taken polls)) ≤ i64_max)%Z → (Z.of_nat (length q) ≤ seq t)%Z →
  represents (osquery_loop nm max polls t)
    (requeued (Z.to_nat max) (omap (λ a, encode_osquery_result (ar_uuid a) (ar_result a)) (taken polls)) q).
Proof.
  intros Hr Hmax.
  assert (osquery_loop nm max polls t = foldl (buffer_result nm max) t (taken polls)) as ->.
  { clear Hr. revert t. induction polls as [| [a | | pending] polls IH]; intros t; [done | apply IH | done | done]. }
  revert t q Hr. induction (taken polls) as [| a l IH]; intros t q Hr Hall Hs Hl; [done |].
  inversion Hall as [| ?? [Hf Hnm] Hall']; subst. cbn [length] in Hs. cbn [foldl omap list_omap].
  change (list_omap arrival string (λ a, encode_osquery_result (ar_uuid a) (ar_result a)) l)
    with (omap (M:=list) (λ a, encode_osquery_result (ar_uuid a) (ar_result a)) l).
  unfold buffer_result at 2. destruct (encode_osquery_result _ _) as [s |].
  - rewrite Hf. destruct (push_represents nm max t q s (ar_now a)) as (t' & Hp & Hr' & Hs'); try done; [lia | lia | auto |].
    rewrite Hp. cbn [snd]. pose proof (spec_push_length (Z.to_nat max) s q).
    apply (IH t' (spec_push (Z.to_nat max) s q)); try done; lia.
  - apply (IH t q); try done. lia.
Qed.

Lemma osquery_loop_buffers_witness :
  let r := mkResult "users" "agent-7" 5 [] Snapshot in
  let a := Arrival r "u1" no_push_faults 3 in
  represents (@osquery_loop example_serde (λ _, false) 1 [Received a; Cancelled [a]] (Table [] 0)) ["null"].
Proof.
  intros r a.
  refine (@osquery_loop_buffers example_serde (λ _, false) 1 [Received a; Cancelled [a]] (Table [] 0) [] _ _ _ _ _).
  - split; [| done]. split_and!; simpl; [constructor | done | done].
  - lia.
  - repeat constructor.
  - simpl. unfold i64_max. lia.
  - simpl. lia.
Defined.

(** C29 (safety): however messages arrive, connections close and reconnections fail, the
    commands carried out are, in order and once each, the messages that arrived
    less those that still wait. *)
Theorem commands_in_order `{Nft} metadata_value m es l :
  ∃ handled,
    host_nft (listen metadata_value m es l) = handle_all m handled (host_nft l) ∧
    waiting (fleet l) ++ arrived metadata_value m es l
    = handled ++ waiting (fleet (listen metadata_value m es l)).
Proof.
  revert l. induction es as [| e es IH]; intros l.
  { exists []. simpl. by rewrite app_nil_r. }
  destruct (IH (cmd_step metadata_value m e l)) as (handled & Hn & Hw). cbn [listen arrived].
  destruct e as [ws | d].
  - exists handled. split; [done |]. rewrite <-Hw, app_assoc. f_equal. symmetry. apply deliver_waiting.
  - cbn [app]. destruct (poll_waiting metadata_value m d l) as [(msg & Hq & Hs) | (Hq & Hq' & Hs)].
    + exists (msg :: handled). cbn [handle_all]. rewrite Hn, Hq. cbn [cmd_step] in *. rewrite Hs.
      split; [done |]. by rewrite <-!app_comm_cons, Hw.
    + exists handled. cbn [cmd_step] in *. rewrite Hn, Hs, Hq. split; [done |].
      rewrite <-Hw, Hq'. done.
Qed.

(** The listener reconnects with the token of the enrolment for ever: no
    failure makes it enrol again or forget its node id, and it sleeps at least
    100 ms and at most 12.8 s after each failure, longer for more failures. *)
Theorem listener_keeps_identity `{Nft} metadata_value m es l t :
  token (fleet l) = Some t →
  token (fleet (listen metadata_value m es l)) = Some t ∧
  node_id (fleet (listen metadata_value m es l)) = node_id (fleet l) ∧
  (∀ n, (1 ≤ n)%Z → (100 ≤ backoff_ms n ≤ 12800)%Z ∧ (backoff_ms n ≤ backoff_ms (n + 1))%Z).
Proof.
  intros Ht. assert (∀ n, (1 ≤ n)%Z → (100 ≤ backoff_ms n ≤ 12800)%Z ∧ (backoff_ms n ≤ backoff_ms (n + 1))%Z) as Hb.
  { intros n Hn. unfold backoff_ms, CMD_BACKOFF_BASE_MS, CMD_MAX_BACKOFF_ERRORS, CMD_BACKOFF_CEILING_MS.
    pose proof (Z.pow_le_mono_r 2 1 (Z.min n 8)). pose proof (Z.pow_le_mono_r 2 (Z.min n 8) (Z.min (n + 1) 8)).
    change (2 ^ 1)%Z with 2%Z in *. lia. }
  revert l Ht. induction es as [| e es IH]; intros l Ht; [done |]. cbn [listen].
  destruct (cmd_step_identity metadata_value m e l t Ht) as (Ht1 & Hn1 & _).
  destruct (IH _ Ht1) as (? & Hn & ?). rewrite Hn. done.
Qed.

Lemma listener_keeps_identity_witness :
  let c := FleetClient.Client "http://fleet" true None (Some (Inbound [] true)) (Some "n1") (Some "tok") in
  let l := @listen KernelNft.kernel_nft Ok (Manager (V4 10 0 0 1) 50051)
             [Poll (Dial (Some "refused") None); Poll (Dial None (Some "unavailable"))]
             (@Listener KernelNft.kernel_nft 0 c (KernelNft.Kernel None true)) in
  token (fleet l) = Some "tok" ∧ node_id (fleet l) = Some "n1".
Proof.
  intros c l.
  destruct (@listener_keeps_identity KernelNft.kernel_nft Ok (Manager (V4 10 0 0 1) 50051)
    [Poll (Dial (Some "refused") None); Poll (Dial None (Some "unavailable"))]
    (@Listener KernelNft.kernel_nft 0 c (KernelNft.Kernel None true)) "tok" eq_refl) as (H1 & H2 & _).
  exact (conj H1 H2).
Defined.

(** Saving the node id in a configuration with an [agent] section makes the section's
    node id line the new one, and changes no other line: the line is added, or
    replaces the one found before. *)
Theorem save_node_id_reads_back id lines :
  Exists (λ l, String.eqb (trim l) "[agent]" = true) lines →
  find_node_line false (save_lines id lines) = Some (node_id_line id) ∧
  ∃ pre post, save_lines id lines = pre ++ [node_id_line id] ++ post ∧
    ((find_node_line false lines = None ∧ lines = pre ++ post) ∨
     ∃ old, find_node_line false lines = Some old ∧ lines = pre ++ [old] ++ post).
Proof.
  intros Hex. unfold save_lines. destruct (node_id_line_facts id) as [Hnot Hstart].
  destruct (save_loop (node_id_line id) false lines) as [[ls a] i] eqn:Hs.
  destruct (save_loop_spec _ _ _ _ _ _ Hs)
    as [(-> & -> & pre & post & -> & Hf & Hold) | (-> & -> & Hn & Ha & Hf)].
  - simpl. split; [by apply Hf | eauto].
  - rewrite Ha in * by (by right). simpl. split.
    + rewrite Hf by done. cbn [find_node_line]. by rewrite Hnot, Hstart.
    + exists lines, []. split; [done | left]. by rewrite app_nil_r.
Qed.

Lemma save_node_id_reads_back_witness :
  find_node_line false (save_lines "7d" ["[agent]"; "name = 1"; "[fleet]"; "node_id = 2"])
  = Some (node_id_line "7d").
Proof.
  refine (proj1 (save_node_id_reads_back "7d" ["[agent]"; "name = 1"; "[fleet]"; "node_id = 2"] _)).
  left. reflexivity.
Defined.

(** A phase that connects leaves the client of a dial that succeeded. *)
Lemma connect_phase_ok metadata_value fuel cfg dials tok c c' :
  connect_phase metadata_value fuel cfg dials tok c = Some (Ok c') →
  c' = connected tok c ∧ ∃ k, dial_ok metadata_value tok (dials k) = true.
Proof.
  unfold connect_phase, connect_with_retry. destruct (retry_loop _ _ _ _ _ _ _ _ _ _) as [[[[] ds] c1] |] eqn:Hr;
    [| done..]. intros [= <-]. by eapply retry_connected.
Qed.

(** What a start-up that succeeds has done. *)
Lemma boot_ok metadata_value parse_uuid fuel cfg force env c written :
  boot metadata_value parse_uuid fuel cfg force env = Some (Ok (c, written)) →
  ∃ host resp id,
    be_hostname env = Ok host ∧
    be_rpc env (secret_metadata metadata_value (enrollment_secret_of cfg))
      (Registration host (be_os_version env) (be_version env) (be_machine_id env)) = Ok resp ∧
    parse_uuid (rr_node_id resp) = Ok id ∧
    c = connected (Some (rr_token resp))
          (FleetClient.Client (fl_endpoint (cfg_fleet cfg)) true None None (Some id) None) ∧
    (∃ k, dial_ok metadata_value (Some (rr_token resp)) (be_dials2 env k) = true) ∧
    match written with
    | None => ag_node_id (cfg_agent cfg) = Some id ∧ force = false
    | Some s => ∃ content, be_file env = Ok content ∧ s = save_node_id_to_config id content
    end.
Proof.
  unfold boot. destruct (connect_phase _ _ _ (be_dials1 env) _ _) as [[c1 | e] |] eqn:H1; simpl; [| done..].
  apply connect_phase_ok in H1 as [-> _]. destruct (be_hostname env) as [host | e]; [| done].
  unfold enroll_with_secret, mbind, SE_bind. simpl.
  destruct (be_rpc env _ _) as [resp | e] eqn:Hrpc; [| done].
  destruct (parse_uuid (rr_node_id resp)) as [id | e] eqn:Hid; simpl; [| done].
  destruct (save_phase cfg force env id) as [w | e] eqn:Hsave; [| done].
  destruct (connect_phase _ _ _ (be_dials2 env) _ _) as [[c2 | e] |] eqn:H2; simpl; [| done..].
  apply connect_phase_ok in H2 as [-> Hdial]. intros [= <- <-].
  exists host, resp, id. split_and!; [done | done | done | done | done |]. unfold save_phase in Hsave.
  destruct (negb (bool_decide (ag_node_id (cfg_agent cfg) = Some id)) || force) eqn:Hb.
  - destruct (be_file env) as [content |]; [| done]. destruct (be_write_fault env); [done |].
    simplify_eq. by exists content.
  - simplify_eq. apply orb_false_iff in Hb as [Hb ->]. apply negb_false_iff, bool_decide_eq_true in Hb. done.
Qed.

(** A phase of connecting ends, and gives up only when every allowed dial fails. *)
Lemma connect_phase_total metadata_value fuel cfg dials tok c :
  (0 < fl_max_reconnect_attempts (cfg_fleet cfg) < 2 ^ 32)%Z →
  (0 ≤ 32 * fl_reconnect_interval_secs (cfg_fleet cfg) < 2 ^ 64)%Z →
  Z.to_nat (fl_max_reconnect_attempts (cfg_fleet cfg)) ≤ fuel →
  connect_phase metadata_value fuel cfg dials tok c = Some (Ok (connected tok c)) ∨
  (∃ e, connect_phase metadata_value fuel cfg dials tok c = Some (Err e)) ∧
  ∀ i, i < Z.to_nat (fl_max_reconnect_attempts (cfg_fleet cfg)) → dial_ok metadata_value tok (dials i) = false.
Proof.
  intros Hmax Hbase Hfuel. unfold connect_phase.
  destruct (retry_total metadata_value (fl_max_reconnect_attempts (cfg_fleet cfg))
    (fl_reconnect_interval_secs (cfg_fleet cfg) * 1000000000) dials tok c fuel)
    as [[ds ->] | [(e & ds & c' & ->) Hall]];
    [lia | unfold duration_max; lia | lia | lia | by left | right; eauto].
Qed.

(** C31 (termination): with a limit on reconnections, start-up always ends. When it succeeds
    the agent holds the node id and the token of the server's reply and an open event
    stream, and the node id was written to the configuration exactly when it changed or
    a new enrolment was asked for. It fails only when one of its steps does: with a host
    name, a readable and writable configuration, a well-formed reply of the server, and one
    of the allowed dials answering before and after the enrolment, it does not fail. *)
Theorem boot_outcome metadata_value parse_uuid fuel cfg force env :
  let max := Z.to_nat (fl_max_reconnect_attempts (cfg_fleet cfg)) in
  let secret := secret_metadata metadata_value (enrollment_secret_of cfg) in
  let req host := Registration host (be_os_version env) (be_version env) (be_machine_id env) in
  (0 < fl_max_reconnect_attempts (cfg_fleet cfg) < 2 ^ 32)%Z →
  (0 ≤ 32 * fl_reconnect_interval_secs (cfg_fleet cfg) < 2 ^ 64)%Z →
  max ≤ fuel →
  ∃ r, boot metadata_value parse_uuid fuel cfg force env = Some r ∧
  match r with
  | Err _ => ∀ host resp id content k1 k2,
      be_hostname env = Ok host → be_rpc env secret (req host) = Ok resp →
      parse_uuid (rr_node_id resp) = Ok id → be_file env = Ok content → be_write_fault env = None →
      k1 < max → dial_ok metadata_value None (be_dials1 env k1) = true →
      k2 < max → dial_ok metadata_value (Some (rr_token resp)) (be_dials2 env k2) = false
  | Ok (c, written) => ∃ host resp id,
      be_hostname env = Ok host ∧ be_rpc env secret (req host) = Ok resp ∧
      parse_uuid (rr_node_id resp) = Ok id ∧
      c = connected (Some (rr_token resp))
            (FleetClient.Client (fl_endpoint (cfg_fleet cfg)) true None None (Some id) None) ∧
      match written with
      | None => ag_node_id (cfg_agent cfg) = Some id ∧ force = false
      | Some s => ∃ content, be_file env = Ok content ∧ s = save_node_id_to_config id content
      end
  end.
Proof.
  intros max secret req Hmax Hbase Hfuel.
  pose proof (λ dials tok c, connect_phase_total metadata_value fuel cfg dials tok c Hmax Hbase Hfuel) as Hphase.
  pose proof (boot_ok metadata_value parse_uuid fuel cfg force env) as Hok. unfold boot in *.
  destruct (Hphase (be_dials1 env) None (FleetClient.new (fl_endpoint (cfg_fleet cfg)))) as [H1 | [[e H1] Hall]];
    rewrite H1 in *; simpl in *.
  2: { eexists. split; [done |]. intros ? ? ? ? k1 ? _ _ _ _ _ Hk Hd. rewrite (Hall k1 Hk) in Hd. done. }
  destruct (be_hostname env) as [host | e]; [| by eexists].
  unfold enroll_with_secret, mbind, SE_bind in *. simpl in *. fold secret in Hok |- *. fold (req host) in Hok |- *.
  destruct (be_rpc env secret (req host)) as [resp | e] eqn:Hrpc; [| eexists; split; [done |]; congruence].
  destruct (parse_uuid (rr_node_id resp)) as [id | e] eqn:Hid; simpl in *;
    [| eexists; split; [done |]; congruence].
  destruct (save_phase cfg force env id) as [written | e] eqn:Hsave.
  2: { eexists. split; [done |]. intros ? ? ? content ? ? _ _ _ Hf Hw. unfold save_phase in Hsave.
       rewrite Hf, Hw in Hsave. destruct (_ || _); done. }
  match goal with |- context [connect_phase _ _ _ (be_dials2 env) ?tok ?c] =>
    destruct (Hphase (be_dials2 env) tok c) as [H2 | [[e H2] Hall]] end; rewrite H2 in *; simpl in *.
  2: { eexists. split; [done |]. intros ? resp' ? ? ? ? [= <-] Hr. rewrite Hrpc in Hr. injection Hr as <-. eauto. }
  eexists. split; [done |]. destruct (Hok _ _ eq_refl) as (h & r & i & ? & ? & ? & ? & _ & ?).
  by exists h, r, i.
Qed.

Definition example_config : AgentConfig :=
  mkAgentConfig
    (mkAgentSection None "a" "info" "json" "/var/log" "/var/lib/a" "/var/lib/a/e.db" 1000 100 5 (ServerSection "127.0.0.1" 9100))
    (mkOsquerySection "/s" "/c" "/etc/aigis-zero/osquery.flags" "/p" "/l" 30 60)
    (mkFleetSection "fleet" 50051 "http://fleet:50051" "secret" "/ca" None None 60 10 3)
    (mkIsolationSection true "10.0.0.1" 50051).
Definition example_boot : boot_env :=
  BootEnv (λ _, Dial None None) (λ _, Dial None None) (λ _ _, Ok (RegResponse "n1" "tok")) (Ok "host") "Linux" "m1" "0.1"
    (Ok ("[agent]" +:+ nl)) None.

Lemma boot_outcome_witness :
  ∃ r, boot Ok Ok 3 example_config false example_boot = Some r.
Proof.
  destruct (boot_outcome Ok Ok 3 example_config false example_boot) as (r & Hr & _).
  - simpl. lia.
  - simpl. lia.
  - simpl. lia.
  - by exists r.
Defined.
