(* ===== verification/AgentSystem.v ===== *)
(** * The agent as concurrent tasks
      (agent/crates/agent-core/src/lib.rs, agent/crates/agent-bin/src/main.rs)

    The osquery loop, the command listener, the heartbeat loop, the drain loop and
    the reader of the event stream share the SQLite table and, behind a mutex, the
    fleet client.  One label is what a task does while it holds the lock it needs;
    the drain loop's tick is the three actions of taking a batch, sending it, and
    putting it back, between which the other tasks run. *)
From Stdlib Require Import ZArith Lia.
From S2P Require Import Prelude Json EventBuffer FleetServer Osquery Isolation FleetClient Agent.
#[local] Open Scope string_scope.
#[local] Open Scope list_scope.
#[local] Open Scope nat_scope.

Section agent.
Context `{SerdeJson} `{Nft}.
Context (looks_numeric : string → bool) (metadata_value : string → result string string).
(** [event_buffer_max], [event_drain_batch], the isolation manager, the node id. *)
Context (max batch_size : Z) (manager : IsolationManager) (own_id : string).

(** Where the drain loop is: between ticks, with a batch before the send, or
    putting the rest of a batch back, the fleet client locked. *)
Inductive drain_state := Between | Sending (batch : list string) | Requeueing (rest : list string).

(** [accepted] and [on_wire] are history: the strings pushed by the osquery loop,
    and what went into the outbound channel of any connection. *)
Record agent := AgentState {
  table_of : table; lst : listener; draining : drain_state;
  accepted : list string; on_wire : list AgentEvent }.

Inductive label :=
  (* the osquery loop buffers a result *)
  | Push (a : arrival)
  (* the drain loop: [buffer.drain], [send_events], one [buffer.push] of the batch *)
  | Take (fl : drain_faults)
  | Send (room : option nat)
  | PutBack (fl : push_faults) (now : Z)
  (* the command listener polls, or the reader task delivers *)
  | Listen (e : cmd_event)
  (* the heartbeat loop *)
  | Beat (len_fault : option string) (rpc : metadata → AgentHeartbeat → result bool string).

Definition with_fleet (c : FleetClient) (l : listener) : listener :=
  Listener (consecutive_errors l) c (host_nft l).

(** The fleet client is locked while a batch is put back. *)
Definition locked (e : agent) : bool :=
  match draining e with Requeueing _ => true | _ => false end.

Definition fire (l : label) (e : agent) : option agent :=
  match l with
  | Push a =>
      Some (AgentState (buffer_result looks_numeric max (table_of e) a) (lst e) (draining e)
              (match encode_osquery_result (ar_uuid a) (ar_result a) with
               | Some json => accepted e ++ [json] | None => accepted e end) (on_wire e))
  | Take fl =>
      match draining e with
      | Between =>
          match drain fl batch_size (table_of e) with
          | (Err _, t) => Some (AgentState t (lst e) Between (accepted e) (on_wire e))
          | (Ok events, t) =>
              Some (AgentState t (lst e)
                (if decide (events = []) then Between
                 else if decide (parse_events events = []) then Between
                 else Sending events) (accepted e) (on_wire e))
          end
      | _ => None
      end
  | Send room =>
      match draining e with
      | Sending events =>
          let '(r, c) := send_events room (parse_events events) (fleet (lst e)) in
          let next := match r with
                      | Ok ack => if success ack then Between else Requeueing events
                      | Err _ => Requeueing events
                      end in
          Some (AgentState (table_of e) (with_fleet c (lst e)) next (accepted e)
                  (on_wire e ++ drop (length (sent_events (fleet (lst e)))) (sent_events c)))
      | _ => None
      end
  | PutBack fl now =>
      match draining e with
      | Requeueing (x :: rest) =>
          Some (AgentState (push looks_numeric fl max now x (table_of e)).2 (lst e) (Requeueing rest)
                  (accepted e) (on_wire e))
      | Requeueing [] => Some (AgentState (table_of e) (lst e) Between (accepted e) (on_wire e))
      | _ => None
      end
  | Listen (Deliver ws) =>
      Some (AgentState (table_of e) (cmd_step metadata_value manager (Deliver ws) (lst e)) (draining e)
              (accepted e) (on_wire e))
  | Listen (Poll d) =>
      if locked e then None
      else Some (AgentState (table_of e) (cmd_step metadata_value manager (Poll d) (lst e)) (draining e)
                   (accepted e) (on_wire e))
  | Beat len_fault rpc =>
      if locked e then None
      else
        let '(_, c) := heartbeat_tick metadata_value len_fault rpc own_id (table_of e) (fleet (lst e)) in
        Some (AgentState (table_of e) (with_fleet c (lst e)) (draining e) (accepted e) (on_wire e))
  end.

(** The disk works, no event's text reads as a number, row ids are not used up. *)
Definition no_faults (fl : push_faults) : bool :=
  match fl with PushFaults None None None => true | _ => false end.

Definition reliable (e : agent) (l : label) : bool :=
  match l with
  | Push a =>
      no_faults (ar_faults a) && (seq (table_of e) <? i64_max)%Z
      && match encode_osquery_result (ar_uuid a) (ar_result a) with
         | Some json => negb (looks_numeric json)
         | None => true
         end
  | PutBack fl _ => no_faults fl && (seq (table_of e) <? i64_max)%Z
  | _ => true
  end.

(** The state of main before it spawns the tasks: the events found in the file. *)
Definition started (t : table) (q : list string) (l : listener) : agent := AgentState t l Between q [].

(** The batch the drain loop holds. *)
Definition held (e : agent) : list string :=
  match draining e with Between => [] | Sending batch => batch | Requeueing rest => rest end.

(** ** Lemmas *)

(** A drain that succeeds met no fault. *)
Lemma drain_succeeds fl n t events t' :
  drain fl n t = (Ok events, t') → drain no_drain_faults n t = (Ok events, t').
Proof.
  unfold drain. destruct (begin_fault fl); [done |]. unfold drain_tx, mbind, SE_bind, gets, fault_check.
  destruct (select_fault fl); [done |]. simpl.
  destruct (i64_max <? n)%Z; [done |]. destruct (read_rows _) as [[ids es] | err]; [| done].
  destruct (decide (ids = [])); simpl.
  - by destruct (commit_fault fl).
  - destruct (remove_fault fl); [done |]. simpl. by destruct (commit_fault fl).
Qed.

(** The drain loop's actions without another task in between are its tick. *)
Lemma put_back_run fl now rest e :
  draining e = Requeueing rest →
  fire_all fire any_order (replicate (S (length rest)) (PutBack fl now)) e =
  Some (AgentState (requeue looks_numeric (RequeueEnv (λ _, fl) (λ _, now)) 0 max rest (table_of e)) (lst e)
          Between (accepted e) (on_wire e)).
Proof.
  assert (∀ i j l t, requeue looks_numeric (RequeueEnv (λ _, fl) (λ _, now)) i max l t =
                     requeue looks_numeric (RequeueEnv (λ _, fl) (λ _, now)) j max l t) as Hij.
  { intros i j l. revert i j. induction l as [| x l IH]; intros i j t; [done |]. simpl. apply IH. }
  revert e. induction rest as [| x rest IH]; intros e Hd.
  - simpl. by rewrite Hd.
  - change (replicate (S (length (x :: rest))) (PutBack fl now))
      with (PutBack fl now :: replicate (S (length rest)) (PutBack fl now)).
    cbn [fire_all fire]. rewrite Hd. cbn [mbind option_bind]. rewrite IH by done. simpl. by rewrite (Hij 1 0).
Qed.

Lemma tick_is_a_run fl fl2 now room e :
  draining e = Between →
  ∃ ls e', fire_all fire any_order ls e = Some e' ∧ draining e' = Between ∧
    (table_of e', fleet (lst e')) =
    drain_tick looks_numeric fl (RequeueEnv (λ _, fl2) (λ _, now)) max batch_size room (table_of e, fleet (lst e)).
Proof.
  intros Hd. unfold drain_tick. destruct (drain fl batch_size (table_of e)) as [[events | err] t] eqn:Hdr.
  2: { eexists [Take fl], _. cbn [fire_all fire]. rewrite Hd, Hdr. by split_and!. }
  case_decide as He.
  { eexists [Take fl], _. cbn [fire_all fire]. rewrite Hd, Hdr. rewrite decide_True by done. by split_and!. }
  case_decide as Hp.
  { eexists [Take fl], _. cbn [fire_all fire]. rewrite Hd, Hdr. rewrite decide_False, decide_True by done. by split_and!. }
  destruct (send_events room (parse_events events) (fleet (lst e))) as [r c] eqn:Hs.
  destruct (match r with Ok ack => success ack | Err _ => false end) eqn:Hr.
  - eexists [Take fl; Send room], _. cbn [fire_all fire]. rewrite Hd, Hdr, !decide_False by done.
    cbn [mbind option_bind draining lst table_of]. rewrite Hs. destruct r as [ack |]; [rewrite Hr | done]. by split_and!.
  - set (e1 := AgentState t (with_fleet c (lst e)) (Requeueing events) (accepted e)
      (on_wire e ++ drop (length (sent_events (fleet (lst e)))) (sent_events c))).
    assert (fire_all fire any_order ([Take fl; Send room] ++ replicate (S (length events)) (PutBack fl2 now)) e =
            fire_all fire any_order (replicate (S (length events)) (PutBack fl2 now)) e1) as Hgo.
    { cbn [app fire_all fire]. rewrite Hd, Hdr, !decide_False by done.
      cbn [mbind option_bind draining lst table_of]. rewrite Hs. by destruct r as [ack |]; [rewrite Hr |]. }
    rewrite (put_back_run fl2 now events e1 eq_refl) in Hgo. eexists _, _. split; [exact Hgo |].
    split; [done |]. by destruct r as [ack |]; [rewrite Hr |].
Qed.

Lemma send_events_sent room evs c :
  let '(r, c') := send_events room evs c in
  (∃ more, sent_events c' = sent_events c ++ more) ∧
  (is_ok r = true → sent_events c' = sent_events c ++ proto_events evs).
Proof.
  unfold send_events, sent_events. destruct (outbound_tx c) as [o |] eqn:Ho.
  - rewrite send_loop_spec. simpl. destruct (takes room o) as [k |]; [case_decide |]; simpl.
    + split; [by eexists | done].
    + split; [by eexists | done].
    + split; [by eexists | done].
  - rewrite Ho. split; [exists []; by rewrite app_nil_r | done].
Qed.

(** Every accepted event is stored, held by the drain loop, or on the wire; the
    first two are at most as many as were accepted. *)
Definition kept (e : agent) : Prop :=
  ∃ q, represents (table_of e) q ∧
    length q + length (held e) ≤ length (accepted e) ∧
    Forall (λ x, looks_numeric x = false) (q ++ held e) ∧
    ∀ x ev, x ∈ accepted e → wire_event x = Some ev → x ∈ q ++ held e ∨ ev ∈ on_wire e.

Hypothesis Hmax : (0 ≤ max < 2 ^ 63)%Z.
Hypothesis Hbatch : (0 ≤ batch_size ≤ i64_max)%Z.

(** A push into a table with room. *)
Lemma push_kept fl t q x now :
  no_faults fl = true → (seq t <? i64_max)%Z = true → looks_numeric x = false →
  represents t q → (Z.of_nat (length q) < max)%Z →
  represents (push looks_numeric fl max now x t).2 (q ++ [x]).
Proof.
  intros Hfl Hs%Z.ltb_lt Hx Hr Hl.
  assert (fl = no_push_faults) as -> by (by destruct fl as [[] [] []]).
  destruct (push_represents looks_numeric max t q x now Hr Hs Hmax) as (t' & -> & Hr' & _);
    [unfold i64_max; lia | done |].
  simpl. revert Hr'. unfold spec_push. rewrite keep_last_all; [done |]. rewrite length_app. simpl. lia.
Qed.

Lemma push_step_kept a e json :
  reliable e (Push a) = true → encode_osquery_result (ar_uuid a) (ar_result a) = Some json →
  (Z.of_nat (length (accepted e)) < max)%Z → kept e →
  kept (AgentState (buffer_result looks_numeric max (table_of e) a) (lst e) (draining e)
          (accepted e ++ [json]) (on_wire e)).
Proof.
  intros Hok Hj Hroom (q & Hr & Hl & Hn & Hk). simpl in Hok. rewrite Hj in Hok.
  apply andb_true_iff in Hok as [[Hfl Hs]%andb_true_iff Hx%negb_true_iff].
  unfold buffer_result. rewrite Hj. exists (q ++ [json]). simpl. split_and!.
  - apply push_kept; try done. lia.
  - rewrite !length_app. simpl. unfold held in *. simpl. lia.
  - revert Hn. unfold held. simpl. rewrite !Forall_app. intros [? ?]. by repeat constructor.
  - intros x ev. rewrite elem_of_app, list_elem_of_singleton. unfold held in *. simpl.
    intros [Hin | ->] Hev.
    + destruct (Hk x ev Hin Hev) as [Hx'%elem_of_app |]; [left | by right]. rewrite !elem_of_app. tauto.
    + left. rewrite !elem_of_app, list_elem_of_singleton. tauto.
Qed.

Lemma take_step_kept fl e events t :
  drain fl batch_size (table_of e) = (Ok events, t) → draining e = Between → kept e →
  kept (AgentState t (lst e)
    (if decide (events = []) then Between
     else if decide (parse_events events = []) then Between else Sending events) (accepted e) (on_wire e)).
Proof.
  intros Hd%drain_succeeds Hb (q & Hr & Hl & Hn & Hk). unfold held in *. rewrite Hb, app_nil_r in *.
  destruct (drain_represents (table_of e) q (Z.to_nat batch_size) Hr) as (t' & Hd' & Hr' & _); [lia |].
  rewrite Z2Nat.id in Hd' by lia. rewrite Hd in Hd'. injection Hd' as -> ->.
  pose proof (take_drop (Z.to_nat batch_size) q) as Hq. pose proof (f_equal length Hq) as Hql. rewrite length_app in Hql.
  simpl in Hl. exists (drop (Z.to_nat batch_size) q). simpl. split_and!; [done | | |].
  - unfold held. repeat case_decide; simpl; lia.
  - rewrite <-Hq in Hn. apply Forall_app in Hn as [? ?]. unfold held. repeat case_decide; simpl; apply Forall_app; auto.
  - intros x ev Hin Hev. destruct (Hk x ev Hin Hev) as [Hxq | ?]; [| by right]. left.
    rewrite <-Hq, elem_of_app in Hxq. rewrite elem_of_app.
    destruct Hxq as [Hx | Hx]; [| by left]. unfold held. case_decide as He; [| case_decide as Hp]; simpl; [| | by right].
    + rewrite He in Hx. by apply elem_of_nil in Hx.
    + pose proof (parsed_on_wire _ _ _ Hx Hev) as Hw. rewrite Hp in Hw. by apply elem_of_nil in Hw.
Qed.

Lemma send_step_kept room events r c e :
  send_events room (parse_events events) (fleet (lst e)) = (r, c) → draining e = Sending events → kept e →
  kept (AgentState (table_of e) (with_fleet c (lst e))
    match r with
    | Ok ack => if success ack then Between else Requeueing events
    | Err _ => Requeueing events
    end (accepted e) (on_wire e ++ drop (length (sent_events (fleet (lst e)))) (sent_events c))).
Proof.
  intros Hs Hd (q & Hr & Hl & Hn & Hk). pose proof (send_events_sent room (parse_events events) (fleet (lst e))) as Hse.
  rewrite Hs in Hse. destruct Hse as [_ Hok]. unfold held in *. rewrite Hd in *.
  destruct r as [ack | err]; [destruct (success ack) |].
  2,3: exists q; simpl; split_and!; try done; intros x ev Hin Hev; rewrite (elem_of_app (on_wire e));
       destruct (Hk x ev Hin Hev); auto.
  rewrite Hok by done. rewrite drop_app_length. exists q. simpl. rewrite app_nil_r.
  split_and!; [done | lia | by apply Forall_app in Hn as [? _] |].
  intros x ev Hin Hev. rewrite !elem_of_app in *.
  destruct (Hk x ev Hin Hev) as [[?|Hx]%elem_of_app | ?]; [by left | | right; by left].
  right. right. by eapply parsed_on_wire.
Qed.

Lemma put_back_kept fl now x rest e :
  reliable e (PutBack fl now) = true → draining e = Requeueing (x :: rest) →
  (Z.of_nat (length (accepted e)) ≤ max)%Z → kept e →
  kept (AgentState (push looks_numeric fl max now x (table_of e)).2 (lst e) (Requeueing rest)
          (accepted e) (on_wire e)).
Proof.
  intros [Hfl Hs]%andb_true_iff Hd Hroom (q & Hr & Hl & Hn & Hk). unfold held in *. rewrite Hd in *.
  simpl in Hl. apply Forall_app in Hn as [Hnq [Hnx Hnr]%Forall_cons].
  exists (q ++ [x]). unfold held. simpl. split_and!.
  - apply push_kept; try done. lia.
  - rewrite length_app. simpl. lia.
  - rewrite <-app_assoc. simpl. apply Forall_app. auto.
  - intros y ev Hin Hev. rewrite <-app_assoc. by apply Hk.
Qed.

Lemma fire_accepted l e e' : fire l e = Some e' → accepted e `prefix_of` accepted e'.
Proof.
  intros Hf. destruct l as [a | fl | room | fl now | [ws | d] | lf rpc]; cbn [fire] in Hf.
  1: injection Hf as <-; cbn [accepted]; case_match; [by apply prefix_app_r |]; done.
  all: repeat case_match; by simplify_eq.
Qed.

Lemma reached_accepted ok e0 e : reached fire ok e0 e → accepted e0 `prefix_of` accepted e.
Proof. induction 1 as [| e l e' _ IH _ Hf]; [done |]. etrans; [exact IH | by eapply fire_accepted]. Qed.

Lemma fire_kept l e e' :
  reliable e l = true → fire l e = Some e' → (Z.of_nat (length (accepted e')) ≤ max)%Z → kept e → kept e'.
Proof.
  intros Hok Hf Hroom Hk. destruct l as [a | fl | room | fl now | [ws | d] | lf rpc]; cbn [fire] in Hf.
  - injection Hf as <-. cbn [accepted] in *. destruct (encode_osquery_result _ _) as [json |] eqn:Hj.
    + rewrite length_app in *. cbn [length] in *. apply push_step_kept; try done. lia.
    + unfold buffer_result. rewrite Hj. by destruct e.
  - destruct (draining e) eqn:Hd; try discriminate Hf.
    destruct (drain fl batch_size (table_of e)) as [[events | err] t] eqn:Hdr; injection Hf as <-.
    + by eapply take_step_kept.
    + assert (t = table_of e) as ->
        by (destruct (drain_cases fl batch_size (table_of e)) as [[e0 Hd0] | (es & _ & _ & Hd0)]; congruence).
      destruct e. simpl in *. by subst.
  - destruct (draining e) as [| events |] eqn:Hd; try discriminate Hf.
    destruct (send_events room (parse_events events) (fleet (lst e))) as [r c] eqn:Hs. injection Hf as <-.
    by eapply send_step_kept.
  - destruct (draining e) as [| | [| x rest]] eqn:Hd; try discriminate Hf; injection Hf as <-.
    + destruct Hk as (q & Hk). exists q. unfold held in *. by rewrite Hd in Hk.
    + by apply put_back_kept.
  - by injection Hf as <-.
  - destruct (locked e); [done |]. by injection Hf as <-.
  - destruct (locked e); [done |]. destruct (heartbeat_tick _ _ _ _ _ _) as [r c]. by injection Hf as <-.
Qed.

Lemma reachable_kept e0 e :
  reached fire reliable e0 e → (Z.of_nat (length (accepted e)) ≤ max)%Z → kept e0 → kept e.
Proof.
  induction 1 as [| e l e' Hr IH Hok Hf]; intros Hroom Hk; [done |].
  pose proof (prefix_length _ _ (fire_accepted _ _ _ Hf)). apply (fire_kept l e); try done. apply IH; [lia | done].
Qed.

Lemma accepted_located t q l e :
  represents t q → Forall (λ x, looks_numeric x = false) q →
  reached fire reliable (started t q l) e →
  (Z.of_nat (length (accepted e)) ≤ max)%Z →
  ∀ x ev, x ∈ accepted e → wire_event x = Some ev →
    SqlText x ∈ row_payload <$> EventBuffer.rows (table_of e) ∨ x ∈ held e ∨ ev ∈ on_wire e.
Proof.
  intros Hr Hn He Hroom x ev Hx Hev.
  destruct (reachable_kept _ _ He Hroom) as (q' & [_ Hq] & _ & _ & Hk).
  { exists q. unfold held, started. simpl. rewrite app_nil_r. split_and!; [done | lia | done |].
    intros. by left. }
  destruct (Hk x ev Hx Hev) as [[Hin | Hin]%elem_of_app | Hin]; [left | by right; left | by right; right].
  rewrite Hq. by apply list_elem_of_fmap_2.
Qed.

(** ** Properties *)

(** C4 (safety): whatever the interleaving of the osquery loop, the drain loop, the
    command listener with its reconnections, the reader and the heartbeats, and
    however often the outbound channel closes, as long as the accepted events fit
    the buffer and its disk works when it is written: every event that was pushed and
    parses is stored, held by the drain loop's tick in progress, or went into an
    outbound channel. *)
Theorem no_interleaving_loses_events t q l e :
  represents t q → Forall (λ x, looks_numeric x = false) q →
  reached fire reliable (started t q l) e →
  (Z.of_nat (length (accepted e)) ≤ max)%Z →
  ∀ x ev, x ∈ accepted e → wire_event x = Some ev →
    SqlText x ∈ row_payload <$> EventBuffer.rows (table_of e) ∨ x ∈ held e ∨ ev ∈ on_wire e.
Proof.
  intros. by eapply accepted_located.
Qed.
End agent.

(** *** An agent whose stream closes under a batch *)
#[local] Existing Instance example_serde.
#[local] Existing Instance KernelNft.kernel_nft.
Definition example_manager : IsolationManager := Manager (V4 127 0 0 1) 50051.
Definition example_listener : listener := Listener 0 example_client (KernelNft.Kernel None true).

(** The send fails, the listener's reconnection waits for the lock, the batch comes
    back, and goes out over the next connection. *)
Definition example_fire := fire (λ _, false) Ok 10 1 example_manager "n1".
Definition example_all := fire_all example_fire.
Definition example_start : agent := started example_table ["e1"] example_listener.
Definition example_steps : list label :=
  [Take no_drain_faults; Listen (Deliver [StreamEnd]); Send (Some 0); PutBack no_push_faults 5;
   PutBack no_push_faults 6; Listen (Poll (Dial None None)); Take no_drain_faults; Send None].
Definition example_state (n : nat) : agent :=
  default example_start (example_all (reliable (λ _, false)) (take n example_steps) example_start).

Lemma no_interleaving_loses_events_witness :
  let e := example_state 5 in
  held e = [] ∧ sent_events (fleet (lst e)) = [] ∧
  (SqlText "e1" ∈ row_payload <$> EventBuffer.rows (table_of e) ∨ "e1" ∈ held e ∨ example_event ∈ on_wire e).
Proof.
  intros e. split; [by vm_compute |]. split; [by vm_compute |].
  refine (no_interleaving_loses_events (λ _, false) Ok 10 1 example_manager "n1" _ _ example_table ["e1"]
            example_listener e _ _ _ _ "e1" example_event _ _).
  - lia.
  - unfold i64_max. lia.
  - apply (example_table_ok 0). lia.
  - by repeat constructor.
  - eapply fire_all_reached; [apply reached_start |]. instantiate (1 := take 5 example_steps).
    vm_cast_no_check (@eq_refl (option agent) (Some e)).
  - vm_compute. by intros.
  - by left.
  - by vm_compute.
Defined.
