(* ===== verification/ConfigFile.v ===== *)
(** * The agent's configuration file (agent-core/src/config.rs, agent.toml)

    The derived [Deserialize] of [AgentConfig] on the tree that the toml crate (0.8)
    parses a file to, and what a configuration read from a file guarantees: its
    numbers are in the ranges that the buffer and the drain loop rely on.  The
    parser from text to tree is the toml crate's, and an argument. *)
From Stdlib Require Import ZArith Lia.
From S2P Require Import Prelude EventBuffer Osquery Isolation FleetClient Agent.
#[local] Open Scope string_scope.
#[local] Open Scope list_scope.
#[local] Open Scope nat_scope.

(** ** Trees *)

(** TOML integers are signed and of 64 bits; keys of a table are distinct. *)
Inductive toml :=
  | TomlString (s : string)
  | TomlInteger (z : Z)
  | TomlFloat (text : string)
  | TomlBoolean (b : bool)
  | TomlDatetime (text : string)
  | TomlArray (l : list toml)
  | TomlTable (m : list (string * toml)).

Inductive toml_error := MissingField (k : string) | InvalidType (k : string) | InvalidValue (k : string) | InvalidLength (k : string) | Syntax (e : string).

Fixpoint lookup_key (k : string) (m : list (string * toml)) : option toml :=
  match m with
  | [] => None
  | (k', v) :: m => if String.eqb k k' then Some v else lookup_key k m
  end.

(** ** Fields

    Unknown keys are ignored.  When a file has several errors the model may name
    another of them than the crate, which meets them in the file's order; a UUID
    written as an array of bytes has no case. *)

(** A field's deserializer: its value, given what the table has under its key. *)
Definition decoder (T : Type) : Type := string → option toml → result T toml_error.

Definition d_string : decoder string := λ k v,
  match v with Some (TomlString s) => Ok s | Some _ => Err (InvalidType k) | None => Err (MissingField k) end.
Definition d_bool : decoder bool := λ k v,
  match v with Some (TomlBoolean b) => Ok b | Some _ => Err (InvalidType k) | None => Err (MissingField k) end.
(** [u16], [u32], [u64]: serde converts the file's [i64]. *)
Definition d_uint (w : Z) : decoder Z := λ k v,
  match v with
  | Some (TomlInteger z) => if ((0 <=? z) && (z <? 2 ^ w))%Z then Ok z else Err (InvalidValue k)
  | Some _ => Err (InvalidType k)
  | None => Err (MissingField k)
  end.
Definition d_option {T} (d : decoder T) : decoder (option T) := λ k v,
  match v with None => Ok None | Some _ => match d k v with Ok x => Ok (Some x) | Err e => Err e end end.

Definition get_field {T} (d : decoder T) (m : list (string * toml)) (k : string) : result T toml_error :=
  d k (lookup_key k m).
(** A nested struct: a table, or an array of its fields in order. *)
Definition d_table {T} (names : list string) (read : list (string * toml) → result T toml_error) : decoder T := λ k v,
  match v with
  | Some (TomlTable m) => read m
  | Some (TomlArray l) => if length l <? length names then Err (InvalidLength k) else read (zip names l)
  | Some _ => Err (InvalidType k)
  | None => Err (MissingField k)
  end.

(** The fields of each section, as declared. *)
Definition server_names : list string := ["bind_addr"; "port"].
Definition agent_names : list string :=
  ["node_id"; "name"; "log_level"; "log_format"; "log_dir"; "data_dir"; "event_buffer_db"; "event_buffer_max";
   "event_drain_batch"; "event_drain_interval_secs"; "server"].
Definition osquery_names : list string :=
  ["socket_path"; "conf_path"; "flags_path"; "pid_file"; "log_path"; "connect_timeout_secs"; "query_timeout_secs"].
Definition fleet_names : list string :=
  ["host"; "port"; "endpoint"; "enrollment_secret"; "tls_ca_cert"; "tls_client_cert"; "tls_client_key";
   "heartbeat_interval_secs"; "reconnect_interval_secs"; "max_reconnect_attempts"].
Definition isolation_names : list string := ["enabled"; "fleet_ip"; "fleet_port"].

#[local] Notation "'let?' x ':=' e 'in' k" := (match e with Ok x => k | Err err => Err err end)
  (at level 10, x pattern, k at level 200).

Section read.
Context (parse_uuid : string → result string string).

(** [Option<Uuid>]: the text of a UUID. *)
Definition d_uuid : decoder string := λ k v,
  let? s := d_string k v in
  match parse_uuid s with Ok u => Ok u | Err _ => Err (InvalidValue k) end.

Definition read_server (m : list (string * toml)) : result AgentServerSection toml_error :=
  let? bind_addr := get_field d_string m "bind_addr" in
  let? port := get_field (d_uint 16) m "port" in
  Ok (ServerSection bind_addr port).

Definition read_agent (m : list (string * toml)) : result AgentSection toml_error :=
  let? node_id := get_field (d_option d_uuid) m "node_id" in
  let? name := get_field d_string m "name" in
  let? log_level := get_field d_string m "log_level" in
  let? log_format := get_field d_string m "log_format" in
  let? log_dir := get_field d_string m "log_dir" in
  let? data_dir := get_field d_string m "data_dir" in
  let? event_buffer_db := get_field d_string m "event_buffer_db" in
  let? event_buffer_max := get_field (d_uint 64) m "event_buffer_max" in
  let? event_drain_batch := get_field (d_uint 32) m "event_drain_batch" in
  let? event_drain_interval_secs := get_field (d_uint 64) m "event_drain_interval_secs" in
  let? server := get_field (d_table server_names read_server) m "server" in
  Ok (mkAgentSection node_id name log_level log_format log_dir data_dir event_buffer_db event_buffer_max
        event_drain_batch event_drain_interval_secs server).

Definition read_osquery (m : list (string * toml)) : result OsquerySection toml_error :=
  let? socket_path := get_field d_string m "socket_path" in
  let? conf_path := get_field d_string m "conf_path" in
  let? flags_path := get_field d_string m "flags_path" in
  let? pid_file := get_field d_string m "pid_file" in
  let? log_path := get_field d_string m "log_path" in
  let? connect_timeout_secs := get_field (d_uint 64) m "connect_timeout_secs" in
  let? query_timeout_secs := get_field (d_uint 64) m "query_timeout_secs" in
  Ok (mkOsquerySection socket_path conf_path flags_path pid_file log_path connect_timeout_secs query_timeout_secs).

Definition read_fleet (m : list (string * toml)) : result FleetSection toml_error :=
  let? host := get_field d_string m "host" in
  let? port := get_field (d_uint 16) m "port" in
  let? endpoint := get_field d_string m "endpoint" in
  let? enrollment_secret := get_field d_string m "enrollment_secret" in
  let? tls_ca_cert := get_field d_string m "tls_ca_cert" in
  let? tls_client_cert := get_field (d_option d_string) m "tls_client_cert" in
  let? tls_client_key := get_field (d_option d_string) m "tls_client_key" in
  let? heartbeat_interval_secs := get_field (d_uint 64) m "heartbeat_interval_secs" in
  let? reconnect_interval_secs := get_field (d_uint 64) m "reconnect_interval_secs" in
  let? max_reconnect_attempts := get_field (d_uint 32) m "max_reconnect_attempts" in
  Ok (mkFleetSection host port endpoint enrollment_secret tls_ca_cert tls_client_cert tls_client_key
        heartbeat_interval_secs reconnect_interval_secs max_reconnect_attempts).

Definition read_isolation (m : list (string * toml)) : result IsolationSection toml_error :=
  let? enabled := get_field d_bool m "enabled" in
  let? fleet_ip := get_field d_string m "fleet_ip" in
  let? fleet_port := get_field (d_uint 16) m "fleet_port" in
  Ok (mkIsolationSection enabled fleet_ip fleet_port).

Definition read_config (m : list (string * toml)) : result AgentConfig toml_error :=
  let? agent := get_field (d_table agent_names read_agent) m "agent" in
  let? osquery := get_field (d_table osquery_names read_osquery) m "osquery" in
  let? fleet := get_field (d_table fleet_names read_fleet) m "fleet" in
  let? isolation := get_field (d_table isolation_names read_isolation) m "isolation" in
  Ok (mkAgentConfig agent osquery fleet isolation).

(** [toml::from_str::<AgentConfig>]: [document] is the crate's parser. *)
Context (document : string → result (list (string * toml)) string).
Definition from_str (text : string) : result AgentConfig toml_error :=
  match document text with Err e => Err (Syntax e) | Ok m => read_config m end.
End read.

(** ** Specification: the tree of a configuration *)

Definition optional (k : string) (v : option string) : list (string * toml) :=
  match v with Some s => [(k, TomlString s)] | None => [] end.

Definition server_tree (c : AgentServerSection) : list (string * toml) :=
  [("bind_addr", TomlString (srv_bind_addr c)); ("port", TomlInteger (srv_port c))].
Definition agent_tree (c : AgentSection) : list (string * toml) :=
  optional "node_id" (ag_node_id c) ++
  [("name", TomlString (ag_name c)); ("log_level", TomlString (ag_log_level c));
   ("log_format", TomlString (ag_log_format c)); ("log_dir", TomlString (ag_log_dir c));
   ("data_dir", TomlString (ag_data_dir c)); ("event_buffer_db", TomlString (ag_event_buffer_db c));
   ("event_buffer_max", TomlInteger (ag_event_buffer_max c)); ("event_drain_batch", TomlInteger (ag_event_drain_batch c));
   ("event_drain_interval_secs", TomlInteger (ag_event_drain_interval_secs c));
   ("server", TomlTable (server_tree (ag_server c)))].
Definition osquery_tree (c : OsquerySection) : list (string * toml) :=
  [("socket_path", TomlString (osq_socket_path c)); ("conf_path", TomlString (osq_conf_path c));
   ("flags_path", TomlString (osq_flags_path c)); ("pid_file", TomlString (osq_pid_file c));
   ("log_path", TomlString (osq_log_path c)); ("connect_timeout_secs", TomlInteger (osq_connect_timeout_secs c));
   ("query_timeout_secs", TomlInteger (osq_query_timeout_secs c))].
Definition fleet_tree (c : FleetSection) : list (string * toml) :=
  [("host", TomlString (fl_host c)); ("port", TomlInteger (fl_port c)); ("endpoint", TomlString (fl_endpoint c));
   ("enrollment_secret", TomlString (fl_enrollment_secret c)); ("tls_ca_cert", TomlString (fl_tls_ca_cert c))] ++
  optional "tls_client_cert" (fl_tls_client_cert c) ++ optional "tls_client_key" (fl_tls_client_key c) ++
  [("heartbeat_interval_secs", TomlInteger (fl_heartbeat_interval_secs c));
   ("reconnect_interval_secs", TomlInteger (fl_reconnect_interval_secs c));
   ("max_reconnect_attempts", TomlInteger (fl_max_reconnect_attempts c))].
Definition isolation_tree (c : IsolationSection) : list (string * toml) :=
  [("enabled", TomlBoolean (iso_enabled c)); ("fleet_ip", TomlString (iso_fleet_ip c));
   ("fleet_port", TomlInteger (iso_fleet_port c))].
Definition config_tree (c : AgentConfig) : list (string * toml) :=
  [("agent", TomlTable (agent_tree (cfg_agent c))); ("osquery", TomlTable (osquery_tree (cfg_osquery c)));
   ("fleet", TomlTable (fleet_tree (cfg_fleet c))); ("isolation", TomlTable (isolation_tree (cfg_isolation c)))].

(** The integers of a tree fit TOML's 64 bits. *)
Fixpoint tree_ok (v : toml) : Prop :=
  match v with
  | TomlInteger z => fits_i 64 z
  | TomlArray l => (fix all l := match l with [] => True | v :: l => tree_ok v ∧ all l end) l
  | TomlTable m => (fix all m := match m with [] => True | (_, v) :: m => tree_ok v ∧ all m end) m
  | _ => True
  end.

(** What the types of the fields and the file can hold: each number in its width
    and, as the file's integers are signed, below 2^63. *)
Record limits (c : AgentConfig) : Prop := {
  lim_buffer : (0 ≤ ag_event_buffer_max (cfg_agent c) < 2 ^ 63)%Z;
  lim_batch : fits_u 32 (ag_event_drain_batch (cfg_agent c));
  lim_drain : (0 ≤ ag_event_drain_interval_secs (cfg_agent c) < 2 ^ 63)%Z;
  lim_server : fits_u 16 (srv_port (ag_server (cfg_agent c)));
  lim_connect : (0 ≤ osq_connect_timeout_secs (cfg_osquery c) < 2 ^ 63)%Z;
  lim_query : (0 ≤ osq_query_timeout_secs (cfg_osquery c) < 2 ^ 63)%Z;
  lim_fleet : fits_u 16 (fl_port (cfg_fleet c));
  lim_heartbeat : (0 ≤ fl_heartbeat_interval_secs (cfg_fleet c) < 2 ^ 63)%Z;
  lim_reconnect : (0 ≤ fl_reconnect_interval_secs (cfg_fleet c) < 2 ^ 63)%Z;
  lim_attempts : fits_u 32 (fl_max_reconnect_attempts (cfg_fleet c));
  lim_isolation : fits_u 16 (iso_fleet_port (cfg_isolation c)) }.

(** ** Lemmas *)

Lemma tree_ok_table m : tree_ok (TomlTable m) ↔ Forall (λ kv, tree_ok kv.2) m.
Proof.
  induction m as [| [k v] m IH]; simpl; [by split |]. rewrite Forall_cons. simpl in *. by rewrite IH.
Qed.
Lemma tree_ok_array l : tree_ok (TomlArray l) ↔ Forall tree_ok l.
Proof. induction l as [| v l IH]; simpl; [by split |]. rewrite Forall_cons. simpl in *. by rewrite IH. Qed.

Lemma lookup_key_ok k m v : tree_ok (TomlTable m) → lookup_key k m = Some v → tree_ok v.
Proof.
  rewrite tree_ok_table. induction 1 as [| [k' v'] m Hv _ IH]; simpl; [done |].
  destruct (String.eqb k k'); [by intros [= <-] | done].
Qed.

Lemma zip_ok names l : tree_ok (TomlArray l) → tree_ok (TomlTable (zip names l)).
Proof.
  rewrite tree_ok_array, tree_ok_table. intros Hl. revert names.
  induction Hl as [| v l Hv Hl IH]; intros [| n names]; simpl; constructor; auto.
Qed.

(** A nested struct is read from a table of the same well-formed tree. *)
Lemma d_table_inv {T} names (read : list (string * toml) → result T toml_error) m k x :
  tree_ok (TomlTable m) → get_field (d_table names read) m k = Ok x → ∃ m', tree_ok (TomlTable m') ∧ read m' = Ok x.
Proof.
  unfold get_field, d_table. intros Hm. destruct (lookup_key k m) as [v |] eqn:Hk; [| done].
  pose proof (lookup_key_ok _ _ _ Hm Hk) as Hv. destruct v; try done.
  - destruct (_ <? _); [done |]. intros Hr. eexists. split; [by apply zip_ok | exact Hr].
  - by eexists.
Qed.

Lemma d_uint_inv w m k z : get_field (d_uint w) m k = Ok z → fits_u w z ∧ lookup_key k m = Some (TomlInteger z).
Proof.
  unfold get_field, d_uint, fits_u. destruct (lookup_key k m) as [[] |]; try done.
  destruct (_ && _) eqn:Hz; [intros [= <-] | done]. split; [lia | done].
Qed.

Lemma d_u64_inv m k z : tree_ok (TomlTable m) → get_field (d_uint 64) m k = Ok z → (0 ≤ z < 2 ^ 63)%Z.
Proof.
  intros Hm [Hz Hk]%d_uint_inv. apply lookup_key_ok in Hk; [| done]. change (fits_i 64 z) in Hk. unfold fits_u, fits_i in *. simpl in *. lia.
Qed.

(** Take a successful struct reader apart. *)
Ltac read_inv H :=
  repeat match type of H with
  | (match ?x with Ok _ => _ | Err _ => _ end) = Ok _ => let E := fresh "Hfield" in destruct x eqn:E; [| discriminate H]
  end; injection H as <-.

Section lemmas.
Context (parse_uuid : string → result string string).

(** A configuration read from a file is within the limits. *)
Lemma configured_limits m c : tree_ok (TomlTable m) → read_config parse_uuid m = Ok c → limits c.
Proof.
  intros Hm Hr. unfold read_config in Hr. read_inv Hr.
  apply d_table_inv in Hfield as (ma & Hma & Ha); [| done]. apply d_table_inv in Hfield0 as (mo & Hmo & Ho); [| done].
  apply d_table_inv in Hfield1 as (mf & Hmf & Hf); [| done]. apply d_table_inv in Hfield2 as (mi & Hmi & Hi); [| done].
  unfold read_agent in Ha. read_inv Ha. apply d_table_inv in Hfield9 as (ms & Hms & Hs); [| done].
  unfold read_server in Hs. read_inv Hs. unfold read_osquery in Ho. read_inv Ho.
  unfold read_fleet in Hf. read_inv Hf. unfold read_isolation in Hi. read_inv Hi.
  constructor; simpl; first [by eapply d_u64_inv; [| eassumption] | by eapply d_uint_inv; eassumption].
Qed.

Lemma d_uint_fits w k z : fits_u w z → d_uint w k (Some (TomlInteger z)) = Ok z.
Proof.
  unfold d_uint, fits_u. intros Hz. destruct (Z.leb_spec 0 z), (Z.ltb_spec z (2 ^ w)); [done | lia..].
Qed.
Lemma below_u64 z : (0 ≤ z < 2 ^ 63)%Z → fits_u 64 z.
Proof. unfold fits_u. simpl. lia. Qed.

(** Read the fields of a struct's own tree. *)
#[local] Ltac fields_tac :=
  unfold get_field; repeat (cbn [lookup_key String.eqb Ascii.eqb Bool.eqb app]; rewrite ?d_uint_fits by (done || by apply below_u64));
  cbn [d_string d_bool d_option d_uuid].

Lemma read_server_tree c : fits_u 16 (srv_port c) → read_server (server_tree c) = Ok c.
Proof. destruct c. intros Hp. unfold read_server, server_tree. by fields_tac. Qed.

Lemma read_osquery_tree c :
  (0 ≤ osq_connect_timeout_secs c < 2 ^ 63)%Z → (0 ≤ osq_query_timeout_secs c < 2 ^ 63)%Z →
  read_osquery (osquery_tree c) = Ok c.
Proof. destruct c. intros H1 H2. unfold read_osquery, osquery_tree. simpl in *. by fields_tac. Qed.

Lemma read_isolation_tree c : fits_u 16 (iso_fleet_port c) → read_isolation (isolation_tree c) = Ok c.
Proof. destruct c. intros Hp. unfold read_isolation, isolation_tree. by fields_tac. Qed.

Lemma read_fleet_tree c :
  fits_u 16 (fl_port c) → (0 ≤ fl_heartbeat_interval_secs c < 2 ^ 63)%Z →
  (0 ≤ fl_reconnect_interval_secs c < 2 ^ 63)%Z → fits_u 32 (fl_max_reconnect_attempts c) →
  read_fleet (fleet_tree c) = Ok c.
Proof.
  destruct c as [? ? ? ? ? [cert |] [key |] ? ? ?]; intros H1 H2 H3 H4; unfold read_fleet, fleet_tree; simpl in *; by fields_tac.
Qed.

Lemma read_agent_tree c :
  (∀ u, ag_node_id c = Some u → parse_uuid u = Ok u) →
  (0 ≤ ag_event_buffer_max c < 2 ^ 63)%Z → fits_u 32 (ag_event_drain_batch c) →
  (0 ≤ ag_event_drain_interval_secs c < 2 ^ 63)%Z → fits_u 16 (srv_port (ag_server c)) →
  read_agent parse_uuid (agent_tree c) = Ok c.
Proof.
  destruct c as [[u |] ? ? ? ? ? ? ? ? ? srv]; intros Hu H1 H2 H3 H4; unfold read_agent, agent_tree; simpl in *.
  - unfold get_field. cbn [lookup_key String.eqb Ascii.eqb Bool.eqb d_option d_uuid d_string]. rewrite (Hu u eq_refl).
    fields_tac. unfold d_table at 1. by rewrite read_server_tree.
  - fields_tac. unfold d_table at 1. by rewrite read_server_tree.
Qed.
End lemmas.

(** What main's [parse_toml] gives is within the limits. *)
Lemma parsed_limits {E} parse_uuid document (show : toml_error → E) :
  (∀ text m, document text = Ok m → tree_ok (TomlTable m)) →
  ∀ text c, map_err show (from_str parse_uuid document text) = Ok c → limits c.
Proof.
  intros Hdoc text c. unfold from_str. destruct (document text) as [m |] eqn:Hm; [| done].
  destruct (read_config parse_uuid m) as [c' |] eqn:Hc; [| done]. intros [= <-].
  eapply configured_limits; [by eapply Hdoc | exact Hc].
Qed.

(** ** Properties *)

(** C32 (roundtrip): a configuration whose numbers are within their widths, and below 2^63 as
    the file's integers are signed, is what the agent reads from a file of its tree;
    and whatever the file, a configuration that is read is within these limits: no
    file makes the buffer's capacity negative. *)
Theorem configuration_round_trip parse_uuid document text :
  (∀ m, document text = Ok m → tree_ok (TomlTable m)) →
  (∀ c, from_str parse_uuid document text = Ok c → limits c) ∧
  (∀ c, limits c → (∀ u, ag_node_id (cfg_agent c) = Some u → parse_uuid u = Ok u) →
     document text = Ok (config_tree c) → from_str parse_uuid document text = Ok c).
Proof.
  unfold from_str. intros Hdoc. split.
  - intros c. destruct (document text) as [m |] eqn:Hm; [| done]. apply configured_limits. by apply Hdoc.
  - intros [a o f i] [H1 H2 H3 H4 H5 H6 H7 H8 H9 H10 H11] Hu ->. simpl in *.
    unfold read_config, config_tree, get_field. cbn [lookup_key String.eqb Ascii.eqb Bool.eqb d_table cfg_agent cfg_osquery cfg_fleet cfg_isolation].
    by rewrite read_agent_tree, read_osquery_tree, read_fleet_tree, read_isolation_tree.
Qed.

Definition example_tree : list (string * toml) := config_tree example_config.
Definition example_document (_ : string) : result (list (string * toml)) string := Ok example_tree.

Lemma configuration_round_trip_witness :
  from_str Ok example_document "[agent]" = Ok example_config ∧ limits example_config.
Proof.
  destruct (configuration_round_trip Ok example_document "[agent]") as [Hlim Hread].
  { intros m [= <-]. vm_compute. intuition congruence. }
  assert (limits example_config) as Hl by (constructor; by vm_compute).
  split; [| exact Hl]. apply Hread; [exact Hl | done | reflexivity].
Defined.

(** The file the repository ships, as a tree, and the one of the README, which leaves
    out keys that are required. *)
Definition shipped_tree : list (string * toml) :=
  [("agent", TomlTable
     [("name", TomlString ""); ("log_level", TomlString "debug"); ("log_format", TomlString "json");
      ("log_dir", TomlString "/var/log/aigis-zero"); ("data_dir", TomlString "/var/lib/aigis-zero");
      ("event_buffer_db", TomlString "/var/lib/aigis-zero/events.db"); ("event_buffer_max", TomlInteger 500000);
      ("event_drain_batch", TomlInteger 100); ("event_drain_interval_secs", TomlInteger 5);
      ("server", TomlTable [("bind_addr", TomlString "127.0.0.1"); ("port", TomlInteger 9100)])]);
   ("osquery", TomlTable
     [("socket_path", TomlString "/var/osquery/osquery.em"); ("conf_path", TomlString "/etc/osquery/osquery.conf");
      ("flags_path", TomlString "/etc/osquery/osquery.flags"); ("pid_file", TomlString "/var/osquery/osqueryd.pidfile");
      ("log_path", TomlString "/var/log/osquery"); ("connect_timeout_secs", TomlInteger 30);
      ("query_timeout_secs", TomlInteger 60)]);
   ("fleet", TomlTable
     [("host", TomlString "127.0.0.1"); ("port", TomlInteger 50051); ("endpoint", TomlString "http://127.0.0.1:50051");
      ("enrollment_secret", TomlString ""); ("tls_ca_cert", TomlString "/etc/aigis-zero/ca.crt");
      ("heartbeat_interval_secs", TomlInteger 60); ("reconnect_interval_secs", TomlInteger 10);
      ("max_reconnect_attempts", TomlInteger 0)]);
   ("isolation", TomlTable [("enabled", TomlBoolean false); ("fleet_ip", TomlString ""); ("fleet_port", TomlInteger 8443)])].
Definition readme_tree : list (string * toml) :=
  [("agent", TomlTable
     [("log_level", TomlString "info"); ("log_format", TomlString "json"); ("log_dir", TomlString "/var/log/aigis-zero");
      ("data_dir", TomlString "/var/lib/aigis-zero"); ("event_buffer_db", TomlString "/var/lib/aigis-zero/events.db");
      ("event_buffer_max", TomlInteger 500000); ("event_drain_batch", TomlInteger 100);
      ("event_drain_interval_secs", TomlInteger 5)]);
   ("osquery", TomlTable
     [("socket_path", TomlString "/var/osquery/osquery.em"); ("conf_path", TomlString "/etc/osquery/osquery.conf");
      ("flags_path", TomlString "/etc/osquery/osquery.flags"); ("connect_timeout_secs", TomlInteger 30);
      ("query_timeout_secs", TomlInteger 60)]);
   ("fleet", TomlTable
     [("host", TomlString "127.0.0.1"); ("port", TomlInteger 50051); ("heartbeat_interval_secs", TomlInteger 60);
      ("reconnect_interval_secs", TomlInteger 10); ("max_reconnect_attempts", TomlInteger 0)]);
   ("isolation", TomlTable [("enabled", TomlBoolean false)])].

Lemma documented_configurations parse_uuid :
  (∃ c, read_config parse_uuid shipped_tree = Ok c ∧ config_tree c = shipped_tree) ∧
  read_config parse_uuid readme_tree = Err (MissingField "name").
Proof. split; [eexists; by split | done]. Qed.
