(* ===== verification/Wire.v ===== *)
(** * Messages as JSON
      (agent/crates/fleet-client/src/types.rs, codec.rs, sdk/src/codec.rs, sdk/src/models)

    The message types with the serializers and deserializers that serde derives
    for them, on serde's data model of JSON, and the gRPC codec over them.  A
    derived struct is read from an object by field names, or from an array by
    position; an [Option] field may be absent, no field may come twice.  A type
    is read from the tree of the text, whose objects keep their keys as written;
    only a [Value] field rebuilds them.  Which of several errors of one text is
    reported, and at what position, is not modelled. *)
From Stdlib Require Import ZArith Lia.
From S2P Require Import Prelude Json JsonShape Pipeline FleetServer Osquery Agent.
#[local] Open Scope string_scope.
#[local] Open Scope list_scope.
#[local] Open Scope nat_scope.

Notation "'let?' x ':=' e 'in' k" := (match e with Ok x => k | Err err => Err err end)
  (at level 10, x pattern, k at level 200).

(** ** Serializers and deserializers *)

Inductive de_error :=
  | InvalidType | InvalidValue | InvalidLength
  | MissingField (field : string) | DuplicateField (field : string) | UnknownVariant (variant : string).

(** [s_absent] is the value of a field that is not there. *)
Record serde (T : Type) := Serde {
  s_ser : T → value; s_de : value → result T de_error; s_absent : option T }.
Arguments Serde {T}. Arguments s_ser {T}. Arguments s_de {T}. Arguments s_absent {T}.

Definition s_string : serde string :=
  Serde JString (λ v, match v with JString s => Ok s | _ => Err InvalidType end) None.
Definition s_bool : serde bool :=
  Serde JBool (λ v, match v with JBool b => Ok b | _ => Err InvalidType end) None.
Definition s_value : serde value := Serde id (λ v, Ok (normal v)) None.

(** [i32] and [i64] *)
Definition s_int (w : Z) : serde Z :=
  Serde json_int
    (λ v, match v with
          | JNumber (PosInt n) => if (n <? 2 ^ (w - 1))%Z then Ok n else Err InvalidValue
          | JNumber (NegInt n) => if (- 2 ^ (w - 1) <=? n)%Z then Ok n else Err InvalidValue
          | _ => Err InvalidType
          end) None.

Definition s_option {T} (s : serde T) : serde (option T) :=
  Serde (λ o, match o with Some x => s_ser s x | None => JNull end)
    (λ v, match v with JNull => Ok None | _ => let? x := s_de s v in Ok (Some x) end) (Some None).

Fixpoint de_list {T} (s : serde T) (l : list value) : result (list T) de_error :=
  match l with
  | [] => Ok []
  | v :: l => let? x := s_de s v in let? xs := de_list s l in Ok (x :: xs)
  end.
Definition s_vec {T} (s : serde T) : serde (list T) :=
  Serde (λ l, JArray (map (s_ser s) l))
    (λ v, match v with JArray l => de_list s l | _ => Err InvalidType end) None.

(** A unit variant: its name, or an object with it as the only key. *)
Definition s_enum {T} (name : T → string) (variants : list T) : serde T :=
  let find s := match List.find (λ x, String.eqb (name x) s) variants with
                | Some x => Ok x | None => Err (UnknownVariant s) end in
  Serde (λ x, JString (name x))
    (λ v, match v with JString s | JObject [(s, JNull)] => find s | _ => Err InvalidType end) None.

(** The fields of a derived struct. *)
Definition comes_twice (m : list (string * value)) (k : string) : bool :=
  1 <? length (List.filter (λ kv, String.eqb k kv.1) m).
Definition struct_fields (names : list string) (v : value) : result (list (string * value)) de_error :=
  match v with
  | JObject m =>
      match List.find (comes_twice m) names with Some k => Err (DuplicateField k) | None => Ok m end
  | JArray l => if decide (length l = length names) then Ok (zip names l) else Err InvalidLength
  | _ => Err InvalidType
  end.

Definition field {T} (s : serde T) (k : string) (m : list (string * value)) : result T de_error :=
  match map_get k m with
  | Some v => s_de s v
  | None => match s_absent s with Some x => Ok x | None => Err (MissingField k) end
  end.

(** The content of an internally tagged enum: the tag, and what is left. *)
Definition without (k : string) (m : list (string * value)) : list (string * value) :=
  List.filter (λ kv, negb (String.eqb k kv.1)) m.
Definition tagged_content (tag : string) (v : value) : result (string * value) de_error :=
  match v with
  | JObject m =>
      if comes_twice m tag then Err (DuplicateField tag) else
      match map_get tag m with
      | Some (JString s) => Ok (s, JObject (without tag m))
      | Some _ => Err InvalidType
      | None => Err (MissingField tag)
      end
  | JArray (JString s :: l) => Ok (s, JArray l)
  | JArray (_ :: _) => Err InvalidType
  | JArray [] => Err (MissingField tag)
  | _ => Err InvalidType
  end.
Definition with_tag (tag s : string) (v : value) : value :=
  match v with JObject m => JObject ((tag, JString s) :: m) | _ => v end.

(** ** types.rs *)

Inductive EventType := Osquery | Process | File | Network.
Definition event_type_name (t : EventType) : string :=
  match t with Osquery => "osquery" | Process => "process" | File => "file" | Network => "network" end.
Definition s_event_type : serde EventType := s_enum event_type_name [Osquery; Process; File; Network].

Inductive AgentStatus := Healthy | Degraded | Isolated.
Definition as_str (s : AgentStatus) : string :=
  match s with Healthy => "healthy" | Degraded => "degraded" | Isolated => "isolated" end.
Definition s_agent_status : serde AgentStatus := s_enum as_str [Healthy; Degraded; Isolated].

Inductive ConnectionState := Connected | Reconnecting | Disconnected.

Record RegisterRequest := Register { rq_hostname : string; rq_os_version : string; rq_agent_version : string; rq_machine_id : string }.
Definition s_register_request : serde RegisterRequest :=
  Serde (λ r, JObject [("hostname", JString (rq_hostname r)); ("os_version", JString (rq_os_version r));
                       ("agent_version", JString (rq_agent_version r)); ("machine_id", JString (rq_machine_id r))])
    (λ v, let? m := struct_fields ["hostname"; "os_version"; "agent_version"; "machine_id"] v in
          let? hostname := field s_string "hostname" m in
          let? os_version := field s_string "os_version" m in
          let? agent_version := field s_string "agent_version" m in
          let? machine_id := field s_string "machine_id" m in
          Ok (Register hostname os_version agent_version machine_id)) None.

Record OsquerySchedule := Schedule { sq_name : string; sq_query : string; sq_interval_secs : Z }.
Definition s_schedule : serde OsquerySchedule :=
  Serde (λ q, JObject [("name", JString (sq_name q)); ("query", JString (sq_query q));
                       ("interval_secs", json_int (sq_interval_secs q))])
    (λ v, let? m := struct_fields ["name"; "query"; "interval_secs"] v in
          let? name := field s_string "name" m in
          let? query := field s_string "query" m in
          let? interval_secs := field (s_int 32) "interval_secs" m in
          Ok (Schedule name query interval_secs)) None.

Record AgentConfigPayload := ConfigPayload {
  osquery_schedule : list OsquerySchedule; heartbeat_interval_secs : Z; batch_size : Z }.
Definition s_config : serde AgentConfigPayload :=
  Serde (λ c, JObject [("osquery_schedule", s_ser (s_vec s_schedule) (osquery_schedule c));
                       ("heartbeat_interval_secs", json_int (heartbeat_interval_secs c));
                       ("batch_size", json_int (batch_size c))])
    (λ v, let? m := struct_fields ["osquery_schedule"; "heartbeat_interval_secs"; "batch_size"] v in
          let? schedule := field (s_vec s_schedule) "osquery_schedule" m in
          let? interval := field (s_int 32) "heartbeat_interval_secs" m in
          let? batch := field (s_int 32) "batch_size" m in
          Ok (ConfigPayload schedule interval batch)) None.

Record RegisterResponse := Registered { rs_node_id : string; rs_token : string; rs_config : option AgentConfigPayload }.
Definition s_register_response : serde RegisterResponse :=
  Serde (λ r, JObject [("node_id", JString (rs_node_id r)); ("token", JString (rs_token r));
                       ("config", s_ser (s_option s_config) (rs_config r))])
    (λ v, let? m := struct_fields ["node_id"; "token"; "config"] v in
          let? node_id := field s_string "node_id" m in
          let? token := field s_string "token" m in
          let? config := field (s_option s_config) "config" m in
          Ok (Registered node_id token config)) None.

Record AgentEvent := Event {
  ae_node_id : string; ae_event_type : Z; ae_payload : value; ae_timestamp_ns : Z; ae_sequence_id : string }.
Definition s_agent_event : serde AgentEvent :=
  Serde (λ e, JObject [("node_id", JString (ae_node_id e)); ("event_type", json_int (ae_event_type e));
                       ("payload", ae_payload e); ("timestamp_ns", json_int (ae_timestamp_ns e));
                       ("sequence_id", JString (ae_sequence_id e))])
    (λ v, let? m := struct_fields ["node_id"; "event_type"; "payload"; "timestamp_ns"; "sequence_id"] v in
          let? node_id := field s_string "node_id" m in
          let? event_type := field (s_int 32) "event_type" m in
          let? payload := field s_value "payload" m in
          let? timestamp_ns := field (s_int 64) "timestamp_ns" m in
          let? sequence_id := field s_string "sequence_id" m in
          Ok (Event node_id event_type payload timestamp_ns sequence_id)) None.

Record IsolateCommand := IsolateCmd { isolate : bool; reason : string }.
Definition s_isolate : serde IsolateCommand :=
  Serde (λ c, JObject [("isolate", JBool (isolate c)); ("reason", JString (reason c))])
    (λ v, let? m := struct_fields ["isolate"; "reason"] v in
          let? isolate := field s_bool "isolate" m in
          let? reason := field s_string "reason" m in
          Ok (IsolateCmd isolate reason)) None.

Record ConfigUpdateCommand := ConfigUpdateCmd { cu_config : option AgentConfigPayload }.
Definition s_config_update : serde ConfigUpdateCommand :=
  Serde (λ c, JObject [("config", s_ser (s_option s_config) (cu_config c))])
    (λ v, let? m := struct_fields ["config"] v in
          let? config := field (s_option s_config) "config" m in
          Ok (ConfigUpdateCmd config)) None.

Record AckCommand := AckCmd { ack_sequence_id : string }.
Definition s_ack : serde AckCommand :=
  Serde (λ c, JObject [("sequence_id", JString (ack_sequence_id c))])
    (λ v, let? m := struct_fields ["sequence_id"] v in
          let? sequence_id := field s_string "sequence_id" m in
          Ok (AckCmd sequence_id)) None.

(** [#[serde(tag = "type", rename_all = "snake_case")]] *)
Inductive ServerCommandType :=
  | Isolate (c : IsolateCommand) | ConfigUpdate (c : ConfigUpdateCommand) | Ack (c : AckCommand).
Definition s_command_type : serde ServerCommandType :=
  Serde (λ c, match c with
              | Isolate c => with_tag "type" "isolate" (s_ser s_isolate c)
              | ConfigUpdate c => with_tag "type" "config_update" (s_ser s_config_update c)
              | Ack c => with_tag "type" "ack" (s_ser s_ack c)
              end)
    (λ v, let? (tag, content) := tagged_content "type" v in
          if String.eqb tag "isolate" then let? c := s_de s_isolate content in Ok (Isolate c)
          else if String.eqb tag "config_update" then let? c := s_de s_config_update content in Ok (ConfigUpdate c)
          else if String.eqb tag "ack" then let? c := s_de s_ack content in Ok (Ack c)
          else Err (UnknownVariant tag)) None.

Record ServerCommand := Command { command : option ServerCommandType }.
Definition s_server_command : serde ServerCommand :=
  Serde (λ c, JObject [("command", s_ser (s_option s_command_type) (command c))])
    (λ v, let? m := struct_fields ["command"] v in
          let? command := field (s_option s_command_type) "command" m in
          Ok (Command command)) None.

Record HeartbeatRequest := Heartbeat { hb_node_id : string; hb_status : string; hb_events_buffered : Z }.
Definition s_heartbeat_request : serde HeartbeatRequest :=
  Serde (λ h, JObject [("node_id", JString (hb_node_id h)); ("status", JString (hb_status h));
                       ("events_buffered", json_int (hb_events_buffered h))])
    (λ v, let? m := struct_fields ["node_id"; "status"; "events_buffered"] v in
          let? node_id := field s_string "node_id" m in
          let? status := field s_string "status" m in
          let? events_buffered := field (s_int 64) "events_buffered" m in
          Ok (Heartbeat node_id status events_buffered)) None.

Record HeartbeatResponse := HeartbeatOk { hb_ok : bool }.
Definition s_heartbeat_response : serde HeartbeatResponse :=
  Serde (λ h, JObject [("ok", JBool (hb_ok h))])
    (λ v, let? m := struct_fields ["ok"] v in let? ok := field s_bool "ok" m in Ok (HeartbeatOk ok)) None.

(** ** sdk/src/models *)

(** A [Uuid] is its canonical text; reading one is the uuid crate's. *)
Section uuids.
Context (parse_uuid : string → option string).

Definition s_uuid : serde string :=
  Serde JString (λ v, match v with
                      | JString s => match parse_uuid s with Some u => Ok u | None => Err InvalidValue end
                      | _ => Err InvalidType
                      end) None.

Record EventBatch := Batch { eb_node_id : string; eb_events : list value }.
Definition s_event_batch : serde EventBatch :=
  Serde (λ b, JObject [("node_id", JString (eb_node_id b)); ("events", JArray (eb_events b))])
    (λ v, let? m := struct_fields ["node_id"; "events"] v in
          let? node_id := field s_uuid "node_id" m in
          let? events := field (s_vec s_value) "events" m in
          Ok (Batch node_id events)) None.

Record EnrollmentRequest := EnrollRequest {
  er_enrollment_secret : string; er_hostname : string; er_os_version : string; er_agent_version : string;
  er_platform : string }.
Definition s_enrollment_request : serde EnrollmentRequest :=
  Serde (λ r, JObject [("enrollment_secret", JString (er_enrollment_secret r)); ("hostname", JString (er_hostname r));
                       ("os_version", JString (er_os_version r)); ("agent_version", JString (er_agent_version r));
                       ("platform", JString (er_platform r))])
    (λ v, let? m := struct_fields ["enrollment_secret"; "hostname"; "os_version"; "agent_version"; "platform"] v in
          let? secret := field s_string "enrollment_secret" m in
          let? hostname := field s_string "hostname" m in
          let? os_version := field s_string "os_version" m in
          let? agent_version := field s_string "agent_version" m in
          let? platform := field s_string "platform" m in
          Ok (EnrollRequest secret hostname os_version agent_version platform)) None.

Record EnrollmentResponse := Enrolled { en_node_id : string; en_status : string }.
Definition s_enrollment_response : serde EnrollmentResponse :=
  Serde (λ r, JObject [("node_id", JString (en_node_id r)); ("status", JString (en_status r))])
    (λ v, let? m := struct_fields ["node_id"; "status"] v in
          let? node_id := field s_uuid "node_id" m in
          let? status := field s_string "status" m in
          Ok (Enrolled node_id status)) None.
End uuids.

Record EventAck := BatchAck { ea_success : bool; ea_error : option string }.
Definition s_event_ack : serde EventAck :=
  Serde (λ a, JObject [("success", JBool (ea_success a)); ("error", s_ser (s_option s_string) (ea_error a))])
    (λ v, let? m := struct_fields ["success"; "error"] v in
          let? success := field s_bool "success" m in
          let? error := field (s_option s_string) "error" m in
          Ok (BatchAck success error)) None.

Inductive AgentMessageType := MEnrollmentRequest | MEventBatch | MHeartbeat.
Definition agent_message_type_name (t : AgentMessageType) : string :=
  match t with
  | MEnrollmentRequest => "EnrollmentRequest" | MEventBatch => "EventBatch" | MHeartbeat => "Heartbeat"
  end.
Definition s_agent_message_type : serde AgentMessageType :=
  s_enum agent_message_type_name [MEnrollmentRequest; MEventBatch; MHeartbeat].

Inductive ServerMessageType := MEnrollmentResponse | MHeartbeatResponse | MEventAck | MCommand | MError.
Definition server_message_type_name (t : ServerMessageType) : string :=
  match t with
  | MEnrollmentResponse => "EnrollmentResponse" | MHeartbeatResponse => "HeartbeatResponse"
  | MEventAck => "EventAck" | MCommand => "Command" | MError => "Error"
  end.
Definition s_server_message_type : serde ServerMessageType :=
  s_enum server_message_type_name [MEnrollmentResponse; MHeartbeatResponse; MEventAck; MCommand; MError].

(** A [DateTime<Utc>] is its RFC 3339 text; reading one is chrono's. *)
Section envelopes.
Context (parse_uuid parse_time : string → option string).

Record AgentMessage := AgentMsg {
  am_type : AgentMessageType; am_payload : value; am_timestamp : string; am_node_id : option string }.
Definition s_agent_message : serde AgentMessage :=
  Serde (λ a, JObject [("message_type", s_ser s_agent_message_type (am_type a)); ("payload", am_payload a);
                       ("timestamp", JString (am_timestamp a));
                       ("node_id", s_ser (s_option (s_uuid parse_uuid)) (am_node_id a))])
    (λ v, let? m := struct_fields ["message_type"; "payload"; "timestamp"; "node_id"] v in
          let? message_type := field s_agent_message_type "message_type" m in
          let? payload := field s_value "payload" m in
          let? timestamp := field (s_uuid parse_time) "timestamp" m in
          let? node_id := field (s_option (s_uuid parse_uuid)) "node_id" m in
          Ok (AgentMsg message_type payload timestamp node_id)) None.

Record ServerMessage := ServerMsg { sm_type : ServerMessageType; sm_payload : value; sm_timestamp : string }.
Definition s_server_message : serde ServerMessage :=
  Serde (λ a, JObject [("message_type", s_ser s_server_message_type (sm_type a)); ("payload", sm_payload a);
                       ("timestamp", JString (sm_timestamp a))])
    (λ v, let? m := struct_fields ["message_type"; "payload"; "timestamp"] v in
          let? message_type := field s_server_message_type "message_type" m in
          let? payload := field s_value "payload" m in
          let? timestamp := field (s_uuid parse_time) "timestamp" m in
          Ok (ServerMsg message_type payload timestamp)) None.
End envelopes.

(** ** The codec (codec.rs of fleet-client and sdk) *)

Section codec.
Context `{SerdeJson} (message : string → de_error → string) (read : string → result value string).

(** [JsonEncoder::encode]: [dst] is the frame written so far. *)
Definition encode {T} (s : serde T) (item : T) : SE string status unit := λ dst,
  match to_vec (s_ser s item) with
  | Err e => (Err (internal e), dst)
  | Ok bytes => (Ok tt, dst +:+ bytes)
  end.

(** [JsonDecoder::decode]: [src] is what is left of the frame. *)
Definition decode {U} (s : serde U) : SE string status (option U) := λ src,
  if str_is_empty src then (Ok None, src)
  else match read src with
       | Err e => (Err (internal e), "")
       | Ok v => match s_de s v with
                 | Err e => (Err (internal (message src e)), "")
                 | Ok item => (Ok (Some item), "")
                 end
       end.
(** tonic's [Codec]: what writes a [T] to a frame, and what reads a [U] from one. *)
Record Codec (T U : Type) := MkCodec { encoder : T → SE string status unit; decoder : SE string status (option U) }.
Definition JsonCodec {T U} (s : serde T) (r : serde U) : Codec T U := MkCodec T U (encode s) (decode r).
End codec.
Arguments encoder {T U}. Arguments decoder {T U}.

(** The SDK's own copy (sdk/src/codec.rs). *)
Module SdkCodec.
Section codec.
Context `{SerdeJson} (message : string → de_error → string) (read : string → result value string).

Definition encode {T} (s : serde T) (item : T) : SE string status unit := λ dst,
  match map_err internal (to_vec (s_ser s item)) with
  | Err st => (Err st, dst)
  | Ok bytes => (Ok tt, dst +:+ bytes)
  end.

(** [serde_json::from_slice] at the type. *)
Definition from_slice_as {U} (s : serde U) (buf : string) : result U string :=
  match read buf with Err e => Err e | Ok v => map_err (message buf) (s_de s v) end.
Definition decode {U} (s : serde U) : SE string status (option U) := λ src,
  if str_is_empty src then (Ok None, src)
  else match map_err internal (from_slice_as s src) with
       | Err st => (Err st, "")
       | Ok item => (Ok (Some item), "")
       end.

Definition JsonCodec {T U} (s : serde T) (r : serde U) : Codec T U := MkCodec T U (encode s) (decode r).
End codec.
End SdkCodec.

(** ** Laws *)

(** Reading back what was printed gives the value, for the values that fit. *)
Definition lawful {T} (s : serde T) (P : T → Prop) : Prop :=
  ∀ x, P x → printable (s_ser s x) = true ∧ s_de s (s_ser s x) = Ok x.

Definition anything {T} (x : T) : Prop := True.

Lemma lawful_string : lawful s_string anything.
Proof. done. Qed.
Lemma lawful_bool : lawful s_bool anything.
Proof. done. Qed.

Lemma lawful_int w : (0 < w ≤ 64)%Z → lawful (s_int w) (fits_i w).
Proof.
  intros Hw n Hn. unfold fits_i in Hn.
  assert (2 ^ (w - 1) ≤ 2 ^ 63)%Z by (apply Z.pow_le_mono_r; lia).
  unfold s_int, json_int. simpl. destruct (Z.leb_spec 0 n); simpl.
  - split; [apply andb_true_iff; split; lia |]. by destruct (Z.ltb_spec n (2 ^ (w - 1))); [| lia].
  - split; [apply andb_true_iff; split; lia |]. by destruct (Z.leb_spec (- 2 ^ (w - 1)) n); [| lia].
Qed.

(** A value field is kept when the value is one serde_json can hold. *)
Definition kept_value (v : value) : Prop := value_ok v = true ∧ printable v = true.
Lemma lawful_value : lawful s_value kept_value.
Proof. intros v [Hv Hp]. split; [done |]. simpl. by rewrite normal_id. Qed.

Definition on_some {T} (P : T → Prop) (o : option T) : Prop := match o with Some x => P x | None => True end.
(** An optional field must not print as null. *)
Lemma lawful_option {T} (s : serde T) P :
  (∀ x, P x → s_ser s x ≠ JNull) → lawful s P → lawful (s_option s) (on_some P).
Proof.
  intros Hnn Hs [x |] Hx; [| done]. destruct (Hs x Hx) as [Hp Hd]. split; [done |].
  simpl. specialize (Hnn x Hx). destruct (s_ser s x); try done; by rewrite Hd.
Qed.

Lemma lawful_vec {T} (s : serde T) P : lawful s P → lawful (s_vec s) (Forall P).
Proof.
  intros Hs l Hl. simpl. rewrite forallb_map. induction Hl as [| x l Hx Hl [IHp IHd]]; [done |].
  destruct (Hs x Hx) as [Hp Hd]. simpl. by rewrite Hp, IHp, Hd, IHd.
Qed.

Lemma lawful_enum {T} (name : T → string) variants :
  (∀ x, List.find (λ y, String.eqb (name y) (name x)) variants = Some x) → lawful (s_enum name variants) anything.
Proof. intros Hf x _. simpl. by rewrite Hf. Qed.

(** A struct's object read back, and its fields. *)
Lemma once k (m : list (string * value)) : nodup_keys m = true → comes_twice m k = false.
Proof.
  unfold comes_twice. intros Hn. apply Nat.ltb_ge. induction m as [| [k' v] m IH]; simpl; [lia |].
  simpl in Hn. apply andb_true_iff in Hn as [Hk Hn]. destruct (String.eqb_spec k k') as [<- |]; [| by apply IH].
  simpl. enough (List.filter (λ kv : string * value, String.eqb k kv.1) m = []) as -> by (simpl; lia).
  apply negb_true_iff in Hk. clear IH Hn. induction m as [| [k2 v2] m IHm]; [done |]. simpl in *.
  apply orb_false_iff in Hk as [-> Hk]. by apply IHm.
Qed.

Lemma fields_written names m : nodup_keys m = true → struct_fields names (JObject m) = Ok m.
Proof.
  intros Hn. simpl. enough (List.find (comes_twice m) names = None) as -> by done.
  induction names as [| k names IH]; [done |]. simpl. by rewrite (once k m Hn).
Qed.

Lemma field_written {T} (s : serde T) k v x m :
  map_get k m = Some v → s_de s v = Ok x → field s k m = Ok x.
Proof. unfold field. by intros ->. Qed.

Lemma without_absent k (m : list (string * value)) :
  existsb (λ kv, String.eqb k kv.1) m = false → without k m = m.
Proof.
  induction m as [| [k' v] m IH]; [done |]. simpl. intros [Hk Hm]%orb_false_iff.
  unfold without in *. simpl. by rewrite Hk, IH.
Qed.

Lemma tagged_written tag t m :
  nodup_keys ((tag, JString t) :: m) = true →
  tagged_content tag (JObject ((tag, JString t) :: m)) = Ok (t, JObject m).
Proof.
  intros Hn. unfold tagged_content. rewrite once by done. cbn [map_get]. rewrite String.eqb_refl. do 3 f_equal.
  simpl in Hn. apply andb_true_iff in Hn as [Hk%negb_true_iff _]. unfold without. simpl. rewrite String.eqb_refl.
  by apply without_absent.
Qed.

Lemma printable_object m :
  nodup_keys m = true → Forall (λ kv, printable kv.2 = true) m → printable (JObject m) = true.
Proof.
  intros Hn Hm. simpl. rewrite Hn. simpl. induction Hm as [| kv m Hkv Hm IH]; [done |]. simpl in *.
  rewrite Hkv. apply IH. destruct kv. simpl in Hn. by apply andb_true_iff in Hn as [_ ?].
Qed.

Ltac print_tac :=
  apply printable_object; [reflexivity |];
  repeat (apply Forall_cons; split); try apply Forall_nil; cbn [snd]; first [reflexivity | eassumption].

(** Read the fields of a struct one after the other. *)
Ltac read_fields :=
  rewrite fields_written by reflexivity;
  repeat (erewrite field_written; [| reflexivity | first [eassumption | reflexivity]]); try reflexivity.

Lemma lawful_register_request : lawful s_register_request anything.
Proof. intros [h o a m] _. split; [done |]. cbn [s_de s_ser s_register_request]. read_fields. Qed.

Definition schedule_ok (q : OsquerySchedule) : Prop := fits_i 32 (sq_interval_secs q).
Lemma lawful_schedule : lawful s_schedule schedule_ok.
Proof.
  intros [n q i] Hi. unfold schedule_ok in Hi. simpl in Hi. destruct (lawful_int 32 ltac:(lia) i Hi) as [Hp Hd].
  split; [print_tac |]. cbn [s_de s_ser s_schedule sq_name sq_query sq_interval_secs]. read_fields.
Qed.

Definition config_ok (c : AgentConfigPayload) : Prop :=
  Forall schedule_ok (osquery_schedule c) ∧ fits_i 32 (heartbeat_interval_secs c) ∧ fits_i 32 (batch_size c).
Lemma lawful_config : lawful s_config config_ok.
Proof.
  intros [l i b] (Hl & Hi & Hb). simpl in Hl, Hi, Hb.
  destruct (lawful_vec _ _ lawful_schedule l Hl) as [Hpl Hdl].
  destruct (lawful_int 32 ltac:(lia) i Hi) as [Hpi Hdi]. destruct (lawful_int 32 ltac:(lia) b Hb) as [Hpb Hdb].
  split; [print_tac |].
  cbn [s_de s_ser s_config osquery_schedule heartbeat_interval_secs batch_size]. read_fields.
Qed.

Lemma lawful_config_option : lawful (s_option s_config) (on_some config_ok).
Proof. apply lawful_option; [intros [] _; discriminate | apply lawful_config]. Qed.

Lemma lawful_register_response : lawful s_register_response (λ r, on_some config_ok (rs_config r)).
Proof.
  intros [n t c] Hc. simpl in Hc. destruct (lawful_config_option c Hc) as [Hp Hd]. split; [print_tac |].
  cbn [s_de s_ser s_register_response rs_node_id rs_token rs_config]. read_fields.
Qed.

Definition event_ok (e : AgentEvent) : Prop :=
  fits_i 32 (ae_event_type e) ∧ fits_i 64 (ae_timestamp_ns e) ∧ kept_value (ae_payload e).
Lemma lawful_agent_event : lawful s_agent_event event_ok.
Proof.
  intros [n ty p ts sq] (Hty & Hts & Hp). simpl in Hty, Hts, Hp.
  destruct (lawful_int 32 ltac:(lia) ty Hty) as [Hpt Hdt]. destruct (lawful_int 64 ltac:(lia) ts Hts) as [Hps Hds].
  destruct (lawful_value p Hp) as [Hpp Hdp]. split; [print_tac |].
  cbn [s_de s_ser s_agent_event ae_node_id ae_event_type ae_payload ae_timestamp_ns ae_sequence_id].
  read_fields.
Qed.

Lemma lawful_heartbeat_request : lawful s_heartbeat_request (λ h, fits_i 64 (hb_events_buffered h)).
Proof.
  intros [n st c] Hc. simpl in Hc. destruct (lawful_int 64 ltac:(lia) c Hc) as [Hp Hd]. split; [print_tac |].
  cbn [s_de s_ser s_heartbeat_request hb_node_id hb_status hb_events_buffered]. read_fields.
Qed.

Lemma lawful_heartbeat_response : lawful s_heartbeat_response anything.
Proof. intros [b] _. split; [done |]. cbn [s_de s_ser s_heartbeat_response]. read_fields. Qed.

(** An internally tagged command. *)
Definition command_ok (c : ServerCommandType) : Prop :=
  match c with ConfigUpdate u => on_some config_ok (cu_config u) | _ => True end.
Lemma lawful_command_type : lawful s_command_type command_ok.
Proof.
  intros [[b r] | [c] | [q]] Hc; simpl in Hc.
  - split; [done |]. cbn [s_de s_ser s_command_type with_tag s_isolate]. rewrite tagged_written by done. cbn [String.eqb Ascii.eqb Bool.eqb].
    cbn [s_de s_isolate]. read_fields.
  - destruct (lawful_config_option c Hc) as [Hp Hd].
    split; [cbn [s_ser s_command_type s_config_update with_tag cu_config]; print_tac |].
    cbn [s_de s_ser s_command_type with_tag s_config_update cu_config]. rewrite tagged_written by done.
    cbn [String.eqb Ascii.eqb Bool.eqb]. cbn [s_de s_config_update]. read_fields.
  - split; [done |]. cbn [s_de s_ser s_command_type with_tag s_ack]. rewrite tagged_written by done. cbn [String.eqb Ascii.eqb Bool.eqb].
    cbn [s_de s_ack]. read_fields.
Qed.

Definition server_command_ok (c : ServerCommand) : Prop := on_some command_ok (command c).
Lemma lawful_server_command : lawful s_server_command server_command_ok.
Proof.
  intros [c] Hc. unfold server_command_ok in Hc. simpl in Hc.
  assert (lawful (s_option s_command_type) (on_some command_ok)) as Hl.
  { apply lawful_option; [by intros [[] | [] | []] | apply lawful_command_type]. }
  destruct (Hl c Hc) as [Hp Hd].
  split; [print_tac |]. cbn [s_de s_ser s_server_command command]. read_fields.
Qed.

Lemma lawful_event_batch parse_uuid :
  lawful (s_event_batch parse_uuid) (λ b, parse_uuid (eb_node_id b) = Some (eb_node_id b) ∧ Forall kept_value (eb_events b)).
Proof.
  intros [n l] [Hn Hl]. simpl in Hn, Hl. destruct (lawful_vec _ _ lawful_value l Hl) as [Hp Hd].
  cbn [s_ser s_vec s_value] in Hp, Hd. rewrite (map_id l : map id l = l) in Hp, Hd.
  assert (s_de (s_uuid parse_uuid) (JString n) = Ok n) as Hu by (simpl; by rewrite Hn).
  split; [print_tac |]. cbn [s_de s_ser s_event_batch eb_node_id eb_events]. read_fields.
Qed.

Lemma lawful_event_ack : lawful s_event_ack anything.
Proof.
  intros [b e] _. destruct (lawful_option s_string anything (λ x _ (H : JString x = JNull), ltac:(done)) lawful_string e) as [Hp Hd];
    [by destruct e |]. split; [print_tac |].
  cbn [s_de s_ser s_event_ack ea_success ea_error]. read_fields.
Qed.

Lemma lawful_enrollment_request : lawful s_enrollment_request anything.
Proof.
  intros [a b c d e] _. split; [done |]. cbn [s_de s_ser s_enrollment_request]. read_fields.
Qed.

Lemma lawful_enrollment_response parse_uuid :
  lawful (s_enrollment_response parse_uuid) (λ r, parse_uuid (en_node_id r) = Some (en_node_id r)).
Proof.
  intros [n st] Hn. simpl in Hn.
  assert (s_de (s_uuid parse_uuid) (JString n) = Ok n) as Hu by (simpl; by rewrite Hn).
  split; [done |]. cbn [s_de s_ser s_enrollment_response en_node_id en_status]. read_fields.
Qed.

(** A text that its crate reads as itself. *)
Definition canonical (parse : string → option string) (s : string) : Prop := parse s = Some s.
Lemma lawful_uuid parse : lawful (s_uuid parse) (canonical parse).
Proof. intros s Hs. simpl. by rewrite Hs. Qed.

Lemma lawful_agent_message parse_uuid parse_time :
  lawful (s_agent_message parse_uuid parse_time) (λ a,
    kept_value (am_payload a) ∧ canonical parse_time (am_timestamp a) ∧ on_some (canonical parse_uuid) (am_node_id a)).
Proof.
  intros [ty p ts n] (Hp & Hts & Hn). simpl in Hp, Hts, Hn.
  destruct (lawful_value p Hp) as [Hpp Hdp]. destruct (lawful_uuid _ ts Hts) as [_ Hdt].
  destruct (lawful_option (s_uuid parse_uuid) _ (λ x _ (H : JString x = JNull), ltac:(done)) (lawful_uuid _) n Hn) as [Hpn Hdn].
  assert (s_de s_agent_message_type (s_ser s_agent_message_type ty) = Ok ty) as Hty by (by destruct ty).
  split; [print_tac |]. cbn [s_de s_ser s_agent_message am_type am_payload am_timestamp am_node_id]. read_fields.
Qed.

Lemma lawful_server_message parse_time :
  lawful (s_server_message parse_time) (λ a, kept_value (sm_payload a) ∧ canonical parse_time (sm_timestamp a)).
Proof.
  intros [ty p ts] (Hp & Hts). simpl in Hp, Hts.
  destruct (lawful_value p Hp) as [Hpp Hdp]. destruct (lawful_uuid _ ts Hts) as [_ Hdt].
  assert (s_de s_server_message_type (s_ser s_server_message_type ty) = Ok ty) as Hty by (by destruct ty).
  split; [print_tac |]. cbn [s_de s_ser s_server_message sm_type sm_payload sm_timestamp]. read_fields.
Qed.

(** A message type: its JSON form, and the values it keeps. *)
Class Message (T : Type) := { json : serde T; fits : T → Prop; message_lawful : lawful json fits }.
#[export] Instance register_request_message : Message RegisterRequest :=
  {| json := s_register_request; message_lawful := lawful_register_request |}.
#[export] Instance register_response_message : Message RegisterResponse :=
  {| json := s_register_response; message_lawful := lawful_register_response |}.
#[export] Instance agent_event_message : Message AgentEvent :=
  {| json := s_agent_event; message_lawful := lawful_agent_event |}.
#[export] Instance server_command_message : Message ServerCommand :=
  {| json := s_server_command; message_lawful := lawful_server_command |}.
#[export] Instance heartbeat_request_message : Message HeartbeatRequest :=
  {| json := s_heartbeat_request; message_lawful := lawful_heartbeat_request |}.
#[export] Instance heartbeat_response_message : Message HeartbeatResponse :=
  {| json := s_heartbeat_response; message_lawful := lawful_heartbeat_response |}.
#[export] Instance event_ack_message : Message EventAck :=
  {| json := s_event_ack; message_lawful := lawful_event_ack |}.
#[export] Instance enrollment_request_message : Message EnrollmentRequest :=
  {| json := s_enrollment_request; message_lawful := lawful_enrollment_request |}.

(** Those whose ids and times are read by their crates. *)
Definition event_batch_message parse_uuid : Message EventBatch :=
  {| json := s_event_batch parse_uuid; message_lawful := lawful_event_batch parse_uuid |}.
Definition enrollment_response_message parse_uuid : Message EnrollmentResponse :=
  {| json := s_enrollment_response parse_uuid; message_lawful := lawful_enrollment_response parse_uuid |}.
Definition agent_message_message parse_uuid parse_time : Message AgentMessage :=
  {| json := s_agent_message parse_uuid parse_time; message_lawful := lawful_agent_message parse_uuid parse_time |}.
Definition server_message_message parse_time : Message ServerMessage :=
  {| json := s_server_message parse_time; message_lawful := lawful_server_message parse_time |}.

(** What the osquery loop buffers is an [AgentEvent]. *)
Lemma buffered_is_agent_event uuid r :
  agent_event_json uuid r = s_ser s_agent_event (Event (agent_uuid r) 0 (result_json r) (timestamp_ns r) uuid).
Proof. done. Qed.

(** ** Well-formed values *)

Lemma json_int_ok n : fits_i 64 n → value_ok (json_int n) = true.
Proof.
  unfold fits_i, json_int. intros Hn. simpl. destruct (Z.leb_spec 0 n); simpl; apply andb_true_iff; split; lia.
Qed.

Lemma json_object_collect l : json_object l = JObject (collect l).
Proof.
  unfold json_object, collect. f_equal. generalize (@nil (string * value)).
  induction l as [| [k v] l IH]; intros acc; [done |]. simpl. apply IH.
Qed.

Lemma json_object_ok l : Forall (λ kv, value_ok kv.2 = true) l → value_ok (json_object l) = true.
Proof.
  intros Hl. rewrite json_object_collect. apply collect_ok. apply forallb_forall. intros kv Hkv%list_elem_of_In.
  by eapply Forall_forall in Hl.
Qed.

Lemma array_ok {A} (f : A → value) l : (∀ x, value_ok (f x) = true) → value_ok (JArray (f <$> l)) = true.
Proof. intros Hf. simpl. induction l as [| x l IH]; [done |]. simpl. by rewrite Hf. Qed.

Ltac object_tac := apply json_object_ok; repeat (apply Forall_cons; split); try apply Forall_nil; cbn [snd]; try done.

Lemma result_json_ok r : fits_i 64 (timestamp_ns r) → value_ok (result_json r) = true.
Proof.
  intros Hts. unfold result_json. object_tac; [by apply json_int_ok |]. apply array_ok. intros row.
  unfold row_json. object_tac. apply array_ok. intros c. unfold column_json. object_tac.
Qed.

Lemma json_object_printable l :
  nodup_keys (collect l) = true → Forall (λ kv, printable kv.2 = true) l → printable (json_object l) = true.
Proof.
  intros Hn Hl. rewrite json_object_collect. cbn [printable]. rewrite Hn. cbn [andb]. clear Hn. unfold collect.
  assert (forallb (λ kv : string * value, printable kv.2) [] = true) as H0 by done. revert H0.
  generalize (@nil (string * value)). induction Hl as [| [k v] l Hv _ IH]; intros acc Hacc; [done |].
  apply IH. by apply (map_insert_forall printable).
Qed.

Lemma array_printable {A} (f : A → value) l : (∀ x, printable (f x) = true) → printable (JArray (f <$> l)) = true.
Proof. intros Hf. simpl. induction l as [| x l IH]; [done |]. simpl. by rewrite Hf. Qed.

Ltac printed_tac :=
  apply json_object_printable; [reflexivity |];
  repeat (apply Forall_cons; split); try apply Forall_nil; cbn [snd]; try done.

Lemma result_json_kept r : fits_i 64 (timestamp_ns r) → kept_value (result_json r).
Proof.
  intros Hts. split; [by apply result_json_ok |].
  unfold result_json. printed_tac; [apply (lawful_int 64); [lia | done] |]. apply array_printable. intros row.
  unfold row_json. printed_tac. apply array_printable. intros c. unfold column_json. printed_tac.
Qed.

(** The two copies of the codec do the same, so either reads what the other wrote. *)
Lemma sdk_codec_same `{SerdeJson} message read {T U} (s : serde T) (r : serde U) x frame :
  encoder (SdkCodec.JsonCodec message read s r) x frame = encoder (JsonCodec message read s r) x frame ∧
  decoder (SdkCodec.JsonCodec message read s r) frame = decoder (JsonCodec message read s r) frame.
Proof.
  simpl. unfold SdkCodec.encode, encode, SdkCodec.decode, decode, SdkCodec.from_slice_as. split.
  - by destruct (to_vec _).
  - destruct (str_is_empty frame); [done |]. destruct (read frame) as [v | e]; [| done]. by destruct (s_de r v).
Qed.

(** A frame the encoder wrote is read back, unless it nests too deeply. *)
Lemma encoded_decodes `{SerdeTree} `{Message T} text (x : T) u frame :
  fits x → depth (s_ser json x) < RECURSION_LIMIT →
  encode json x "" = (Ok u, frame) → decode text read json frame = (Ok (Some x), "").
Proof.
  intros Hx Hdepth. destruct (message_lawful x Hx) as [Hp Hd]. unfold encode.
  destruct (to_vec (s_ser json x)) as [f | e] eqn:Hv; [| done]. cbn [String.append]. intros [= _ <-].
  change ("" +:+ f) with f. unfold decode. pose proof (printed_tree _ _ Hp Hdepth Hv) as Hf.
  destruct f as [| a r]; [by apply printed_nonempty in Hv |]. simpl str_is_empty. cbv iota. by rewrite Hf, Hd.
Qed.

Lemma deep_refused `{SerdeTree} {T} text (s : serde T) (x : T) u frame :
  RECURSION_LIMIT ≤ depth (s_ser s x) → encode s x "" = (Ok u, frame) →
  ∃ st, decode text read s frame = (Err st, "") ∧ st_code st = Internal.
Proof.
  intros Hdepth. unfold encode. destruct (to_vec (s_ser s x)) as [f | e] eqn:Hv; [| done].
  cbn [String.append]. intros [= _ <-]. change ("" +:+ f) with f in *. unfold decode.
  pose proof (deep_tree_fails _ _ Hdepth Hv) as Hf. destruct f as [| a r]; [by apply printed_nonempty in Hv |].
  simpl str_is_empty. cbv iota. destruct (read _) as [v | e]; [discriminate Hf |]. by eexists.
Qed.

(** Messages that embed no JSON of others nest a few levels. *)
Lemma register_request_depth r : depth (s_ser s_register_request r) = 1.
Proof. done. Qed.

Lemma json_int_depth n : depth (json_int n) = 0.
Proof. done. Qed.

Lemma config_depth c : depth (s_ser (s_option s_config) c) ≤ 3.
Proof.
  destruct c as [[l i b] |]; [| simpl; lia].
  assert (depth (s_ser (s_vec s_schedule) l) ≤ 2) as Hl by (by apply (depth_array (s_ser s_schedule))).
  cbn [s_ser s_option s_config osquery_schedule heartbeat_interval_secs batch_size].
  apply le_n_S, list_max_below. repeat (apply Forall_cons; split); try apply Forall_nil; cbn [snd]; [done | simpl; lia..].
Qed.

Lemma register_response_depth r : depth (s_ser s_register_response r) ≤ 4.
Proof.
  destruct r as [n t c]. pose proof (config_depth c). apply le_n_S, list_max_below.
  repeat (apply Forall_cons; split); try apply Forall_nil; simpl in *; try lia. exact H.
Qed.

(** An osquery result nests a few levels: its rows, their columns. *)
Lemma result_json_depth r : depth (result_json r) ≤ 5.
Proof.
  set (cells := λ row, JArray (column_json <$> columns row)).
  assert (∀ row, depth (cells row) ≤ 2) as Hc by (intros row; by apply depth_array; intros c).
  assert (depth (JArray (row_json <$> Osquery.rows r)) ≤ 4) as Hr.
  { apply depth_array. intros row. specialize (Hc row). unfold row_json. fold (cells row).
    generalize dependent (cells row). intros v Hv. simpl. lia. }
  unfold result_json. generalize dependent (JArray (row_json <$> Osquery.rows r)). intros v Hv. simpl. lia.
Qed.

Lemma result_event_depth uuid r : depth (agent_event_json uuid r) ≤ 6.
Proof. pose proof (result_json_depth r). unfold agent_event_json. generalize dependent (result_json r). simpl. lia. Qed.

(** A printed value without floats that serde_json holds parses to itself. *)
Lemma kept_parses `{SerdeTree} v s :
  kept_value v → depth v < RECURSION_LIMIT → to_vec v = Ok s → from_slice s = Ok v.
Proof. intros [Hv Hp] Hd Ht. erewrite tree_value by (by eapply printed_tree). by rewrite normal_id. Qed.

(** ** Properties *)


(** C12 (roundtrip): what the osquery loop buffers survives every parse on its way: the
    text of a result is read back by the drain as an event of the agent, with the
    result's time, the fresh sequence id, the type "osquery" and the printed result
    as payload; and that payload parses to the result itself, so the server
    does not wrap it as text.  However many rows the result has, its nesting is within
    the parser's limit. *)
Theorem buffered_results_parse `{SerdeTree} uuid r text payload :
  fits_i 64 (timestamp_ns r) →
  encode_osquery_result uuid r = Some text → to_vec (result_json r) = Ok payload →
  length (parse_events [text]) = 1 ∧
  wire_event text = Some (FleetClient.mkEvent (agent_uuid r) "osquery" payload (timestamp_ns r) uuid) ∧
  from_slice payload = Ok (result_json r) ∧
  ∀ lossy, payload_value lossy payload = result_json r.
Proof.
  intros Hts Htext Hpay. pose proof (result_json_kept r Hts) as Hk.
  assert (from_slice payload = Ok (result_json r)) as Hback.
  { apply kept_parses; [done | | done]. pose proof (result_json_depth r). unfold RECURSION_LIMIT. lia. }
  assert (from_slice text = Ok (normal (agent_event_json uuid r))) as Hevent.
  { unfold encode_osquery_result in Htext. destruct (to_vec _) as [t |] eqn:Ht; [| done]. injection Htext as ->.
    destruct (message_lawful (Event (agent_uuid r) 0 (result_json r) (timestamp_ns r) uuid)) as [Hp _].
    { split_and!; [unfold fits_i; simpl; lia | done | done]. }
    eapply tree_value, printed_tree; [exact Hp | | done].
    pose proof (result_event_depth uuid r). change (depth (agent_event_json uuid r) < RECURSION_LIMIT).
    unfold RECURSION_LIMIT. lia. }
  split_and!; [unfold parse_events; simpl; by rewrite Hevent | | done | intros lossy; unfold payload_value; by rewrite Hback].
  apply wire_of_parsed; [| done | done]. rewrite Hevent. f_equal. unfold agent_event_json. rewrite json_object_collect.
  cbn [normal map fst snd]. by rewrite (normal_id _ (proj1 Hk)).
Qed.

(** *** A serializer of the values it lists, none nested deeply *)
Fixpoint value_eqb (v w : value) : bool :=
  match v, w with
  | JNull, JNull => true
  | JBool b, JBool c => Bool.eqb b c
  | JNumber (PosInt n), JNumber (PosInt m) => (n =? m)%Z
  | JNumber (NegInt n), JNumber (NegInt m) => (n =? m)%Z
  | JString s, JString t => String.eqb s t
  | JArray l, JArray k =>
      (fix go l k := match l, k with
                     | [], [] => true
                     | x :: l, y :: k => value_eqb x y && go l k
                     | _, _ => false
                     end) l k
  | JObject l, JObject k =>
      (fix go l k := match l, k with
                     | [], [] => true
                     | (a, x) :: l, (b, y) :: k => String.eqb a b && value_eqb x y && go l k
                     | _, _ => false
                     end) l k
  | _, _ => false
  end.

Lemma value_eqb_sound v w : value_eqb v w = true → v = w.
Proof.
  revert w. induction v as [| b | n | s | l IH | m IH] using value_induction; intros [| c | k | t | l' | m'] He;
    try done; try (by destruct n); simpl in He.
  - by apply Bool.eqb_prop in He as ->.
  - destruct n, k; try done; by apply Z.eqb_eq in He as ->.
  - by apply String.eqb_eq in He as ->.
  - f_equal. revert l' He. induction IH as [| x l Hx _ IHl]; intros [| y l'] He; try done.
    apply andb_true_iff in He as [Hxy He]. f_equal; [by apply Hx | by apply IHl].
  - f_equal. revert m' He. induction IH as [| [a x] m Hx _ IHm]; intros [| [b y] m'] He; try done.
    apply andb_true_iff in He as [[Hab%String.eqb_eq Hxy]%andb_true_iff He]. subst.
    apply Hx in Hxy. simpl in Hxy. subst. f_equal. by apply IHm.
Qed.

Definition listed_serde (texts : list (string * value)) : SerdeJson := {|
  from_slice s := match map_get s texts with Some v => Ok (normal v) | None => Err "expected value" end;
  to_vec w := match List.find (λ tv, value_eqb w tv.2) texts with Some tv => Ok tv.1 | None => Err "unsupported" end |}.
Definition listed_read (texts : list (string * value)) (s : string) : result value string :=
  match map_get s texts with Some v => Ok v | None => Err "expected value" end.

Definition listable (texts : list (string * value)) : bool :=
  nodup_keys texts && forallb (λ tv, negb (String.eqb tv.1 "") && (depth tv.2 <? RECURSION_LIMIT)) texts.

Lemma map_get_in {V} k (v : V) m : nodup_keys m = true → In (k, v) m → map_get k m = Some v.
Proof.
  induction m as [| [k' v'] m IH]; [done |]. cbn [nodup_keys map_get]. intros [Hk Hn]%andb_true_iff [Heq | Hin].
  - injection Heq as -> ->. by rewrite String.eqb_refl.
  - destruct (String.eqb_spec k k') as [-> | _]; [| by apply IH]. exfalso.
    apply negb_true_iff, not_true_iff_false in Hk. apply Hk, existsb_exists.
    exists (k', v). split; [done | apply String.eqb_refl].
Qed.

Lemma listed_printed texts w s :
  listable texts = true → @to_vec (listed_serde texts) w = Ok s →
  map_get s texts = Some w ∧ s ≠ "" ∧ depth w < RECURSION_LIMIT.
Proof.
  intros [Hn Hl]%andb_true_iff. simpl. destruct (List.find _ texts) as [[t v] |] eqn:Hf; [| done]. intros [= <-].
  apply find_some in Hf as [Hin He]. simpl in He. apply value_eqb_sound in He as ->.
  rewrite forallb_forall in Hl. specialize (Hl _ Hin). simpl in Hl. apply andb_true_iff in Hl as [Hne Hd].
  split; [by apply map_get_in |]. split; [| by apply Nat.ltb_lt]. by intros ->.
Qed.

Lemma listed_tree texts : listable texts = true → @SerdeTree (listed_serde texts) (listed_read texts).
Proof.
  intros Hl. constructor.
  - intros s v. simpl. unfold listed_read. destruct (map_get s texts); [| done]. by intros [= <-].
  - intros v s _ _ (Hg & _ & _)%(listed_printed texts v s Hl). unfold listed_read. by rewrite Hg.
  - intros v s Hd (_ & _ & Hlt)%(listed_printed texts v s Hl). lia.
  - by intros v s (_ & Hne & _)%(listed_printed texts v s Hl).
Qed.

Definition example_command : ServerCommand := Command (Some (Isolate (IsolateCmd true "beacon"))).
Definition example_text : string := "{command:{type:isolate,isolate:true,reason:beacon}}".


Definition example_result : OsqueryResult :=
  mkResult "users" "agent-7" 5 [ResultRow [Column "name" "root"]] Snapshot.

Lemma buffered_results_parse_witness :
  let texts := [("event", agent_event_json "u1" example_result); ("result", result_json example_result)] in
  let S := listed_serde texts in
  wire_event "event" = Some (FleetClient.mkEvent "agent-7" "osquery" "result" 5 "u1") ∧
  payload_value (λ s, s) "result" = result_json example_result.
Proof.
  intros texts S.
  assert (@SerdeTree S (listed_read texts)) as HT by (apply listed_tree; by vm_compute).
  destruct (buffered_results_parse "u1" example_result "event" "result") as (_ & Hw & _ & Hp);
    [unfold fits_i; simpl; lia | by vm_compute | by vm_compute |].
  split; [exact Hw | apply Hp].
Defined.
