(* ===== verification/LegacyClient.v ===== *)
(** * The earlier modules of the fleet client
      (agent/crates/fleet-client/src: connection.rs, enrollment.rs, heartbeat.rs, stream.rs)

    Files of the crate that its lib.rs does not declare: the connection that is
    tried for ever, and calls that speak the JSON codec of [Wire] over tonic's
    generic client.  The network is an argument: what dialling gives, the bytes a
    server answers. *)
From Stdlib Require Import ZArith Lia.
From S2P Require Import Prelude Json JsonShape FleetServer Wire.
#[local] Open Scope string_scope.
#[local] Open Scope list_scope.
#[local] Open Scope nat_scope.

(** ** The connection (connection.rs) *)
Section connection.
Context {Channel : Type} (from_shared : string → option string) (dial : nat → result Channel string).

(** The watch channel is what was sent on it. *)
Record FleetConnection := Connection {
  channel : option Channel; endpoint : string; states : list ConnectionState }.

Definition connection_new (endpoint : string) : FleetConnection := Connection None endpoint [Disconnected].

(** The loop of [connect]: attempt [i] is what its dialling meets, [delays] the
    sleeps in seconds; an endpoint that is no URI is tried again as well. *)
Fixpoint connect_loop (fuel i : nat) (backoff : Z) (delays : list Z) (c : FleetConnection)
    : option (Channel * list Z * FleetConnection) :=
  match fuel with
  | O => None
  | S fuel =>
      let c := Connection (channel c) (endpoint c) (states c ++ [Reconnecting]) in
      let retry := connect_loop fuel (S i) (Z.min (backoff * 2) 60) (delays ++ [backoff]) c in
      match from_shared (endpoint c) with
      | Some _ => retry
      | None =>
          match dial i with
          | Ok ch => Some (ch, delays, Connection (Some ch) (endpoint c) (states c ++ [Connected]))
          | Err _ => retry
          end
      end
  end.
Definition connect (fuel : nat) (c : FleetConnection) : option (Channel * list Z * FleetConnection) :=
  connect_loop fuel 0 1 [] c.
End connection.
Arguments Connection {Channel}. Arguments channel {Channel}. Arguments endpoint {Channel}. Arguments states {Channel}.

(** ** Calls over the codec *)
Section calls.
Context `{SerdeJson} (message : string → de_error → string) (read : string → result value string).
(** [MetadataValue::try_from], and tonic's status for a reply without a message. *)
Context (metadata_value : string → result string string) (no_reply : status).

(** [Grpc::unary] with a codec: [server] gets the request's frame. *)
Definition unary {Req Resp} (codec : Codec Req Resp) (server : metadata → string → result string status)
    (md : metadata) (req : Req) : result Resp status :=
  match encoder codec req "" with
  | (Err st, _) => Err st
  | (Ok _, frame) =>
      match server md frame with
      | Err st => Err st
      | Ok reply =>
          match decoder codec reply with
          | (Ok (Some resp), _) => Ok resp
          | (Ok None, _) => Err no_reply
          | (Err st, _) => Err st
          end
      end
  end.

(** [AgentEnrollment::enroll]: no secret goes along. *)
Record EnrollmentResult := Enrolment { er_node_id : string; er_token : string; er_config : option AgentConfigPayload }.
Definition enroll (server : metadata → string → result string status) (request : RegisterRequest)
    : result EnrollmentResult status :=
  match unary (SdkCodec.JsonCodec message read s_register_request s_register_response) server [] request with
  | Ok res => Ok (Enrolment (rs_node_id res) (rs_token res) (rs_config res))
  | Err st => Err st
  end.

(** The authorization of a token, left out when it is no metadata value. *)
Definition bearer_metadata (token : string) : metadata :=
  match metadata_value ("Bearer " +:+ token) with Ok v => [("authorization", v)] | Err _ => [] end.

(** One tick of [HeartbeatManager]: the request, whose failure is only logged. *)
Definition heartbeat_tick (server : metadata → string → result string status) (token node_id : string)
    : HeartbeatRequest * result HeartbeatResponse status :=
  let req := Wire.Heartbeat node_id "healthy" 0 in
  (req, unary (JsonCodec message read s_heartbeat_request s_heartbeat_response) server (bearer_metadata token) req).

(** The task on the ticks of its interval: what was sent, tick by tick. *)
Definition heartbeats (server : nat → metadata → string → result string status) (token node_id : string) (n : nat)
    : list HeartbeatRequest :=
  (λ i, (heartbeat_tick (server i) token node_id).1) <$> List.seq 0 n.

(** [HeartbeatManager::start]: an interval of zero panics. *)
Definition heartbeat_start (server : nat → metadata → string → result string status) (token node_id : string)
    (interval_secs : Z) (n : nat) : option (list HeartbeatRequest) :=
  if (interval_secs =? 0)%Z then None else Some (heartbeats server token node_id n).

(** [EventStreamManager::start] up to its task; [open] is tonic's streaming call. *)
Definition start_stream (open : metadata → result unit status) (token : string) : result unit string :=
  match metadata_value ("Bearer " +:+ token) with
  | Err e => Err e
  | Ok v => match open [("authorization", v)] with Ok _ => Ok tt | Err st => Err (st_message st) end
  end.

(** The relay task: what [stream.message()] yields, with whether the receiver of the
    commands is gone by then; [sent] is what went into the channel. *)
Definition turn : Type := result (option ServerCommand) status * bool.
Fixpoint relay (turns : list turn) (sent : list ServerCommand) : list ServerCommand :=
  match turns with
  | (Ok (Some cmd), closed) :: turns => if (closed : bool) then sent else relay turns (sent ++ [cmd])
  | _ => sent
  end.
End calls.

(** ** Lemmas *)

Definition backoffs (n : nat) : list Z := (λ i, Z.min (2 ^ Z.of_nat i) 60) <$> List.seq 0 n.

Lemma connect_loop_fails {Channel} from_shared (dial : nat → result Channel string) n fuel i c :
  from_shared (endpoint c) = None → (∀ k, i ≤ k < i + n → is_ok (dial k) = false) →
  connect_loop from_shared dial (n + fuel) i (Z.min (2 ^ Z.of_nat i) 60) (backoffs i) c =
  connect_loop from_shared dial fuel (i + n) (Z.min (2 ^ Z.of_nat (i + n)) 60) (backoffs (i + n))
    (Connection (channel c) (endpoint c) (states c ++ replicate n Reconnecting)).
Proof.
  revert i c. induction n as [| n IH]; intros i c He Hd.
  { simpl. rewrite app_nil_r, Nat.add_0_r. by destruct c. }
  replace (S n + fuel) with (S (n + fuel)) by lia. cbn [connect_loop endpoint channel states]. rewrite He.
  pose proof (Hd i ltac:(lia)) as Hi. destruct (dial i) as [| e]; [discriminate Hi | clear Hi].
  replace (Z.min (Z.min (2 ^ Z.of_nat i) 60 * 2) 60)%Z with (Z.min (2 ^ Z.of_nat (S i)) 60)%Z.
  2: { rewrite Nat2Z.inj_succ, Z.pow_succ_r by lia. lia. }
  replace (backoffs i ++ [Z.min (2 ^ Z.of_nat i) 60])%Z with (backoffs (S i)).
  2: { unfold backoffs. by rewrite seq_S, fmap_app. }
  rewrite (IH (S i) (Connection (channel c) (endpoint c) (states c ++ [Reconnecting])) He) by (intros; apply Hd; lia).
  replace (S i + n) with (i + S n) by lia. cbn [endpoint channel states replicate].
  rewrite <-app_assoc. reflexivity.
Qed.

(** An endpoint that is no URI is tried for ever. *)
Lemma bad_endpoint_never_connects {Channel} from_shared (dial : nat → result Channel string) e fuel i b ds c :
  from_shared (endpoint c) = Some e → connect_loop from_shared dial fuel i b ds c = None.
Proof. revert i b ds c. induction fuel as [| fuel IH]; intros i b ds c He; [done |]. simpl. rewrite He. by apply IH. Qed.

(** The relay passes on what comes before the stream's end, its first error or the
    first command nobody takes, in order. *)
Fixpoint passed (turns : list turn) : list ServerCommand :=
  match turns with (Ok (Some cmd), false) :: turns => cmd :: passed turns | _ => [] end.

Lemma relay_passed turns sent : relay turns sent = sent ++ passed turns.
Proof.
  revert sent. induction turns as [| [[[cmd |] | st] closed] turns IH]; intros sent; simpl; try by rewrite app_nil_r.
  destruct closed; [by rewrite app_nil_r |]. by rewrite IH, <-app_assoc.
Qed.

(** Failures do not stop the heartbeats, which all say the same. *)
Lemma heartbeats_same `{SerdeJson} message read mv no_reply server token node_id n :
  heartbeats message read mv no_reply server token node_id n = replicate n (Wire.Heartbeat node_id "healthy" 0).
Proof.
  unfold heartbeats. generalize 0. induction n as [| n IH]; intros i; [done |]. simpl. f_equal. apply IH.
Qed.

(** ** Properties *)

(** The connection is tried until it is there, after waits of 1, 2, 4, ... and at
    most 60 seconds, and tells its watchers of every attempt and of the success. *)
Theorem connect_outcome {Channel} from_shared (dial : nat → result Channel string) n ch fuel url :
  from_shared url = None → (∀ k, k < n → is_ok (dial k) = false) → dial n = Ok ch → n < fuel →
  connect from_shared dial fuel (connection_new url) =
  Some (ch, backoffs n, Connection (Some ch) url (Disconnected :: replicate (S n) Reconnecting ++ [Connected])).
Proof.
  intros Hu Hd Hn Hf. unfold connect, connection_new. replace fuel with (n + S (fuel - n - 1)) by lia.
  pose proof (connect_loop_fails from_shared dial n (S (fuel - n - 1)) 0 (Connection None url [Disconnected]) Hu) as Hc.
  change (Z.min (2 ^ Z.of_nat 0) 60)%Z with 1%Z in Hc. change (backoffs 0) with (@nil Z) in Hc. rewrite Nat.add_0_l in Hc.
  rewrite Hc by (intros k Hk; apply Hd; lia). cbn [connect_loop endpoint channel states]. rewrite Hu, Hn.
  do 2 f_equal. f_equal. cbn [replicate app].
  change (Reconnecting :: replicate n Reconnecting ++ [Connected])
    with ((Reconnecting :: replicate n Reconnecting) ++ [Connected]). by rewrite replicate_cons_app.
Qed.

(** A server that reads the request and writes its answer with the same codec. *)
Definition answering `{SerdeJson} (message : string → de_error → string) (read : string → result value string)
    (handler : RegisterRequest → RegisterResponse) (md : metadata) (frame : string) : result string status :=
  match decode message read s_register_request frame with
  | (Ok (Some req), _) =>
      match encode s_register_response (handler req) "" with (Ok _, reply) => Ok reply | (Err st, _) => Err st end
  | (Ok None, _) => Err (internal "no request")
  | (Err st, _) => Err st
  end.

(** Enrolling with such a server gives what its handler answers this request; a
    side that cannot write its message fails the call with its status. *)
Theorem enroll_outcome `{SerdeTree} message no_reply handler request :
  fits request → fits (handler request) →
  enroll message read no_reply (answering message read handler) request =
  match encode s_register_request request "", encode s_register_response (handler request) "" with
  | (Err st, _), _ => Err st
  | _, (Err st, _) => Err st
  | _, _ => Ok (Enrolment (rs_node_id (handler request)) (rs_token (handler request)) (rs_config (handler request)))
  end.
Proof.
  intros Hq Hr. unfold enroll, unary, answering.
  destruct (sdk_codec_same message read s_register_request s_register_response request "") as [-> _].
  cbn [encoder JsonCodec].
  destruct (encode s_register_request request "") as [[u | st] frame] eqn:He; [| done].
  assert (decode message read s_register_request frame = (Ok (Some request), "")) as Hdq.
  { refine (encoded_decodes message request u frame Hq _ He). apply Nat.ltb_lt. reflexivity. }
  rewrite Hdq. destruct (encode s_register_response (handler request) "") as [[u' | st] reply] eqn:Hw; [| done].
  assert (decode message read s_register_response reply = (Ok (Some (handler request)), "")) as Hdr.
  { refine (encoded_decodes message (handler request) u' reply Hr _ Hw).
    pose proof (register_response_depth (handler request)). unfold RECURSION_LIMIT. cbn [json register_response_message]. lia. }
  destruct (sdk_codec_same message read s_register_request s_register_response request reply) as [_ ->].
  cbn [decoder JsonCodec]. by rewrite Hdr.
Qed.
