(* ===== verification/Preflight.v ===== *)
(** * The agent's environment check (agent/crates/agent-core/src/preflight.rs)

    The host is a record of what the probes find. *)
From Stdlib Require Import ZArith Lia.
From S2P Require Import Prelude EventBuffer FleetDb FleetServer Osquery Isolation FleetClient Agent.
#[local] Open Scope string_scope.
#[local] Open Scope list_scope.
#[local] Open Scope nat_scope.

Record PreflightReport := Report {
  config_dir_writable : result unit string;
  data_dir_writable : result unit string;
  log_dir_writable : result unit string;
  bpf_jit_enabled : result bool string;
  inotify_watches : result Z string;
  osqueryd_installed : result string string;
  nft_installed : result string string;
  is_root : bool }.

(** What the host answers: errors are [Some]. *)
Record Host := mkHost {
  uid : Z;
  path_exists : string → bool;
  create_dir_all : string → option string;
  write_file : string → option string;
  read_file : string → result string string;
  which_status : string → result Z string }.

(** Runs [which]: found when it exits with 0; a command that does not start finds nothing. *)
Definition which (h : Host) (cmd : string) : bool :=
  match which_status h cmd with Ok code => (code =? 0)%Z | Err _ => false end.

Definition is_ok (r : PreflightReport) : bool :=
  Prelude.is_ok (config_dir_writable r) && Prelude.is_ok (data_dir_writable r)
  && Prelude.is_ok (log_dir_writable r) && Prelude.is_ok (osqueryd_installed r)
  && Prelude.is_ok (nft_installed r) && is_root r.

(** The lines [PreflightReport::print] writes. *)
Definition print_dir_status (name : string) (status : result unit string) : string :=
  match status with
  | Ok _ => "  [OK]   " +:+ name +:+ " is accessible and writable"
  | Err e => "  [FAIL] " +:+ name +:+ " check failed: " +:+ e
  end.

Definition print_bpf (r : result bool string) : string :=
  match r with
  | Ok true => "  [OK]   BPF JIT compilation is enabled"
  | Ok false => "  [WARN] BPF JIT compilation is disabled (performance might be affected)"
  | Err e => "  [WARN] Could not verify BPF JIT: " +:+ e
  end.

Definition print_inotify (r : result Z string) : string :=
  match r with
  | Ok val =>
      if (524288 <=? val)%Z
      then "  [OK]   inotify max_user_watches limit is sufficient (" +:+ pretty val +:+ ")"
      else "  [WARN] inotify max_user_watches limit is low (" +:+ pretty val +:+ "); recommended >= 524288"
  | Err e => "  [WARN] Could not verify inotify max_user_watches: " +:+ e
  end.

Definition print_tool (name : string) (r : result string string) : string :=
  match r with
  | Ok path => "  [OK]   " +:+ name +:+ " found: " +:+ path
  | Err e => "  [FAIL] " +:+ name +:+ " check failed: " +:+ e
  end.

Definition print (r : PreflightReport) : list string :=
  [ "Aigis-Zero Agent Pre-flight Environment Check";
    (if is_root r then "  [OK]   Running as root (UID 0)"
     else "  [FAIL] Not running as root (required for isolation & raw operations)");
    print_dir_status "Config Directory" (config_dir_writable r);
    print_dir_status "Data Directory" (data_dir_writable r);
    print_dir_status "Log Directory" (log_dir_writable r);
    print_bpf (bpf_jit_enabled r);
    print_inotify (inotify_watches r);
    print_tool "osqueryd" (osqueryd_installed r);
    print_tool "nft (nftables)" (nft_installed r) ].

(** [Path::parent], up to repeated slashes: [None] for the root and the empty path. *)
Definition components (path : string) : list string :=
  let root := starts_with "/" path in
  omap (λ '(i, c), if str_is_empty c || (String.eqb c "." && (root || negb (i =? 0))) then None else Some c)
    (imap (λ i c, (i, c)) (split_on slash path)).

Definition parent (path : string) : option string :=
  let root := if starts_with "/" path then "/" else "" in
  match components path with
  | [] => None
  | cs => Some (root +:+ str_join "/" (take (length cs - 1) cs))
  end.

(** [Path::join] with a file name *)
Definition path_join (path name : string) : string :=
  match rsplit_once slash path with
  | Some (_, EmptyString) => path +:+ name
  | _ => if str_is_empty path then name else path +:+ "/" +:+ name
  end.

Definition temp_file (path : string) : string := path_join path ".aigis_zero_preflight_temp".

(** The probe of a directory: create it if needed, write a file into it. *)
Definition check_dir_writable (h : Host) (path : string) : result unit string :=
  match (if path_exists h path then None else create_dir_all h path) with
  | Some e => Err ("Directory does not exist and failed to create: " +:+ e)
  | None =>
      match write_file h (temp_file path) with
      | Some e => Err ("Not writable: " +:+ e)
      | None => Ok tt
      end
  end.

(** The error texts of parsing an unsigned number. *)
Definition parse_u64 (s : string) : result Z string :=
  match parse_uint 64 s with
  | Some n => Ok n
  | None =>
      Err (if str_is_empty s then "cannot parse integer from empty string"
           else match parse_nat (match strip_prefix "+" s with Some r => r | None => s end) with
                | Some _ => "number too large to fit in target type"
                | None => "invalid digit found in string"
                end)
  end.

Definition first_found (h : Host) (missing : string) (paths : list string) : result string string :=
  match filter (λ p, path_exists h p = true) paths with p :: _ => Ok p | [] => Err missing end.

Definition run_preflight (h : Host) (cfg : AgentConfig) : PreflightReport :=
  let config_dir := default "/etc/aigis-zero" (parent (osq_flags_path (cfg_osquery cfg))) in
  {| config_dir_writable := check_dir_writable h config_dir;
     data_dir_writable := check_dir_writable h (ag_data_dir (cfg_agent cfg));
     log_dir_writable := check_dir_writable h (ag_log_dir (cfg_agent cfg));
     bpf_jit_enabled :=
       match read_file h "/proc/sys/net/core/bpf_jit_enable" with
       | Ok s => Ok (String.eqb (trim s) "1")
       | Err e => Err ("Failed to read bpf_jit_enable: " +:+ e)
       end;
     inotify_watches :=
       match read_file h "/proc/sys/fs/inotify/max_user_watches" with
       | Ok s => map_err (λ e, "Failed to parse integer: " +:+ e) (parse_u64 (trim s))
       | Err e => Err ("Failed to read max_user_watches: " +:+ e)
       end;
     osqueryd_installed :=
       if which h "osqueryd" then Ok "Found in PATH"
       else first_found h "osqueryd executable not found (osquery package is required)"
              ["/opt/osquery/bin/osqueryd"; "/usr/bin/osqueryd"];
     nft_installed :=
       if which h "nft" then Ok "Found in PATH"
       else first_found h "nft executable not found (nftables is required for isolation)"
              ["/usr/sbin/nft"; "/sbin/nft"];
     is_root := (uid h =? 0)%Z |}.

(** ** Specification: what a deployable host has *)

Definition dir_ready (h : Host) (path : string) : Prop :=
  (path_exists h path = true ∨ create_dir_all h path = None) ∧
  write_file h (temp_file path) = None.

Definition tool_ready (h : Host) (name : string) (paths : list string) : Prop :=
  which h name = true ∨ Exists (λ p, path_exists h p = true) paths.

Definition is_failure (line : string) : bool := starts_with "  [FAIL]" line.

(** ** Lemmas *)

Lemma check_dir_ready h path : Prelude.is_ok (check_dir_writable h path) = true ↔ dir_ready h path.
Proof.
  unfold check_dir_writable, dir_ready.
  destruct (path_exists h path), (create_dir_all h path), (write_file h _); simpl;
    (split; [try done; intros _; auto | intros [[? | ?] ?]; done]).
Qed.

Lemma first_found_ok h missing paths :
  Prelude.is_ok (first_found h missing paths) = true ↔ Exists (λ p, path_exists h p = true) paths.
Proof.
  unfold first_found. induction paths as [| p paths IH]; [by rewrite Exists_nil |].
  rewrite Exists_cons, filter_cons. case_decide; [by split; [left |] |]. rewrite IH. tauto.
Qed.

Lemma tool_ok h name missing paths :
  Prelude.is_ok (if which h name then Ok "Found in PATH" else first_found h missing paths) = true
  ↔ tool_ready h name paths.
Proof.
  unfold tool_ready. destruct (which h name); [by split; [left |] |]. rewrite first_found_ok.
  split; [by right | by intros [? |]].
Qed.

Lemma print_dir_failure name s : is_failure (print_dir_status name s) = negb (Prelude.is_ok s).
Proof. by destruct s. Qed.

Lemma print_tool_failure name s : is_failure (print_tool name s) = negb (Prelude.is_ok s).
Proof. by destruct s. Qed.

(** ** Properties *)

(** The check passes exactly when the process is root, the configuration, data
    and log directories exist or can be made and take a file, and osqueryd and nft
    are found; it prints a failure line exactly when it does not pass. *)
Theorem preflight_sound_and_complete h cfg :
  let r := run_preflight h cfg in
  (is_ok r = true ↔
     dir_ready h (default "/etc/aigis-zero" (parent (osq_flags_path (cfg_osquery cfg)))) ∧
     dir_ready h (ag_data_dir (cfg_agent cfg)) ∧ dir_ready h (ag_log_dir (cfg_agent cfg)) ∧
     tool_ready h "osqueryd" ["/opt/osquery/bin/osqueryd"; "/usr/bin/osqueryd"] ∧
     tool_ready h "nft" ["/usr/sbin/nft"; "/sbin/nft"] ∧ uid h = 0%Z) ∧
  existsb is_failure (print r) = negb (is_ok r).
Proof.
  intros r. split.
  - unfold is_ok, r, run_preflight. simpl.
    rewrite !andb_true_iff, !check_dir_ready, !tool_ok, Z.eqb_eq. tauto.
  - unfold print, is_ok. cbn [existsb].
    rewrite !print_dir_failure, !print_tool_failure.
    assert (is_failure (print_bpf (bpf_jit_enabled r)) = false) as -> by (by destruct (bpf_jit_enabled r) as [[] |]).
    assert (is_failure (print_inotify (inotify_watches r)) = false) as ->.
    { destruct (inotify_watches r) as [n |]; simpl; [by destruct (524288 <=? n)%Z | done]. }
    generalize (Prelude.is_ok (config_dir_writable r)), (Prelude.is_ok (data_dir_writable r)),
      (Prelude.is_ok (log_dir_writable r)), (Prelude.is_ok (osqueryd_installed r)), (Prelude.is_ok (nft_installed r)).
    intros a b c d e. destruct (is_root r), a, b, c, d, e; reflexivity.
Qed.
