(* ===== verification/ApiServices.v ===== *)
(** * The operator API's repositories as interfaces
      (api-backend/src/repositories, services, clients/fleet_client.rs)

    The services hold their repositories as trait objects.  Each trait is a class on
    a state [S] and what a call meets [E], with a view of the stored rows and
    laws on it that the traits leave unsaid; the services are defined on the
    interface, over any fleet client, and Diesel's repositories of [Api] are
    instances that keep the laws.  Containment is proved on Diesel's. *)
From Stdlib Require Import ZArith Lia.
From S2P Require Import Prelude FleetDb Api.
#[local] Open Scope string_scope.
#[local] Open Scope list_scope.
#[local] Open Scope nat_scope.

(** ** The traits *)

Class NodeRepository (S E : Type) := {
  find_all : E → NodeFilterParams → SE S AppError (list NodeEntity * Z);
  find_by_id : E → string → SE S AppError (option NodeDetailDto);
  update_status_of : E → Z → string → string → SE S AppError IsolateNodeResponse;
  node_view : S → gmap string node }.

Class NodeRepositoryLaws (S E : Type) `{NodeRepository S E} := {
  find_all_law e p s : let '(r, s') := find_all e p s in
    s' = s ∧ ∀ l total, r = Ok (l, total) →
      (Z.of_nat (length l) ≤ total)%Z ∧ length l ≤ 100 ∧ ∀ id n, (id, n) ∈ l → node_view s !! id = Some n;
  find_by_id_law e id s : let '(r, s') := find_by_id e id s in
    s' = s ∧ ∀ o, r = Ok o → (nd_node <$> o) = (pair id <$> node_view s !! id) }.

Class AlertRepository (S E : Type) := {
  find_alerts : E → AlertFilterParams → SE S AppError (list AlertEntity * Z);
  find_alert : E → string → SE S AppError (option AlertEntity);
  update_alert : E → Z → string → string → SE S AppError UpdateAlertStatusResponse;
  alert_view : S → list AlertEntity }.

(** Ids are the primary key of the table. *)
Definition alerts_keyed {S E} `{AlertRepository S E} (s : S) : Prop := NoDup (al_alert_id <$> alert_view s).

Class AlertRepositoryLaws (S E : Type) `{AlertRepository S E} := {
  find_alert_law e id s : alerts_keyed s → let '(r, s') := find_alert e id s in
    s' = s ∧ ∀ a, r = Ok (Some a) ↔ is_ok r = true ∧ a ∈ alert_view s ∧ al_alert_id a = id;
  update_alert_law e now id st s : let '(r, s') := update_alert e now id st s in
    match r with
    | Err _ => s' = s
    | Ok resp => resp = mkAlertStatus id st now ∧ id ∈ al_alert_id <$> alert_view s ∧
        alert_view s' = (λ a, if decide (al_alert_id a = id) then set_alert_status st a else a) <$> alert_view s
    end }.

Class LogRepository (S E : Type) := {
  search_in : E → LogFilterParams → SE S AppError (list EventLogEntity);
  find_log : E → string → SE S AppError (option EventLogEntity);
  insert_logs : E → list EventLogEntity → SE S AppError unit;
  log_view : S → list EventLogEntity }.

Class LogRepositoryLaws (S E : Type) `{LogRepository S E} := {
  find_log_law e id s : let '(r, s') := find_log e id s in
    s' = s ∧ (∀ l, r = Ok (Some l) → l ∈ log_view s ∧ lg_event_id l = id) ∧
    (r = Ok None → id ∉ lg_event_id <$> log_view s);
  insert_logs_law e ls s : let '(r, s') := insert_logs e ls s in
    match r with Err _ => s' = s | Ok _ => log_view s' = foldl insert_log (log_view s) ls end }.

(** ** The services *)
Section services.
Context {S E : Type}.

Definition found {A} (what id : string) (o : option A) : SE S AppError A :=
  match o with
  | Some a => mret a
  | None => throw (NotFound (what +:+ " with id '" +:+ id +:+ "' not found"))
  end.

(** [FleetClient::send_isolate_command] connects and sends nothing; [reach] is the
    connection's error. *)
Definition send_command (reach : option string) (node_id : string) (isolate : bool) (reason : string)
    : result unit string :=
  match reach with None => Ok tt | Some _ => Ok tt end.

Section node_service.
Context `{NodeRepository S E}.
Definition list_nodes (e : E) (p : NodeFilterParams) : SE S AppError (list NodeEntity * Z) := find_all e p.
Definition get_node (e : E) (id : string) : SE S AppError NodeDetailDto := o ← find_by_id e id; found "Node" id o.

(** [send] is the fleet client's call, for a node, a containment or its end, and a
    reason: what it gives is at most logged. *)
Context (send : string → bool → string → result unit string).
Definition isolate (e : E) (now : Z) (id : string) (reason : option string) : SE S AppError IsolateNodeResponse :=
  res ← update_status_of e now id "isolated";
  let reason_str := default "Operator manual isolation" reason in
  _ ← attempt (λ s, (send id true reason_str, s));
  mret res.
Definition unisolate (e : E) (now : Z) (id : string) : SE S AppError IsolateNodeResponse :=
  res ← update_status_of e now id "active";
  _ ← attempt (λ s, (send id false "Operator un-isolation", s));
  mret res.
End node_service.

Section alert_service.
Context `{AlertRepository S E}.
Definition list_alerts (e : E) (p : AlertFilterParams) : SE S AppError (list AlertEntity * Z) := find_alerts e p.
Definition get_alert (e : E) (id : string) : SE S AppError AlertEntity := o ← find_alert e id; found "Alert" id o.
Definition update_triage (e : E) (now : Z) (id st : string) : SE S AppError UpdateAlertStatusResponse :=
  update_alert e now id st.
End alert_service.

Section log_service.
Context `{LogRepository S E}.
Definition search (e : E) (p : LogFilterParams) : SE S AppError (list EventLogEntity) := search_in e p.
Definition get_log (e : E) (id : string) : SE S AppError EventLogEntity := o ← find_log e id; found "Log event" id o.
Definition persist (e : E) (ls : list EventLogEntity) : SE S AppError unit := insert_logs e ls.
End log_service.
End services.

(** Rows with one key are one row. *)
Lemma keyed_unique {A} (key : A → string) l x y : NoDup (key <$> l) → x ∈ l → y ∈ l → key x = key y → x = y.
Proof.
  intros Hn [i Hi]%list_elem_of_lookup [j Hj]%list_elem_of_lookup Hk.
  assert (i = j) as ->; [| congruence].
  eapply NoDup_lookup; [exact Hn | rewrite list_lookup_fmap, Hi; done | rewrite list_lookup_fmap, Hj; simpl; congruence].
Qed.

Lemma limit_range dflt max l : (1 ≤ max)%Z → (1 ≤ limit_of dflt max l ≤ max)%Z.
Proof.
  intros Hm. unfold limit_of, clamp. destruct (Z.ltb_spec (default dflt l) 1); [lia |].
  destruct (Z.ltb_spec max (default dflt l)); lia.
Qed.

(** ** Diesel's repositories *)
Section diesel.
Context `{ScanOrder}.

#[export] Instance DieselNodeRepository : NodeRepository world repo_faults := {|
  find_all := node_find_all; find_by_id := node_find_by_id; update_status_of := update_operator_status;
  node_view w := nodes (w_nodes w) |}.
#[export] Instance DieselAlertRepository : AlertRepository world repo_faults := {|
  find_alerts := alert_find_all; find_alert := alert_find_by_id; update_alert := alert_update_status;
  alert_view := w_alerts |}.
#[export] Instance DieselLogRepository : LogRepository world repo_faults := {|
  search_in := search_logs; find_log := log_find_by_id; insert_logs := insert_batch; log_view := w_logs |}.

(** The services of [Api] are those of the interface on Diesel's repositories. *)
Lemma services_on_diesel :
  (∀ f now reach id reason w, isolate (send_command reach) f now id reason w = isolate_node f now reach id reason w) ∧
  (∀ f now reach id w, unisolate (send_command reach) f now id w = unisolate_node f now reach id w) ∧
  get_node (E := repo_faults) = get_node_by_id ∧ get_alert (E := repo_faults) = get_alert_by_id ∧
  get_log (E := repo_faults) = get_log_by_id.
Proof.
  split_and!; try done; intros; unfold isolate, isolate_node, unisolate, unisolate_node, mbind, SE_bind;
    simpl; by destruct (update_operator_status _ _ _ _ w) as [[res | err] w1], reach.
Qed.

Ltac run_tac := unfold mbind, SE_bind, get_conn, stmt_ok, update_stmt_ok, gets, modify, throw, mret, SE_ret.

#[export] Instance diesel_node_laws : NodeRepositoryLaws world repo_faults.
Proof.
  split; simpl.
  - intros f p w. unfold node_find_all. run_tac. destruct (pool f); [done |]. destruct (stmt f 0); [done |].
    destruct (stmt f 1); [done |]. split; [done |]. intros l total [= <- <-].
    set (rows := filter _ _). split_and!.
    + rewrite <-(Permutation_length (order_desc_perm (λ n : NodeEntity, last_enrolled_at n.2) rows)).
      unfold page. rewrite length_take, length_drop. lia.
    + pose proof (limit_range 50 100 (nf_limit p) ltac:(lia)) as Hl.
      pose proof (page_length (limit_of 50 100 (nf_limit p)) (offset_of (nf_offset p))
        (order_desc (λ n : NodeEntity, last_enrolled_at n.2) rows)). lia.
    + intros id n Hin%page_elem. rewrite (order_desc_perm _ rows) in Hin.
      apply list_elem_of_filter in Hin as [_ Hin]. unfold node_rows in Hin. rewrite scan_perm in Hin.
      by apply elem_of_map_to_list in Hin.
  - intros f id w. unfold node_find_by_id. run_tac. destruct (pool f); [done |]. destruct (stmt f 0); [done |].
    destruct (nodes (w_nodes w) !! id); [| by split; [| intros o [= <-]]].
    destruct (stmt f 1); [done |]. by split; [| intros o [= <-]].
Qed.

#[export] Instance diesel_alert_laws : AlertRepositoryLaws world repo_faults.
Proof.
  split; simpl.
  - intros f id w Hk. unfold alert_find_by_id. run_tac. destruct (pool f); [by split; [| intros a; split; [| intros []]] |].
    destruct (stmt f 0); [by split; [| intros a; split; [| intros []]] |]. split; [done |]. intros a.
    set (l := filter _ _). assert (∀ a, a ∈ l ↔ a ∈ w_alerts w ∧ al_alert_id a = id) as Hl.
    { intros b. unfold l. rewrite list_elem_of_filter, scan_perm. tauto. }
    split.
    + intros [= Ha]. split; [done |]. apply Hl. destruct l; [done |]. simpl in Ha. simplify_eq. by left.
    + intros (_ & Ha). apply Hl in Ha as Hin. destruct l as [| b l']; [by apply elem_of_nil in Hin |]. simpl.
      do 2 f_equal. destruct (Hl b) as [Hb _]. destruct (Hb ltac:(by left)) as [Hb1 Hb2].
      eapply (keyed_unique al_alert_id (w_alerts w)); [exact Hk | done | apply Ha | destruct Ha; congruence].
  - intros f now id st w. unfold alert_update_status. run_tac. destruct (pool f); [done |].
    destruct (stmt f 0); [done |]. by case_decide.
Qed.

#[export] Instance diesel_log_laws : LogRepositoryLaws world repo_faults.
Proof.
  split; simpl.
  - intros f id w. unfold log_find_by_id. run_tac. destruct (pool f); [done |]. destruct (stmt f 0); [done |].
    split; [done |]. set (l := filter _ _).
    assert (∀ x, x ∈ l ↔ lg_event_id x = id ∧ x ∈ w_logs w) as Hl.
    { intros x. unfold l. by rewrite list_elem_of_filter, scan_perm. }
    split.
    + intros x [= Hx]. destruct l as [| y l']; [done |]. simpl in Hx. simplify_eq.
      destruct (Hl x) as [Hx _]. destruct (Hx ltac:(by left)). done.
    + intros [= Hn] (x & -> & Hx)%list_elem_of_fmap. assert (x ∈ l) as Hin by (by apply Hl).
      destruct l; [by apply elem_of_nil in Hin | done].
  - intros f ls w. unfold insert_batch. destruct ls as [| x ls]; [done |]. run_tac. destruct (pool f); [done |].
    by destruct (stmt f 0).
Qed.
End diesel.

(** ** What the services promise, on any repository that keeps the laws *)

(** A lookup answers with the stored row or that there is none, and changes nothing. *)
Lemma get_node_outcome {S E} `{NodeRepositoryLaws S E} e id s :
  let '(r, s') := get_node e id s in
  s' = s ∧ (∀ d, r = Ok d → ∃ n, node_view s !! id = Some n ∧ nd_node d = (id, n)).
Proof.
  unfold get_node, mbind, SE_bind. pose proof (find_by_id_law e id s) as Hf.
  destruct (find_by_id e id s) as [[o | err] s']; destruct Hf as [-> Ho]; [| by split].
  specialize (Ho o eq_refl). destruct o as [d |]; simpl in *; [| by split]. split; [done |].
  intros d' [= <-]. destruct (node_view s !! id) as [n |]; [| done]. injection Ho as Ho. by exists n.
Qed.

(** What an update of the operator's status does, by what it meets. *)
Definition update_outcome (f : repo_faults) (now : Z) (id st : string) (w : world)
    (r : result IsolateNodeResponse AppError) (w' : world) : Prop :=
  let not_found := "Node with id '" +:+ id +:+ "' not found" in
  match pool f, stmt f 0, nodes (w_nodes w) !! id with
  | Some e, _, _ => r = Err (pool_error e) ∧ w' = w
  | None, Some e, _ => r = Err (update_error not_found e) ∧ w' = w
  | None, None, None => r = Err (NotFound not_found) ∧ w' = w
  | None, None, Some n =>
      r = Ok (mkIsolated id st true now) ∧
      w' = World (Db (<[id := set_operator_status st n]> (nodes (w_nodes w))) (node_health (w_nodes w))
                    (enrollment_events (w_nodes w))) (w_alerts w) (w_logs w) (dispatched w)
  end.

Lemma diesel_update f now id st w :
  update_outcome f now id st w (update_operator_status f now id st w).1 (update_operator_status f now id st w).2.
Proof.
  unfold update_outcome, update_operator_status, mbind, SE_bind, get_conn, update_stmt_ok, gets, modify, throw, mret, SE_ret.
  destruct (pool f); [done |]. destruct (stmt f 0); [done |]. by destruct (nodes (w_nodes w) !! id).
Qed.

(** Whatever the client's call gives, the service does what the update did. *)
Lemma service_is_update `{ScanOrder} send f now id reason w :
  isolate send f now id reason w = update_operator_status f now id "isolated" w ∧
  unisolate send f now id w = update_operator_status f now id "active" w.
Proof.
  unfold isolate, unisolate, mbind, SE_bind. simpl.
  split; [destruct (update_operator_status f now id "isolated" w) as [[] ?] |
          destruct (update_operator_status f now id "active" w) as [[] ?]]; done.
Qed.

(** A lookup whose statements succeed finds just the stored row. *)
Lemma diesel_lookup `{ScanOrder} f id w :
  pool f = None → stmt f 0 = None → stmt f 1 = None →
  nd_node <$> ok (get_node f id w).1 = pair id <$> nodes (w_nodes w) !! id.
Proof.
  intros Hp H0 H1. unfold get_node, mbind, SE_bind. simpl. unfold node_find_by_id, mbind, SE_bind, get_conn, stmt_ok, gets.
  rewrite Hp, H0. simpl. by destruct (nodes (w_nodes w) !! id); [rewrite H1 |].
Qed.

(** C38 (functional): isolating writes the operator's status of the one row and nothing
    else of the three databases, whatever the fleet client's call gives, a failure of it
    included; later lookups of any node and later listings show it.  A pool or a
    statement that fails, and a node that is not there, are answered with their error and
    change nothing.  Lifting the isolation is the same with the other status. *)
Theorem containment_is_seen `{ScanOrder} send f now id reason (w : world) st r w' :
  (st = "isolated" ∧ isolate send f now id reason w = (r, w')) ∨
  (st = "active" ∧ unisolate send f now id w = (r, w')) →
  update_outcome f now id st w r w' ∧
  ∀ n, r = Ok n → ∃ row, nodes (w_nodes w) !! id = Some row ∧
    (∀ f' id', pool f' = None → stmt f' 0 = None → stmt f' 1 = None →
       nd_node <$> ok (get_node f' id' w').1 =
       pair id' <$> (if decide (id' = id) then Some (set_operator_status st row) else nodes (w_nodes w) !! id')) ∧
    (∀ f' p l total n', (list_nodes f' p w').1 = Ok (l, total) → (id, n') ∈ l → n' = set_operator_status st row).
Proof.
  intros Hrun. assert ((r, w') = update_operator_status f now id st w) as Hu.
  { by destruct (service_is_update send f now id reason w) as [Hi Hun], Hrun as [[-> <-] | [-> <-]]. }
  pose proof (diesel_update f now id st w) as Ho. rewrite <-Hu in Ho. cbn [fst snd] in Ho. split; [done |].
  intros resp ->. unfold update_outcome in Ho.
  destruct (pool f); [by destruct Ho |]. destruct (stmt f 0); [by destruct Ho |].
  destruct (nodes (w_nodes w) !! id) as [row |] eqn:Hrow; [| by destruct Ho]. destruct Ho as [_ ->]. exists row.
  split; [done |]. split.
  - intros f' id' Hp H0 H1. rewrite diesel_lookup by done. simpl. case_decide as Hid.
    + subst. by rewrite lookup_insert_eq.
    + by rewrite lookup_insert_ne.
  - intros f' p l total n' Hl Hin. unfold list_nodes in Hl.
    match type of Hl with (find_all _ _ ?w1).1 = _ => pose proof (find_all_law f' p w1) as Hlaw end.
    destruct (find_all f' p _) as [res w2]. simpl in Hl. subst. destruct Hlaw as [_ Hlaw].
    destruct (Hlaw l total eq_refl) as (_ & _ & Hrows). specialize (Hrows id n' Hin). simpl in Hrows.
    rewrite lookup_insert_eq in Hrows. by injection Hrows as <-.
Qed.

#[local] Existing Instance identity_scan.
Definition example_world : world :=
  World (Db {["n1" := Node "m1" "h1" "linux" "0.1" "healthy" "active" 5 5]} [] []) [] [] [].
(** A client whose call fails. *)
Definition failing_client (id : string) (isolate : bool) (reason : string) : result unit string := Err "unreachable".
Definition example_isolated : result IsolateNodeResponse AppError * world :=
  isolate failing_client no_faults 9 "n1" None example_world.

Lemma containment_is_seen_witness :
  example_isolated.1 = Ok (mkIsolated "n1" "isolated" true 9) ∧
  (operator_status ∘ snd ∘ nd_node) <$> ok (get_node no_faults "n1" example_isolated.2).1 = Some "isolated".
Proof.
  split; [reflexivity |].
  destruct (containment_is_seen failing_client no_faults 9 "n1" None example_world "isolated"
    example_isolated.1 example_isolated.2 (or_introl (conj eq_refl eq_refl))) as [_ Hs].
  destruct (Hs (mkIsolated "n1" "isolated" true 9) eq_refl) as (row & Hrow & Hget & _).
  injection Hrow as <-. specialize (Hget no_faults "n1" eq_refl eq_refl eq_refl).
  destruct (ok (get_node no_faults "n1" example_isolated.2).1) as [d |]; [| discriminate Hget].
  injection Hget as Hd. simpl. by rewrite Hd.
Defined.

(** A triage status that was set is the one later lookups show, with the rest of the
    alert as it was. *)
Theorem triage_is_seen {S E} `{AlertRepositoryLaws S E} e e' now id st s resp s1 a :
  alerts_keyed s → update_triage e now id st s = (Ok resp, s1) → (get_alert e' id s1).1 = Ok a →
  resp = mkAlertStatus id st now ∧ ∃ a0, a0 ∈ alert_view s ∧ al_alert_id a0 = id ∧ a = set_alert_status st a0.
Proof.
  intros Hk Hu Hg. pose proof (update_alert_law e now id st s) as Hl. unfold update_triage in Hu. rewrite Hu in Hl.
  destruct Hl as (Hr & _ & Hv). split; [done |].
  assert (al_alert_id <$> alert_view s1 = al_alert_id <$> alert_view s) as Hids.
  { rewrite Hv, <-list_fmap_compose. apply list_fmap_ext. intros i x _. simpl. by case_decide. }
  assert (alerts_keyed s1) as Hk1 by (unfold alerts_keyed in *; by rewrite Hids).
  pose proof (find_alert_law e' id s1 Hk1) as Hf. revert Hg. unfold get_alert, mbind, SE_bind.
  destruct (find_alert e' id s1) as [[[a1 |] | err] s2]; simpl; [| done | done]. intros [= ->].
  destruct Hf as [_ Hf]. destruct (Hf a) as [Ha _]. destruct (Ha eq_refl) as (_ & Hin & Hid).
  rewrite Hv in Hin. apply list_elem_of_fmap in Hin as (a0 & -> & Hin0). revert Hid. case_decide; intros Hid.
  - exists a0. split_and!; [done | done | done].
  - by destruct Hid.
Qed.

(** Every log row of a batch that was stored is found by its id. *)
Theorem persisted_logs_are_found {S E} `{LogRepositoryLaws S E} e e' ls s s1 l :
  NoDup (lg_event_id <$> log_view s) → persist e ls s = (Ok tt, s1) → l ∈ ls →
  match (get_log e' (lg_event_id l) s1).1 with
  | Ok l' => lg_event_id l' = lg_event_id l ∧ (l' ∈ log_view s ∨ l' ∈ ls)
  | Err err => ∀ o s2, find_log e' (lg_event_id l) s1 ≠ (Ok o, s2)
  end.
Proof.
  intros Hk Hp Hl. pose proof (insert_logs_law e ls s) as Hi. unfold persist in Hp. rewrite Hp in Hi.
  destruct (insert_logs_spec ls (log_view s) Hk) as (_ & _ & Hids & Hfrom). rewrite <-Hi in Hids, Hfrom.
  assert (lg_event_id l ∈ lg_event_id <$> log_view s1) as Hid by (apply Hids; right; by apply list_elem_of_fmap_2).
  pose proof (find_log_law e' (lg_event_id l) s1) as Hf. unfold get_log, mbind, SE_bind.
  destruct (find_log e' (lg_event_id l) s1) as [[[l' |] | err] s2]; simpl; destruct Hf as (-> & Hf & Hn); [| | done].
  - destruct (Hf l' eq_refl) as [Hin ?]. split; [done | by apply Hfrom].
  - by destruct (Hn eq_refl).
Qed.
