(* ===== verification/ApiHttp.v ===== *)
(** * The operator API over HTTP (api-backend/src/handlers, routes, middleware)

    The JSON of every answer, the handlers, and the router: the table of paths and
    methods that the route modules build, and what the endpoint it finds answers.
    axum's own extractors (path, query, JSON body, the web socket upgrade) are
    outcomes of the request: the value, or the response that rejects it.  A
    response without a body has [JNull] for it; the layers main adds around the
    router (CORS, security headers, tracing) are not part of it. *)
From Stdlib Require Import ZArith Lia Floats.SpecFloat.
From S2P Require Import Prelude Json FleetDb FleetServer Api.
#[local] Open Scope string_scope.
#[local] Open Scope list_scope.
#[local] Open Scope nat_scope.

(** ** JSON of the models *)

Definition json_opt (o : option string) : value := match o with Some s => JString s | None => JNull end.

(** An [f32]: the number it is as an [f64], [null] when it is none. *)
Definition json_f32 (f : spec_float) : value :=
  match f with
  | S754_zero _ => JNumber (Float f)
  | S754_finite sg m e => JNumber (Float (binary_normalize 53 1024 (if sg then Z.neg m else Z.pos m) e sg))
  | _ => JNull
  end.

Section handlers.
Context `{ScanOrder} `{ApiJwt}.
(** The text of a time, and Argon2. *)
Context (rfc3339 : Z → string) (parse_hash : string → option string) (check_hash : string → string → bool).

Definition node_json (n : NodeEntity) : value :=
  json_object [
    ("node_id", JString n.1); ("machine_id", JString (machine_id n.2)); ("hostname", JString (hostname n.2));
    ("os_version", JString (os_version n.2)); ("agent_version", JString (agent_version n.2));
    ("agent_status", JString (agent_status n.2)); ("operator_status", JString (operator_status n.2));
    ("first_seen_at", JString (rfc3339 (first_seen_at n.2)));
    ("last_enrolled_at", JString (rfc3339 (last_enrolled_at n.2))) ].

Definition health_json (h : health) : value :=
  json_object [
    ("health_id", JString (health_id h)); ("node_id", JString (h_node_id h));
    ("agent_status", JString (h_agent_status h)); ("events_buffered", json_int (events_buffered h));
    ("recorded_at", JString (rfc3339 (recorded_at h))) ].

Definition detail_json (d : NodeDetailDto) : value :=
  json_object [("node", node_json (nd_node d)); ("recent_health", JArray (health_json <$> nd_recent_health d))].

Definition isolated_json (r : IsolateNodeResponse) : value :=
  json_object [
    ("node_id", JString (is_node_id r)); ("operator_status", JString (is_operator_status r));
    ("command_dispatched", JBool (is_command_dispatched r)); ("updated_at", JString (rfc3339 (is_updated_at r))) ].

Definition alert_json (a : AlertEntity) : value :=
  json_object [
    ("alert_id", JString (al_alert_id a)); ("node_id", JString (al_node_id a));
    ("hostname", JString (al_hostname a)); ("severity", JString (al_severity a));
    ("source", JString (al_source a)); ("mitre_technique_id", json_opt (al_mitre_technique_id a));
    ("mitre_tactic", json_opt (al_mitre_tactic a)); ("description", JString (al_description a));
    ("triggering_event_id", json_opt (al_triggering_event_id a)); ("threat_score", json_f32 (al_threat_score a));
    ("status", JString (al_status a)); ("created_at", JString (rfc3339 (al_created_at a))) ].

Definition alert_status_json (r : UpdateAlertStatusResponse) : value :=
  json_object [
    ("alert_id", JString (as_alert_id r)); ("status", JString (as_status r));
    ("updated_at", JString (rfc3339 (as_updated_at r))) ].

Definition log_json (l : EventLogEntity) : value :=
  json_object [
    ("event_id", JString (lg_event_id l)); ("node_id", JString (lg_node_id l));
    ("event_type", JString (lg_event_type l)); ("hostname", JString (lg_hostname l));
    ("payload", lg_payload l); ("raw_sequence_id", json_opt (lg_raw_sequence_id l));
    ("recorded_at", JString (rfc3339 (lg_recorded_at l))) ].

Definition strings_json (l : list string) : value := JArray (JString <$> l).

Definition login_json (r : LoginResponse) : value :=
  json_object [
    ("token", JString (lo_token r)); ("token_type", JString (lo_token_type r));
    ("expires_in", json_int (lo_expires_in r));
    ("user", json_object [
       ("username", JString (u_username (lo_user r))); ("role", JString (u_role (lo_user r)));
       ("permissions", strings_json (u_permissions (lo_user r))) ]) ].

(** ** Answers *)

(** What a request meets: its headers, the clock in nanoseconds, the faults of
    its repository call, and the connection to the fleet server. *)
Record req_env := ReqEnv { headers : metadata; clock : Z; faults : repo_faults; fleet_reach : option string }.

Definition secs (e : req_env) : Z := (clock e / 1000000000)%Z.

Definition ok_response (e : req_env) (data : value) : response :=
  Response 200 (json_object [
    ("success", JBool true); ("data", data);
    ("meta", json_object [("timestamp", JString (rfc3339 (clock e)))]) ]).

Definition fail_response (e : req_env) : AppError → response := error_response (rfc3339 (clock e)).

Definition respond (e : req_env) (m : SE world AppError value) : world → response * world := λ w,
  match m w with
  | (Ok data, w') => (ok_response e data, w')
  | (Err err, w') => (fail_response e err, w')
  end.

(** A handler behind [AuthUser], with what the later extractors give. *)
Definition guarded {A} (cfg : Settings) (e : req_env) (x : result A response)
    (h : Claims → A → SE world AppError value) : world → response * world := λ w,
  match auth_user (jwt_secret cfg) (headers e) (secs e) with
  | Err err => (fail_response e err, w)
  | Ok claims =>
      match x with
      | Err r => (r, w)
      | Ok a => respond e (h claims a) w
      end
  end.

(** ** Handlers (handlers/) *)

Definition list_json {A} (j : A → value) (r : list A * Z) : value :=
  json_object [("total", json_int r.2); ("items", JArray (j <$> r.1))].

Definition h_list_nodes (e : req_env) (p : NodeFilterParams) : SE world AppError value :=
  r ← node_find_all (faults e) p; mret (list_json node_json r).
Definition h_get_node (e : req_env) (id : string) : SE world AppError value :=
  r ← get_node_by_id (faults e) id; mret (detail_json r).
Definition h_isolate_node (e : req_env) (id : string) (reason : option string) : SE world AppError value :=
  r ← isolate_node (faults e) (clock e) (fleet_reach e) id reason; mret (isolated_json r).
Definition h_unisolate_node (e : req_env) (id : string) : SE world AppError value :=
  r ← unisolate_node (faults e) (clock e) (fleet_reach e) id; mret (isolated_json r).
Definition h_list_alerts (e : req_env) (p : AlertFilterParams) : SE world AppError value :=
  r ← alert_find_all (faults e) p; mret (list_json alert_json r).
Definition h_get_alert (e : req_env) (id : string) : SE world AppError value :=
  r ← get_alert_by_id (faults e) id; mret (alert_json r).
Definition h_update_alert_status (e : req_env) (id status : string) : SE world AppError value :=
  r ← alert_update_status (faults e) (clock e) id status; mret (alert_status_json r).
Definition h_search_logs (e : req_env) (p : LogFilterParams) : SE world AppError value :=
  r ← search_logs (faults e) p; mret (json_object [("items", JArray (log_json <$> r))]).
Definition h_get_log (e : req_env) (id : string) : SE world AppError value :=
  r ← get_log_by_id (faults e) id; mret (log_json r).

Definition h_login (cfg : Settings) (e : req_env) (req : LoginRequest) : SE world AppError value :=
  match login parse_hash check_hash cfg (secs e) req with
  | Ok res => mret (login_json res)
  | Err err => throw err
  end.

Definition h_me (claims : Claims) : SE world AppError value :=
  mret (json_object [
    ("username", JString (sub claims)); ("role", JString (role claims)); ("permissions", strings_json permissions) ]).

Definition healthz : response := Response 200 (json_object [("status", JString "healthy")]).

(** [readyz] on whether each pool gives a connection. *)
Definition up (b : bool) : value := JString (if b then "up" else "down").
Definition readyz (nodes_up alerts_up logs_up : bool) : response :=
  let is_ready := nodes_up && alerts_up && logs_up in
  Response (if is_ready then 200 else 503) (json_object [
    ("status", JString (if is_ready then "ready" else "degraded"));
    ("services", json_object [("nodes_db", up nodes_up); ("alerts_db", up alerts_up); ("logs_db", up logs_up)]) ]).

(** ** Endpoints *)

(** The query of a web socket request (handlers/ws.rs). *)
Record WsQuery := mkWsQuery { wq_topics : option string; wq_node_id : option string }.

(** A request by its endpoint, with its extractors' outcomes. *)
Inductive request :=
  | Healthz
  | Readyz (nodes_up alerts_up logs_up : bool)
  | Login (req : result LoginRequest response)
  | Me
  | ListNodes (p : result NodeFilterParams response)
  | GetNode (id : result string response)
  | IsolateNode (id_reason : result (string * option string) response)
  | UnisolateNode (id : result string response)
  | ListAlerts (p : result AlertFilterParams response)
  | GetAlert (id : result string response)
  | UpdateAlertStatus (id_status : result (string * string) response)
  | SearchLogs (p : result LogFilterParams response)
  | GetLog (id : result string response)
  | LiveSocket (query : result WsQuery response).

(** The answer that turns the connection into a web socket. *)
Definition switching_protocols : response := Response 101 JNull.

Definition route (cfg : Settings) (e : req_env) (r : request) : world → response * world :=
  match r with
  | Healthz => λ w, (healthz, w)
  | Readyz n a l => λ w, (readyz n a l, w)
  | Login (Ok req) => respond e (h_login cfg e req)
  | Login (Err rej) => λ w, (rej, w)
  | Me => guarded cfg e (Ok tt) (λ claims _, h_me claims)
  | ListNodes p => guarded cfg e p (λ _ p, h_list_nodes e p)
  | GetNode id => guarded cfg e id (λ _ id, h_get_node e id)
  | IsolateNode x => guarded cfg e x (λ _ '(id, reason), h_isolate_node e id reason)
  | UnisolateNode id => guarded cfg e id (λ _ id, h_unisolate_node e id)
  | ListAlerts p => guarded cfg e p (λ _ p, h_list_alerts e p)
  | GetAlert id => guarded cfg e id (λ _ id, h_get_alert e id)
  | UpdateAlertStatus x => guarded cfg e x (λ _ '(id, status), h_update_alert_status e id status)
  | SearchLogs p => guarded cfg e p (λ _ p, h_search_logs e p)
  | GetLog id => guarded cfg e id (λ _ id, h_get_log e id)
  | LiveSocket (Ok _) => λ w, (switching_protocols, w)
  | LiveSocket (Err rej) => λ w, (rej, w)
  end.

(** A sequence of requests served one after the other. *)
Fixpoint serve_all (cfg : Settings) (rs : list (req_env * request)) (w : world) : world :=
  match rs with [] => w | (e, r) :: rs => serve_all cfg rs (route cfg e r w).2 end.

Definition is_public (r : request) : bool :=
  match r with Healthz | Readyz _ _ _ | Login _ | LiveSocket _ => true | _ => false end.

(** The requests that write. *)
Definition is_write (r : request) : bool :=
  match r with IsolateNode _ | UnisolateNode _ | UpdateAlertStatus _ => true | _ => false end.

(** ** The router (routes/) *)

Inductive method := GET | HEAD | POST | PATCH | OtherMethod (name : string).

(** What the extractors of each endpoint give for one HTTP request. *)
Record inputs := Inputs {
  in_pools : bool * bool * bool; in_login : result LoginRequest response;
  in_node_filter : result NodeFilterParams response; in_id : result string response;
  in_isolate : result (string * option string) response; in_alert_filter : result AlertFilterParams response;
  in_status : result (string * string) response; in_log_filter : result LogFilterParams response;
  in_socket : result WsQuery response }.

(** An endpoint makes a request of them. *)
Definition endpoint : Type := inputs → request.
Definition router : Type := list (string * list (method * endpoint)).

Definition health_routes : router :=
  [("/healthz", [(GET, λ _, Healthz)]); ("/readyz", [(GET, λ i, Readyz (in_pools i).1.1 (in_pools i).1.2 (in_pools i).2)])].
Definition auth_routes : router := [("/login", [(POST, λ i, Login (in_login i))]); ("/me", [(GET, λ _, Me)])].
Definition node_routes : router :=
  [("/", [(GET, λ i, ListNodes (in_node_filter i))]); ("/{id}", [(GET, λ i, GetNode (in_id i))]);
   ("/{id}/isolate", [(POST, λ i, IsolateNode (in_isolate i))]);
   ("/{id}/unisolate", [(POST, λ i, UnisolateNode (in_id i))])].
Definition alert_routes : router :=
  [("/", [(GET, λ i, ListAlerts (in_alert_filter i))]); ("/{id}", [(GET, λ i, GetAlert (in_id i))]);
   ("/{id}/status", [(PATCH, λ i, UpdateAlertStatus (in_status i))])].
Definition log_routes : router :=
  [("/", [(GET, λ i, SearchLogs (in_log_filter i))]); ("/{id}", [(GET, λ i, GetLog (in_id i))])].
Definition ws_routes : router := [("/ws", [(GET, λ i, LiveSocket (in_socket i))])].

(** axum's [nest]: the root of the inner router is the prefix itself. *)
Definition nest (prefix : string) (r : router) : router :=
  (λ '(p, ms), (if String.eqb p "/" then prefix else prefix +:+ p, ms)) <$> r.

Definition api_v1 : router :=
  nest "/auth" auth_routes ++ nest "/nodes" node_routes ++ nest "/alerts" alert_routes ++
  nest "/logs" log_routes ++ ws_routes.
Definition create_router : router := health_routes ++ nest "/api/v1" api_v1.

(** A pattern and a path, segment by segment: [{id}] takes any segment but the empty one. *)
Fixpoint segments_match (pattern path : list string) : bool :=
  match pattern, path with
  | [], [] => true
  | p :: pattern, s :: path =>
      (if String.eqb p "{id}" then negb (str_is_empty s) else String.eqb p s) && segments_match pattern path
  | _, _ => false
  end.
Definition path_matches (pattern path : string) : bool :=
  segments_match (split_on slash pattern) (split_on slash path).

(** A route for GET serves HEAD as well. *)
Definition serves (m m' : method) : bool :=
  match m, m' with GET, (GET | HEAD) | POST, POST | PATCH, PATCH => true | _, _ => false end.

Inductive found := Endpoint (ep : endpoint) | MethodNotAllowed | PathNotFound.
Definition find_route (m : method) (path : string) : found :=
  match List.find (λ r, path_matches r.1 path) create_router with
  | None => PathNotFound
  | Some (_, ms) => match List.find (λ me, serves me.1 m) ms with Some (_, ep) => Endpoint ep | None => MethodNotAllowed end
  end.

(** The answer to HEAD has no body. *)
Definition for_method (m : method) (r : response) : response :=
  match m with HEAD => Response (resp_status r) JNull | _ => r end.

Definition handle_request (cfg : Settings) (e : req_env) (m : method) (path : string) (i : inputs)
    : world → response * world := λ w,
  match find_route m path with
  | Endpoint ep => let '(r, w') := route cfg e (ep i) w in (for_method m r, w')
  | MethodNotAllowed => (Response 405 JNull, w)
  | PathNotFound => (Response 404 JNull, w)
  end.
End handlers.

(** ** Lemmas *)

(** A computation that only reads. *)
Definition read_only {A} (m : SE world AppError A) : Prop := ∀ w, (m w).2 = w.

Lemma read_only_ret {A} (a : A) : read_only (mret a).
Proof. done. Qed.
Lemma read_only_throw {A} e : read_only (throw e : SE world AppError A).
Proof. done. Qed.
Lemma read_only_gets {A} (f : world → A) : read_only (gets f).
Proof. done. Qed.
Lemma read_only_bind {A B} (m : SE world AppError A) (k : A → SE world AppError B) :
  read_only m → (∀ a, read_only (k a)) → read_only (m ≫= k).
Proof.
  intros Hm Hk w. unfold mbind, SE_bind. pose proof (Hm w). destruct (m w) as [[a | e] w']; simpl in *; [| done].
  subst. apply Hk.
Qed.
Lemma read_only_conn f : read_only (get_conn f).
Proof. unfold get_conn. by destruct (pool f). Qed.
Lemma read_only_stmt f i : read_only (stmt_ok f i).
Proof. unfold stmt_ok. by destruct (stmt f i). Qed.
Lemma read_only_or_not_found {A} what id (o : option A) : read_only (or_not_found what id o).
Proof. by destruct o. Qed.

#[export] Hint Resolve read_only_ret read_only_throw read_only_gets read_only_conn read_only_stmt
  read_only_or_not_found : aigis.

Ltac read_only_tac :=
  repeat first [apply read_only_bind; [| intros ?] | progress auto with aigis | case_match].

Section http_lemmas.
Context `{ScanOrder} `{ApiJwt}.
Context (rfc3339 : Z → string) (parse_hash : string → option string) (check_hash : string → string → bool).
#[local] Abbreviation route := (route rfc3339 parse_hash check_hash).

Lemma respond_read_only e m w : read_only m → (respond rfc3339 e m w).2 = w.
Proof. intros Hm. unfold respond. pose proof (Hm w). by destruct (m w) as [[] ?]. Qed.

Lemma guarded_read_only {A} cfg e (x : result A response) h w :
  (∀ c a, read_only (h c a)) → (guarded rfc3339 cfg e x h w).2 = w.
Proof.
  intros Hh. unfold guarded. destruct (auth_user _ _ _); [| done]. destruct x; [| done]. by apply respond_read_only.
Qed.

(** A request that is no write leaves the databases alone. *)
Lemma route_read_only cfg e r w : is_write r = false → (route cfg e r w).2 = w.
Proof.
  destruct r as [| | [req |] | | | | | | | | | | | [q |]]; intros Hr; try discriminate Hr; cbn [ApiHttp.route snd]; try done;
    first [apply respond_read_only | apply guarded_read_only; intros c a];
    unfold h_login, h_me, h_list_nodes, h_get_node, h_list_alerts, h_get_alert, h_search_logs, h_get_log,
      get_node_by_id, get_alert_by_id, get_log_by_id, node_find_all, node_find_by_id, alert_find_all,
      alert_find_by_id, search_logs, log_find_by_id; read_only_tac.
Qed.
End http_lemmas.

(** ** What requests may change *)

(** Only operator statuses of nodes and triage statuses of alerts differ. *)
Definition frame (w w' : world) : Prop :=
  w_logs w' = w_logs w ∧ dispatched w' = dispatched w ∧
  node_health (w_nodes w') = node_health (w_nodes w) ∧
  enrollment_events (w_nodes w') = enrollment_events (w_nodes w) ∧
  set_operator_status "" <$> nodes (w_nodes w') = set_operator_status "" <$> nodes (w_nodes w) ∧
  set_alert_status "" <$> w_alerts w' = set_alert_status "" <$> w_alerts w.

#[export] Instance frame_preorder : PreOrder frame.
Proof.
  split; [intros w; by split_and! |].
  intros w1 w2 w3 (? & ? & ? & ? & ? & ?) (? & ? & ? & ? & ? & ?). split_and!; congruence.
Qed.

Lemma update_operator_frame `{ScanOrder} f now id s w : frame w (update_operator_status f now id s w).2.
Proof.
  unfold update_operator_status, mbind, SE_bind, get_conn, update_stmt_ok.
  destruct (pool f); [reflexivity |]. simpl. destruct (stmt f 0); [reflexivity |]. simpl.
  destruct (nodes (w_nodes w) !! id) as [n |] eqn:Hn; simpl; [| reflexivity].
  split_and!; try done. simpl. rewrite fmap_insert. apply map_eq. intros k.
  destruct (decide (k = id)) as [-> |]; [| by rewrite lookup_insert_ne].
  rewrite lookup_insert_eq, lookup_fmap, Hn. done.
Qed.

Lemma alert_update_frame f now id s w : frame w (alert_update_status f now id s w).2.
Proof.
  unfold alert_update_status, mbind, SE_bind, get_conn, update_stmt_ok.
  destruct (pool f); [reflexivity |]. simpl. destruct (stmt f 0); [reflexivity |]. simpl.
  case_decide; [| reflexivity]. simpl. split_and!; try done. simpl. rewrite <-list_fmap_compose.
  apply list_fmap_ext. intros i a _. simpl. by case_decide.
Qed.

Lemma isolate_frame `{ScanOrder} f now reach id reason w : frame w (isolate_node f now reach id reason w).2.
Proof.
  unfold isolate_node, mbind, SE_bind. pose proof (update_operator_frame f now id "isolated" w).
  destruct (update_operator_status _ _ _ _ _) as [[r | e] w']; simpl in *; [| done]. by destruct reach.
Qed.

Lemma unisolate_frame `{ScanOrder} f now reach id w : frame w (unisolate_node f now reach id w).2.
Proof.
  unfold unisolate_node, mbind, SE_bind. pose proof (update_operator_frame f now id "active" w).
  destruct (update_operator_status _ _ _ _ _) as [[r | e] w']; simpl in *; [| done]. by destruct reach.
Qed.

Lemma bind_frame {A} (m : SE world AppError A) (j : A → value) w :
  frame w (m w).2 → frame w ((r ← m; mret (j r)) w).2.
Proof. unfold mbind, SE_bind. by destruct (m w) as [[] ?]. Qed.

Section http_frame.
Context `{ScanOrder} `{ApiJwt}.
Context (rfc3339 : Z → string) (parse_hash : string → option string) (check_hash : string → string → bool).

Lemma respond_frame e m w : frame w (m w).2 → frame w (respond rfc3339 e m w).2.
Proof. unfold respond. by destruct (m w) as [[] ?]. Qed.

Lemma guarded_frame {A} cfg e (x : result A response) h w :
  (∀ c a, frame w (h c a w).2) → frame w (guarded rfc3339 cfg e x h w).2.
Proof.
  intros Hh. unfold guarded. destruct (auth_user _ _ _); [| reflexivity].
  destruct x; [| reflexivity]. by apply respond_frame.
Qed.

Lemma route_frame cfg e r w : frame w (route rfc3339 parse_hash check_hash cfg e r w).2.
Proof.
  destruct (is_write r) eqn:Hw; [| by rewrite route_read_only].
  destruct r; try discriminate Hw; apply guarded_frame; intros c; [intros [? ?] | intros ? | intros [? ?]];
    apply bind_frame; [apply isolate_frame | apply unisolate_frame | apply alert_update_frame].
Qed.
End http_frame.

(** *** Without a token *)

Lemma auth_error_status `{ApiJwt} rfc3339 secret md now err e :
  auth_user secret md now = Err err → resp_status (fail_response rfc3339 e err) = 401%Z.
Proof.
  intros Ha. unfold auth_user in Ha. destruct (_ ≫= _) as [h |]; [| by injection Ha as <-].
  destruct (strip_prefix _ h); [| by injection Ha as <-].
  destruct (api_decode _ _ _); simpl in Ha; [done |]. by injection Ha as <-.
Qed.

Lemma guarded_without_token `{ScanOrder} `{ApiJwt} rfc3339 parse_hash check_hash cfg e r w err :
  is_public r = false → auth_user (jwt_secret cfg) (headers e) (secs e) = Err err →
  route rfc3339 parse_hash check_hash cfg e r w = (fail_response rfc3339 e err, w).
Proof. intros Hp Ha. destruct r; try discriminate Hp; cbn [route]; unfold guarded; by rewrite Ha. Qed.

(** A pattern without a parameter matches itself only. *)
Lemma join_split c s : str_join (String c "") (split_on c s) = s.
Proof.
  induction s as [| a s IH]; [done |]. simpl. destruct (Ascii.eqb_spec a c) as [-> |].
  - destruct (split_on c s) as [| w ws] eqn:Hs; [by destruct s; simpl in Hs; repeat case_match |].
    change (str_join (String c "") ("" :: w :: ws)) with (String c (str_join (String c "") (w :: ws))). by rewrite IH.
  - destruct (split_on c s) as [| w ws] eqn:Hs; [simpl in *; by subst |].
    destruct ws as [| w' ws]; simpl in *; by rewrite <-IH.
Qed.

Lemma segments_literal pattern path :
  Forall (λ p, String.eqb p "{id}" = false) pattern → segments_match pattern path = true → path = pattern.
Proof.
  revert path. induction pattern as [| p pattern IH]; intros [| s path] Hl Hm; try done.
  apply Forall_cons in Hl as [Hp Hl]. cbn [segments_match] in Hm. rewrite Hp in Hm.
  apply andb_true_iff in Hm as [->%String.eqb_eq Hm]. f_equal. by apply IH.
Qed.

Lemma literal_path pattern path :
  Forall (λ p, String.eqb p "{id}" = false) (split_on slash pattern) → path_matches pattern path = true → path = pattern.
Proof.
  intros Hl Hm%segments_literal; [| done]. by rewrite <-(join_split slash path), Hm, join_split.
Qed.

(** The paths whose endpoints have no [AuthUser]. *)
Definition public_paths : list string := ["/healthz"; "/readyz"; "/api/v1/auth/login"; "/api/v1/ws"].

(** The endpoints that ask for no token are on the public paths. *)
Definition literal (pattern : string) : bool := forallb (λ p, negb (String.eqb p "{id}")) (split_on slash pattern).
Definition public_pattern (pattern : string) : bool := existsb (String.eqb pattern) public_paths && literal pattern.

Lemma public_routes i :
  forallb (λ r : string * list (method * endpoint),
    negb (existsb (λ me, is_public (me.2 i)) r.2) || public_pattern r.1) create_router = true.
Proof. vm_compute. reflexivity. Qed.

Lemma public_endpoint_path m path ep i :
  find_route m path = Endpoint ep → is_public (ep i) = true → path ∈ public_paths.
Proof.
  unfold find_route. destruct (List.find _ create_router) as [[pattern ms] |] eqn:Hr; [| done].
  destruct (List.find _ ms) as [[m' ep'] |] eqn:Hm; [| done]. intros [= ->] Hpub.
  apply find_some in Hr as [Hin Hpath]. apply find_some in Hm as [Hme _]. simpl in Hpath.
  pose proof (public_routes i) as Hall. rewrite forallb_forall in Hall. specialize (Hall _ Hin). cbn [fst snd] in Hall.
  assert (existsb (λ me : method * endpoint, is_public (me.2 i)) ms = true) as Hex by (apply existsb_exists; by exists (m', ep)).
  apply orb_true_iff in Hall as [Hn%negb_true_iff | [Hpath' Hlit]%andb_true_iff]; [by destruct (eq_true_false_abs _ Hex Hn) |].
  rewrite (literal_path pattern path); [| | done].
  - apply existsb_exists in Hpath' as (p & Hp & ->%String.eqb_eq). by apply list_elem_of_In.
  - apply Forall_forall. intros p Hp%list_elem_of_In. unfold literal in Hlit. rewrite forallb_forall in Hlit.
    by apply negb_true_iff, Hlit.
Qed.

(** ** Properties *)

(** C39 (error): without a valid bearer token, whatever the method and the path, a request is
    answered with status 401 (404 on a path the router does not have, 405 with a
    method the path does not take) and no database is read or written for it, but on
    four paths: the two probes, the login, and the web socket, which is upgraded and given
    the live telemetry whoever asks. *)
Theorem requests_need_a_token `{ScanOrder} `{ApiJwt} rfc3339 parse_hash check_hash cfg e m path i w err :
  auth_user (jwt_secret cfg) (headers e) (secs e) = Err err →
  let run := handle_request rfc3339 parse_hash check_hash cfg e in
  resp_status (fail_response rfc3339 e err) = 401%Z ∧
  (path ∉ public_paths → run m path i w =
     (match find_route m path with
      | Endpoint _ => for_method m (fail_response rfc3339 e err)
      | MethodNotAllowed => Response 405 JNull
      | PathNotFound => Response 404 JNull
      end, w)) ∧
  (∀ query, in_socket i = Ok query → run GET "/api/v1/ws" i w = (switching_protocols, w)).
Proof.
  intros Ha run. split_and!.
  - by eapply auth_error_status.
  - intros Hp. unfold run, handle_request. destruct (find_route m path) as [ep | |] eqn:Hf; [| done | done].
    rewrite (guarded_without_token _ _ _ _ _ _ _ err); [done | | done].
    destruct (is_public (ep i)) eqn:Hpub; [| done]. destruct Hp. by eapply public_endpoint_path.
  - intros query Hq. unfold run, handle_request.
    assert (find_route GET "/api/v1/ws" = Endpoint (λ i, LiveSocket (in_socket i))) as -> by reflexivity.
    simpl. by rewrite Hq.
Qed.

Definition example_env (hs : metadata) : req_env := ReqEnv hs 0 no_faults None.
Definition rejected {A} : result A response := Err (Response 400 JNull).
Definition example_inputs : inputs :=
  Inputs (true, true, true) rejected rejected (Ok "n1") (Ok ("n1", None)) rejected rejected rejected (Ok (mkWsQuery None None)).

Lemma requests_need_a_token_witness :
  let run := @handle_request identity_scan ToyApiJwt.toy_api_jwt (λ _, "t") Some (λ _ _, false) example_settings
    (example_env [("authorization", "Basic x")]) in
  resp_status (run POST "/api/v1/nodes/n1/isolate" example_inputs example_world).1 = 401%Z ∧
  (run POST "/api/v1/nodes/n1/isolate" example_inputs example_world).2 = example_world ∧
  run GET "/api/v1/ws" example_inputs example_world = (switching_protocols, example_world).
Proof.
  intros run.
  destruct (@requests_need_a_token identity_scan ToyApiJwt.toy_api_jwt (λ _, "t") Some (λ _ _, false)
    example_settings (example_env [("authorization", "Basic x")]) POST "/api/v1/nodes/n1/isolate" example_inputs example_world
    (Unauthorized "Invalid Authorization format, Bearer token expected") eq_refl) as (H401 & Hrun & Hws).
  assert ("/api/v1/nodes/n1/isolate" ∉ public_paths) as Hp by (by apply (bool_decide_unpack _)).
  unfold run. split; [by rewrite (Hrun Hp) |]. split; [by rewrite (Hrun Hp) |]. by apply (Hws (mkWsQuery None None)).
Defined.

(** Whatever requests the API serves, with whatever faults, the nodes keep their
    ids and everything but their operator status, the alerts keep everything but
    their triage status, logs, heartbeats and the enrolment audit are untouched,
    and nothing is dispatched to the fleet server. *)
Theorem api_changes_only_statuses `{ScanOrder} `{ApiJwt} rfc3339 parse_hash check_hash cfg rs w :
  frame w (serve_all rfc3339 parse_hash check_hash cfg rs w).
Proof.
  revert w. induction rs as [| [e r] rs IH]; intros w; [reflexivity |].
  cbn [serve_all]. etrans; [apply route_frame | apply IH].
Qed.
