(* ===== verification/ApiStream.v ===== *)
(** * The operator API's live stream (api-backend/src/kafka/consumer.rs,
      models/ws.rs, handlers/ws.rs)

    The Kafka consumer: what it broadcasts and what it persists, the
    micro-batching worker, and one web socket.  The derived deserializers of
    [LiveEvent] and [WsClientMessage], the uuid crate and fresh ids are
    arguments. *)
From Stdlib Require Import ZArith Lia Floats.SpecFloat.
From S2P Require Import Prelude Json FleetDb FleetServer Api ApiHttp.
#[local] Open Scope string_scope.
#[local] Open Scope list_scope.
#[local] Open Scope nat_scope.

(** ** Messages (models/ws.rs) *)

Inductive LiveEvent :=
  | Log (node_id hostname event_type : string) (payload : value) (timestamp_ns : Z)
  | Alert (id node_id hostname severity : string) (mitre_technique_id : option string) (description : string)
      (threat_score : spec_float) (timestamp_ns : Z)
  | Heartbeat (node_id agent_status : string) (events_buffered timestamp_ns : Z).

Inductive WsClientMessage :=
  | Subscribe (topics : option (list string)) (node_id : option string)
  | Ping.

Inductive WsServerMessage :=
  | Pong (timestamp : Z)
  | Subscribed (topics : list string) (node_id : option string)
  | WsError (message : string).

Definition live_json (e : LiveEvent) : value :=
  match e with
  | Log n h t p ts =>
      JObject [("type", JString "log"); ("data", JObject [("node_id", JString n); ("hostname", JString h);
        ("event_type", JString t); ("payload", p); ("timestamp_ns", json_int ts)])]
  | Alert i n h s m d sc ts =>
      JObject [("type", JString "alert"); ("data", JObject [("id", JString i); ("node_id", JString n);
        ("hostname", JString h); ("severity", JString s); ("mitre_technique_id", json_opt m);
        ("description", JString d); ("threat_score", json_f32 sc); ("timestamp_ns", json_int ts)])]
  | Heartbeat n s b ts =>
      JObject [("type", JString "heartbeat"); ("data", JObject [("node_id", JString n);
        ("agent_status", JString s); ("events_buffered", json_int b); ("timestamp_ns", json_int ts)])]
  end.

Definition server_json (m : WsServerMessage) : value :=
  match m with
  | Pong ts => JObject [("type", JString "pong"); ("timestamp", json_int ts)]
  | Subscribed topics n =>
      JObject [("type", JString "subscribed"); ("topics", strings_json topics); ("node_id", json_opt n)]
  | WsError m => JObject [("type", JString "error"); ("message", JString m)]
  end.

(** ** Reading a Kafka message (consumer.rs) *)

(** [a.or_else(|| b)] *)
Definition or_else {A} (a b : option A) : option A := match a with Some _ => a | None => b end.

Definition payload_get (k : string) (j : value) : option value := p ← get "payload" j; get k p.

Definition node_id_value (j : value) : option value :=
  or_else (or_else (get "node_id" j) (get "agent_uuid" j))
    (p ← get "payload" j; or_else (get "agent_uuid" p) (get "node_id" p)).

Definition event_type_text (j : value) : string :=
  default "unknown"
    (v ← or_else (or_else (get "event_type" j) (get "query_name" j))
           (p ← get "payload" j; or_else (get "query_name" p) (get "event_type" p));
     as_str v).

Definition hostname_value (j : value) : option string :=
  v ← or_else (get "hostname" j) (payload_get "hostname" j); as_str v.

Definition hostname_text (j : value) : string :=
  match hostname_value j with
  | Some s => if str_is_empty s then "unknown" else s
  | None => "unknown"
  end.

Definition timestamp_value (j : value) : option Z :=
  v ← or_else (get "timestamp_ns" j) (payload_get "timestamp_ns" j); as_i64 v.

Definition payload_of (j : value) : value := default j (get "payload" j).

(** A string field, [dflt] when it is missing or no string. *)
Definition text_or (dflt : string) (v : option value) : string := default dflt (v ← v; as_str v).

Section stream.
Context `{SerdeJson}.
Context (parse_uuid : string → result string string).
(** [serde_json::from_slice::<LiveEvent>] and [from_str::<WsClientMessage>] *)
Context (live_event : string → option LiveEvent) (client_message : string → option WsClientMessage).

(** [parse_log_entity]; [now] and [fresh] are drawn when the message has no
    time or no id. *)
Definition parse_log_entity (now : Z) (fresh topic payload : string) : option EventLogEntity :=
  if starts_with "aigis.events" topic then
    json ← ok (from_slice payload);
    node_id_str ← (v ← node_id_value json; as_str v);
    node_id ← ok (parse_uuid node_id_str);
    let raw_sequence_id :=
      v ← or_else (or_else (get "raw_sequence_id" json) (get "sequence_id" json)) (payload_get "sequence_id" json);
      as_str v in
    let recorded_at := default now (timestamp_value json) in
    let event_id :=
      default fresh (v ← or_else (get "id" json) (get "event_id" json); s ← as_str v; ok (parse_uuid s)) in
    Some (mkLog event_id node_id (event_type_text json) (hostname_text json) (payload_of json)
            raw_sequence_id recorded_at)
  else None.

(** [n as f32] of a score, 5.0 when it is missing *)
Definition score_of (v : option value) : spec_float :=
  match (v ← v; as_f64 v) with
  | Some f => f32_of_f64 f
  | None => f32_of_Z 5
  end.

(** [parse_kafka_message] *)
Definition parse_kafka_message (now_ns : option Z) (topic payload : string) : option LiveEvent :=
  match live_event payload with
  | Some direct_event => Some direct_event
  | None =>
      json ← ok (from_slice payload);
      let now := default 0%Z now_ns in
      let timestamp_ns := default now (timestamp_value json) in
      let plain_node_id := text_or "" (or_else (get "node_id" json) (get "agent_uuid" json)) in
      if starts_with "aigis.events" topic then
        Some (Log (text_or "unknown" (node_id_value json)) (hostname_text json) (event_type_text json)
                (payload_of json) timestamp_ns)
      else if String.eqb topic "aigis.alerts" then
        Some (Alert (text_or "" (or_else (get "alert_id" json) (get "id" json))) plain_node_id
                (default "" (hostname_value json)) (text_or "medium" (get "severity" json))
                (v ← get "mitre_technique_id" json; as_str v) (text_or "" (get "description" json))
                (score_of (get "threat_score" json)) timestamp_ns)
      else if String.eqb topic "aigis.health" then
        Some (Heartbeat plain_node_id (text_or "healthy" (or_else (get "agent_status" json) (get "status" json)))
                (default 0%Z (v ← get "events_buffered" json; as_i64 v)) timestamp_ns)
      else None
  end.

(** ** The consumer's loop *)

(** One message: its topic, payload, the clock, a fresh id, and whether the
    channel to the worker is full or closed. *)
Record message := Message {
  m_topic : string; m_payload : option string; m_now : Z; m_fresh : string; m_full : bool }.

(** What was broadcast and what was handed to the worker. *)
Record streams := Streams { broadcasts : list LiveEvent; to_persist : list EventLogEntity }.

Definition consume (m : message) (s : streams) : streams :=
  match m_payload m with
  | None => s
  | Some payload =>
      let s := match parse_kafka_message (Some (m_now m)) (m_topic m) payload with
               | Some event => Streams (broadcasts s ++ [event]) (to_persist s)
               | None => s
               end in
      match parse_log_entity (m_now m) (m_fresh m) (m_topic m) payload with
      | Some log_entity => if m_full m then s else Streams (broadcasts s) (to_persist s ++ [log_entity])
      | None => s
      end
  end.

(** ** The micro-batching worker *)

Inductive worker_event :=
  | WorkerShutdown
  | FlushTick
  | Item (l : EventLogEntity)
  | ChannelClosed.

(** Insert what there is, and forget it whatever comes of it. *)
Definition flush (f : repo_faults) (batch : list EventLogEntity) (w : world) : world :=
  match batch with [] => w | _ => (insert_batch f batch w).2 end.

Fixpoint worker (es : list (worker_event * repo_faults)) (batch : list EventLogEntity) (w : world)
    : list EventLogEntity * world :=
  match es with
  | [] => (batch, w)
  | (WorkerShutdown, f) :: _ | (ChannelClosed, f) :: _ => ([], flush f batch w)
  | (FlushTick, f) :: es => worker es [] (flush f batch w)
  | (Item l, f) :: es =>
      let batch := batch ++ [l] in
      if 50 <=? length batch then worker es [] (flush f batch w) else worker es batch w
  end.

(** The items the worker takes before it stops. *)
Fixpoint taken_items (es : list (worker_event * repo_faults)) : list EventLogEntity :=
  match es with
  | [] => []
  | (WorkerShutdown, _) :: _ | (ChannelClosed, _) :: _ => []
  | (FlushTick, _) :: es => taken_items es
  | (Item l, _) :: es => l :: taken_items es
  end.

(** ** A web socket (handlers/ws.rs) *)

Definition parse_topics (topics : option string) : list string :=
  match topics with
  | Some t => (λ s, to_lowercase (trim s)) <$> split_on comma t
  | None => ["logs"; "alerts"; "heartbeats"]
  end.

Definition event_topic (e : LiveEvent) : string :=
  match e with Log _ _ _ _ _ => "logs" | Alert _ _ _ _ _ _ _ _ => "alerts" | Heartbeat _ _ _ _ => "heartbeats" end.
Definition event_node (e : LiveEvent) : string :=
  match e with Log n _ _ _ _ => n | Alert _ n _ _ _ _ _ _ => n | Heartbeat n _ _ _ => n end.

Definition matches_filter (event : LiveEvent) (target_node : option string) (topics : list string) : bool :=
  if negb (bool_decide (topics = [])) &&
     negb (existsb (λ t, String.eqb t (event_topic event) || String.eqb t "all") topics) then false
  else if match target_node with Some target => negb (String.eqb target (event_node event)) | None => false end
       then false
  else true.

Record socket := Socket { node_filter : option string; topic_filters : list string }.

Definition open_socket (topics node_id : option string) : socket := Socket node_id (parse_topics topics).

(** The socket a request is upgraded to. *)
Definition ws_handler (query : WsQuery) : socket := open_socket (wq_topics query) (wq_node_id query).

Inductive frame := TextFrame (text : string) | PongFrame (payload : string) | PingFrame.

(** What the loop meets; a boolean says that the answering send fails. *)
Inductive ws_input :=
  | Live (e : LiveEvent) (send_fails : bool)
  | Lagged (n : Z)
  | BroadcastClosed
  | ClientText (text : string) (now_ms : Z) (send_fails : bool)
  | ClientPing (payload : string) (send_fails : bool)
  | ClientClose
  | ClientError (e : string)
  | ClientOther
  | PingTick (send_fails : bool).

(** A frame is out unless its send failed. *)
Definition out (send_fails : bool) (f : frame) : list frame := if send_fails then [] else [f].

(** One pass: the socket, whether the loop goes on, and the frames sent. *)
Definition socket_step (i : ws_input) (s : socket) : socket * bool * list frame :=
  match i with
  | Live e fails =>
      if matches_filter e (node_filter s) (topic_filters s) then
        match to_vec (live_json e) with
        | Err _ => (s, true, [])
        | Ok text => (s, negb fails, out fails (TextFrame text))
        end
      else (s, true, [])
  | Lagged _ => (s, true, [])
  | BroadcastClosed => (s, false, [])
  | ClientText text now_ms fails =>
      match client_message text with
      | Some (Subscribe topics node_id) =>
          let s' := Socket node_id (match topics with Some t => t | None => topic_filters s end) in
          match to_vec (server_json (Subscribed (topic_filters s') node_id)) with
          | Ok ack => (s', true, out fails (TextFrame ack))
          | Err _ => (s', true, [])
          end
      | Some Ping =>
          match to_vec (server_json (Pong now_ms)) with
          | Ok pong => (s, true, out fails (TextFrame pong))
          | Err _ => (s, true, [])
          end
      | None => (s, true, [])
      end
  | ClientPing payload fails => (s, negb fails, out fails (PongFrame payload))
  | ClientClose | ClientError _ => (s, false, [])
  | ClientOther => (s, true, [])
  | PingTick fails => (s, negb fails, out fails PingFrame)
  end.

Fixpoint run_socket (is_ : list ws_input) (s : socket) : list frame :=
  match is_ with
  | [] => []
  | i :: is_ =>
      let '(s', go, fs) := socket_step i s in
      fs ++ if (go : bool) then run_socket is_ s' else []
  end.
End stream.

(** ** Specification of a socket that keeps its subscription *)

Definition subscribes (client_message : string → option WsClientMessage) (i : ws_input) : bool :=
  match i with
  | ClientText text _ _ => match client_message text with Some (Subscribe _ _) => true | _ => false end
  | _ => false
  end.

(** Inputs that do not end the connection. *)
Definition keeps_open (i : ws_input) : bool :=
  match i with
  | Live _ fails | ClientPing _ fails | PingTick fails => negb fails
  | BroadcastClosed | ClientClose | ClientError _ => false
  | Lagged _ | ClientText _ _ _ | ClientOther => true
  end.

Definition live_events (is_ : list ws_input) : list LiveEvent :=
  omap (λ i, match i with Live e _ => Some e | _ => None end) is_.

(** ** Lemmas *)

Lemma flush_logs f batch w :
  pool f = None → stmt f 0 = None →
  flush f batch w = set_logs (foldl insert_log (w_logs w) batch) w.
Proof.
  intros Hp Hs. unfold flush. destruct batch as [| l ls]; [by destruct w |].
  unfold insert_batch, mbind, SE_bind, get_conn, stmt_ok. by rewrite Hp; simpl; rewrite Hs.
Qed.

Lemma worker_batch es batch w : length batch < 50 → length (worker es batch w).1 < 50.
Proof.
  revert batch w. induction es as [| [[| | l |] f] es IH]; intros batch w Hb; cbn [worker fst length]; try lia.
  - apply IH. cbn [length]. lia.
  - destruct (Nat.leb_spec 50 (length (batch ++ [l]))); apply IH; cbn [length]; lia.
Qed.

Lemma worker_all_stored es batch w :
  Forall (λ ef, pool ef.2 = None ∧ stmt ef.2 0 = None) es →
  let '(b, w') := worker es batch w in
  foldl insert_log (w_logs w') b = foldl insert_log (w_logs w) (batch ++ taken_items es) ∧
  set_logs [] w' = set_logs [] w.
Proof.
  intros Hf. revert batch w. induction Hf as [| [e f] es [Hp Hs] Hf IH]; intros batch w; cbn [worker taken_items fst snd] in *.
  { by rewrite app_nil_r. }
  destruct e as [| | l |].
  - rewrite flush_logs, app_nil_r by done. split; reflexivity.
  - specialize (IH [] (flush f batch w)). destruct (worker es _ _) as [b w']. destruct IH as [IH1 IH2].
    rewrite IH1, IH2, flush_logs, (foldl_app _ batch) by done. split; reflexivity.
  - destruct (50 <=? length (batch ++ [l])).
    + specialize (IH [] (flush f (batch ++ [l]) w)). destruct (worker es _ _) as [b w']. destruct IH as [IH1 IH2].
      rewrite IH1, IH2, flush_logs by done.
      replace (batch ++ l :: taken_items es) with ((batch ++ [l]) ++ taken_items es) by (by rewrite <-app_assoc).
      rewrite (foldl_app _ (batch ++ [l])). split; reflexivity.
    + specialize (IH (batch ++ [l]) w). destruct (worker es _ _) as [b w']. destruct IH as [IH1 IH2].
      rewrite IH1, IH2, <-app_assoc. split; reflexivity.
  - rewrite flush_logs, app_nil_r by done. split; reflexivity.
Qed.

Lemma socket_step_keeps `{SerdeJson} client_message i s :
  subscribes client_message i = false → keeps_open i = true →
  (socket_step client_message i s).1 = (s, true).
Proof.
  destruct i as [e fails | n | | text now fails | p fails | | e | | fails]; intros Hs Ho; simpl in *; try done.
  - destruct (matches_filter _ _ _); [| done]. destruct (to_vec _); [by rewrite Ho | done].
  - destruct (client_message text) as [[t n |] |]; try done. by destruct (to_vec _).
  - by rewrite Ho.
  - by rewrite Ho.
Qed.

(** The text frames of live events among the frames of a run: the frames of each
    [Live] input. *)
Fixpoint live_frames `{SerdeJson} (client_message : string → option WsClientMessage)
    (is_ : list ws_input) (s : socket) : list frame :=
  match is_ with
  | [] => []
  | i :: is_ =>
      let '(s', go, fs) := socket_step client_message i s in
      (match i with Live _ _ => fs | _ => [] end) ++ if (go : bool) then live_frames client_message is_ s' else []
  end.

Lemma live_frames_sub `{SerdeJson} client_message is_ s :
  live_frames client_message is_ s `sublist_of` run_socket client_message is_ s.
Proof.
  revert s. induction is_ as [| i is_ IH]; intros s; simpl; [constructor |].
  destruct (socket_step client_message i s) as [[s' go] fs].
  assert ((match i with Live _ _ => fs | _ => [] end) `sublist_of` fs) as Hi by (destruct i; done || apply sublist_nil_l).
  apply sublist_app; [done |]. destruct go; [apply IH | constructor].
Qed.

(** ** Properties *)

(** C33 (roundtrip): the envelope the fleet server publishes for an agent's event is stored under
    the event's own id, node, type, time and sequence id; the host name is always
    recorded as "unknown", because the envelope's is empty and hides the payload's. *)
Theorem envelope_is_stored `{SerdeJson} from_utf8_lossy parse_uuid uuid ev now fresh topic bytes n i :
  starts_with "aigis.events" topic = true →
  from_slice bytes = Ok (telemetry_envelope from_utf8_lossy uuid ev) →
  parse_uuid (in_node_id ev) = Ok n →
  parse_uuid (if str_is_empty (in_sequence_id ev) then uuid else in_sequence_id ev) = Ok i →
  fits_i 64 (in_timestamp_ns ev) →
  parse_log_entity parse_uuid now fresh topic bytes
  = Some (mkLog i n (in_event_type ev) "unknown" (payload_value from_utf8_lossy (in_payload ev))
            (Some (in_sequence_id ev)) (in_timestamp_ns ev)).
Proof.
  intros Ht Hb Hn Hi Hts. unfold parse_log_entity. rewrite Ht, Hb. cbn [ok mbind option_bind].
  set (envelope := telemetry_envelope from_utf8_lossy uuid ev).
  assert (node_id_value envelope = Some (JString (in_node_id ev))) as -> by reflexivity.
  cbn [mbind option_bind as_str]. rewrite Hn. cbn [ok mbind option_bind].
  assert (timestamp_value envelope = Some (in_timestamp_ns ev)) as ->.
  { assert (timestamp_value envelope = as_i64 (json_int (in_timestamp_ns ev))) as -> by reflexivity.
    unfold json_int, fits_i in *. simpl in Hts. destruct (Z.leb_spec 0 (in_timestamp_ns ev)); simpl; [| done].
    destruct (Z.ltb_spec (in_timestamp_ns ev) (2 ^ 63)); [done | lia]. }
  assert (or_else (get "id" envelope) (get "event_id" envelope)
    = Some (JString (if str_is_empty (in_sequence_id ev) then uuid else in_sequence_id ev))) as -> by reflexivity.
  cbn [mbind option_bind as_str]. rewrite Hi. reflexivity.
Qed.

Definition example_incoming : IncomingEvent := Incoming "n1" "process" "p" 7 "s1".
Definition example_serde : SerdeJson :=
  table_serde [("p", JNull);
    ("bytes", @telemetry_envelope (table_serde [("p", JNull)] "") id "u1" example_incoming)] "".

Lemma envelope_is_stored_witness :
  @parse_log_entity example_serde Ok 0 "fresh" "aigis.events.raw" "bytes"
  = Some (mkLog "s1" "n1" "process" "unknown" JNull (Some "s1") 7).
Proof.
  refine (@envelope_is_stored example_serde id Ok "u1" example_incoming 0 "fresh" "aigis.events.raw" "bytes" "n1" "s1" _ _ _ _ _).
  - reflexivity.
  - reflexivity.
  - reflexivity.
  - reflexivity.
  - unfold fits_i. simpl. lia.
Defined.

(** When no insert fails and the worker is stopped or its channel closes, every item it took is in the
    log table, in order and each id once, as if inserted one by one; it never holds
    50 items or more. *)
Theorem worker_stores_everything es last f w :
  Forall (λ ef, pool ef.2 = None ∧ stmt ef.2 0 = None) es →
  pool f = None → stmt f 0 = None → last = WorkerShutdown ∨ last = ChannelClosed →
  Forall (λ ef, ef.1 ≠ WorkerShutdown ∧ ef.1 ≠ ChannelClosed) es →
  worker (es ++ [(last, f)]) [] w = ([], set_logs (foldl insert_log (w_logs w) (taken_items es)) w) ∧
  length (worker es [] w).1 < 50.
Proof.
  intros Hf Hp Hs Hlast Hgo. split; [| apply worker_batch; simpl; lia].
  assert (∀ batch w0, worker (es ++ [(last, f)]) batch w0
    = let '(b, w') := worker es batch w0 in ([], flush f b w')) as Hsplit.
  { clear Hf. induction Hgo as [| [e g] es [H1 H2] Hgo IH]; intros batch w0.
    - by destruct Hlast as [-> | ->].
    - destruct e; try done; cbn [app worker]; [apply IH |]. destruct (50 <=? _); apply IH. }
  rewrite Hsplit. pose proof (worker_all_stored es [] w Hf) as Hall.
  destruct (worker es [] w) as [b w']. destruct Hall as [Hl Hw]. f_equal.
  rewrite flush_logs, Hl by done. simpl. destruct w as [wn wa wl wd], w' as [wn' wa' wl' wd'].
  unfold set_logs in *. simpl in *. by injection Hw as -> -> ->.
Qed.

Lemma worker_stores_everything_witness :
  (worker [(Item (example_log "e1" 1), no_faults); (FlushTick, no_faults); (Item (example_log "e1" 2), no_faults);
           (WorkerShutdown, no_faults)] [] example_world).2
  = set_logs [example_log "e1" 1] example_world.
Proof.
  refine (f_equal snd (proj1 (worker_stores_everything
    [(Item (example_log "e1" 1), no_faults); (FlushTick, no_faults); (Item (example_log "e1" 2), no_faults)]
    WorkerShutdown no_faults example_world _ _ _ _ _))).
  - repeat constructor.
  - reflexivity.
  - reflexivity.
  - by left.
  - repeat constructor; done.
Defined.

(** A socket that stays open and subscribes to nothing else is sent exactly the
    live events of its node and topics, in order, as their JSON text. *)
Theorem socket_forwards_matching `{SerdeJson} client_message is_ s :
  forallb keeps_open is_ = true → existsb (subscribes client_message) is_ = false →
  live_frames client_message is_ s
  = omap (λ e, if matches_filter e (node_filter s) (topic_filters s)
               then TextFrame <$> ok (to_vec (live_json e)) else None) (live_events is_) ∧
  live_frames client_message is_ s `sublist_of` run_socket client_message is_ s.
Proof.
  intros Ho Hs. split; [| apply live_frames_sub].
  induction is_ as [| i is_ IH]; [done |]. cbn [forallb existsb] in Ho, Hs.
  apply andb_true_iff in Ho as [Hoi Ho]. apply orb_false_iff in Hs as [Hsi Hs].
  specialize (IH Ho Hs). pose proof (socket_step_keeps client_message i s Hsi Hoi) as Hstep.
  cbn [live_frames]. destruct (socket_step client_message i s) as [sg fs] eqn:Hi. simpl in Hstep. subst sg.
  unfold live_events. destruct i as [e fails | | | | | | | |]; cbn [app omap list_omap]; try exact IH.
  simpl in Hoi. apply negb_true_iff in Hoi as ->. cbn [socket_step] in Hi.
  destruct (matches_filter e _ _).
  - destruct (to_vec (live_json e)); injection Hi as <-; cbn [ok fmap option_fmap option_map app out]; [f_equal |]; exact IH.
  - injection Hi as <-. exact IH.
Qed.

Lemma socket_forwards_matching_witness :
  @live_frames (table_serde [] "text") (λ _, None)
    [Live (Log "n1" "h" "process" JNull 1) false; Live (Log "n2" "h" "process" JNull 2) false; PingTick false;
     Live (Heartbeat "n1" "healthy" 0 3) false] (open_socket (Some " Logs ,alerts") (Some "n1"))
  = [TextFrame "text"].
Proof.
  exact (proj1 (@socket_forwards_matching (table_serde [] "text") (λ _, None)
    [Live (Log "n1" "h" "process" JNull 1) false; Live (Log "n2" "h" "process" JNull 2) false; PingTick false;
     Live (Heartbeat "n1" "healthy" 0 3) false] (open_socket (Some " Logs ,alerts") (Some "n1")) eq_refl eq_refl)).
Defined.
