(* ===== verification/ApiSystem.v ===== *)
(** * The operator API as concurrent tasks
      (api-backend: kafka/consumer.rs, handlers/ws.rs, state.rs, main.rs)

    The Kafka consumer, the micro-batching worker behind a bounded channel, the
    HTTP handlers on the same databases, and any number of web sockets behind the
    broadcast channel.  One label is one pass of a task's loop or one request; a
    socket reads the broadcast ring at its own pace and lags when it is overtaken. *)
From Stdlib Require Import ZArith Lia.
From S2P Require Import Prelude Json FleetDb FleetServer Api ApiHttp ApiStream.
#[local] Open Scope string_scope.
#[local] Open Scope list_scope.
#[local] Open Scope nat_scope.

(** What [mpsc::channel] and [broadcast::channel] are asked for. *)
Definition PERSIST_CAPACITY : Z := 10000.
Definition BROADCAST_CAPACITY : Z := 5000.

(** A web socket's task.  [cl_first], [cl_start], [cl_met] and [cl_frames] are
    history: its subscription and the broadcast's end when it connected, what its
    loop met, what was sent to it. *)
Record client := Client {
  cl_first : socket; cl_sock : socket; cl_start : nat; cl_pos : nat; cl_open : bool;
  cl_met : list ws_input; cl_frames : list frame }.

(** [strm] holds all that was broadcast and handed to the worker, of which it took
    [taken].  [seen], [offered] and [dropped] are history: the messages the consumer
    took, the log rows they gave, how many of those found no room. *)
Record api := ApiState {
  world_of : world; strm : streams; taken : nat; batch : list EventLogEntity;
  consuming : bool; working : bool; cancelled : bool; clients : list client;
  seen : list message; offered : list EventLogEntity; dropped : nat }.

Section api.
Context `{SerdeJson} `{ScanOrder} `{ApiJwt}.
Context (rfc3339 : Z → string) (parse_hash : string → option string) (check_hash : string → string → bool).
Context (parse_uuid : string → result string string).
Context (live_event : string → option LiveEvent) (client_message : string → option WsClientMessage).
(** The settings; how many messages the broadcast ring holds, which tokio rounds up
    from what it is asked for. *)
Context (cfg : Settings) (ring : nat).

Inductive label :=
  (* the consumer's loop *)
  | Consume (m : message) | ConsumeError (e : string) | ConsumerStop
  (* the worker's loop, with the database's faults *)
  | Take (f : repo_faults) | Tick (f : repo_faults) | WorkerStop (f : repo_faults) | WorkerClosed (f : repo_faults)
  (* Ctrl-C *)
  | Cancel
  (* a request served *)
  | Request (e : req_env) (r : request)
  (* a web socket connects, its receiver gives what is next, or its peer acts *)
  | Connect (topics node_id : option string)
  | Receive (i : nat) (send_fails : bool)
  | Meet (i : nat) (x : ws_input).

(** What a message gives the log table, and the live stream. *)
Definition log_of (m : message) : option EventLogEntity :=
  payload ← m_payload m; parse_log_entity parse_uuid (m_now m) (m_fresh m) (m_topic m) payload.
Definition live_of (m : message) : option LiveEvent :=
  payload ← m_payload m; parse_kafka_message live_event (Some (m_now m)) (m_topic m) payload.

Definition waiting (e : api) : nat := length (to_persist (strm e)) - taken e.

(** [try_send] is refused. *)
Definition refuses (e : api) : bool := (PERSIST_CAPACITY <=? Z.of_nat (waiting e))%Z || negb (working e).

Definition consumed (m : message) (e : api) : api :=
  let m := Message (m_topic m) (m_payload m) (m_now m) (m_fresh m) (refuses e) in
  let new := option_list (log_of m) in
  ApiState (world_of e) (consume parse_uuid live_event m (strm e)) (taken e) (batch e) (consuming e) (working e)
    (cancelled e) (clients e) (seen e ++ [m]) (offered e ++ new)
    (if refuses e then dropped e + length new else dropped e).

(** One event of the worker; [n] more items are taken from the channel. *)
Definition worked (ev : worker_event) (f : repo_faults) (n : nat) (on : bool) (e : api) : api :=
  let '(b, w) := worker [(ev, f)] (batch e) (world_of e) in
  ApiState w (strm e) (taken e + n) b (consuming e) on (cancelled e) (clients e) (seen e) (offered e) (dropped e).

Definition with_clients (cs : list client) (e : api) : api :=
  ApiState (world_of e) (strm e) (taken e) (batch e) (consuming e) (working e) (cancelled e) cs (seen e) (offered e) (dropped e).
Definition with_world (w : world) (e : api) : api :=
  ApiState w (strm e) (taken e) (batch e) (consuming e) (working e) (cancelled e) (clients e) (seen e) (offered e) (dropped e).

(** A pass of a socket's loop, after which its receiver is at [pos]. *)
Definition met (x : ws_input) (pos : nat) (c : client) : client :=
  let '(s, go, fs) := socket_step client_message x (cl_sock c) in
  Client (cl_first c) s (cl_start c) pos go (cl_met c ++ [x]) (cl_frames c ++ fs).

(** [broadcast_rx.recv()]: what was overwritten is skipped and counted. *)
Definition received (stream : list LiveEvent) (send_fails : bool) (pos : nat) : option (ws_input * nat) :=
  if ring <? length stream - pos
  then Some (Lagged (Z.of_nat (length stream - ring - pos)), length stream - ring)
  else ev ← stream !! pos; Some (Live ev send_fails, S pos).

(** What a socket meets that is not the broadcast's; the sender lives in the state
    as long as the process, so the broadcast never closes. *)
Definition peer (x : ws_input) : bool :=
  match x with Live _ _ | Lagged _ | BroadcastClosed => false | _ => true end.

Definition fire (l : label) (e : api) : option api :=
  match l with
  | Consume m => if consuming e then Some (consumed m e) else None
  | ConsumeError _ => if consuming e then Some e else None
  | ConsumerStop =>
      if consuming e && cancelled e
      then Some (ApiState (world_of e) (strm e) (taken e) (batch e) false (working e) (cancelled e) (clients e)
                   (seen e) (offered e) (dropped e))
      else None
  | Take f =>
      match to_persist (strm e) !! taken e with
      | Some item => if working e then Some (worked (Item item) f 1 true e) else None
      | None => None
      end
  | Tick f => if working e then Some (worked FlushTick f 0 true e) else None
  | WorkerStop f => if working e && cancelled e then Some (worked WorkerShutdown f 0 false e) else None
  | WorkerClosed f =>
      if working e && negb (consuming e) && bool_decide (waiting e = 0)
      then Some (worked ChannelClosed f 0 false e) else None
  | Cancel =>
      Some (ApiState (world_of e) (strm e) (taken e) (batch e) (consuming e) (working e) true (clients e)
              (seen e) (offered e) (dropped e))
  | Request env r => Some (with_world (route rfc3339 parse_hash check_hash cfg env r (world_of e)).2 e)
  | Connect topics node_id =>
      let s := open_socket topics node_id in
      let now := length (broadcasts (strm e)) in
      Some (with_clients (clients e ++ [Client s s now now true [] []]) e)
  | Receive i fails =>
      c ← clients e !! i;
      if cl_open c then
        '(x, pos) ← received (broadcasts (strm e)) fails (cl_pos c);
        Some (with_clients (<[i := met x pos c]> (clients e)) e)
      else None
  | Meet i x =>
      c ← clients e !! i;
      if cl_open c && peer x then Some (with_clients (<[i := met x (cl_pos c) c]> (clients e)) e) else None
  end.

(** Main before it serves. *)
Definition started (w : world) : api := ApiState w (Streams [] []) 0 [] true true false [] [] [] 0.

(** The log database works. *)
Definition reliable (e : api) (l : label) : bool :=
  match l with
  | Take f | Tick f | WorkerStop f | WorkerClosed f =>
      match pool f, stmt f 0 with None, None => true | _, _ => false end
  | _ => true
  end.

(** ** Specification of a socket *)

(** What a socket met of a stretch of the broadcast: each event, or the number of
    those it was too late for. *)
Inductive hears : list ws_input → list LiveEvent → Prop :=
  | hears_nil : hears [] []
  | hears_live is_ l ev fails : hears is_ l → hears (is_ ++ [Live ev fails]) (l ++ [ev])
  | hears_lag is_ l gap : hears is_ l → gap ≠ [] → hears (is_ ++ [Lagged (Z.of_nat (length gap))]) (l ++ gap)
  | hears_peer is_ l x : hears is_ l → peer x = true → hears (is_ ++ [x]) l.

Definition is_lagged (x : ws_input) : bool := match x with Lagged _ => true | _ => false end.

(** The socket after some inputs, and whether its loop goes on. *)
Fixpoint after (is_ : list ws_input) (s : socket) : socket * bool :=
  match is_ with
  | [] => (s, true)
  | i :: is_ => let '(s', go, _) := socket_step client_message i s in if go then after is_ s' else (s', false)
  end.

Definition slice {A} (from upto : nat) (l : list A) : list A := take (upto - from) (drop from l).

(** ** Lemmas *)

Lemma slice_app {A} from upto (l k : list A) : upto ≤ length l → slice from upto (l ++ k) = slice from upto l.
Proof.
  intros Hu. unfold slice. destruct (Nat.le_gt_cases from (length l)) as [Hf | Hf].
  - rewrite drop_app_le by done. rewrite take_app_le; [done |]. rewrite length_drop. lia.
  - replace (upto - from) with 0 by lia. done.
Qed.

Lemma slice_split {A} from mid upto (l : list A) :
  from ≤ mid → mid ≤ upto → slice from upto l = slice from mid l ++ slice mid upto l.
Proof.
  intros Hm Hu. unfold slice. replace (upto - from) with ((mid - from) + (upto - mid)) by lia.
  rewrite <-take_take_drop, drop_drop. do 3 f_equal. lia.
Qed.

Lemma slice_length {A} from upto (l : list A) : upto ≤ length l → length (slice from upto l) = upto - from.
Proof. intros Hu. unfold slice. rewrite length_take, length_drop. lia. Qed.

Lemma slice_snoc {A} from upto (l : list A) x :
  from ≤ upto → l !! upto = Some x → slice from (S upto) l = slice from upto l ++ [x].
Proof.
  intros Hf Hx. unfold slice. replace (S upto - from) with (S (upto - from)) by lia.
  apply take_S_r. rewrite lookup_drop. by replace (from + (upto - from)) with upto by lia.
Qed.

(** *** Sockets *)

(** A step that leaves what an invariant speaks of as it was. *)
Ltac unaffected Hf :=
  repeat match type of Hf with
    | _ ≫= _ = Some _ => let y := fresh in apply bind_Some in Hf as (y & _ & Hf); try destruct y
    | (if ?b then _ else _) = Some _ => destruct b; [| discriminate Hf]
    | match ?o with Some _ => _ | None => None end = Some _ => destruct o; [| discriminate Hf]
    end; injection Hf as <-; done.

Lemma after_snoc is_ s x s' :
  after is_ s = (s', true) →
  after (is_ ++ [x]) s = (socket_step client_message x s').1 ∧
  run_socket client_message (is_ ++ [x]) s = run_socket client_message is_ s ++ (socket_step client_message x s').2.
Proof.
  revert s. induction is_ as [| i is_ IH]; intros s Ha; simpl in *.
  - injection Ha as <-. destruct (socket_step client_message x s) as [[s' go] fs]. simpl.
    by destruct go; rewrite ?app_nil_r.
  - destruct (socket_step client_message i s) as [[s1 go] fs]. destruct go; [| done].
    destruct (IH s1 Ha) as [-> ->]. by rewrite app_assoc.
Qed.

(** The live events among what was met, when nothing was missed. *)
Lemma hears_all is_ l : hears is_ l → existsb is_lagged is_ = false → live_events is_ = l.
Proof.
  unfold live_events. induction 1 as [| is_ l ev fails _ IH | is_ l gap _ _ _ | is_ l x _ IH Hx]; [done | | |];
    rewrite existsb_app; simpl; intros [Hl Hlast]%orb_false_iff; rewrite ?omap_app; simpl.
  - by rewrite IH.
  - done.
  - rewrite IH by done. destruct x; try done; by rewrite app_nil_r.
Qed.

(** An open socket whose subscription did not change was sent its matching events. *)
Lemma live_frames_open is_ s s' :
  after is_ s = (s', true) → existsb (subscribes client_message) is_ = false →
  live_frames client_message is_ s
  = omap (λ e, if matches_filter e (node_filter s) (topic_filters s)
               then TextFrame <$> ok (to_vec (live_json e)) else None) (live_events is_).
Proof.
  revert s'. induction is_ as [| i is_ IH]; intros s' Ha Hs; [done |]. cbn [existsb] in Hs.
  apply orb_false_iff in Hs as [Hsi Hs]. cbn [after live_frames] in *. unfold live_events in *.
  destruct i as [e fails | n | | text now fails | p fails | | err | | fails]; cbn [socket_step] in *; cbn [omap list_omap].
  - destruct (matches_filter e _ _); [| by eapply IH].
    destruct (to_vec (live_json e)); [| by eapply IH]. destruct fails; [done |]. cbn [ok fmap option_fmap option_map app out negb].
    f_equal. by eapply IH.
  - by eapply IH.
  - done.
  - simpl in Hsi. destruct (client_message text) as [[t n |] |]; [done | |]; [| by eapply IH].
    destruct (to_vec _); by eapply IH.
  - destruct fails; [done |]. by eapply IH.
  - done.
  - done.
  - by eapply IH.
  - destruct fails; [done |]. by eapply IH.
Qed.

Definition client_ok (stream : list LiveEvent) (c : client) : Prop :=
  cl_start c ≤ cl_pos c ≤ length stream ∧
  hears (cl_met c) (slice (cl_start c) (cl_pos c) stream) ∧
  cl_frames c = run_socket client_message (cl_met c) (cl_first c) ∧
  (cl_open c = true → after (cl_met c) (cl_first c) = (cl_sock c, true)).

Lemma met_ok stream x pos c :
  client_ok stream c → cl_open c = true → cl_pos c ≤ pos ≤ length stream →
  hears (cl_met c ++ [x]) (slice (cl_start c) pos stream) → client_ok stream (met x pos c).
Proof.
  intros (Hp & _ & Hf & Ho) Hopen Hpos Hh. specialize (Ho Hopen).
  destruct (after_snoc _ _ x _ Ho) as [Ha Hr]. unfold met, client_ok.
  destruct (socket_step client_message x (cl_sock c)) as [[s go] fs]. simpl in *.
  split_and!; [lia | lia | done | by rewrite Hf, Hr | by intros ->].
Qed.

Lemma received_hears is_ stream fails start pos x pos' :
  received stream fails pos = Some (x, pos') → start ≤ pos ≤ length stream →
  hears is_ (slice start pos stream) → pos ≤ pos' ≤ length stream ∧ hears (is_ ++ [x]) (slice start pos' stream).
Proof.
  unfold received. intros Hr Hb Hh. destruct (Nat.ltb_spec ring (length stream - pos)) as [Hlt | Hle].
  - injection Hr as <- <-. split; [lia |].
    rewrite (slice_split start pos (length stream - ring)) by lia.
    assert (length (slice pos (length stream - ring) stream) = length stream - ring - pos) as Hgap
      by (apply slice_length; lia).
    rewrite <-Hgap. apply hears_lag; [done |]. intros Hnil. rewrite Hnil in Hgap. simpl in Hgap. lia.
  - apply bind_Some in Hr as (ev & Hev & Hr). injection Hr as <- <-.
    apply lookup_lt_Some in Hev as Hlt. split; [lia |]. rewrite (slice_snoc _ _ _ ev) by (done || lia).
    by apply hears_live.
Qed.

Lemma client_grows stream more c : client_ok stream c → client_ok (stream ++ more) c.
Proof.
  intros (Hp & Hh & Hf & Ho). split_and!; [lia | rewrite length_app; lia | | done | done].
  by rewrite slice_app by lia.
Qed.

Lemma consume_broadcasts m st :
  broadcasts (consume parse_uuid live_event m st) = broadcasts st ++ option_list (live_of m).
Proof.
  unfold consume, live_of. destruct (m_payload m) as [p |]; simpl; [| by rewrite app_nil_r].
  destruct (parse_kafka_message _ _ _ p); simpl; destruct (parse_log_entity _ _ _ _ p); simpl;
    destruct (m_full m); simpl; by rewrite ?app_nil_r.
Qed.

(** What was broadcast is what the messages gave, and every socket is in step with it. *)
Definition streamed (e : api) : Prop :=
  broadcasts (strm e) = omap live_of (seen e) ∧ Forall (client_ok (broadcasts (strm e))) (clients e).

Lemma streamed_same e e' :
  strm e' = strm e → seen e' = seen e → clients e' = clients e → streamed e → streamed e'.
Proof. unfold streamed. by intros -> -> ->. Qed.

Lemma worked_same ev f n on e :
  strm (worked ev f n on e) = strm e ∧ seen (worked ev f n on e) = seen e ∧
  clients (worked ev f n on e) = clients e ∧ offered (worked ev f n on e) = offered e ∧
  dropped (worked ev f n on e) = dropped e.
Proof. unfold worked. by destruct (worker _ _ _). Qed.

Lemma client_step e i c x pos :
  streamed e → clients e !! i = Some c → cl_open c = true → cl_pos c ≤ pos ≤ length (broadcasts (strm e)) →
  hears (cl_met c ++ [x]) (slice (cl_start c) pos (broadcasts (strm e))) →
  streamed (with_clients (<[i := met x pos c]> (clients e)) e).
Proof.
  intros [Hb Hc] Hi Ho Hp Hh. split; [done |]. simpl. apply Forall_insert; [done |].
  apply met_ok; try done. by eapply Forall_lookup_1 in Hc.
Qed.

Lemma fire_streamed l e e' : fire l e = Some e' → streamed e → streamed e'.
Proof.
  intros Hf Hs.
  assert (∀ ev f n on, streamed (worked ev f n on e)) as Hworked
    by (intros; by apply (streamed_same e); [apply worked_same.. |]).
  destruct l as [m | err | | f | f | f | f | | env r | topics n | i fails | i x]; cbn [fire] in Hf; try unaffected Hf.
  - destruct (consuming e); [| done]. injection Hf as <-. destruct Hs as [Hb Hc]. unfold streamed, consumed. simpl.
    rewrite consume_broadcasts, omap_app, Hb. simpl. split; [by f_equal |].
    eapply Forall_impl; [exact Hc |]. intros c Hok. rewrite Hb in Hok. by apply client_grows.
  - injection Hf as <-. destruct Hs as [Hb Hc]. split; [done |]. simpl. apply Forall_app. split; [done |].
    apply Forall_singleton. unfold client_ok, slice. simpl. rewrite Nat.sub_diag. simpl.
    split_and!; [lia | lia | constructor | done | done].
  - apply bind_Some in Hf as (c & Hi & Hf). destruct (cl_open c) eqn:Ho; [| done].
    apply bind_Some in Hf as ([x pos] & Hr & Hf). injection Hf as <-.
    pose proof (Forall_lookup_1 _ _ _ _ (proj2 Hs) Hi) as (Hp & Hh & _).
    destruct (received_hears _ _ _ _ _ _ _ Hr Hp Hh). by apply client_step.
  - apply bind_Some in Hf as (c & Hi & Hf). destruct (cl_open c) eqn:Ho; [| done].
    destruct (peer x) eqn:Hx; [| done]. injection Hf as <-.
    pose proof (Forall_lookup_1 _ _ _ _ (proj2 Hs) Hi) as (Hp & Hh & _).
    apply client_step; [done | done | done | lia | by apply hears_peer].
Qed.

(** *** The log table *)

Lemma insert_logs_prefix ls table : table `prefix_of` foldl insert_log table ls.
Proof.
  revert table. induction ls as [| l ls IH]; intros table; simpl; [done |].
  etrans; [apply insert_log_prefix | apply IH].
Qed.

Lemma consume_persists m st :
  to_persist (consume parse_uuid live_event m st) = to_persist st ++ (if m_full m then [] else option_list (log_of m)).
Proof.
  unfold consume, log_of. destruct (m_payload m) as [p |]; simpl; [| by destruct (m_full m); rewrite app_nil_r].
  destruct (parse_kafka_message _ _ _ p); simpl; destruct (parse_log_entity _ _ _ _ p); simpl;
    destruct (m_full m); simpl; by rewrite ?app_nil_r.
Qed.

(** The table with the batch in hand is the items taken, inserted one by one. *)
Definition stored (logs : list EventLogEntity) (e : api) : Prop :=
  taken e ≤ length (to_persist (strm e)) ∧ length (batch e) < 50 ∧
  foldl insert_log (w_logs (world_of e)) (batch e) = foldl insert_log logs (take (taken e) (to_persist (strm e))) ∧
  (working e = false → batch e = []).

(** The channel is bounded, and what went in is what was offered unless it was full. *)
Definition queued (e : api) : Prop :=
  (Z.of_nat (waiting e) ≤ PERSIST_CAPACITY)%Z ∧ to_persist (strm e) `sublist_of` offered e ∧
  (dropped e = 0 → to_persist (strm e) = offered e) ∧ offered e = omap log_of (seen e).

Lemma worked_stored logs ev f n on e :
  pool f = None → stmt f 0 = None → stored logs e →
  taken_items [(ev, f)] = slice (taken e) (taken e + n) (to_persist (strm e)) →
  taken e + n ≤ length (to_persist (strm e)) → (on = false → ev = WorkerShutdown ∨ ev = ChannelClosed) →
  stored logs (worked ev f n on e).
Proof.
  intros Hp Hst (Ht & Hb & Hl & _) Hitems Hn Hon. unfold worked.
  assert (Forall (λ ef : worker_event * repo_faults, pool ef.2 = None ∧ stmt ef.2 0 = None) [(ev, f)]) as Hok
    by (by apply Forall_singleton).
  pose proof (worker_all_stored [(ev, f)] (batch e) (world_of e) Hok) as Hw.
  pose proof (worker_batch [(ev, f)] (batch e) (world_of e) Hb) as Hlen.
  destruct (worker [(ev, f)] (batch e) (world_of e)) as [b w] eqn:Hwk. destruct Hw as [Hw _]. simpl in Hlen.
  split_and!; simpl; [lia | done | |].
  - rewrite Hw, foldl_app, Hl, Hitems, <-foldl_app. f_equal.
    unfold slice. replace (taken e + n - taken e) with n by lia. apply take_take_drop.
  - intros Hoff. destruct (Hon Hoff) as [-> | ->]; simpl in Hwk; by injection Hwk as <- _.
Qed.

Lemma fire_stored logs l e e' : reliable e l = true → fire l e = Some e' → stored logs e → stored logs e'.
Proof.
  intros Hrel Hf Hs.
  assert (∀ f, match pool f, stmt f 0 with None, None => true | _, _ => false end = true →
    pool f = None ∧ stmt f 0 = None) as Hgood by (intros f; by destruct (pool f), (stmt f 0)).
  assert (slice (taken e) (taken e + 0) (to_persist (strm e)) = []) as Hnone
    by (unfold slice; by rewrite Nat.add_0_r, Nat.sub_diag).
  destruct l as [m | err | | f | f | f | f | | env r | topics n | i fails | i x]; cbn [fire reliable] in *;
    try unaffected Hf; try destruct (Hgood f Hrel).
  - destruct (consuming e); [| done]. injection Hf as <-. destruct Hs as (Ht & Hb & Hl & Hw).
    unfold stored, consumed. simpl. rewrite consume_persists, length_app, take_app_le by done. split_and!; [lia | done..].
  - destruct (to_persist (strm e) !! taken e) as [item |] eqn:Hi; [| done].
    destruct (working e); [| done]. injection Hf as <-. apply lookup_lt_Some in Hi as Hlt.
    apply worked_stored; try done; [| lia]. rewrite Nat.add_1_r, (slice_snoc _ _ _ item) by done.
    unfold slice. by rewrite Nat.sub_diag.
  - destruct (working e); [| done]. injection Hf as <-. apply worked_stored; try done. destruct Hs; lia.
  - destruct (working e && cancelled e); [| done]. injection Hf as <-.
    apply worked_stored; try done; [destruct Hs; lia | by left].
  - destruct (_ && bool_decide _); [| done]. injection Hf as <-.
    apply worked_stored; try done; [destruct Hs; lia | by right].
  - injection Hf as <-. destruct Hs as (Ht & Hb & Hl & Hw). unfold stored. simpl.
    destruct (route_frame rfc3339 parse_hash check_hash cfg env r (world_of e)) as [-> _]. done.
Qed.

Lemma fire_queued l e e' : fire l e = Some e' → queued e → queued e'.
Proof.
  intros Hf Hq.
  assert (∀ ev f n on, queued (worked ev f n on e)) as Hworked.
  { intros ev f n on. unfold queued, waiting. destruct (worked_same ev f n on e) as (-> & -> & _ & -> & ->).
    assert (taken (worked ev f n on e) = taken e + n) as ->
      by (unfold worked; by destruct (worker _ _ _)).
    destruct Hq as (Hz & ?). unfold waiting in Hz. split; [lia | done]. }
  destruct l as [m | err | | f | f | f | f | | env r | topics n | i fails | i x]; cbn [fire] in Hf; try unaffected Hf.
  - destruct (consuming e); [| done]. injection Hf as <-. destruct Hq as (Hz & Hsub & Hd & Ho).
    unfold queued, consumed, waiting. simpl. rewrite consume_persists, length_app, omap_app, <-Ho.
    change (omap log_of [Message (m_topic m) (m_payload m) (m_now m) (m_fresh m) (refuses e)]) with (option_list (log_of m)).
    change (log_of (Message (m_topic m) (m_payload m) (m_now m) (m_fresh m) (refuses e))) with (log_of m).
    simpl. unfold waiting in Hz.
    assert (length (option_list (log_of m)) ≤ 1) as H1l by (by destruct (log_of m); simpl; lia).
    destruct (refuses e) eqn:Hr.
    + rewrite app_nil_r. simpl. split_and!; [lia | by apply sublist_inserts_r | | done].
      intros Hd0. destruct (log_of m); simpl in *; [lia |]. rewrite app_nil_r. apply Hd. lia.
    + unfold refuses, waiting in Hr. apply orb_false_iff in Hr as [Hr%Z.leb_gt _].
      split_and!; [lia | by apply sublist_app | | done]. intros Hd0. by rewrite Hd.
Qed.

(** ** Properties *)

(** C34 (safety): in every interleaving of the consumer, the worker, requests, sockets and
    the shutdown, when the log database works and its event ids were unique: they
    stay unique and rows stay; the table together with the batch in hand is what
    one insertion after the other of the items the worker took gives, and has their
    ids; the batch is short of 50 and empty once the worker is over; at most 10000
    items wait; and as long as none was refused for want of room, the items are
    the log rows of all messages consumed, in order. *)
Theorem log_rows_stored_in_order w e :
  NoDup (lg_event_id <$> w_logs w) → reached fire reliable (started w) e →
  NoDup (lg_event_id <$> w_logs (world_of e)) ∧
  foldl insert_log (w_logs (world_of e)) (batch e)
  = foldl insert_log (w_logs w) (take (taken e) (to_persist (strm e))) ∧
  (∀ id, id ∈ lg_event_id <$> w_logs w ∨ id ∈ lg_event_id <$> take (taken e) (to_persist (strm e)) ↔
         id ∈ lg_event_id <$> w_logs (world_of e) ∨ id ∈ lg_event_id <$> batch e) ∧
  length (batch e) < 50 ∧ (working e = false → batch e = []) ∧ (Z.of_nat (waiting e) ≤ PERSIST_CAPACITY)%Z ∧
  (dropped e = 0 → to_persist (strm e) = omap log_of (seen e)).
Proof.
  intros Hnd Hr.
  assert (stored (w_logs w) e) as (Ht & Hb & Hl & Hw).
  { apply (reached_invariant fire (stored (w_logs w)) reliable (started w)); [| split_and!; simpl; (lia || done) | done].
    intros e1 l e2 _ Hok Hf. by apply (fire_stored _ l). }
  assert (queued e) as (Hz & _ & Hd & Ho).
  { apply (reached_invariant fire queued reliable (started w)); [| split_and!; done | done].
    intros e1 l e2 _ _ Hf. by apply (fire_queued l). }
  destruct (insert_logs_spec (take (taken e) (to_persist (strm e))) (w_logs w) Hnd) as (Hnd1 & _ & Hids & _).
  assert (NoDup (lg_event_id <$> w_logs (world_of e))) as Hnd2.
  { rewrite <-Hl in Hnd1. destruct (insert_logs_prefix (batch e) (w_logs (world_of e))) as [more Hmore].
    rewrite Hmore, fmap_app in Hnd1. by apply NoDup_app in Hnd1 as [? _]. }
  destruct (insert_logs_spec (batch e) (w_logs (world_of e)) Hnd2) as (_ & _ & Hids2 & _).
  split_and!; try done; [| intros H0d; by rewrite Hd]. intros id. by rewrite <-Hids, <-Hl, Hids2.
Qed.

(** C35 (functional): in every interleaving the live stream is what the consumed messages give,
    in order; each socket hears the stretch of it from its connection on, event for
    event but for the counted gaps when the ring overtook it, after which it stays open
    (api-backend/guide.md says a lagging client is disconnected); and a socket still
    open that never lagged and kept its subscription was sent, for the live
    stream, exactly the matching events of that stretch, in order, as JSON text. *)
Theorem sockets_hear_the_stream w e c :
  reached fire any_order (started w) e → c ∈ clients e →
  broadcasts (strm e) = omap live_of (seen e) ∧
  cl_start c ≤ cl_pos c ≤ length (broadcasts (strm e)) ∧
  hears (cl_met c) (slice (cl_start c) (cl_pos c) (broadcasts (strm e))) ∧
  cl_frames c = run_socket client_message (cl_met c) (cl_first c) ∧
  (cl_open c = true → existsb is_lagged (cl_met c) = false → existsb (subscribes client_message) (cl_met c) = false →
   live_frames client_message (cl_met c) (cl_first c)
   = omap (λ ev, if matches_filter ev (node_filter (cl_first c)) (topic_filters (cl_first c))
                 then TextFrame <$> ok (to_vec (live_json ev)) else None)
       (slice (cl_start c) (cl_pos c) (broadcasts (strm e)))).
Proof.
  intros Hr Hc. assert (streamed e) as [Hb Hcs].
  { apply (reached_invariant fire streamed any_order (started w)); [| split; [done | constructor] | done].
    intros e1 l e2 _ _ Hf. by apply (fire_streamed l). }
  pose proof (proj1 (Forall_forall _ _) Hcs c Hc) as (Hp & Hh & Hf & Ho).
  split_and!; [done | lia | lia | done | done |]. intros Hopen Hlag Hsub.
  rewrite <-(hears_all _ _ Hh Hlag). eapply live_frames_open; [by apply Ho | done].
Qed.
End api.

(** *** A small server: a ring of one message *)
#[local] Existing Instance ApiStream.example_serde.
#[local] Existing Instance identity_scan.
#[local] Existing Instance ToyApiJwt.toy_api_jwt.
Definition example_message : message := Message "aigis.events.raw" (Some "bytes") 0 "fresh" false.
Definition example_fire : label → api → option api :=
  fire (λ _, "t") Some (λ _ _, false) Ok (λ _, None) (λ _, None) example_settings 1.
Definition example_run (ok : api → label → bool) (ls : list label) : option api :=
  fire_all example_fire ok ls (started example_world).
Definition example_after (ok : api → label → bool) (ls : list label) : api :=
  default (started example_world) (example_run ok ls).

Lemma example_reached ok ls :
  is_some (example_run ok ls) = true → reached example_fire ok (started example_world) (example_after ok ls).
Proof. intros Hs. eapply fire_all_reached; [apply reached_start |]. by apply some_default. Qed.

(** The row waits, the worker takes and stores it. *)
Definition example_storing : list label :=
  [Consume example_message; Take no_faults; Consume example_message; Tick no_faults].

Lemma log_rows_stored_in_order_witness :
  let e := example_after reliable example_storing in
  lg_event_id <$> w_logs (world_of e) = ["s1"] ∧ waiting e = 1 ∧ NoDup (lg_event_id <$> w_logs (world_of e)).
Proof.
  intros e. split; [by vm_compute |]. split; [by vm_compute |].
  refine (proj1 (log_rows_stored_in_order (λ _, "t") Some (λ _ _, false) Ok (λ _, None) (λ _, None) example_settings 1
           example_world e _ _)); [constructor |].
  apply example_reached. by vm_compute.
Defined.

(** Of three events the socket hears the first; the second is overwritten before it
    looks again. *)
Definition example_stream : list label :=
  [Connect None None; Consume example_message; Receive 0 false; Consume example_message; Consume example_message;
   Receive 0 false; Receive 0 false].
Definition example_client (n : nat) : client :=
  default (Client (Socket None []) (Socket None []) 0 0 false [] [])
    (clients (example_after any_order (take n example_stream)) !! 0).

Lemma sockets_hear_the_stream_witness :
  is_lagged <$> cl_met (example_client 7) = [false; true; false] ∧ cl_open (example_client 7) = true ∧
  cl_pos (example_client 7) ≤ length (broadcasts (strm (example_after any_order example_stream))).
Proof.
  split; [by vm_compute |]. split; [by vm_compute |].
  refine (proj2 (proj1 (proj2 (sockets_hear_the_stream (λ _, "t") Some (λ _ _, false) Ok (λ _, None) (λ _, None) example_settings 1
           example_world (example_after any_order example_stream) (example_client 7) _ _)))).
  - apply example_reached. by vm_compute.
  - apply (list_elem_of_lookup_2 _ 0). apply (some_default (Client (Socket None []) (Socket None []) 0 0 false [] [])).
    by vm_compute.
Defined.

(** On shutdown the worker flushes the batch in hand and leaves what waits in the
    channel, whose messages are committed on their own. *)
Lemma shutdown_drops_queue :
  let e := example_after reliable [Consume example_message; Cancel; WorkerStop no_faults; ConsumerStop] in
  working e = false ∧ waiting e = 1 ∧ w_logs (world_of e) = [].
Proof. by vm_compute. Qed.
