(* ===== verification/NodePath.v ===== *)
(** * The nodes table between the fleet server and the operators
      (fleet-server/crates/postgres-interface, health-tracker; api-backend/src/repositories/node_repo.rs)

    Registrations, heartbeats and the operators' requests work on one table.  The
    migration gives the operator status to the operators alone: the run of both
    servers is compared with the list of their decisions. *)
From Stdlib Require Import ZArith Lia.
From S2P Require Import Prelude Json FleetDb FleetServer Api ApiHttp.
#[local] Open Scope string_scope.
#[local] Open Scope list_scope.
#[local] Open Scope nat_scope.

Section path.
Context `{Jwt} `{ScanOrder} `{ApiJwt}.
Context (parse_uuid : string → result string string).
Context (rfc3339 : Z → string) (parse_hash : string → option string) (check_hash : string → string → bool).
Context (cfg : Api.Settings).

(** A call of an agent, or a request of an operator. *)
Inductive step := Fleet (c : call) | Ask (e : req_env) (r : request).

Definition fire (s : step) (w : world) : world :=
  match s with
  | Fleet c => set_nodes (serve parse_uuid c (w_nodes w)) w
  | Ask e r => (route rfc3339 parse_hash check_hash cfg e r w).2
  end.

Definition run (steps : list step) (w : world) : world := foldl (λ w s, fire s w) w steps.

(** ** Specification: the operators' decisions *)

Definition wanted (s : step) : option (string * string) :=
  match s with
  | Ask _ (IsolateNode (Ok (id, _))) => Some (id, "isolated")
  | Ask _ (UnisolateNode (Ok id)) => Some (id, "active")
  | _ => None
  end.

(** A decision counts when its request was answered with success. *)
Definition verdict (s : step) (w : world) : option (string * string) :=
  match s with
  | Ask e r =>
      if (resp_status (route rfc3339 parse_hash check_hash cfg e r w).1 =? 200)%Z then wanted s else None
  | Fleet _ => None
  end.

Fixpoint verdicts (steps : list step) (w : world) : list (string * string) :=
  match steps with
  | [] => []
  | s :: steps => option_list (verdict s w) ++ verdicts steps (fire s w)
  end.

(** The status of a node that had [st] after some decisions. *)
Definition decided (id st : string) (vs : list (string * string)) : string :=
  foldl (λ st v, if decide (v.1 = id) then v.2 else st) st vs.

(** ** Lemmas *)

(** What one step does to the rows, given its verdict. *)
Definition owned (d d' : db) (v : option (string * string)) : Prop :=
  (∀ id n, nodes d !! id = Some n → ∃ n', nodes d' !! id = Some n' ∧ machine_id n' = machine_id n ∧
     operator_status n' = decided id (operator_status n) (option_list v) ∧
     (agent_status n' = agent_status n ∨ agent_status n' = "healthy" ∨ agent_status n' = "degraded")) ∧
  (∀ id n', nodes d' !! id = Some n' → nodes d !! id = None →
     operator_status n' = "active" ∧ agent_status n' = "healthy") ∧
  (∀ id st, v = Some (id, st) → is_Some (nodes d !! id)).

Lemma owned_same d d' : nodes d' = nodes d → owned d d' None.
Proof.
  intros Hn. split_and!; [| | done]; rewrite Hn.
  - intros id n Hid. exists n. split_and!; [done | done | done | by left].
  - intros id n' H1n. congruence.
Qed.

Lemma upsert_owned e r d id d' : pg_upsert_node e r d = (Ok id, d') → owned d d' None.
Proof.
  intros Hu. destruct (pg_upsert_cases e r d) as [[err Hu'] | (i & d1 & Hu' & Hw)];
    rewrite Hu' in Hu; [done |]. injection Hu as -> ->.
  apply write_enrollment_ok in Hw as [_ Hw]. destruct (find_machine _ d) as [j |].
  - destruct Hw as (-> & _ & ->). split_and!; simpl; [| | done].
    + intros k n Hk. destruct (decide (k = j)) as [-> |].
      * exists (re_node e r n). rewrite lookup_alter_eq, Hk. split_and!; [done | done | done | by left].
      * exists n. rewrite lookup_alter_ne by done. split_and!; [done | done | done | by left].
    + intros k n' Hk Hnone. apply lookup_alter_Some in Hk as [(<- & n0 & Hk & _) | (_ & Hk)]; congruence.
  - destruct Hw as (-> & Hnone & _ & ->). split_and!; simpl; [| | done].
    + intros k n Hk. exists n. rewrite lookup_insert_ne by congruence. split_and!; [done | done | done | by left].
    + intros k n' Hk Hk0. apply lookup_insert_Some in Hk as [(<- & <-) | (_ & Hk)]; [done | congruence].
Qed.

Lemma heartbeat_owned e r d :
  hb_agent_status r = "healthy" ∨ hb_agent_status r = "degraded" →
  owned d (pg_record_heartbeat parse_uuid e r d).2 None.
Proof.
  intros Hr. destruct (heartbeat_cases parse_uuid e r d) as [[err ->] | (id & _ & Hid & _ & ->)]; [by apply owned_same |].
  split_and!; simpl; [| | done].
  - intros k n Hk. destruct (decide (k = id)) as [-> |].
    + exists (beat_node (hb_agent_status r) n). rewrite lookup_alter_eq, Hk. split_and!; [done | done | done | by right].
    + exists n. rewrite lookup_alter_ne by done. split_and!; [done | done | done | by left].
  - intros k n' Hk Hnone. apply lookup_alter_Some in Hk as [(<- & n0 & Hk & _) | (_ & Hk)]; congruence.
Qed.

Lemma serve_owned c d : owned d (serve parse_uuid c d) None.
Proof.
  destruct c as [secret jwt e secs md req | jwt e secs md hb]; simpl.
  - destruct (register_state secret jwt e secs md req d) as [-> | (r & id & d' & Hu & ->)];
      [by apply owned_same | by eapply upsert_owned].
  - destruct (rpc_heartbeat_state parse_uuid jwt e secs md hb d) as [-> | (r & Hr & ->)];
      [by apply owned_same | by apply heartbeat_owned].
Qed.

Lemma status_not_ok e : status_code e ≠ 200%Z.
Proof. by destruct e. Qed.

Lemma update_operator_cases f now id st w :
  (∃ err, update_operator_status f now id st w = (Err err, w)) ∨
  ∃ n r, nodes (w_nodes w) !! id = Some n ∧
    update_operator_status f now id st w =
    (Ok r, set_nodes (Db (<[id := set_operator_status st n]> (nodes (w_nodes w)))
                        (node_health (w_nodes w)) (enrollment_events (w_nodes w))) w).
Proof.
  unfold update_operator_status, mbind, SE_bind, get_conn, update_stmt_ok.
  destruct (pool f); [left; by eexists |]. simpl. destruct (stmt f 0); [left; by eexists |]. simpl.
  destruct (nodes (w_nodes w) !! id) as [n |]; [right; by do 2 eexists | left; by eexists].
Qed.

(** The two operations of the service give what the update of the row gives. *)
Lemma isolate_update f now reach id reason w :
  isolate_node f now reach id reason w = update_operator_status f now id "isolated" w.
Proof. unfold isolate_node, mbind, SE_bind. destruct (update_operator_status _ _ _ _ _) as [[r | e] w']; by destruct reach. Qed.
Lemma unisolate_update f now reach id w :
  unisolate_node f now reach id w = update_operator_status f now id "active" w.
Proof. unfold unisolate_node, mbind, SE_bind. destruct (update_operator_status _ _ _ _ _) as [[r | e] w']; by destruct reach. Qed.

Lemma set_owned w id n st :
  nodes (w_nodes w) !! id = Some n →
  owned (w_nodes w) (Db (<[id := set_operator_status st n]> (nodes (w_nodes w)))
                       (node_health (w_nodes w)) (enrollment_events (w_nodes w))) (Some (id, st)).
Proof.
  intros Hn. split_and!; simpl.
  - intros k m Hk. destruct (decide (id = k)) as [<- | Hne].
    + exists (set_operator_status st n). rewrite lookup_insert_eq. simplify_eq. split_and!; [done | done | done | by left].
    + exists m. rewrite lookup_insert_ne by done. split_and!; [done | done | done | by left].
  - intros k m Hk Hnone. apply lookup_insert_Some in Hk as [(<- & _) | (_ & Hk)]; congruence.
  - intros k st' [= <- <-]. by exists n.
Qed.

(** A request behind the token check that updates a row. *)
Lemma guarded_owned {A} (a : A) (h : Claims → A → SE world AppError value) (m : SE world AppError IsolateNodeResponse)
    (j : IsolateNodeResponse → value) e f id st w :
  (∀ c, h c a = (r ← m; mret (j r))) → m w = update_operator_status f (clock e) id st w →
  let '(resp, w') := guarded rfc3339 cfg e (Ok a) h w in
  owned (w_nodes w) (w_nodes w') (if (resp_status resp =? 200)%Z then Some (id, st) else None).
Proof.
  intros Hh Hm. unfold guarded. destruct (auth_user _ _ _) as [c | err]; simpl.
  - unfold respond. rewrite Hh. unfold mbind, SE_bind. rewrite Hm.
    destruct (update_operator_cases f (clock e) id st w) as [[err ->] | (n & r & Hn & ->)]; simpl.
    + destruct (Z.eqb_spec (status_code err) 200) as [He |]; [by apply status_not_ok in He | by apply owned_same].
    + by apply set_owned.
  - destruct (Z.eqb_spec (status_code err) 200) as [He |]; [by apply status_not_ok in He | by apply owned_same].
Qed.

Lemma alert_update_nodes f now id st w : w_nodes (alert_update_status f now id st w).2 = w_nodes w.
Proof.
  unfold alert_update_status, mbind, SE_bind, get_conn, update_stmt_ok.
  destruct (pool f); [done |]. simpl. destruct (stmt f 0); [done |]. simpl. by case_decide.
Qed.

Lemma ask_owned e r w :
  owned (w_nodes w) (w_nodes (route rfc3339 parse_hash check_hash cfg e r w).2) (verdict (Ask e r) w).
Proof.
  assert (wanted (Ask e r) = None → w_nodes (route rfc3339 parse_hash check_hash cfg e r w).2 = w_nodes w →
    owned (w_nodes w) (w_nodes (route rfc3339 parse_hash check_hash cfg e r w).2) (verdict (Ask e r) w)) as Hidle.
  { intros Hw Hn. unfold verdict. rewrite Hw. destruct (_ =? _)%Z; apply owned_same; by rewrite Hn. }
  destruct (is_write r) eqn:Hwr.
  2: { apply Hidle; [by destruct r | by rewrite route_read_only]. }
  destruct r as [| | | | | | [[id reason] | rej] | [id | rej] | | | x | | |]; try discriminate Hwr.
  - pose proof (guarded_owned (id, reason) (λ _ '(id, reason), h_isolate_node rfc3339 e id reason) _ (isolated_json rfc3339)
      e (faults e) id "isolated" w (λ c, eq_refl) (isolate_update _ _ _ _ _ _)) as Ho.
    unfold verdict. cbn [route wanted]. destruct (guarded _ _ _ _ _ w) as [resp w']. exact Ho.
  - apply Hidle; [done |]. cbn [route]. unfold guarded. by destruct (auth_user _ _ _).
  - pose proof (guarded_owned id (λ _ id, h_unisolate_node rfc3339 e id) _ (isolated_json rfc3339)
      e (faults e) id "active" w (λ c, eq_refl) (unisolate_update _ _ _ _ _)) as Ho.
    unfold verdict. cbn [route wanted]. destruct (guarded _ _ _ _ _ w) as [resp w']. exact Ho.
  - apply Hidle; [done |]. cbn [route]. unfold guarded. by destruct (auth_user _ _ _).
  - apply Hidle; [done |]. cbn [route]. unfold guarded. destruct (auth_user _ _ _); [| done].
    destruct x as [[id st] | rej]; [| done]. unfold respond, h_update_alert_status, mbind, SE_bind.
    pose proof (alert_update_nodes (faults e) (clock e) id st w) as Hn.
    by destruct (alert_update_status _ _ _ _ w) as [[] w'].
Qed.

Lemma fire_owned s w : owned (w_nodes w) (w_nodes (fire s w)) (verdict s w).
Proof. destruct s as [c | e r]; [apply serve_owned | apply ask_owned]. Qed.

Lemma decided_app id st vs ws : decided id st (vs ++ ws) = decided id (decided id st vs) ws.
Proof. apply foldl_app. Qed.

(** The rows after a run: those there before, and those of machines enrolled since. *)
Lemma run_owned steps w :
  (∀ id n, nodes (w_nodes w) !! id = Some n → ∃ n', nodes (w_nodes (run steps w)) !! id = Some n' ∧
     machine_id n' = machine_id n ∧ operator_status n' = decided id (operator_status n) (verdicts steps w) ∧
     (agent_status n' = agent_status n ∨ agent_status n' = "healthy" ∨ agent_status n' = "degraded")) ∧
  (∀ id n', nodes (w_nodes (run steps w)) !! id = Some n' → nodes (w_nodes w) !! id = None →
     operator_status n' = decided id "active" (verdicts steps w) ∧
     (agent_status n' = "healthy" ∨ agent_status n' = "degraded")).
Proof.
  revert w. induction steps as [| s steps IH]; intros w.
  { split; [| intros id n' H1n; cbn [run foldl] in H1n; congruence].
    intros id n Hid. exists n. split_and!; [done | done | done | by left]. }
  destruct (fire_owned s w) as (Hold & Hnew & Hv). destruct (IH (fire s w)) as [IHold IHnew].
  change (run (s :: steps) w) with (run steps (fire s w)). cbn [verdicts]. split.
  - intros id n Hid. destruct (Hold id n Hid) as (n1 & Hn1 & Hm1 & Ho1 & Ha1).
    destruct (IHold id n1 Hn1) as (n2 & Hn2 & Hm2 & Ho2 & Ha2). exists n2.
    split_and!; [done | congruence | by rewrite decided_app, <-Ho1 |].
    destruct Ha2 as [-> | ?]; [done | by right].
  - intros id n' Hn' Hnone.
    assert (decided id "active" (option_list (verdict s w)) = "active") as Hidle.
    { destruct (verdict s w) as [[k st] |] eqn:Hvs; [| done]. simpl. case_decide as Hk; [| done].
      subst. destruct (Hv id st eq_refl) as [n Hn]. congruence. }
    rewrite decided_app, Hidle. destruct (nodes (w_nodes (fire s w)) !! id) as [n1 |] eqn:Hn1; [| by apply IHnew].
    destruct (Hnew id n1 Hn1 Hnone) as [Ho Ha]. destruct (IHold id n1 Hn1) as (n2 & Hn2 & _ & Ho2 & Ha2).
    simplify_eq. rewrite Ho2, Ho. split; [done |]. destruct Ha2 as [-> | ?]; [by left | done].
Qed.

(** ** Properties *)

(** C14 (refinement): whatever registrations, heartbeats and requests meet on the nodes table, and
    whatever fails: no row goes, a row keeps its machine, the operator status of a
    row is the one of the last request for it that was answered with success, of
    before if there was none, and "active" for a machine enrolled since; and agents
    report themselves healthy or degraded, nothing else. *)
Theorem operators_own_the_status steps w :
  (∀ id n, nodes (w_nodes w) !! id = Some n → ∃ n', nodes (w_nodes (run steps w)) !! id = Some n' ∧
     machine_id n' = machine_id n ∧ operator_status n' = decided id (operator_status n) (verdicts steps w) ∧
     (agent_status n' = agent_status n ∨ agent_status n' = "healthy" ∨ agent_status n' = "degraded")) ∧
  (∀ id n', nodes (w_nodes (run steps w)) !! id = Some n' → nodes (w_nodes w) !! id = None →
     operator_status n' = decided id "active" (verdicts steps w) ∧
     (agent_status n' = "healthy" ∨ agent_status n' = "degraded")).
Proof. apply run_owned. Qed.
End path.

(** *** An isolated machine enrols again and reports itself isolated *)
#[local] Existing Instance ToyJwt.toy_jwt.
#[local] Existing Instance identity_scan.
#[local] Existing Instance ToyApiJwt.toy_api_jwt.
Definition example_call (u1 u2 : string) : call :=
  CallRegister None "key" (FleetDb.example_env u1 u2 5) (Some 1%Z) [] example_reg.
Definition example_beat : call :=
  CallHeartbeat "key" (FleetDb.example_env "h1" "h2" 6) 1 [("authorization", "Bearer " +:+ FleetServer.example_token)]
    (Heartbeat "n1" "isolated" 3).
Definition example_ask (r : request) : step :=
  Ask (ReqEnv [("authorization", "Bearer " +:+ default "" (ok (api_encode (mkClaims "ann" "soc_admin" 9000 1) "key")))] 0 no_faults None) r.
Definition example_run := @run ToyJwt.toy_jwt identity_scan ToyApiJwt.toy_api_jwt Ok (λ _, "t") Some (λ _ _, true) example_settings.
Definition example_start : world := example_run [Fleet (example_call "n1" "e1")] (World (Db ∅ [] []) [] [] []).
Definition example_steps : list step :=
  [example_ask (IsolateNode (Ok ("n1", None))); Fleet (example_call "n2" "e2"); Fleet example_beat].

Lemma operators_own_the_status_witness :
  length (node_health (w_nodes (example_run example_steps example_start))) = 1 ∧
  ∃ n', nodes (w_nodes (example_run example_steps example_start)) !! "n1" = Some n' ∧
    operator_status n' = "isolated" ∧ machine_id n' = "m1".
Proof.
  split; [by vm_compute |].
  assert (is_some (nodes (w_nodes example_start) !! "n1") = true) as Hn by (by vm_compute).
  apply (some_default (Node "" "" "" "" "" "" 0 0)) in Hn.
  destruct (operators_own_the_status Ok (λ _, "t") Some (λ _ _, true) example_settings example_steps example_start) as [Hold _].
  destruct (Hold "n1" _ Hn) as (n' & Hn' & Hm & Ho & _). exists n'. split; [exact Hn' |].
  rewrite Ho, Hm. split; by vm_compute.
Defined.
