(* ===== verification/AlertPath.v ===== *)
(** * The alert table between the rule engine and the operators
      (rule-engine/src/sink/diesel_sink.rs, src/main.rs; api-backend/src/repositories/alert_repo.rs)

    The batcher's sink and the API's alert repository work on one table.  A state
    is an engine of [EngineSystem] and the API's databases; a step is one of the
    engine's, whose new rows the API's next statement sees, or a request. *)
From Stdlib Require Import ZArith Lia.
From S2P Require Import Prelude Json RuleModels Pipeline Dedup Scanner RuleEngine EngineSystem.
From S2P Require Api ApiHttp.
#[local] Open Scope string_scope.
#[local] Open Scope list_scope.
#[local] Open Scope nat_scope.

(** The columns of an inserted row, as the API reads them. *)
Definition row_of (n : NewAlertEntity) : Api.AlertEntity :=
  Api.mkAlert (ne_alert_id n) (ne_node_id n) (ne_hostname n) (ne_severity n) (ne_source n)
    (ne_mitre_technique_id n) (ne_mitre_tactic n) (ne_description n) (ne_triggering_event_id n)
    (ne_threat_score n) (ne_status n) (ne_created_at n).

(** What an operator cannot change: all but the triage status. *)
Definition fixed : Api.AlertEntity → Api.AlertEntity := Api.set_alert_status "".

(** The rows a statement of the engine added to [t]. *)
Definition land (t t' : gmap string NewAlertEntity) (w : Api.world) : Api.world :=
  Api.set_alerts (Api.w_alerts w ++ (row_of <$> (map_to_list (t' ∖ t)).*2)) w.

Section path.
Context `{SerdeJson} {Rules : Type} (scan : Rules → string → result (list MatchedRule) string).
Context `{HL : Lru AlertSignature (Z * Z)} (hash : string → Z).
Context (uuid : nat → string) (utc instant : nat → Z).
Context (parse_event : string → result TelemetryEvent string) (dlq_topic : string).
Context (alert_to_vec : Alert → result string string) (alerts_topic : string) (config : RuleEngineConfig).
Context `{Api.ScanOrder} `{Api.ApiJwt}.
Context (rfc3339 : Z → string) (parse_hash : string → option string) (check_hash : string → string → bool).
Context (cfg : Api.Settings).
#[local] Abbreviation engine := (EngineSystem.engine (Rules := Rules)).
#[local] Abbreviation fire_engine :=
  (EngineSystem.fire scan hash uuid utc instant parse_event dlq_topic alert_to_vec alerts_topic config).

Definition table_of (e : engine) : gmap string NewAlertEntity := Sink.table (Sink.b_store (ba e)).

Inductive label :=
  | Engine_ (l : EngineSystem.label (Rules := Rules))
  | Request (env : ApiHttp.req_env) (r : ApiHttp.request).

Definition fire (l : label) (s : engine * Api.world) : option (engine * Api.world) :=
  let '(e, w) := s in
  match l with
  | Engine_ l => e' ← fire_engine l e; Some (e', land (table_of e) (table_of e') w)
  | Request env r => Some (e, (ApiHttp.route rfc3339 parse_hash check_hash cfg env r w).2)
  end.

(** ** Lemmas *)

(** *** The sink's table and the batches *)

Definition handed (b : Sink.batcher) : Prop :=
  (∀ l a, (l, true) ∈ Sink.batches b → a ∈ l → is_Some (Sink.table (Sink.b_store b) !! alert_id a)) ∧
  (∀ k n, Sink.table (Sink.b_store b) !! k = Some n →
     ∃ a, a ∈ concat (Sink.batches b).*1 ∧ n = entity_of_alert a ∧ k = alert_id a).

Lemma hand_over_table f c b :
  let b' := Sink.hand_over alert_to_vec alerts_topic f c b in
  ∃ ok : bool, Sink.batches b' = Sink.batches b ++ [(Sink.buffer b, ok)] ∧
    Sink.table (Sink.b_store b') =
    (if ok then foldl Sink.insert_one (Sink.table (Sink.b_store b)) (entity_of_alert <$> Sink.buffer b)
     else Sink.table (Sink.b_store b)).
Proof.
  unfold Sink.hand_over. pose proof (send_batch_table alert_to_vec alerts_topic f (Sink.buffer b) (Sink.b_store b)) as Ht.
  destruct (Sink.send_batch _ _ _ _ _) as [r st]. by exists (is_ok r).
Qed.

Lemma hand_over_handed f c b : handed b → handed (Sink.hand_over alert_to_vec alerts_topic f c b).
Proof.
  intros [Hin Hfrom]. destruct (hand_over_table f c b) as (ok & Hb & Ht).
  destruct (foldl_insert_one (entity_of_alert <$> Sink.buffer b) (Sink.table (Sink.b_store b))) as (Hold & Hnew & Hcases).
  unfold handed. rewrite Hb, Ht, fmap_app, concat_app. split.
  - intros l a [Hl | Hl%list_elem_of_singleton]%elem_of_app Ha.
    + destruct (Hin l a Hl Ha) as [n Hn]. destruct ok; [| by eexists]. exists n. by apply Hold.
    + injection Hl as -> <-. apply (Hnew (entity_of_alert a)). by apply list_elem_of_fmap_2.
  - intros k n Hk. destruct ok.
    + destruct (Hcases k n Hk) as [Hk' | [(a & -> & Ha)%list_elem_of_fmap ->]].
      * destruct (Hfrom k n Hk') as (a & Ha & ? & ?). exists a. split; [by apply elem_of_app; left | done].
      * exists a. split; [| done]. apply elem_of_app. right. simpl. by rewrite app_nil_r.
    + destruct (Hfrom k n Hk) as (a & Ha & ? & ?). exists a. split; [by apply elem_of_app; left | done].
Qed.

Lemma fire_handed l e e' : fire_engine l e = Some e' → handed (ba e) → handed (ba e').
Proof. apply fire_batcher; [done | intros; by apply hand_over_handed | done]. Qed.

(** Rows are never removed or replaced. *)
Lemma fire_table_grows l e e' : fire_engine l e = Some e' → table_of e ⊆ table_of e'.
Proof.
  intros Hf.
  apply (fire_batcher scan hash uuid utc instant parse_event dlq_topic alert_to_vec alerts_topic config
           (λ b, table_of e ⊆ Sink.table (Sink.b_store b)) l e e'); try done.
  intros f c b Hb. destruct (hand_over_table f c b) as ([] & _ & ->); [| done].
  etrans; [exact Hb |]. apply map_subseteq_spec. apply foldl_insert_one.
Qed.

(** *** The two views of the table *)

Definition shared (t : gmap string NewAlertEntity) (w : Api.world) : Prop :=
  fixed <$> Api.w_alerts w ≡ₚ (λ n, fixed (row_of n)) <$> (map_to_list t).*2.

Lemma map_to_list_grows {V} (t t' : gmap string V) :
  t ⊆ t' → map_to_list t' ≡ₚ map_to_list t ++ map_to_list (t' ∖ t).
Proof.
  intros Hsub. apply NoDup_Permutation; [apply NoDup_map_to_list | |].
  - apply NoDup_app. split_and!; [apply NoDup_map_to_list | | apply NoDup_map_to_list].
    intros [k v] H1k%elem_of_map_to_list [_ H2k]%elem_of_map_to_list%lookup_difference_Some. congruence.
  - intros [k v]. rewrite elem_of_app, !elem_of_map_to_list, lookup_difference_Some. split.
    + intros Hk. destruct (t !! k) as [v' |] eqn:Ht; [left | by right].
      rewrite map_subseteq_spec in Hsub. apply Hsub in Ht. congruence.
    + rewrite map_subseteq_spec in Hsub. intros [Hk | [Hk _]]; [by apply Hsub | done].
Qed.

Lemma land_shared t t' w : t ⊆ t' → shared t w → shared t' (land t t' w).
Proof.
  intros Hsub Hs. unfold shared, land. simpl. rewrite (map_to_list_grows t t' Hsub), !fmap_app, Hs.
  by rewrite <-(list_fmap_compose row_of fixed).
Qed.

Lemma route_shared t env r w : shared t w → shared t (ApiHttp.route rfc3339 parse_hash check_hash cfg env r w).2.
Proof.
  intros Hs. unfold shared. pose proof (ApiHttp.route_frame rfc3339 parse_hash check_hash cfg env r w) as (_ & _ & _ & _ & _ & Ha).
  unfold fixed at 1. rewrite Ha. exact Hs.
Qed.

(** What holds in every state: the engine alone is in a state of its own runs. *)
Lemma joint_reached dedup reg now st w0 e w :
  reached fire any_order (started dedup reg now st, w0) (e, w) →
  reached fire_engine any_order (started dedup reg now st) e ∧
  (shared (Sink.table st) w0 → shared (table_of e) w).
Proof.
  intros Hr.
  apply (reached_invariant fire (λ s, reached fire_engine any_order (started dedup reg now st) s.1 ∧
           (shared (Sink.table st) w0 → shared (table_of s.1) s.2)) any_order) in Hr; [done | | split; [constructor | done]].
  clear. intros [e w] [l | env r] [e' w'] _ _ Hf [He Hw]; simpl in *.
  - apply bind_Some in Hf as (e1 & Hf & [= <- <-]). split; [by econstructor |].
    intros H0s. apply land_shared; [by eapply fire_table_grows | by apply Hw].
  - injection Hf as <- <-. split; [done |]. intros H0s. by apply route_shared, Hw.
Qed.

Lemma reached_handed dedup reg now p e :
  reached fire_engine any_order (started dedup reg now (Sink.Store p ∅)) e → handed (ba e).
Proof.
  apply (reached_invariant fire_engine (λ e, handed (ba e)) any_order).
  - intros e1 l e2 _ _. apply fire_handed.
  - split; simpl; [by intros l a ?%elem_of_nil | by intros k n ?%lookup_empty_Some].
Qed.

(** A row of the list is the row the sink wrote for one of the batches' alerts. *)
Lemma row_origin dedup reg now p e w row :
  reached fire_engine any_order (started dedup reg now (Sink.Store p ∅)) e → shared (table_of e) w →
  row ∈ Api.w_alerts w → ∃ a,
    a ∈ concat (Sink.batches (ba e)).*1 ∧ fixed row = fixed (row_of (entity_of_alert a)) ∧
    table_of e !! alert_id a = Some (entity_of_alert a) ∧ Api.al_alert_id row = alert_id a.
Proof.
  intros He Hs Hrow. destruct (reached_handed _ _ _ _ _ He) as [_ Hfrom].
  assert (fixed row ∈ fixed <$> Api.w_alerts w) as Hin by (by apply list_elem_of_fmap_2).
  rewrite Hs in Hin. apply list_elem_of_fmap in Hin as (n & Hn & Hin).
  apply list_elem_of_fmap in Hin as ([k n'] & -> & Hk%elem_of_map_to_list).
  destruct (Hfrom k n' Hk) as (a & Ha & Hna & Hka). simpl in Hn. subst. exists a. split_and!; try done.
  by apply (f_equal Api.al_alert_id) in Hn.
Qed.

Lemma alert_list_nodup dedup reg now p e w :
  reached fire_engine any_order (started dedup reg now (Sink.Store p ∅)) e → shared (table_of e) w →
  NoDup (Api.al_alert_id <$> Api.w_alerts w).
Proof.
  intros He Hs. destruct (reached_handed _ _ _ _ _ He) as [_ Hfrom].
  assert (Api.al_alert_id <$> Api.w_alerts w = Api.al_alert_id <$> (fixed <$> Api.w_alerts w)) as ->
    by (by rewrite <-list_fmap_compose).
  rewrite Hs.
  assert (Api.al_alert_id <$> ((λ n, fixed (row_of n)) <$> (map_to_list (table_of e)).*2) = (map_to_list (table_of e)).*1) as ->.
  { rewrite <-!list_fmap_compose. apply list_fmap_ext. intros i [k n] Hi.
    apply list_elem_of_lookup_2, elem_of_map_to_list in Hi. by destruct (Hfrom k n Hi) as (a & _ & -> & ->). }
  apply NoDup_fst_map_to_list.
Qed.

(** What is in the table is in the list, and what is in the list is found by its id. *)
Lemma table_listed t w n : shared t w → t !! ne_alert_id n = Some n → ne_alert_id n ∈ Api.al_alert_id <$> Api.w_alerts w.
Proof.
  intros Hs Hn. assert (fixed (row_of n) ∈ fixed <$> Api.w_alerts w) as Hin.
  { rewrite Hs. apply list_elem_of_fmap. exists n. split; [done |].
    apply list_elem_of_fmap. exists (ne_alert_id n, n). split; [done |]. by apply elem_of_map_to_list. }
  apply list_elem_of_fmap in Hin as (row & Hrow & Hin). apply list_elem_of_fmap. exists row. split; [| done].
  by apply (f_equal Api.al_alert_id) in Hrow.
Qed.

Lemma alert_found w id :
  id ∈ Api.al_alert_id <$> Api.w_alerts w → ∃ row,
    Api.alert_find_by_id Api.no_faults id w = (Ok (Some row), w) ∧ row ∈ Api.w_alerts w ∧ Api.al_alert_id row = id.
Proof.
  intros (row & -> & Hin)%list_elem_of_fmap. unfold Api.alert_find_by_id, mbind, SE_bind. simpl. unfold gets.
  assert (row ∈ filter (λ a, Api.al_alert_id a = Api.al_alert_id row) (Api.scan (Api.w_alerts w))) as Hf.
  { apply list_elem_of_filter. split; [done |]. by rewrite Api.scan_perm. }
  destruct (filter _ _) as [| row' l] eqn:Hl; [by apply not_elem_of_nil in Hf |]. exists row'. split; [done |].
  assert (row' ∈ filter (λ a, Api.al_alert_id a = Api.al_alert_id row) (Api.scan (Api.w_alerts w))) as Hr
    by (rewrite Hl; by left).
  apply list_elem_of_filter in Hr as [Hid Hr]. by rewrite Api.scan_perm in Hr.
Qed.

(** The batches hold alerts the scanner raised for events it received. *)
Lemma batch_origin dedup reg now st e a :
  reached fire_engine any_order (started dedup reg now st) e → a ∈ concat (Sink.batches (ba e)).*1 →
  ∃ ev, ev ∈ take (taken e) (Consumer.channel (cons e)) ∧ raised_for ev a.
Proof.
  intros He Ha. apply reachable_accounts in He as [_ _ _ Hb Ho _]; [| apply started_accounts].
  assert (a ∈ ScannerLoop.alert_channel (sc e)) as Hin.
  { rewrite <-(take_drop (collected e)), <-Hb. apply elem_of_app. left.
    destruct (batcher_mode e); try done; unfold contents; apply elem_of_app; by left. }
  apply Forall_app in Ho as [Ho _]. by eapply Forall_forall in Ho.
Qed.

(** ** Properties *)

(** C13 (functional): in every interleaving of the rule engine's tasks with the requests of
    operators, from an empty alerts table: the table has one row per alert id; each
    row is, but for its triage status, what the sink wrote for an alert of one of
    its batches, raised for an event the scanner received, with the event's id and
    node; and when ids are not
    drawn twice, an operator who asks for an alert of an accepted batch gets it. *)
Theorem alerts_reach_operators dedup reg now p w0 e w :
  Api.w_alerts w0 = [] →
  reached fire any_order (started dedup reg now (Sink.Store p ∅), w0) (e, w) →
  NoDup (Api.al_alert_id <$> Api.w_alerts w) ∧
  (∀ row, row ∈ Api.w_alerts w → ∃ a ev,
     a ∈ concat (Sink.batches (ba e)).*1 ∧ fixed row = fixed (row_of (entity_of_alert a)) ∧
     ev ∈ take (taken e) (Consumer.channel (cons e)) ∧ Api.al_triggering_event_id row = Some (ev_id ev) ∧
     Api.al_node_id row = ev_node_id ev) ∧
  ((∀ a b, a ∈ concat (Sink.batches (ba e)).*1 → b ∈ concat (Sink.batches (ba e)).*1 → alert_id a = alert_id b → a = b) →
   ∀ l a, (l, true) ∈ Sink.batches (ba e) → a ∈ l → ∃ row,
     Api.alert_find_by_id Api.no_faults (alert_id a) w = (Ok (Some row), w) ∧
     fixed row = fixed (row_of (entity_of_alert a))).
Proof.
  intros Hw0 Hr. apply joint_reached in Hr as [He Hs]. specialize (Hs ltac:(unfold shared; by rewrite Hw0)).
  pose proof (alert_list_nodup _ _ _ _ _ _ He Hs) as Hnd. split; [done |]. split.
  - intros row Hrow. destruct (row_origin _ _ _ _ _ _ _ He Hs Hrow) as (a & Ha & Hf & _).
    destruct (batch_origin _ _ _ _ _ _ He Ha) as (ev & Hev & Ht & Hn). exists a, ev. split_and!; try done.
    + apply (f_equal Api.al_triggering_event_id) in Hf. by rewrite <-Ht.
    + apply (f_equal Api.al_node_id) in Hf. by rewrite <-Hn.
  - intros Huniq l a Hl Ha. destruct (reached_handed _ _ _ _ _ He) as [Hin _].
    destruct (alert_found w (alert_id a)) as (row & Hfind & Hrow & Hid).
    { destruct (Hin l a Hl Ha) as [n Hn]. destruct (reached_handed _ _ _ _ _ He) as [_ Hfrom].
      destruct (Hfrom _ _ Hn) as (b & _ & -> & Hb).
      rewrite Hb in Hn |- *. exact (table_listed (table_of e) w (entity_of_alert b) Hs Hn). }
    exists row. split; [done |]. destruct (row_origin _ _ _ _ _ _ _ He Hs Hrow) as (b & Hb & Hf & _ & Hidb).
    rewrite (Huniq a b); [done | | done | congruence].
    apply list_elem_of_In, in_concat. exists l. rewrite <-!list_elem_of_In. split; [| done].
    by apply (list_elem_of_fmap_2 fst) in Hl.
Qed.
End path.

(** *** The small engine's two alerts, the first acknowledged before the second lands *)
#[local] Existing Instance MruList.mru_lru.
#[local] Existing Instance EngineSystem.example_serde.
#[local] Existing Instance Api.identity_scan.
#[local] Existing Instance Api.ToyApiJwt.toy_api_jwt.
Definition example_fire :=
  @fire EngineSystem.example_serde nat example_scan _ _ (λ _, 3%Z) (λ i, "u" +:+ pretty i) (λ _, 0%Z)
    (λ i, 20 * Z.of_nat i)%Z example_parse "dlq" (λ a, Ok (alert_id a)) "alerts" EngineSystem.example_config
    Api.identity_scan Api.ToyApiJwt.toy_api_jwt (λ _, "t") Some (λ _ _, true) Api.example_settings.
Definition example_world : Api.world := Api.World (FleetDb.Db ∅ [] []) [] [] [].
Definition example_token : string := default "" (ok (Api.api_encode (Api.mkClaims "ann" "soc_admin" 9000 1) (Api.jwt_secret Api.example_settings))).
Definition example_acknowledge : label (Rules := nat) :=
  Request (ApiHttp.ReqEnv [("authorization", "Bearer " +:+ example_token)] 0 Api.no_faults None)
    (ApiHttp.UpdateAlertStatus (Ok ("u0", "acknowledged"))).
Definition example_event_steps (offset : Z) (payload : string) (now : Z) : list (label (Rules := nat)) :=
  Engine_ <$> [Consume (example_message offset payload) None None; Scan; Emit; Batch now now Sink.no_faults].
Definition example_steps : list (label (Rules := nat)) :=
  example_event_steps 7 "e1" 500 ++ example_acknowledge :: example_event_steps 8 "e2" 1000.
Definition example_state : EngineSystem.engine (Rules := nat) * Api.world :=
  default (EngineSystem.example_start, example_world)
    (fire_all example_fire any_order example_steps (EngineSystem.example_start, example_world)).

Lemma alerts_reach_operators_witness :
  let '(e, w) := example_state in
  Api.al_status <$> Api.w_alerts w = ["acknowledged"; "open"] ∧
  NoDup (Api.al_alert_id <$> Api.w_alerts w).
Proof.
  destruct example_state as [e w] eqn:Hst.
  assert (Api.al_status <$> Api.w_alerts example_state.2 = ["acknowledged"; "open"]) as Hs by (by vm_compute).
  rewrite Hst in Hs. split; [exact Hs |].
  refine (proj1 (@alerts_reach_operators EngineSystem.example_serde nat example_scan _ _ (λ _, 3%Z) (λ i, "u" +:+ pretty i) (λ _, 0%Z)
    (λ i, 20 * Z.of_nat i)%Z example_parse "dlq" (λ a, Ok (alert_id a)) "alerts" EngineSystem.example_config
    Api.identity_scan Api.ToyApiJwt.toy_api_jwt (λ _, "t") Some (λ _ _, true) Api.example_settings
    example_dedup example_registry 0 [] example_world e w eq_refl _)).
  rewrite <-Hst. eapply fire_all_reached; [apply reached_start |]. apply some_default. by vm_compute.
Defined.
