(* ===== verification/Schema.v ===== *)
(** * The columns of the tables
      (the schema.rs of postgres-interface, rule-engine and api-backend, their models, and the SQL
      of fleet-server/migrations and infra/db)

    Three crates declare tables for diesel, each its own copy; PostgreSQL has those
    of the migrations.  Diesel writes a struct by the names of its fields and reads
    one by position, so a column at another place is read into another field.
    Here a row is what an INSERT leaves in a table, and reading it gives the record
    the models of the repositories work on.  A column does not keep every value as
    it was written: times are cut to microseconds, text has no NUL, and what a
    jsonb column makes of a value is PostgreSQL's.  Limits on sizes and foreign
    keys are not modelled. *)
From Stdlib Require Import ZArith Lia SpecFloat Ascii.
From S2P Require Import Prelude Json JsonShape RuleModels FleetDb.
From S2P Require Api AlertPath.
#[local] Open Scope string_scope.
#[local] Open Scope list_scope.
#[local] Open Scope nat_scope.

(** ** SQL *)

Inductive sql_type := Uuid | Text | Timestamptz | BigInt | Float4 | Jsonb.
Inductive sql_value :=
  | VUuid (s : string) | VText (s : string) | VTime (t : Z) | VBigInt (z : Z) | VFloat4 (f : spec_float)
  | VJson (v : value) | VNull.

(** A column of [table!]: [Nullable<T>] or not. *)
Record column := Column { col_name : string; col_type : sql_type; nullable : bool }.
Record table := Table { primary_key : string; columns : list column }.

(** What a column of a migration is when an INSERT does not name it. *)
Inductive sql_default := NoDefault | GenRandomUuid | Now | Literal (v : sql_value).
Record sql_table := SqlTable { sql_key : string; sql_columns : list (column * sql_default) }.

Definition has_type (v : sql_value) (t : sql_type) : bool :=
  match v, t with
  | VUuid _, Uuid | VText _, Text | VTime _, Timestamptz | VBigInt _, BigInt | VFloat4 _, Float4
  | VJson _, Jsonb => true
  | _, _ => false
  end.
Definition fits (c : column) (v : sql_value) : bool :=
  match v with VNull => nullable c | _ => has_type v (col_type c) end.

(** *** Times

    A time is chrono's [DateTime<Utc>], in nanoseconds since 1970; diesel sends the
    microseconds since 2000, which chrono rounds towards zero, and PostgreSQL keeps them
    from the year -4712 on.  The latest chrono has is in the year 262142. *)
Definition PG_EPOCH : Z := 946684800000000000.
Definition micros (t : Z) : Z := Z.quot (t - PG_EPOCH) 1000.
Definition MIN_TIMESTAMP : Z := -211813488000000000.
Definition MAX_UTC : Z := 8209320191999999999.
Definition time_ok (us : Z) : bool := (MIN_TIMESTAMP <=? us)%Z && (us <=? MAX_UTC)%Z.
Definition kept_time (t : Z) : Z := (PG_EPOCH + 1000 * micros t)%Z.

(** *** Text and JSON *)
Definition has_nul (s : string) : bool := has_char "000"%char s.
Fixpoint json_nul (v : value) : bool :=
  match v with
  | JString s => has_nul s
  | JArray l => existsb json_nul l
  | JObject m => existsb (λ kv, has_nul kv.1 || json_nul kv.2) m
  | _ => false
  end.

(** What a jsonb column gives back for a value that is written to it, or its error. *)
Class JsonbColumn := jsonb : value → result value string.

(** The values that come back as they were: PostgreSQL's numbers are decimal, so
    floats are left out, and what nests too deeply cannot be read. *)
Definition exact (v : value) : bool :=
  value_ok v && printable v && (depth v <? RECURSION_LIMIT) && negb (json_nul v).
Class JsonbLaws `{JsonbColumn} := {
  jsonb_exact v w : exact v = true → jsonb v = Ok w → w = v;
  jsonb_nul v : json_nul v = true → is_ok (jsonb v) = false }.

Section rows.
Context `{JsonbColumn}.

(** What a column keeps of a value. *)
Definition store (v : sql_value) : result sql_value string :=
  match v with
  | VText s => if has_nul s then Err "invalid byte sequence for encoding UTF8: 0x00" else Ok v
  | VTime t => if time_ok (micros t) then Ok (VTime (kept_time t)) else Err "timestamp out of range"
  | VJson j => match jsonb j with Ok k => Ok (VJson k) | Err e => Err e end
  | _ => Ok v
  end.

Definition default_value (uuid : string) (now : Z) (d : sql_default) : sql_value :=
  match d with NoDefault => VNull | GenRandomUuid => VUuid uuid | Now => VTime now | Literal v => v end.

(** INSERT with named values: the columns in the table's order. *)
Fixpoint insert_columns (uuid : string) (now : Z) (cols : list (column * sql_default))
    (vals : list (string * sql_value)) : result (list (string * sql_value)) string :=
  match cols with
  | [] => Ok []
  | (c, d) :: cols =>
      let v := default (default_value uuid now d) (map_get (col_name c) vals) in
      if fits c v then
        match store v, insert_columns uuid now cols vals with
        | Ok kept, Ok row => Ok ((col_name c, kept) :: row)
        | Err e, _ | _, Err e => Err e
        end
      else Err ("null value or wrong type in column " +:+ col_name c)
  end.

Definition insert_row (uuid : string) (now : Z) (t : sql_table) (vals : list (string * sql_value))
    : result (list (string * sql_value)) string :=
  match filter (λ kv : string * sql_value, kv.1 ∉ (λ c, col_name c.1) <$> sql_columns t) vals with
  | kv :: _ => Err ("column does not exist: " +:+ kv.1)
  | [] => insert_columns uuid now (sql_columns t) vals
  end.

(** A batch is one statement: a value that is refused refuses all of its rows. *)
Fixpoint insert_rows (now : Z) (t : sql_table) (batch : list (string * list (string * sql_value)))
    : result (list (list (string * sql_value))) string :=
  match batch with
  | [] => Ok []
  | (uuid, vals) :: batch =>
      match insert_row uuid now t vals, insert_rows now t batch with
      | Ok row, Ok rows => Ok (row :: rows)
      | Err e, _ | _, Err e => Err e
      end
  end.
End rows.

(** SELECT of the columns of [table!], in its order. *)
Definition select (t : table) (row : list (string * sql_value)) : option (list sql_value) :=
  mapM (λ c, map_get (col_name c) row) (columns t).

(** ** The migrations *)
Module Migrations.
Definition col (n : string) (t : sql_type) : column * sql_default := (Column n t false, NoDefault).
Definition col_or (n : string) (t : sql_type) (d : sql_default) : column * sql_default := (Column n t false, d).
Definition null (n : string) (t : sql_type) : column * sql_default := (Column n t true, NoDefault).

Definition nodes : sql_table := SqlTable "node_id"
  [col_or "node_id" Uuid GenRandomUuid; col "machine_id" Text; col "hostname" Text; col "os_version" Text;
   col "agent_version" Text; col_or "agent_status" Text (Literal (VText "healthy"));
   col_or "operator_status" Text (Literal (VText "active")); col_or "first_seen_at" Timestamptz Now;
   col_or "last_enrolled_at" Timestamptz Now].
Definition enrollment_events : sql_table := SqlTable "event_id"
  [col_or "event_id" Uuid GenRandomUuid; col "node_id" Uuid; col "event_type" Text; col "hostname" Text;
   col "os_version" Text; col "agent_version" Text; col_or "enrolled_at" Timestamptz Now].
Definition node_health : sql_table := SqlTable "health_id"
  [col_or "health_id" Uuid GenRandomUuid; col "node_id" Uuid; col "agent_status" Text;
   col_or "events_buffered" BigInt (Literal (VBigInt 0)); col_or "recorded_at" Timestamptz Now].
Definition alerts : sql_table := SqlTable "alert_id"
  [col_or "alert_id" Uuid GenRandomUuid; col "node_id" Uuid; col "hostname" Text; col "severity" Text;
   col "source" Text; null "mitre_technique_id" Text; null "mitre_tactic" Text; col "description" Text;
   null "triggering_event_id" Text; col_or "threat_score" Float4 (Literal (VFloat4 (S754_zero false)));
   col_or "status" Text (Literal (VText "open")); col_or "created_at" Timestamptz Now].
Definition event_logs : sql_table := SqlTable "event_id"
  [col_or "event_id" Uuid GenRandomUuid; col "node_id" Uuid; col "event_type" Text; col "hostname" Text;
   col "payload" Jsonb; null "raw_sequence_id" Text; col_or "recorded_at" Timestamptz Now].
End Migrations.

(** ** The tables the crates declare *)
Definition required (n : string) (t : sql_type) : column := Column n t false.
Definition optional (n : string) (t : sql_type) : column := Column n t true.

Module FleetSchema.
Definition nodes : table := Table "node_id"
  [required "node_id" Uuid; required "machine_id" Text; required "hostname" Text; required "os_version" Text;
   required "agent_version" Text; required "agent_status" Text; required "operator_status" Text;
   required "first_seen_at" Timestamptz; required "last_enrolled_at" Timestamptz].
Definition node_health : table := Table "health_id"
  [required "health_id" Uuid; required "node_id" Uuid; required "agent_status" Text;
   required "events_buffered" BigInt; required "recorded_at" Timestamptz].
Definition enrollment_events : table := Table "event_id"
  [required "event_id" Uuid; required "node_id" Uuid; required "event_type" Text; required "hostname" Text;
   required "os_version" Text; required "agent_version" Text; required "enrolled_at" Timestamptz].
End FleetSchema.

Module RuleSchema.
Definition alerts : table := Table "alert_id"
  [required "alert_id" Uuid; required "node_id" Uuid; required "hostname" Text; required "severity" Text;
   required "source" Text; optional "mitre_technique_id" Text; optional "mitre_tactic" Text;
   required "description" Text; optional "triggering_event_id" Text; required "threat_score" Float4;
   required "status" Text; required "created_at" Timestamptz].
End RuleSchema.

Module ApiSchema.
Definition nodes : table := Table "node_id"
  [required "node_id" Uuid; required "machine_id" Text; required "hostname" Text; required "os_version" Text;
   required "agent_version" Text; required "agent_status" Text; required "operator_status" Text;
   required "first_seen_at" Timestamptz; required "last_enrolled_at" Timestamptz].
Definition node_health : table := Table "health_id"
  [required "health_id" Uuid; required "node_id" Uuid; required "agent_status" Text;
   required "events_buffered" BigInt; required "recorded_at" Timestamptz].
Definition enrollment_events : table := Table "event_id"
  [required "event_id" Uuid; required "node_id" Uuid; required "event_type" Text; required "hostname" Text;
   required "os_version" Text; required "agent_version" Text; required "enrolled_at" Timestamptz].
Definition alerts : table := Table "alert_id"
  [required "alert_id" Uuid; required "node_id" Uuid; required "hostname" Text; required "severity" Text;
   required "source" Text; optional "mitre_technique_id" Text; optional "mitre_tactic" Text;
   required "description" Text; optional "triggering_event_id" Text; required "threat_score" Float4;
   required "status" Text; required "created_at" Timestamptz].
Definition event_logs : table := Table "event_id"
  [required "event_id" Uuid; required "node_id" Uuid; required "event_type" Text; required "hostname" Text;
   required "payload" Jsonb; optional "raw_sequence_id" Text; required "recorded_at" Timestamptz].
End ApiSchema.

(** ** The structs that are written ([Insertable]) *)

Definition nullable_text (o : option string) : sql_value := match o with Some s => VText s | None => VNull end.

(** [NewNodeEntity], as [upsert_node] fills it *)
Definition new_node_values (node_id : string) (r : NodeRecord) : list (string * sql_value) :=
  [("node_id", VUuid node_id); ("machine_id", VText (r_machine_id r)); ("hostname", VText (r_hostname r));
   ("os_version", VText (r_os_version r)); ("agent_version", VText (r_agent_version r));
   ("agent_status", VText "healthy"); ("operator_status", VText "active")].

(** [NewNodeHealthEntity] *)
Definition new_health_values (h : health) : list (string * sql_value) :=
  [("health_id", VUuid (health_id h)); ("node_id", VUuid (h_node_id h)); ("agent_status", VText (h_agent_status h));
   ("events_buffered", VBigInt (events_buffered h)); ("recorded_at", VTime (recorded_at h))].

(** [NewEnrollmentEventEntity] *)
Definition new_event_values (e : enrollment_event) : list (string * sql_value) :=
  [("event_id", VUuid (event_id e)); ("node_id", VUuid (e_node_id e)); ("event_type", VText (event_type e));
   ("hostname", VText (e_hostname e)); ("os_version", VText (e_os_version e));
   ("agent_version", VText (e_agent_version e)); ("enrolled_at", VTime (enrolled_at e))].

(** [NewAlertEntity] *)
Definition new_alert_values (n : NewAlertEntity) : list (string * sql_value) :=
  [("alert_id", VUuid (ne_alert_id n)); ("node_id", VUuid (ne_node_id n)); ("hostname", VText (ne_hostname n));
   ("severity", VText (ne_severity n)); ("source", VText (ne_source n));
   ("mitre_technique_id", nullable_text (ne_mitre_technique_id n));
   ("mitre_tactic", nullable_text (ne_mitre_tactic n)); ("description", VText (ne_description n));
   ("triggering_event_id", nullable_text (ne_triggering_event_id n));
   ("threat_score", VFloat4 (ne_threat_score n)); ("status", VText (ne_status n));
   ("created_at", VTime (ne_created_at n))].

(** [NewEventLogEntity] *)
Definition new_log_values (l : Api.EventLogEntity) : list (string * sql_value) :=
  [("event_id", VUuid (Api.lg_event_id l)); ("node_id", VUuid (Api.lg_node_id l));
   ("event_type", VText (Api.lg_event_type l)); ("hostname", VText (Api.lg_hostname l));
   ("payload", VJson (Api.lg_payload l)); ("raw_sequence_id", nullable_text (Api.lg_raw_sequence_id l));
   ("recorded_at", VTime (Api.lg_recorded_at l))].

(** ** The structs that are read ([Queryable]): the fields by position *)

Definition as_uuid (v : sql_value) : option string := match v with VUuid s => Some s | _ => None end.
Definition as_text (v : sql_value) : option string := match v with VText s => Some s | _ => None end.
Definition as_time (v : sql_value) : option Z := match v with VTime t => Some t | _ => None end.
Definition as_bigint (v : sql_value) : option Z := match v with VBigInt z => Some z | _ => None end.
Definition as_float4 (v : sql_value) : option spec_float := match v with VFloat4 f => Some f | _ => None end.
(** serde_json parses the text of a jsonb value. *)
Definition as_json (v : sql_value) : option value :=
  match v with VJson j => if depth j <? RECURSION_LIMIT then Some j else None | _ => None end.
Definition as_nullable_text (v : sql_value) : option (option string) :=
  match v with VNull => Some None | v => Some <$> as_text v end.

(** [NodeEntity] *)
Definition node_of_row (l : list sql_value) : option Api.NodeEntity :=
  match l with
  | [id; machine; host; os; agent; ast; ost; first; last] =>
      id ← as_uuid id; machine ← as_text machine; host ← as_text host; os ← as_text os; agent ← as_text agent;
      ast ← as_text ast; ost ← as_text ost; first ← as_time first; last ← as_time last;
      Some (id, Node machine host os agent ast ost first last)
  | _ => None
  end.

(** [NodeHealthEntity] *)
Definition health_of_row (l : list sql_value) : option health :=
  match l with
  | [id; node; st; buffered; at_] =>
      id ← as_uuid id; node ← as_uuid node; st ← as_text st; buffered ← as_bigint buffered; at_ ← as_time at_;
      Some (Health id node st buffered at_)
  | _ => None
  end.

(** [AlertEntity] *)
Definition alert_of_row (l : list sql_value) : option Api.AlertEntity :=
  match l with
  | [id; node; host; sev; src; tech; tactic; desc; trig; score; st; created] =>
      id ← as_uuid id; node ← as_uuid node; host ← as_text host; sev ← as_text sev; src ← as_text src;
      tech ← as_nullable_text tech; tactic ← as_nullable_text tactic; desc ← as_text desc;
      trig ← as_nullable_text trig; score ← as_float4 score; st ← as_text st; created ← as_time created;
      Some (Api.mkAlert id node host sev src tech tactic desc trig score st created)
  | _ => None
  end.

(** [EventLogEntity] *)
Definition log_of_row (l : list sql_value) : option Api.EventLogEntity :=
  match l with
  | [id; node; type; host; payload; seq; at_] =>
      id ← as_uuid id; node ← as_uuid node; type ← as_text type; host ← as_text host; payload ← as_json payload;
      seq ← as_nullable_text seq; at_ ← as_time at_;
      Some (Api.mkLog id node type host payload seq at_)
  | _ => None
  end.

(** ** Specification *)

(** [t] names the columns of the migration. *)
Definition declares (t : table) (s : sql_table) : Prop :=
  primary_key t = sql_key s ∧ columns t = fst <$> sql_columns s.

(** ** Lemmas *)

Section inserted.
Context `{JsonbLaws}.

Lemma store_fits c v w : store v = Ok w → fits c v = true → fits c w = true.
Proof.
  destruct v as [| x | x | | | j |]; simpl; try by intros [= <-].
  - destruct (has_nul x); [done |]. by intros [= <-].
  - destruct (time_ok (micros x)); [| done]. by intros [= <-].
  - destruct (jsonb j); [| done]. by intros [= <-].
Qed.

Lemma insert_columns_fits uuid now cols vals row :
  insert_columns uuid now cols vals = Ok row →
  row.*1 = (λ c, col_name c.1) <$> cols ∧ Forall2 (λ c v, fits c.1 v = true) cols row.*2.
Proof.
  revert row. induction cols as [| [c d] cols IH]; intros row Hi; simpl in Hi; [injection Hi as <-; by split |].
  destruct (fits c _) eqn:Hf; [| done]. destruct (store _) as [w |] eqn:Hs; [| done].
  destruct (insert_columns _ _ cols vals) as [r |]; [| done].
  injection Hi as <-. destruct (IH r eq_refl) as [Hn Hv]. split; simpl; [by f_equal |].
  constructor; [by eapply store_fits | done].
Qed.

Lemma map_get_unique (row : list (string * sql_value)) k v :
  NoDup row.*1 → (k, v) ∈ row → map_get k row = Some v.
Proof.
  induction row as [| [k' v'] row IH]; intros Hnd Hin; [by apply elem_of_nil in Hin |].
  apply NoDup_cons in Hnd as [Hk Hnd]. simpl. apply elem_of_cons in Hin as [Heq | Hin].
  - injection Heq as -> ->. by rewrite String.eqb_refl.
  - destruct (String.eqb_spec k k') as [-> |]; [| by apply IH].
    destruct Hk. by apply (list_elem_of_fmap_2 fst) in Hin.
Qed.

(** Every column of an inserted row is found by a crate that declares the table. *)
Lemma select_inserted t s uuid now vals row :
  declares t s → NoDup (col_name <$> columns t) → insert_row uuid now s vals = Ok row →
  select t row = Some row.*2 ∧ Forall2 (λ c v, fits c v = true) (columns t) row.*2.
Proof.
  intros [_ Hc] Hnd Hi. unfold insert_row in Hi. destruct (filter _ vals); [| done].
  apply insert_columns_fits in Hi as [Hn Hv]. rewrite Hc in Hnd |- *.
  assert (col_name <$> (fst <$> sql_columns s) = row.*1) as Hnames by (by rewrite Hn, <-list_fmap_compose).
  assert (Forall2 (λ c v, fits c v = true) (fst <$> sql_columns s) row.*2) as Hfits by (by apply Forall2_fmap_l).
  split; [| done]. unfold select. rewrite Hc. apply mapM_Some. apply Forall2_same_length_lookup. split.
  - apply (f_equal length) in Hnames. rewrite !length_fmap in *. done.
  - intros i c v Hci Hvi. apply map_get_unique; [by rewrite <-Hnames |].
    apply list_lookup_fmap_Some in Hvi as ([k w] & -> & Hrow). simpl.
    assert (row.*1 !! i = Some k) as Hk by (by rewrite list_lookup_fmap, Hrow).
    rewrite <-Hnames, list_lookup_fmap, Hci in Hk. injection Hk as ->. by eapply list_elem_of_lookup_2.
Qed.

(** The values that come back as they were, but for what is left of a time. *)
Definition storable (v : sql_value) : bool :=
  match v with
  | VText s => negb (has_nul s)
  | VTime t => (- 2 ^ 63 <=? t)%Z && (t <? 2 ^ 63)%Z
  | VJson j => exact j && is_ok (jsonb j)
  | _ => true
  end.
Definition kept (v : sql_value) : sql_value := match v with VTime t => VTime (kept_time t) | v => v end.

Definition storable_all (vals : list (string * sql_value)) : bool := forallb (λ kv, storable kv.2) vals.

(** Records as their rows keep them. *)
Definition kept_node (n : node) : node :=
  FleetDb.Node (machine_id n) (hostname n) (os_version n) (agent_version n) (agent_status n) (operator_status n)
    (kept_time (first_seen_at n)) (kept_time (last_enrolled_at n)).
Definition kept_health (h : health) : health :=
  Health (health_id h) (h_node_id h) (h_agent_status h) (events_buffered h) (kept_time (recorded_at h)).
Definition kept_alert (a : Api.AlertEntity) : Api.AlertEntity :=
  Api.mkAlert (Api.al_alert_id a) (Api.al_node_id a) (Api.al_hostname a) (Api.al_severity a) (Api.al_source a)
    (Api.al_mitre_technique_id a) (Api.al_mitre_tactic a) (Api.al_description a) (Api.al_triggering_event_id a)
    (Api.al_threat_score a) (Api.al_status a) (kept_time (Api.al_created_at a)).
Definition kept_log (l : Api.EventLogEntity) : Api.EventLogEntity :=
  Api.mkLog (Api.lg_event_id l) (Api.lg_node_id l) (Api.lg_event_type l) (Api.lg_hostname l) (Api.lg_payload l)
    (Api.lg_raw_sequence_id l) (kept_time (Api.lg_recorded_at l)).

(** Every time that fits a nanosecond counter is kept, to the microsecond. *)
Lemma nanos_ok t : (- 2 ^ 63 ≤ t < 2 ^ 63)%Z → time_ok (micros t) = true.
Proof.
  intros Ht. unfold time_ok, micros, MIN_TIMESTAMP, MAX_UTC, PG_EPOCH. apply andb_true_iff.
  pose proof (Z.quot_rem' (t - 946684800000000000) 1000).
  pose proof (Z.rem_bound_abs (t - 946684800000000000) 1000 ltac:(lia)). simpl in *. split; lia.
Qed.

Lemma kept_time_near t : (Z.abs (kept_time t - t) < 1000)%Z.
Proof.
  unfold kept_time, micros. pose proof (Z.quot_rem' (t - PG_EPOCH) 1000).
  pose proof (Z.rem_bound_abs (t - PG_EPOCH) 1000 ltac:(lia)). lia.
Qed.

Lemma kept_time_micros t : (t mod 1000 = 0)%Z → kept_time t = t.
Proof.
  intros Ht. unfold kept_time, micros. pose proof (Z.quot_rem' (t - PG_EPOCH) 1000).
  assert (Z.rem (t - PG_EPOCH) 1000 = 0)%Z; [| lia]. apply Z.rem_divide; [lia |].
  apply Z.mod_divide in Ht as [k ->]; [| lia]. exists (k - 946684800000000)%Z. unfold PG_EPOCH. lia.
Qed.

Lemma store_kept v : storable v = true → store v = Ok (kept v).
Proof.
  destruct v as [| x | x | | | j |]; try done; cbn [storable store kept].
  - intros Hx%negb_true_iff. by rewrite Hx.
  - intros [Hl Hu]%andb_true_iff. rewrite nanos_ok by lia. done.
  - intros [He Hj]%andb_true_iff. destruct (jsonb j) as [w |] eqn:Hw; [| done].
    by rewrite (jsonb_exact j w He Hw).
Qed.

Lemma storable_payload l : storable_all (new_log_values l) = true → depth (Api.lg_payload l) <? RECURSION_LIMIT = true.
Proof.
  unfold storable_all, new_log_values. cbn [forallb snd]. rewrite !andb_true_iff. cbn [storable].
  intros (_ & _ & _ & _ & [He%andb_true_iff _]%andb_true_iff & _). destruct He as [[_ Hd]%andb_true_iff _]. done.
Qed.

(** What a column is given, and the row that storable values leave. *)
Definition given (uuid : string) (now : Z) (vals : list (string * sql_value)) (cd : column * sql_default) : sql_value :=
  default (default_value uuid now cd.2) (map_get (col_name cd.1) vals).

Lemma given_storable uuid now vals cd :
  storable_all vals = true → storable (default_value uuid now cd.2) = true → storable (given uuid now vals cd) = true.
Proof.
  intros Hv Hd. unfold given. destruct (map_get _ vals) as [v |] eqn:Hg; [| done]. simpl.
  clear Hd. induction vals as [| [k w] vals IH]; [done |]. simpl in Hg, Hv. apply andb_true_iff in Hv as [Hw Hv].
  destruct (String.eqb _ k); [by injection Hg as <- | by apply IH].
Qed.

Lemma insert_row_kept uuid now t vals :
  filter (λ kv : string * sql_value, kv.1 ∉ (λ c, col_name c.1) <$> sql_columns t) vals = [] →
  storable_all vals = true → forallb (λ cd, storable (default_value uuid now cd.2)) (sql_columns t) = true →
  forallb (λ cd, fits cd.1 (given uuid now vals cd)) (sql_columns t) = true →
  insert_row uuid now t vals = Ok ((λ cd, (col_name cd.1, kept (given uuid now vals cd))) <$> sql_columns t).
Proof.
  intros Hk Hv. unfold insert_row. rewrite Hk. clear Hk. induction (sql_columns t) as [| [c d] cols IH]; [done |].
  cbn [forallb fst snd]. intros [Hd Hds]%andb_true_iff [Hf Hfs]%andb_true_iff. cbn [insert_columns fmap list_fmap fst].
  change (default (default_value uuid now d) (map_get (col_name c) vals)) with (given uuid now vals (c, d)).
  rewrite Hf, store_kept by (by apply given_storable). by rewrite IH.
Qed.

Lemma insert_row_refused uuid now t vals cd :
  In cd (sql_columns t) → is_ok (store (given uuid now vals cd)) = false → is_ok (insert_row uuid now t vals) = false.
Proof.
  intros Hin Hs. unfold insert_row. destruct (filter _ vals); [| done]. clear -Hin Hs.
  induction (sql_columns t) as [| [c d] cols IH]; [done |]. cbn [insert_columns].
  destruct (fits c _); [| done]. destruct Hin as [<- | Hin].
  - unfold given in Hs. cbn [fst snd] in Hs. destruct (store _) as [w |]; [discriminate Hs |]. by destruct (insert_columns _ _ _ _).
  - specialize (IH Hin). clear Hs. destruct (store _); destruct (insert_columns _ _ _ _); done.
Qed.
End inserted.

(** Take a row of known columns apart, each value of its column's type. *)
Ltac take_field :=
  match goal with
  | H : Forall2 _ (_ :: _) _ |- _ =>
      let v := fresh "v" in let Hv := fresh "Hv" in
      apply Forall2_cons_inv_l in H as (v & ? & Hv & H & ->); destruct v; simpl in Hv; try discriminate Hv; clear Hv
  | H : Forall2 _ [] _ |- _ => apply Forall2_nil_inv_l in H as ->
  end.
Ltac read_fields := repeat take_field; by eexists.

Lemma node_readable vs : Forall2 (λ c v, fits c v = true) (columns ApiSchema.nodes) vs → is_Some (node_of_row vs).
Proof. simpl. intros. read_fields. Qed.
Lemma health_readable vs : Forall2 (λ c v, fits c v = true) (columns ApiSchema.node_health) vs → is_Some (health_of_row vs).
Proof. simpl. intros. read_fields. Qed.
Lemma alert_readable vs : Forall2 (λ c v, fits c v = true) (columns ApiSchema.alerts) vs → is_Some (alert_of_row vs).
Proof. simpl. intros. read_fields. Qed.

(** A payload that serde_json reads. *)
Definition shallow (v : sql_value) : Prop :=
  match v with VJson j => depth j < RECURSION_LIMIT | _ => True end.

Lemma log_readable vs :
  Forall shallow vs → Forall2 (λ c v, fits c v = true) (columns ApiSchema.event_logs) vs → is_Some (log_of_row vs).
Proof.
  simpl. intros Hd Hv. repeat take_field.
  all: repeat (apply Forall_cons in Hd as [? Hd]).
  all: cbn [log_of_row as_uuid as_text as_json as_nullable_text as_time mbind option_bind shallow] in *.
  all: match goal with |- context [depth ?j <? _] =>
         destruct (Nat.ltb_spec (depth j) RECURSION_LIMIT); [by eexists | lia] end.
Qed.

Ltac stored_tac := first [done | match goal with Hnow : storable (VTime _) = true |- _ => simpl in *; by rewrite ?Hnow end].
Ltac no_dup := repeat constructor; rewrite list_elem_of_In; simpl; intuition discriminate.

(** ** Properties *)

(** C37 (type): the three crates declare the tables of the migrations, column for column;
    so whatever values an INSERT names, and whoever made it, a row it leaves is one
    the API's structs can be read from, a log row if its payload nests no deeper
    than the parser reads. *)
Theorem stored_rows_are_readable `{JsonbLaws} uuid now vals :
  declares FleetSchema.nodes Migrations.nodes ∧ declares FleetSchema.node_health Migrations.node_health ∧
  declares FleetSchema.enrollment_events Migrations.enrollment_events ∧
  declares RuleSchema.alerts Migrations.alerts ∧
  declares ApiSchema.nodes Migrations.nodes ∧ declares ApiSchema.node_health Migrations.node_health ∧
  declares ApiSchema.enrollment_events Migrations.enrollment_events ∧
  declares ApiSchema.alerts Migrations.alerts ∧ declares ApiSchema.event_logs Migrations.event_logs ∧
  (∀ row, insert_row uuid now Migrations.nodes vals = Ok row →
     is_Some (select ApiSchema.nodes row ≫= node_of_row)) ∧
  (∀ row, insert_row uuid now Migrations.node_health vals = Ok row →
     is_Some (select ApiSchema.node_health row ≫= health_of_row)) ∧
  (∀ row, insert_row uuid now Migrations.alerts vals = Ok row →
     is_Some (select ApiSchema.alerts row ≫= alert_of_row)) ∧
  (∀ row, insert_row uuid now Migrations.event_logs vals = Ok row → Forall shallow row.*2 →
     is_Some (select ApiSchema.event_logs row ≫= log_of_row)).
Proof.
  split_and!; try by split.
  - intros row Hi. by destruct (select_inserted ApiSchema.nodes Migrations.nodes uuid now vals row ltac:(by split) ltac:(no_dup) Hi) as (-> & Hv%node_readable).
  - intros row Hi. by destruct (select_inserted ApiSchema.node_health Migrations.node_health uuid now vals row ltac:(by split) ltac:(no_dup) Hi) as (-> & Hv%health_readable).
  - intros row Hi. by destruct (select_inserted ApiSchema.alerts Migrations.alerts uuid now vals row ltac:(by split) ltac:(no_dup) Hi) as (-> & Hv%alert_readable).
  - intros row Hi Hd. destruct (select_inserted ApiSchema.event_logs Migrations.event_logs uuid now vals row ltac:(by split) ltac:(no_dup) Hi) as (-> & Hv).
    by apply log_readable.
Qed.

(** C36 (roundtrip): what a process writes by field names, the API reads field for field:
    the row of an enrolment (with the times the table fills in), of a heartbeat, of
    the rule engine's alert and of a log entry are the records the other process's
    models work on, with their times cut to the microsecond.  The texts are
    without NUL, times fit a nanosecond counter, and a log's payload is one a
    jsonb column gives back. *)
Theorem written_rows_read_back `{JsonbLaws} uuid e r h n l :
  storable_all (new_node_values (uuid1 e) r) = true → storable (VTime (now e)) = true →
  storable_all (new_health_values h) = true → storable_all (new_alert_values n) = true →
  storable_all (new_log_values l) = true →
  (row ← ok (insert_row uuid (now e) Migrations.nodes (new_node_values (uuid1 e) r));
   select ApiSchema.nodes row ≫= node_of_row) = Some (uuid1 e, kept_node (new_node e r)) ∧
  (row ← ok (insert_row uuid (now e) Migrations.node_health (new_health_values h));
   select ApiSchema.node_health row ≫= health_of_row) = Some (kept_health h) ∧
  (row ← ok (insert_row uuid (now e) Migrations.alerts (new_alert_values n));
   select ApiSchema.alerts row ≫= alert_of_row) = Some (kept_alert (AlertPath.row_of n)) ∧
  (row ← ok (insert_row uuid (now e) Migrations.event_logs (new_log_values l));
   select ApiSchema.event_logs row ≫= log_of_row) = Some (kept_log l).
Proof.
  intros Hr Hnow Hh Hn Hl. split_and!.
  - by rewrite insert_row_kept by stored_tac.
  - rewrite insert_row_kept by stored_tac. by destruct h.
  - destruct n as [i nd ho se so [te |] [ta |] de [tr |] sc st cr]; by rewrite insert_row_kept by stored_tac.
  - assert (depth (Api.lg_payload l) <? RECURSION_LIMIT = true) as Hd by (by apply storable_payload).
    destruct l as [i nd ty ho pa [se |] at_]; rewrite insert_row_kept by stored_tac; cbn -[RECURSION_LIMIT Nat.ltb depth] in *;
      by rewrite Hd.
Qed.

(** One payload with a NUL refuses the whole batch of log rows. *)
Theorem nul_refuses_batch `{JsonbLaws} now uuid l batch :
  json_nul (Api.lg_payload l) = true → l ∈ batch →
  is_ok (insert_rows now Migrations.event_logs ((λ l, (uuid, new_log_values l)) <$> batch)) = false.
Proof.
  intros Hn Hin. assert (is_ok (insert_row uuid now Migrations.event_logs (new_log_values l)) = false) as Hl.
  { apply (insert_row_refused _ _ _ _ (Migrations.col "payload" Jsonb)); [by repeat (try (left; reflexivity); right) |].
    change (is_ok (store (VJson (Api.lg_payload l))) = false). pose proof (jsonb_nul _ Hn) as Hj. simpl.
    by destruct (jsonb _). }
  induction batch as [| l' batch IH]; [by apply not_elem_of_nil in Hin |]. cbn [fmap list_fmap insert_rows].
  apply elem_of_cons in Hin as [<- | Hin]; [by destruct (insert_row _ _ _ (new_log_values l)) |].
  destruct (insert_row _ _ _ (new_log_values l')); [| done]. specialize (IH Hin). by destruct (insert_rows _ _ _).
Qed.

(** A jsonb column that refuses NUL. *)
#[local] Instance example_jsonb : JsonbColumn := λ v, if json_nul v then Err "unsupported Unicode escape sequence" else Ok v.
#[local] Instance example_jsonb_laws : JsonbLaws.
Proof.
  split; unfold jsonb, example_jsonb.
  - intros v w _. destruct (json_nul v); [done |]. by intros [= <-].
  - intros v. by destruct (json_nul v).
Qed.

(** An alert inserted by hand, with the columns that have no default. *)
Definition example_values : list (string * sql_value) :=
  [("node_id", VUuid "n1"); ("hostname", VText "h1"); ("severity", VText "high"); ("source", VText "sigma");
   ("description", VText "d")].

Lemma stored_rows_are_readable_witness :
  ∃ row, insert_row "a1" 5 Migrations.alerts example_values = Ok row ∧
    is_Some (select ApiSchema.alerts row ≫= alert_of_row).
Proof.
  eexists. split; [vm_compute; reflexivity |].
  destruct (stored_rows_are_readable "a1" 5 example_values) as (_ & _ & _ & _ & _ & _ & _ & _ & _ & _ & _ & Ha & _).
  apply Ha. vm_compute. reflexivity.
Defined.

(** A log entry of 1700000000.123456789 s: its row keeps 1700000000.123456 s. *)
Definition example_log : Api.EventLogEntity :=
  Api.mkLog "e1" "n1" "process_events" "h1" (JObject [("pid", json_int 7)]) None 1700000000123456789.
Definition example_new_alert : NewAlertEntity :=
  mkEntity "a1" "n1" "h1" "high" "sigma" None (Some "TA0002") "d" (Some "e1") (S754_zero false) "open" 1700000000000000001.
Definition example_record : NodeRecord := mkRecord "h1" "debian" "1.0" "m1".

Definition example_env : call_env := CallEnv "n1" "ev1" 5000 None (λ _, None) None.
Definition example_health : health := Health "hl1" "n1" "healthy" 3 1700000000000000999.

Lemma written_rows_read_back_witness :
  (row ← ok (insert_row "u" 5000 Migrations.event_logs (new_log_values example_log));
   select ApiSchema.event_logs row ≫= log_of_row) =
  Some (Api.mkLog "e1" "n1" "process_events" "h1" (JObject [("pid", json_int 7)]) None 1700000000123456000).
Proof.
  refine (proj2 (proj2 (proj2 (written_rows_read_back "u" example_env example_record example_health example_new_alert
    example_log _ _ _ _ _)))); by vm_compute.
Defined.
