(* ===== verification/Startup.v ===== *)
(** * The processes' main functions
      (fleet-tracing, agent-bin/src/main.rs, agent-core/src/orchestrator.rs,
      rule-engine/src/main.rs, fleet-server-bin/src/main.rs, api-backend/src/main.rs,
      kafka-pipeline/src/main.rs and health.rs)

    What each process does before its tasks run: configuration, the steps that
    can fail in their order, and the state the tasks start from.  Opening files,
    sockets, pools and producers are outcomes given as arguments. *)
From Stdlib Require Import ZArith Lia.
From S2P Require Import Prelude Json RuleModels Pipeline Dedup Scanner RuleEngine EngineSystem.
From S2P Require Import FleetServer Osquery OsqueryClient Isolation EventBuffer FleetClient Agent AgentSystem Preflight.
From S2P Require ConfigFile.
From S2P Require Api ApiHttp ApiSystem.
#[local] Open Scope string_scope.
#[local] Open Scope list_scope.
#[local] Open Scope nat_scope.

(** ** Tracing (fleet-tracing: config.rs, init.rs; agent-tracing) *)
Module Tracing.
Inductive LogFormat := Human | JsonFormat.

(** [LogFormat::from_str] *)
Definition from_str (s : string) : result LogFormat string :=
  let l := to_lowercase s in
  if String.eqb l "json" then Ok JsonFormat
  else if String.eqb l "human" || String.eqb l "pretty" then Ok Human
  else Err ("unknown log format '" +:+ l +:+ "': expected 'json' or 'human'").

Record TracingConfig := mkTracing { log_level : string; format : LogFormat; service_name : string }.
Definition default_config : TracingConfig := mkTracing "info" Human "fleet-server".

Inductive InitError := AlreadyInitialised | InvalidDirective (directive source : string).

(** [init]: the directive in force and the format, when no subscriber is set yet.
    [rust_log] is the default environment's filter, [try_new] the parser of
    directives; one that does not parse is replaced by "info". *)
Definition init (rust_log : option string) (try_new : string → bool) (config : TracingConfig)
    (initialised : bool) : result (string * LogFormat) InitError :=
  let filter := match rust_log with
                | Some d => d
                | None => if try_new (log_level config) then log_level config else "info"
                end in
  if initialised then Err AlreadyInitialised else Ok (filter, format config).

(** The agent's: the configured word is "json" or means human. *)
Definition agent_format (log_format : string) : LogFormat :=
  if String.eqb log_format "json" then JsonFormat else Human.
(** [agent_tracing::init]; [EnvFilter::new] takes any directive. *)
Definition agent_init (rust_log : option string) (log_level : string) (f : LogFormat) : string * LogFormat :=
  (default log_level rust_log, f).
End Tracing.

(** ** The agent (agent-bin/src/main.rs) *)
Module AgentMain.
Section agent_main.
Context `{SerdeJson} `{Nft}.
Context (metadata_value : string → result string string) (parse_uuid : string → result string string).
(** [toml::from_str], [IpAddr::parse] on IPv6 and the resolver. *)
Context (parse_toml : string → result AgentConfig string).
Context (parse_v6 : string → option string) (resolve : string → option IpAddr).

Record Args := mkArgs { arg_config : string; arg_check : bool; arg_enroll : bool }.
(** clap: the option, else the environment, else the default. *)
Definition config_path (option_value env_value : option string) : string :=
  match option_value with
  | Some p => p
  | None => default "/etc/aigis-zero/config.toml" env_value
  end.

(** How main ends before the tasks, or what the tasks start from. *)
Record running := Running {
  rn_config : AgentConfig; rn_client : FleetClient; rn_table : table; rn_manager : IsolationManager;
  rn_node_id : string; rn_written : option string; rn_tracing : string * Tracing.LogFormat }.
Inductive outcome := Exit (code : Z) (printed : list string) | Failed (e : string) | Started (r : running).

(** What main meets besides the fleet server. *)
Record env := Env {
  env_uid : Z; env_config_file : result string string; env_host : Preflight.Host;
  env_rust_log : option string; env_buffer_fault : option string; env_buffer_file : option table }.

Definition main (fuel : nat) (args : Args) (e : env) (b : AgentConfig → boot_env) : option outcome :=
  if negb (env_uid e =? 0)%Z then Some (Exit 1 ["Error: aigis-zero must be run as root"]) else
  match env_config_file e with
  | Err err => Some (Failed ("Failed to read config file at " +:+ arg_config args +:+ ": " +:+ err))
  | Ok config_str =>
      match parse_toml config_str with
      | Err err => Some (Failed ("Failed to parse TOML config: " +:+ err))
      | Ok config =>
          if arg_check args then
            let report := Preflight.run_preflight (env_host e) config in
            let shown := "Config syntax is valid." :: Preflight.print report in
            Some (if Preflight.is_ok report
                  then Exit 0 (shown ++ ["Environment checks passed. Ready for deployment."])
                  else Exit 1 (shown ++ ["Environment checks failed. Please resolve the errors above before deploying."]))
          else
            let tracing := Tracing.agent_init (env_rust_log e) (ag_log_level (cfg_agent config))
                             (Tracing.agent_format (ag_log_format (cfg_agent config))) in
            match EventBuffer.new (env_buffer_fault e) (env_buffer_file e) with
            | Err err => Some (Failed err)
            | Ok buffer =>
                r ← boot metadata_value parse_uuid fuel config (arg_enroll args) (b config);
                match r with
                | Err err => Some (Failed err)
                | Ok (c, written) =>
                    let '(fleet_ip, fleet_port) := parse_endpoint parse_v6 resolve (fl_endpoint (cfg_fleet config)) in
                    Some (Started (Running config c buffer (Manager fleet_ip fleet_port) (default "" (node_id c)) written tracing))
                end
            end
      end
  end.

(** The state the tasks of [AgentSystem] run from. *)
Definition tasks (r : running) (q : list string) (nft : nft_state) : AgentSystem.agent :=
  AgentSystem.started (rn_table r) q (Listener 0 (rn_client r) nft).

(** [tokio::time::interval] panics on a period of zero, which ends the task that
    calls it and no other. *)
Definition interval_starts (secs : Z) : bool := negb (secs =? 0)%Z.
(** Whether the task of a label is still there after its first statement. *)
Definition alive (r : running) (l : AgentSystem.label) : bool :=
  match l with
  | AgentSystem.Take _ | AgentSystem.Send _ | AgentSystem.PutBack _ _ =>
      interval_starts (ag_event_drain_interval_secs (cfg_agent (rn_config r)))
  | AgentSystem.Beat _ _ => interval_starts (fl_heartbeat_interval_secs (cfg_fleet (rn_config r)))
  | _ => true
  end.

(** A step of the tasks main spawned, with what it handed them. *)
Definition task_step (looks_numeric : string → bool) (r : running) (l : AgentSystem.label) (a : AgentSystem.agent)
    : option AgentSystem.agent :=
  if alive r l
  then AgentSystem.fire looks_numeric metadata_value (ag_event_buffer_max (cfg_agent (rn_config r)))
         (ag_event_drain_batch (cfg_agent (rn_config r))) (rn_manager r) (rn_node_id r) l a
  else None.

(** Processes on one buffer file, each started on what the one before left when it
    was killed, from the file [t0] that held [q0] to [t]: how each was when it was
    killed.  The agent has no orderly shutdown. *)
Inductive lifetimes (looks_numeric : string → bool) (t0 : table) (q0 : list string)
    : list AgentSystem.agent → table → Prop :=
  | no_process : lifetimes looks_numeric t0 q0 [] t0
  | process lives t fuel args e b r q nft a :
      lifetimes looks_numeric t0 q0 lives t →
      main fuel args e b = Some (Started r) → env_buffer_file e = Some t →
      represents t q →
      reached (task_step looks_numeric r) (AgentSystem.reliable looks_numeric) (tasks r q nft) a →
      (Z.of_nat (length (accepted a)) ≤ ag_event_buffer_max (cfg_agent (rn_config r)))%Z →
      lifetimes looks_numeric t0 q0 (lives ++ [a]) (table_of a).
End agent_main.
End AgentMain.

(** ** The earlier orchestrator (agent-core/src/orchestrator.rs) *)
Module Orchestrator.
Section orchestrator.
Context `{SerdeJson}.
Context (looks_numeric : string → bool) (metadata_value : string → result string string).
Context (parse_uuid : string → result string string) (parse_toml : string → result AgentConfig string).

(** A turn of the main loop: a result of the collector, or the shutdown; a
    closed collector channel disables its branch. *)
Inductive turn := Result (a : arrival) | Shutdown.

Definition store (max : Z) (t : table) (a : arrival) : table :=
  (push looks_numeric (ar_faults a) max (ar_now a) (encode_result (ar_uuid a) (ar_result a)) t).2.

Fixpoint drain_loop (max : Z) (turns : list turn) (t : table) : table :=
  match turns with
  | [] | Shutdown :: _ => t
  | Result a :: turns => drain_loop max turns (store max t a)
  end.

Record env := Env {
  env_config : option string;              (* EDR_AGENT_CONFIG *)
  env_read : string → result string string;
  env_buffer_fault : option string; env_buffer_file : option table;
  env_rpc : metadata → AgentRegistration → result RegisterResponse string;
  env_hostname : option string; env_os_version : string; env_machine_id : string; env_version : string }.

Definition hostname_or_default (h : option string) : string := default "unknown-host" h.

Definition agent_uuid_of (config : AgentConfig) : string := default "unregistered" (ag_node_id (cfg_agent config)).

(** [run]: the node id results are tagged with, the outcome of the enrolment (it
    is only logged), and the buffer's table when the process is told to stop. *)
Definition run (e : env) (turns : list turn)
    : result (string * result RegisterResponse string * table) string :=
  let config_path := default "agent.toml" (env_config e) in
  match env_read e config_path with
  | Err err => Err ("Failed to read config file at " +:+ config_path +:+ ": " +:+ err)
  | Ok config_str =>
      match parse_toml config_str with
      | Err err => Err ("Failed to parse TOML config: " +:+ err)
      | Ok config =>
          match EventBuffer.new (env_buffer_fault e) (env_buffer_file e) with
          | Err err => Err ("Failed to open event buffer: " +:+ err)
          | Ok buffer =>
              let req := Registration (hostname_or_default (env_hostname e)) (env_os_version e)
                           (env_version e) (env_machine_id e) in
              let '(enrollment, _) := enroll metadata_value parse_uuid (env_rpc e) req
                                        (FleetClient.new (fl_endpoint (cfg_fleet config))) in
              Ok (agent_uuid_of config, enrollment,
                  drain_loop (ag_event_buffer_max (cfg_agent config)) turns buffer)
          end
      end
  end.

(** The results a run of the loop takes. *)
Fixpoint stored (turns : list turn) : list arrival :=
  match turns with
  | [] | Shutdown :: _ => []
  | Result a :: turns => a :: stored turns
  end.
End orchestrator.
End Orchestrator.

(** ** Connection pools (postgres-interface/src/pool.rs, and db/mod.rs of the engine and the API) *)
Module Pools.
(** Seconds to wait for a connection, to make one, to check one before its reuse. *)
Record Timeouts := mkTimeouts { wait : option Z; create : option Z; recycle : option Z }.
Record PoolConfig_ := mkPool { database_url : string; max_size : Z; timeouts : Timeouts }.
Inductive PgError := Database (e : string) | Pool_ (e : string) | PoolConfig (e : string).

Definition fail_fast : Timeouts := mkTimeouts (Some 3%Z) (Some 5%Z) (Some 2%Z).

Section pools.
(** deadpool's [build]. *)
Context {Pool : Type} (build : PoolConfig_ → result Pool string).

Definition fleet_create_pool (database_url : string) (max_size : Z) : result Pool PgError :=
  map_err PoolConfig (build (mkPool database_url max_size fail_fast)).
Definition connect (database_url : string) : result Pool PgError := fleet_create_pool database_url 5.

Definition engine_create_pool (database_url : string) (max_connections : Z) : result Pool AppError :=
  map_err (λ e, DatabasePool ("Failed to build connection pool: " +:+ e))
    (build (mkPool database_url max_connections fail_fast)).

Definition api_create_pool (database_url : string) (max_size : Z) : result Pool string :=
  build (mkPool database_url max_size fail_fast).
End pools.
End Pools.

(** ** The rule engine (rule-engine/src/main.rs) *)
Module EngineMain.
Section engine_main.
Context `{SerdeJson} {Rules : Type} {Compiler : Type} (compiler_new : Compiler)
  (add_source : string → Compiler → result Compiler string) (build : Compiler → Rules).
Context `{HL : Lru AlertSignature (Z * Z)}.
Context (parse_taxonomy : string → result MitreTaxonomy string).

(** The file system, and the outcome of building the pool and each client. *)
Record env := Env {
  env_var : string → option string; env_cpus : Z;
  env_exists : string → bool;
  env_read_dir : string → result (list (result DirEntry string)) string;
  env_read : string → result string string;
  pool_fault : option string; dlq_fault : option string; producer_fault : option string;
  bind_fault : option string; client_fault : option string; subscribe_fault : option string;
  env_now : Z; env_store : Sink.store }.

Inductive start_error := App (e : AppError) | IoError (e : string) | Panic (what : string).

Definition load_taxonomy (e : env) (path : string) : result MitreTaxonomy AppError :=
  if env_exists e path then load_from_file parse_taxonomy (env_read e) path else Ok ∅.

Definition fault_check (f : option string) (k : string → start_error) : result unit start_error :=
  match f with Some e => Err (k e) | None => Ok tt end.

(** [create_pool] of db/mod.rs, whose error main wraps once more. *)
Definition create_pool (e : env) : result unit start_error :=
  fault_check (pool_fault e) (λ m, App (DatabasePool ("Failed to build connection pool: "
    +:+ display_error (DatabasePool ("Failed to build connection pool: " +:+ m))))).

(** [TelemetryConsumer::new] *)
Definition consumer_new (e : env) : result unit start_error :=
  match client_fault e, subscribe_fault e with
  | Some err, _ => Err (App (KafkaConsume ("Failed to create Kafka consumer: " +:+ err)))
  | None, Some err => Err (App (KafkaConsume ("Failed to subscribe to topics: " +:+ err)))
  | None, None => Ok tt
  end.

(** [mpsc::channel] panics on a capacity of 0 or above what a semaphore holds. *)
Definition MAX_PERMITS : Z := 2 ^ 61 - 1.
Definition channel (capacity : Z) : result unit start_error :=
  if (capacity =? 0)%Z then Err (Panic "mpsc bounded channel requires buffer > 0")
  else if (MAX_PERMITS <? capacity)%Z then Err (Panic "a semaphore may not have more than MAX_PERMITS permits")
  else Ok tt.

(** Main up to the wait for Ctrl-C. *)
Definition start (e : env) : result (RuleEngineConfig * engine (Rules := Rules)) start_error :=
  match from_env (env_cpus e) (env_var e) with
  | Err err => Err (App err)
  | Ok config =>
      match load_taxonomy e (mitre_taxonomy_path config) with
      | Err err => Err (App err)
      | Ok taxonomy =>
          match compile_all compiler_new add_source build (env_exists e) (env_read_dir e) (env_read e)
                  (rules_directory config) with
          | Err err => Err (App err)
          | Ok rule_sets =>
              match Dedup.new (dedup_capacity config) (dedup_suppression_window_secs config * 1000000000)%Z with
              | Err err => Err (App err)
              | Ok dedup =>
                  let steps := [
                    create_pool e;
                    fault_check (dlq_fault e) (λ m, App (KafkaProduce ("Failed to create DLQ producer: " +:+ m)));
                    fault_check (producer_fault e) (λ m, App (KafkaProduce ("Failed to create alerts producer: " +:+ m)));
                    channel (channel_capacity config);
                    fault_check (bind_fault e) IoError;
                    consumer_new e ] in
                  match List.find (λ r, negb (Prelude.is_ok r)) steps with
                  | Some (Err err) => Err err
                  | _ => Ok (config, EngineSystem.started dedup (Registry rule_sets taxonomy) (env_now e) (env_store e))
                  end
              end
          end
      end
  end.
End engine_main.
End EngineMain.

(** ** The gRPC listener (grpc-listener/src/server.rs, config.rs, error.rs) *)
Module GrpcServer.
Inductive Error :=
  | Unauthenticated
  | MissingAuthHeader
  | Transport (e : string)
  | AddrParse (e : string).

Record GrpcListenerConfig := mkListener { lc_host : string; lc_port : Z; lc_jwt_secret : string }.
Definition bind_addr (c : GrpcListenerConfig) : string := lc_host c +:+ ":" +:+ pretty (lc_port c).

(** [serve_until_shutdown]: [parse] reads a socket address, [serve] is tonic's
    server on it until the shutdown, with the error it ends on. *)
Definition serve_until_shutdown {Addr} (parse : string → result Addr string) (serve : Addr → option string)
    (c : GrpcListenerConfig) : result unit Error :=
  match parse (bind_addr c) with
  | Err e => Err (AddrParse e)
  | Ok addr => match serve addr with Some e => Err (Transport e) | None => Ok tt end
  end.
End GrpcServer.

(** ** The fleet server (fleet-server-bin/src/main.rs) *)
Module FleetMain.
(** The service main builds, and the address it serves on. *)
Record server := Server {
  sv_jwt_secret : string; sv_enrollment_secret : option string; sv_brokers : string; sv_topic : string;
  sv_addr : string; sv_tracing : string * Tracing.LogFormat }.

(** What building and serving meets: the environment's filter, the parser of
    directives, the pool, the publisher ([expect]: an error panics), the address. *)
Record env := Env {
  env_var : string → option string; env_rust_log : option string; env_directive : string → bool;
  env_initialised : bool; pool_fault : option string; publisher_fault : option string;
  parse_addr : string → result string string; serve_fault : option string }.

Inductive outcome := Failed (e : string) | Panicked (e : string) | Stopped (s : server).

(** [build_ports]: the secret of the enroller, and the brokers and topic of
    [KafkaEventIngest]; a publisher that cannot be made panics. *)
Definition build_ports (jwt_secret kafka_brokers kafka_topic : string) (publisher_fault : option string)
    : result (string * (string * string)) string :=
  match publisher_fault with
  | Some e => Err ("Failed to initialize KafkaPublisher: " +:+ e)
  | None => Ok (jwt_secret, (kafka_brokers, kafka_topic))
  end.

(** The process from its start to the end of serving, with the context of the
    error that [anyhow] shows first. *)
Definition main (e : env) : outcome :=
  match load_settings (env_var e) with
  | Err _ => Failed "failed to load settings"
  | Ok settings =>
      let log_format := default Tracing.Human (ok (Tracing.from_str (log_format settings))) in
      match Tracing.init (env_rust_log e) (env_directive e)
              (Tracing.mkTracing (rust_log settings) log_format "fleet-server") (env_initialised e) with
      | Err _ => Failed "failed to initialise tracing"
      | Ok tracing =>
          match pool_fault e, build_ports (jwt_secret settings) (brokers_of settings) (topic_of settings) (publisher_fault e) with
          | Some _, _ => Failed "failed to initialize postgres pool — check DATABASE_URL"
          | None, Err err => Panicked err
          | None, Ok (_, (brokers, topic)) =>
              let grpc_config := GrpcServer.mkListener (host settings) (port settings) (jwt_secret settings) in
              match GrpcServer.serve_until_shutdown (parse_addr e) (λ _, serve_fault e) grpc_config with
              | Err _ => Failed "gRPC server error"
              | Ok _ => Stopped (Server (jwt_secret settings) (fleet_enrollment_secret settings)
                                   brokers topic (GrpcServer.bind_addr grpc_config) tracing)
              end
          end
      end
  end.
End FleetMain.

(** ** The operator API (api-backend/src/main.rs, state.rs) *)
Module ApiMain.
Definition headers : Type := list (string * string).

(** [HeaderMap::insert]: replaces what the name had. *)
Definition header_insert (k v : string) (h : headers) : headers :=
  List.filter (λ kv, negb (String.eqb kv.1 k)) h ++ [(k, v)].

(** The middleware of every response of the router; a CORS preflight is answered before it. *)
Definition add_security_headers (h : headers) : headers :=
  header_insert "referrer-policy" "strict-origin-when-cross-origin"
    (header_insert "x-xss-protection" "1; mode=block"
      (header_insert "x-frame-options" "DENY"
        (header_insert "x-content-type-options" "nosniff" h))).

(** The topics the background consumer subscribes to. *)
Definition consumed_topics : list string :=
  ["aigis.events.raw"; "aigis.events.norm"; "aigis.events.process"; "aigis.events.network";
   "aigis.events.file"; "aigis.events.auth"; "aigis.alerts"; "aigis.health"].

Section state.
(** deadpool's [build]. *)
Context {Pool : Type} (build : Pools.PoolConfig_ → result Pool string).

(** [AppStateInner]: a service is the pool or the settings it works on. *)
Record AppState := mkAppState {
  st_config : Api.Settings; auth_service : Api.Settings; node_service : Pool * string;
  alert_service : Pool; log_service : Pool; broadcast_capacity : Z;
  nodes_pool : Pool; alerts_pool : Pool; logs_pool : Pool }.

(** [AppState::new] *)
Definition state_new (config : Api.Settings) : result AppState string :=
  let create_pool url := Pools.api_create_pool build url (Api.db_pool_max_size config) in
  match create_pool (Api.database_url_nodes config) with
  | Err e => Err e
  | Ok nodes =>
      match create_pool (Api.database_url_alerts config) with
      | Err e => Err e
      | Ok alerts =>
          match create_pool (Api.database_url_logs config) with
          | Err e => Err e
          | Ok logs =>
              Ok (mkAppState config config (nodes, Api.fleet_grpc_url config) alerts logs
                    ApiSystem.BROADCAST_CAPACITY nodes alerts logs)
          end
      end
  end.

Definition api_addr (s : Api.Settings) : string := Api.host s +:+ ":" +:+ pretty (Api.port s).

(** [main]: the state it serves and the address it serves on. *)
Definition main (env : string → option string)
    (parse_addr : string → result string string) (bind_fault serve_fault : option string)
    : result (AppState * string) string :=
  match Api.load_from_env env with
  | Err e => Err e
  | Ok settings =>
      match state_new settings with
      | Err e => Err e
      | Ok state =>
          match parse_addr (api_addr settings) with
          | Err e => Err e
          | Ok addr =>
              match bind_fault, serve_fault with
              | Some e, _ | None, Some e => Err e
              | None, None => Ok (state, addr)
              end
          end
      end
  end.
End state.

(** A request with the middleware around the router; [h] are the headers the
    response of the handler carries. *)
Definition serve (handler : Api.world → Api.response * Api.world) (h : headers) (w : Api.world)
    : (Api.response * headers) * Api.world :=
  let '(resp, w') := handler w in ((resp, add_security_headers h), w').
End ApiMain.

(** ** The pipeline's health server (kafka-pipeline/src/health.rs, main.rs) *)
Module PipelineHealth.
Inductive route := Live | Ready | MetricsPage.

(** [create_health_router] *)
Definition router (path : string) : option route :=
  if String.eqb path "/health/live" || String.eqb path "/healthz" then Some Live
  else if String.eqb path "/health/ready" || String.eqb path "/readyz" then Some Ready
  else if String.eqb path "/metrics" then Some MetricsPage else None.

(** The handlers, on the process's counters. *)
Definition answer (m : Metrics.PipelineMetrics) (r : route) : string :=
  match r with
  | Live => "OK"
  | Ready => "READY"
  | MetricsPage => Metrics.format_prometheus m
  end.

(** Main's order: the health listener first, then the producer ([expect]), then
    the worker, whose errors end the process. *)
Inductive outcome := Failed (e : string) | Panicked (e : string) | Worker (settings : string * string * list string).
Definition main (env : string → option string) (bind_fault producer_fault worker_fault : option string) : outcome :=
  match bind_fault, producer_fault, worker_fault with
  | Some e, _, _ => Failed e
  | None, Some e, _ => Panicked ("Router producer creation failed: " +:+ e)
  | None, None, Some e => Failed e
  | None, None, None => Worker (PipelineMain.worker_settings env)
  end.
End PipelineHealth.

(** ** Lemmas *)

Section agent_lemmas.
Context `{SerdeJson} `{Nft} (metadata_value parse_uuid : string → result string string).
Context (parse_toml : string → result AgentConfig string).
Context (parse_v6 : string → option string) (resolve : string → option IpAddr) (looks_numeric : string → bool).
#[local] Abbreviation agent_main := (AgentMain.main metadata_value parse_uuid parse_toml parse_v6 resolve).
#[local] Abbreviation lifetimes := (AgentMain.lifetimes metadata_value parse_uuid parse_toml parse_v6 resolve looks_numeric).

(** What a process that reaches its tasks has been through. *)
Lemma main_started fuel args e b r :
  agent_main fuel args e b = Some (AgentMain.Started r) →
  AgentMain.env_uid e = 0%Z ∧ AgentMain.arg_check args = false ∧
  (∃ text, AgentMain.env_config_file e = Ok text ∧ parse_toml text = Ok (AgentMain.rn_config r)) ∧
  EventBuffer.new (AgentMain.env_buffer_fault e) (AgentMain.env_buffer_file e) = Ok (AgentMain.rn_table r) ∧
  boot metadata_value parse_uuid fuel (AgentMain.rn_config r) (AgentMain.arg_enroll args) (b (AgentMain.rn_config r))
    = Some (Ok (AgentMain.rn_client r, AgentMain.rn_written r)) ∧
  AgentMain.rn_node_id r = default "" (node_id (AgentMain.rn_client r)).
Proof.
  unfold AgentMain.main. destruct (Z.eqb_spec (AgentMain.env_uid e) 0) as [Hu |]; simpl; [| done].
  destruct (AgentMain.env_config_file e) as [text |] eqn:Hc; [| done].
  destruct (parse_toml text) as [config |] eqn:Ht; [| done].
  destruct (AgentMain.arg_check args); [by destruct (Preflight.is_ok _) |].
  destruct (EventBuffer.new _ _) as [buffer |]; [| done].
  destruct (boot _ _ _ _ _ _) as [[[c written] |] |] eqn:Hb; simpl; try done.
  intros [= <-]. simpl. split_and!; eauto.
Qed.

(** [--check] starts nothing: it exits, with 0 when the report is ok. *)
Lemma check_only_reports fuel args e b text config :
  AgentMain.env_uid e = 0%Z → AgentMain.env_config_file e = Ok text → parse_toml text = Ok config →
  AgentMain.arg_check args = true →
  ∃ code printed, agent_main fuel args e b = Some (AgentMain.Exit code printed) ∧
    (code = 0%Z ↔ Preflight.is_ok (Preflight.run_preflight (AgentMain.env_host e) config) = true).
Proof.
  intros Hu Hc Ht Ha. unfold AgentMain.main. rewrite Hu, Hc, Ht, Ha. simpl.
  destruct (Preflight.is_ok _); eexists _, _; by split.
Qed.

(** Strings of a table that represents a queue. *)
Lemma stored_in_queue t q x : represents t q → x ∈ q ↔ SqlText x ∈ row_payload <$> EventBuffer.rows t.
Proof.
  intros [_ ->]. split; [apply list_elem_of_fmap_2 |].
  intros (y & [= ->] & Hy)%list_elem_of_fmap. done.
Qed.

Lemma represents_unique t q q' : represents t q → represents t q' → q = q'.
Proof. intros [_ H1] [_ H2]. rewrite H1 in H2. apply (list_fmap_eq_inj SqlText) in H2; [done |]. by intros ?? [= ->]. Qed.

(** What the events of the processes so far have become. *)
Definition accounted (q0 : list string) (lives : list AgentSystem.agent) (q : list string) : Prop :=
  ∀ x ev, x ∈ q0 ∨ (∃ a, a ∈ lives ∧ x ∈ accepted a) → wire_event x = Some ev →
    x ∈ q ∨ ∃ a, a ∈ lives ∧ (x ∈ held a ∨ ev ∈ on_wire a).

(** The spawned tasks' steps are the agent's. *)
Lemma task_steps_fire r ok a0 a :
  reached (AgentMain.task_step metadata_value looks_numeric r) ok a0 a →
  reached (AgentSystem.fire looks_numeric metadata_value (ag_event_buffer_max (cfg_agent (AgentMain.rn_config r)))
    (ag_event_drain_batch (cfg_agent (AgentMain.rn_config r))) (AgentMain.rn_manager r) (AgentMain.rn_node_id r)) ok a0 a.
Proof.
  induction 1 as [| a l a' _ IH Hok Hf]; [constructor |]. unfold AgentMain.task_step in Hf.
  destruct (AgentMain.alive r l); [by econstructor | done].
Qed.

(** A drain interval of 0, which a file may hold, ends the drain loop at its start:
    whatever the other tasks do, the agent runs on and sends no event. *)
Lemma zero_interval_never_drains r q nft ok a :
  ag_event_drain_interval_secs (cfg_agent (AgentMain.rn_config r)) = 0%Z →
  reached (AgentMain.task_step metadata_value looks_numeric r) ok (AgentMain.tasks r q nft) a →
  on_wire a = [] ∧ held a = [].
Proof.
  intros Hz Hr. enough (on_wire a = [] ∧ draining a = AgentSystem.Between) as [Hw Hd] by (unfold held; by rewrite Hd).
  induction Hr as [| a l a' _ [Hw Hd] _ Hf]; [done |]. unfold AgentMain.task_step, AgentMain.alive in Hf.
  rewrite Hz in Hf. destruct l as [x | fl | room | fl now | [d | ws] | lf rpc]; cbn [AgentMain.interval_starts negb Z.eqb] in Hf;
    try done; unfold AgentSystem.fire, locked in Hf; rewrite ?Hd in Hf; cbn in Hf.
  - by injection Hf as <-.
  - by injection Hf as <-.
  - by injection Hf as <-.
  - destruct (AgentMain.interval_starts _); [| done]. destruct (heartbeat_tick _ _ _ _ _ _) as [? c]. by injection Hf as <-.
Qed.

Lemma lifetimes_account t0 q0 lives t :
  (∀ text c, parse_toml text = Ok c → ConfigFile.limits c) →
  represents t0 q0 → Forall (λ x, looks_numeric x = false) q0 → lifetimes t0 q0 lives t →
  ∃ q, represents t q ∧ Forall (λ x, looks_numeric x = false) q ∧ accounted q0 lives q.
Proof.
  intros Hlimits Ht0 Hn0. induction 1 as [| lives t fuel args e b r q nft a _ IH Hm Hf Hq Ha Hroom].
  { exists q0. split_and!; [done | done |]. intros x ev [Hx | (? & []%not_elem_of_nil & _)] _. by left. }
  destruct IH as (q1 & Hq1 & Hn1 & Hacc). rewrite (represents_unique _ _ _ Hq1 Hq) in Hn1, Hacc. clear q1 Hq1.
  apply main_started in Hm as (_ & _ & (text & _ & Hparse) & Hnew & _).
  destruct (Hlimits _ _ Hparse) as [Hmax [Hbatch0 Hbatch] _ _ _ _ _ _ _ _ _].
  assert (0 ≤ ag_event_drain_batch (cfg_agent (AgentMain.rn_config r)) ≤ i64_max)%Z as Hbatch'
    by (unfold i64_max; simpl in *; lia).
  apply task_steps_fire in Ha. rewrite Hf in Hnew. unfold EventBuffer.new in Hnew.
  assert (AgentMain.rn_table r = t) as Ht by (destruct (AgentMain.env_buffer_fault e); [done | by injection Hnew]).
  destruct (reachable_kept _ _ _ _ _ _ Hmax Hbatch' _ _ Ha Hroom) as (q' & Hr & _ & Hn & Hk).
  { exists q. unfold AgentMain.tasks, held, AgentSystem.started. simpl. rewrite Ht, app_nil_r.
    split_and!; [done | lia | done |]. intros. by left. }
  apply Forall_app in Hn as [Hn _]. exists q'. split_and!; [done | done |].
  intros x ev Hx Hev.
  assert (x ∈ accepted a → x ∈ q' ∨ ∃ a', a' ∈ lives ++ [a] ∧ (x ∈ held a' ∨ ev ∈ on_wire a')) as Hlast.
  { intros Hin. assert (a ∈ lives ++ [a]) by (apply elem_of_app; right; by left).
    destruct (Hk x ev Hin Hev) as [[Hy | Hy]%elem_of_app | Hy]; eauto. }
  assert (∀ y, y ∈ q → y ∈ accepted a) as Hstart.
  { intros y Hy. destruct (reached_accepted _ _ _ _ _ _ _ _ _ Ha) as [more ->]. apply elem_of_app. by left. }
  assert (x ∈ accepted a ∨ x ∈ q0 ∨ (∃ a', a' ∈ lives ∧ x ∈ accepted a')) as [Hx' | Hx'].
  { destruct Hx as [Hx | (a' & [Hin | ->%list_elem_of_singleton]%elem_of_app & Hx)]; eauto. }
  - by apply Hlast.
  - destruct (Hacc x ev Hx' Hev) as [Hin | (a' & Hin & Hw)]; [by apply Hlast, Hstart |].
    right. exists a'. split; [apply elem_of_app; by left | done].
Qed.
End agent_lemmas.

Section orchestrator_lemmas.
Context `{SerdeJson} (looks_numeric : string → bool).

Lemma drain_loop_fold max turns t :
  Orchestrator.drain_loop looks_numeric max turns t =
  foldl (Orchestrator.store looks_numeric max) t (Orchestrator.stored turns).
Proof. revert t. induction turns as [| [a |] turns IH]; intros t; [done | apply IH | done]. Qed.

(** The client it enrols with was never connected: whatever the server, the node is
    not enrolled, and the results carry the configured id or "unregistered". *)
Lemma orchestrator_never_enrols metadata_value parse_uuid parse_toml e turns u r t :
  Orchestrator.run looks_numeric metadata_value parse_uuid parse_toml e turns = Ok (u, r, t) →
  r = Err "Not connected" ∧
  ∃ text config, Orchestrator.env_read e (default "agent.toml" (Orchestrator.env_config e)) = Ok text ∧ parse_toml text = Ok config ∧
    u = default "unregistered" (ag_node_id (cfg_agent config)) ∧
    ∃ t0, EventBuffer.new (Orchestrator.env_buffer_fault e) (Orchestrator.env_buffer_file e) = Ok t0 ∧
      t = foldl (Orchestrator.store looks_numeric (ag_event_buffer_max (cfg_agent config))) t0 (Orchestrator.stored turns).
Proof.
  unfold Orchestrator.run. destruct (Orchestrator.env_read e _) as [text |] eqn:Hr; [| done].
  destruct (parse_toml text) as [config |] eqn:Ht; [| done].
  destruct (EventBuffer.new _ _) as [t0 |] eqn:Hn; [| done]. intros [= <- <- <-].
  split; [done |]. exists text, config. split_and!; [done.. |]. exists t0. by rewrite drain_loop_fold.
Qed.
End orchestrator_lemmas.

Section engine_lemmas.
Context `{SerdeJson} {Rules Compiler : Type} (compiler_new : Compiler)
  (add_source : string → Compiler → result Compiler string) (build : Compiler → Rules).
Context `{HL : Lru AlertSignature (Z * Z)} (parse_taxonomy : string → result MitreTaxonomy string).
#[local] Abbreviation start := (EngineMain.start compiler_new add_source build parse_taxonomy).

(** An engine that starts: its taxonomy file, when there is one, parsed; its rules
    compiled; its deduplicator has a place in every shard; its channels have room. *)
Lemma engine_started e config eng :
  start e = Ok (config, eng) →
  from_env (EngineMain.env_cpus e) (EngineMain.env_var e) = Ok config ∧
  (SHARD_COUNT ≤ dedup_capacity config)%Z ∧ (1 ≤ channel_capacity config ≤ EngineMain.MAX_PERMITS)%Z ∧
  ∃ dedup taxonomy rules,
    (if EngineMain.env_exists e (mitre_taxonomy_path config)
     then load_from_file parse_taxonomy (EngineMain.env_read e) (mitre_taxonomy_path config) = Ok taxonomy
     else taxonomy = ∅) ∧
    compile_all compiler_new add_source build (EngineMain.env_exists e) (EngineMain.env_read_dir e)
      (EngineMain.env_read e) (rules_directory config) = Ok rules ∧
    Dedup.new (dedup_capacity config) (dedup_suppression_window_secs config * 1000000000) = Ok dedup ∧
    eng = EngineSystem.started dedup (Registry rules taxonomy) (EngineMain.env_now e) (EngineMain.env_store e).
Proof.
  unfold EngineMain.start. destruct (from_env _ _) as [cfg |] eqn:Hc; [| done].
  destruct (EngineMain.load_taxonomy _ _ _) as [taxonomy |] eqn:Ht; [| done].
  destruct (compile_all _ _ _ _ _ _ _) as [rules |] eqn:Hr; [| done].
  destruct (Dedup.new _ _) as [dedup |] eqn:Hd; [| done].
  assert (fits_u 64 (dedup_capacity cfg) ∧ fits_u 64 (channel_capacity cfg)) as [[Hd0 _] [Hc0 _]].
  { unfold from_env in Hc. destruct (EngineMain.env_var e _); [| done]. injection Hc as <-. simpl.
    split; by apply env_uint_range. }
  unfold EngineMain.channel. destruct (Z.eqb_spec (channel_capacity cfg) 0) as [| Hcap].
  2: destruct (Z.ltb_spec EngineMain.MAX_PERMITS (channel_capacity cfg)) as [| Hcap2].
  1, 2: by destruct (EngineMain.create_pool e), (EngineMain.fault_check (EngineMain.dlq_fault e) _),
      (EngineMain.fault_check (EngineMain.producer_fault e) _).
  assert (SHARD_COUNT ≤ dedup_capacity cfg)%Z as Hshards.
  { unfold Dedup.new in Hd. destruct (Z.eqb_spec (dedup_capacity cfg / SHARD_COUNT) 0) as [| Hne]; [done |].
    unfold SHARD_COUNT in *. pose proof (Z.div_small (dedup_capacity cfg) 16). lia. }
  intros Hok. enough (config = cfg ∧ eng = EngineSystem.started dedup (Registry rules taxonomy)
    (EngineMain.env_now e) (EngineMain.env_store e)) as [-> ->].
  { split_and!; [done | done | lia | lia |]. exists dedup, taxonomy, rules. split_and!; try done.
    unfold EngineMain.load_taxonomy in Ht. by destruct (EngineMain.env_exists e _); [| injection Ht]. }
  by destruct (List.find _ _) as [[|] |]; simplify_eq.
Qed.
End engine_lemmas.

(** Each service works on a pool of its own database. *)
Lemma api_state_pools {Pool} (build : Pools.PoolConfig_ → result Pool string) config st :
  ApiMain.state_new build config = Ok st →
  ApiMain.st_config st = config ∧ ApiMain.auth_service st = config ∧
  build (Pools.mkPool (Api.database_url_nodes config) (Api.db_pool_max_size config) Pools.fail_fast) = Ok (ApiMain.node_service st).1 ∧
  build (Pools.mkPool (Api.database_url_alerts config) (Api.db_pool_max_size config) Pools.fail_fast) = Ok (ApiMain.alert_service st) ∧
  build (Pools.mkPool (Api.database_url_logs config) (Api.db_pool_max_size config) Pools.fail_fast) = Ok (ApiMain.log_service st).
Proof.
  unfold ApiMain.state_new, Pools.api_create_pool.
  destruct (build (Pools.mkPool (Api.database_url_nodes config) _ _)) as [nodes |] eqn:Hn; [| done].
  destruct (build (Pools.mkPool (Api.database_url_alerts config) _ _)) as [alerts |] eqn:Ha; [| done].
  destruct (build (Pools.mkPool (Api.database_url_logs config) _ _)) as [logs |] eqn:Hl; [| done].
  by intros [= <-].
Qed.

(** The middleware's headers, once each, whatever the handler set. *)
Lemma header_insert_get k v h : map_get k (ApiMain.header_insert k v h) = Some v.
Proof.
  unfold ApiMain.header_insert. induction h as [| [k' v'] h IH]; simpl; [by rewrite String.eqb_refl |].
  destruct (String.eqb k' k) eqn:Hk; simpl; [exact IH |].
  rewrite String.eqb_sym, Hk. exact IH.
Qed.

Lemma header_insert_other k k' v h : k ≠ k' → map_get k' (ApiMain.header_insert k v h) = map_get k' h.
Proof.
  intros Hne. unfold ApiMain.header_insert. induction h as [| [k1 v1] h IH]; simpl.
  - by destruct (String.eqb_spec k' k); subst.
  - destruct (String.eqb_spec k1 k) as [-> | Hk]; simpl; rewrite IH; [| done].
    by destruct (String.eqb_spec k' k); subst.
Qed.

Lemma security_headers_set h :
  let h' := ApiMain.add_security_headers h in
  map_get "x-content-type-options" h' = Some "nosniff" ∧ map_get "x-frame-options" h' = Some "DENY" ∧
  map_get "x-xss-protection" h' = Some "1; mode=block" ∧
  map_get "referrer-policy" h' = Some "strict-origin-when-cross-origin" ∧
  (∀ k, k ∉ ["x-content-type-options"; "x-frame-options"; "x-xss-protection"; "referrer-policy"] →
        map_get k h' = map_get k h).
Proof.
  simpl. unfold ApiMain.add_security_headers.
  split_and!; repeat (rewrite header_insert_other by discriminate); rewrite ?header_insert_get; try done.
  intros k Hk. repeat (apply not_elem_of_cons in Hk as [? Hk]).
  by rewrite !header_insert_other by done.
Qed.

(** A log format is accepted in any case; one that is not recognised means human. *)
Lemma from_str_any_case s t :
  to_lowercase s = to_lowercase t → Tracing.from_str s = Tracing.from_str t.
Proof. unfold Tracing.from_str. by intros ->. Qed.

(** The rule engine's state when it starts: the first failure ends it. *)
Lemma first_failure {E} (steps : list (result unit E)) :
  match List.find (λ r, negb (Prelude.is_ok r)) steps with
  | Some (Ok _) => False
  | Some (Err e) => ∃ pre post, steps = pre ++ Err e :: post ∧ Forall (λ r, r = Ok tt) pre
  | None => Forall (λ r, r = Ok tt) steps
  end.
Proof.
  induction steps as [| [[] | e] steps IH]; simpl; [constructor | | by exists [], steps].
  destruct (List.find _ steps) as [[[] | e] |]; [done | | by constructor].
  destruct IH as (pre & post & -> & Hpre). exists (Ok tt :: pre), post. split; [done | by constructor].
Qed.

(** ** Properties *)

(** C3 (safety): across kills and restarts on one buffer file, whatever the
    interleavings of each process's tasks, on configurations read from files: an event that the file held or that a
    process accepted, and that parses, is in the file, went into an outbound channel
    of one of the processes, or was in the batch the drain loop of one held when it
    was killed. *)
Theorem restarts_lose_only_held_batches `{SerdeJson} `{Nft} metadata_value parse_uuid parse_toml parse_v6 resolve
    looks_numeric t0 q0 lives t x ev :
  (∀ text c, parse_toml text = Ok c → ConfigFile.limits c) →
  AgentMain.lifetimes metadata_value parse_uuid parse_toml parse_v6 resolve looks_numeric t0 q0 lives t →
  represents t0 q0 → Forall (λ x, looks_numeric x = false) q0 →
  x ∈ q0 ∨ (∃ a, a ∈ lives ∧ x ∈ accepted a) → wire_event x = Some ev →
  SqlText x ∈ row_payload <$> EventBuffer.rows t ∨ ∃ a, a ∈ lives ∧ (x ∈ held a ∨ ev ∈ on_wire a).
Proof.
  intros Hlim Hl Hr Hn Hx Hev. destruct (lifetimes_account _ _ _ _ _ _ _ _ _ _ Hlim Hr Hn Hl) as (q & Hq & _ & Hacc).
  destruct (Hacc x ev Hx Hev) as [Hin |]; [left; by apply (stored_in_queue _ _ _ Hq) | by right].
Qed.

(** *** An agent killed with its batch put back; the next one sends it *)
#[local] Existing Instance Agent.example_serde.
#[local] Existing Instance KernelNft.kernel_nft.
Definition example_env (t : table) : AgentMain.env :=
  AgentMain.Env 0 (Ok "config") (Preflight.mkHost 0 (λ _, true) (λ _, None) (λ _, None) (λ _, Ok "") (λ _, Ok 0%Z))
    None None (Some t).
Definition example_args : AgentMain.Args := AgentMain.mkArgs "/etc/aigis-zero/config.toml" false false.
Definition example_parse_toml (text : string) : result AgentConfig string :=
  map_err (λ _, "invalid") (ConfigFile.from_str Ok ConfigFile.example_document text).
Definition example_main (t : table) : option AgentMain.outcome :=
  AgentMain.main Ok Ok example_parse_toml (λ _, None) (λ _, Some (V4 10 0 0 1)) 3
    example_args (example_env t) (λ _, Agent.example_boot).
Definition example_running (t : table) : AgentMain.running :=
  AgentMain.Running Agent.example_config
    (connected (Some "tok") (FleetClient.Client "http://fleet:50051" true None None (Some "n1") None))
    t (Manager (V4 10 0 0 1) 50051) "n1"
    (Some (save_node_id_to_config "n1" ("[agent]" +:+ nl))) ("info", Tracing.JsonFormat).

Lemma example_main_started t : example_main t = Some (AgentMain.Started (example_running t)).
Proof. reflexivity. Qed.

Definition example_tasks (t : table) (q : list string) : AgentSystem.agent :=
  AgentMain.tasks (example_running t) q (KernelNft.Kernel None true).
Definition example_life (t : table) (q : list string) (steps : list AgentSystem.label) : AgentSystem.agent :=
  default (example_tasks t q)
    (fire_all (AgentMain.task_step Ok (λ _, false) (example_running t)) (AgentSystem.reliable (λ _, false)) steps
       (example_tasks t q)).

Definition example_life1 : AgentSystem.agent :=
  example_life Agent.example_table ["e1"]
    [AgentSystem.Take no_drain_faults; AgentSystem.Listen (Deliver [StreamEnd]); AgentSystem.Send (Some 0);
     AgentSystem.PutBack no_push_faults 5].
Definition example_life2 : AgentSystem.agent :=
  example_life (table_of example_life1) ["e1"] [AgentSystem.Take no_drain_faults; AgentSystem.Send None].

Lemma example_life1_table : represents (table_of example_life1) ["e1"].
Proof.
  assert (table_of example_life1 = Table [Row 2 (SqlText "e1") 5] 2) as -> by (by vm_compute).
  split; [| done]. split_and!; simpl; [repeat constructor | repeat constructor; simpl; lia |].
  unfold i64_max. lia.
Qed.

Lemma restarts_lose_only_held_batches_witness :
  EventBuffer.rows (table_of example_life2) = [] ∧ on_wire example_life1 = [] ∧
  (SqlText "e1" ∈ row_payload <$> EventBuffer.rows (table_of example_life2) ∨
   ∃ a, a ∈ [example_life1; example_life2] ∧ ("e1" ∈ held a ∨ example_event ∈ on_wire a)).
Proof.
  split; [by vm_compute |]. split; [by vm_compute |].
  eapply (restarts_lose_only_held_batches Ok Ok example_parse_toml (λ _, None) (λ _, Some (V4 10 0 0 1))
           (λ _, false) Agent.example_table ["e1"]).
  - apply ConfigFile.parsed_limits. intros text m [= <-]. vm_compute. intuition congruence.
  - apply (@AgentMain.process _ KernelNft.kernel_nft _ _ _ _ _ _ _ _ [example_life1] (table_of example_life1) 3 example_args
             (example_env (table_of example_life1)) (λ _, Agent.example_boot) (example_running (table_of example_life1)) ["e1"] (KernelNft.Kernel None true) example_life2).
    + apply (@AgentMain.process _ KernelNft.kernel_nft _ _ _ _ _ _ _ _ [] Agent.example_table 3 example_args
             (example_env Agent.example_table) (λ _, Agent.example_boot) (example_running Agent.example_table) ["e1"] (KernelNft.Kernel None true) example_life1).
      * constructor.
      * apply example_main_started.
      * done.
      * apply (example_table_ok 0). lia.
      * eapply fire_all_reached; [apply reached_start |]. apply some_default. by vm_compute.
      * by vm_compute.
    + apply example_main_started.
    + done.
    + apply example_life1_table.
    + eapply fire_all_reached; [apply reached_start |]. apply some_default. by vm_compute.
    + by vm_compute.
  - apply (example_table_ok 0). lia.
  - by repeat constructor.
  - by left; left.
  - by vm_compute.
Defined.
