(* ===== verification/EndToEnd.v ===== *)
(** * Compositions across the processes

    The agent's start-up against the fleet server's registration, and one
    collector result on its whole way: the buffered text, the event on the wire,
    the server's stream, the pipeline's router, the rule engine's consumer and the
    scan.  Nothing new runs here except the three conversions between the
    processes: the server's reading of a wire event, a Kafka record as the
    message its consumer gets, and the derived deserializer of a telemetry event
    on the fields of an object. *)
From Stdlib Require Import ZArith Lia.
From S2P Require Import Prelude Json RuleModels Pipeline Dedup Scanner RuleEngine.
From S2P Require Import EventBuffer FleetDb FleetServer Osquery Isolation FleetClient Agent.
Import Pipeline.EventRouter.
#[local] Open Scope string_scope.
#[local] Open Scope list_scope.
#[local] Open Scope nat_scope.

(** ** Conversions between the processes *)

(** The [IncomingEvent] the server builds of a received [AgentEvent] (service.rs). *)
Definition incoming (ev : FleetClient.AgentEvent) : IncomingEvent :=
  Incoming (FleetClient.ev_node_id ev) (FleetClient.ev_event_type ev) (FleetClient.ev_payload ev)
    (FleetClient.ev_timestamp_ns ev) (FleetClient.ev_sequence_id ev).

(** A published record as the consumer of its topic receives it. *)
Definition as_message (partition offset : Z) (r : record) : message :=
  Message (rec_topic r) partition offset (Some (rec_key r)) (Some (rec_payload r)).

Section conversions.
Context (parse_uuid : string → result string string).

(** [#[serde(default)] Option<String>]: missing and null are [None]. *)
Definition optional_string (v : option value) : option (option string) :=
  match v with
  | None | Some JNull => Some None
  | Some (JString s) => Some (Some s)
  | Some _ => None
  end.

(** The derived [Deserialize] of [TelemetryEvent] (models.rs) on an object's
    fields: other fields are ignored, a missing or ill-typed one is an error. *)
Definition telemetry_of_object (m : list (string * value)) : option TelemetryEvent :=
  id ← (v ← map_get "id" m; as_str v);
  node ← (v ← map_get "node_id" m; s ← as_str v; ok (parse_uuid s));
  host ← (v ← map_get "hostname" m; as_str v);
  type ← (v ← map_get "event_type" m; as_str v);
  time ← (v ← map_get "timestamp_ns" m; as_i64 v);
  payload ← map_get "payload" m;
  seq ← optional_string (map_get "raw_sequence_id" m);
  Some (RuleModels.mkEvent id node host type time payload seq).
End conversions.

(** ** Specification *)

(** The text the rules see of a collector result: the action, then every column
    value, row by row, one per line. *)
Definition column_text (b : string) (c : ColumnEntry) : string := b +:+ col_value c +:+ nl.
Definition row_text (b : string) (r : OsqueryResultRow) : string := foldl column_text b (columns r).
Definition result_text (r : OsqueryResult) : string :=
  foldl row_text (action_as_str (action r) +:+ nl) (Osquery.rows r).

(** serde_json writes [v] as [text] and reads [text] as [v']. *)
Definition written `{SerdeJson} (v v' : value) (text : string) : Prop :=
  to_vec v = Ok text ∧ from_slice text = Ok v'.

(** The registration call of an agent whose reply is the server's, on the
    database [d]; [show] is the text of a refused call. *)
Definition server_rpc `{Jwt} (show : status → string) (secret : option string) (jwt_secret : string)
    (e : call_env) (secs : option Z) (d : db) (md : metadata) (req : AgentRegistration)
    : result RegisterResponse string :=
  map_err show (rpc_register secret jwt_secret e secs md req d).1.

(** ** Lemmas *)

Lemma scan_column_json b c : scan_column b (column_json c) = column_text b c.
Proof. reflexivity. Qed.

Lemma scan_row_json b r : scan_row b (row_json r) = row_text b r.
Proof.
  change (foldl scan_column b (column_json <$> columns r) = row_text b r). unfold row_text.
  revert b. induction (columns r) as [| c l IH]; intros b; [done |]. simpl. by rewrite IH.
Qed.

Lemma scan_rows_json l b : foldl scan_row b (row_json <$> l) = foldl row_text b l.
Proof. revert b. induction l as [| r l IH]; intros b; [done |]. simpl. by rewrite scan_row_json, IH. Qed.

Lemma column_text_nonempty l b : b ≠ "" → foldl column_text b l ≠ "".
Proof. revert b. induction l as [| c l IH]; intros b Hb; [done |]. simpl. apply IH. by destruct b. Qed.

Lemma result_text_nonempty r : str_is_empty (result_text r) = false.
Proof.
  unfold result_text.
  assert (∀ l b, b ≠ "" → foldl row_text b l ≠ "") as Hgen.
  { induction l as [| x l IH]; intros b Hb; [done |]. simpl. by apply IH, column_text_nonempty. }
  destruct (foldl row_text _ _) eqn:Ht; [| done]. exfalso. revert Ht. apply Hgen. by destruct (action r).
Qed.

(** The scanner extracts the text from a result's payload. *)
Lemma extract_result `{SerdeJson} ev r :
  RuleModels.ev_payload ev = result_json r → extract_scannable_buffer ev = result_text r.
Proof.
  intros Hp. unfold extract_scannable_buffer. rewrite Hp. unfold result_json at 1, json_object. simpl.
  rewrite scan_rows_json. change (foldl row_text _ _) with (result_text r). by rewrite result_text_nonempty.
Qed.

(** One parsable message through the rule engine's consumer. *)
Lemma consume_one parse_event dlq_topic p o r ev s :
  rec_payload r ≠ "" → parse_event (rec_payload r) = Ok ev →
  Consumer.run parse_event dlq_topic [Consumer.Received (as_message p o r) false None None] s =
  Consumer.mkConsumer (Consumer.channel s ++ [ev]) (Consumer.dead_letters s)
    (Consumer.committed s ++ [(rec_topic r, p, o)]).
Proof.
  intros Hne Hp. simpl. unfold Consumer.handle. simpl. rewrite Hp.
  by destruct (rec_payload r).
Qed.

(** The router reads the query name back from the envelope of an osquery event. *)
Lemma envelope_effective_type `{SerdeJson} lossy u ev r :
  in_event_type ev = "osquery" → from_slice (in_payload ev) = Ok (result_json r) →
  effective_type (telemetry_envelope lossy u ev) = Osquery.query_name r.
Proof.
  intros Ht Hp. unfold effective_type, telemetry_envelope, payload_value. rewrite Hp, Ht. reflexivity.
Qed.

(** The event the rule engine reads from the forwarded envelope. *)
Lemma forwarded_telemetry `{SerdeJson} lossy parse_uuid u ev r cat node obj :
  telemetry_envelope lossy u ev = JObject obj →
  from_slice (in_payload ev) = Ok (result_json r) → fits_i 64 (in_timestamp_ns ev) →
  str_is_empty (in_sequence_id ev) = false → parse_uuid (in_node_id ev) = Ok node →
  telemetry_of_object parse_uuid (map_insert "event_type" (JString cat) obj) =
  Some (RuleModels.mkEvent (in_sequence_id ev) node "" cat (in_timestamp_ns ev) (result_json r)
    (Some (in_sequence_id ev))).
Proof.
  unfold telemetry_envelope, payload_value, json_object. intros Ho Hp Hts Hne Hu. rewrite Hp, Hne in Ho.
  injection Ho as <-. unfold telemetry_of_object. cbn -[result_json Z.leb Z.ltb].
  rewrite Hu. cbn -[result_json]. unfold json_int, fits_i in *. simpl in Hts.
  destruct (Z.leb_spec 0 (in_timestamp_ns ev)); cbn -[result_json]; [| done].
  destruct (Z.ltb_spec (in_timestamp_ns ev) (2 ^ 63)); [done | lia].
Qed.

(** ** Properties *)

(** C10 (functional): a collector result of a routable query reaches the rules: the agent's text
    becomes a wire event, the server publishes and acknowledges it, the router
    sends it to its query's topic, the rule engine's consumer makes it an event of
    the topic's category with the agent's node, time and sequence id, and the scan
    with that category's rules sees exactly the action and the column values of the
    result; every matching rule gives an alert. *)
Theorem result_reaches_the_rules `{SerdeJson} lossy parse_uuid parse_event dlq_topic
    uuid u r node obj s ptext etext out topic t p1 o1 p2 o2 router rules_consumer :
  let cat := normalized_category t (Osquery.query_name r) in
  let wire := FleetClient.mkEvent (agent_uuid r) "osquery" ptext (timestamp_ns r) uuid in
  let raw := Record_ topic etext (agent_uuid r) [] in
  let typed := Record_ t out (agent_uuid r) [] in
  let event := RuleModels.mkEvent uuid node "" cat (timestamp_ns r) (result_json r) (Some uuid) in
  route_topic (Osquery.query_name r) = Some t → fits_i 64 (timestamp_ns r) → uuid ≠ "" →
  parse_uuid (agent_uuid r) = Ok node →
  written (agent_event_json uuid r) (json_object [
    ("node_id", JString (agent_uuid r)); ("event_type", json_int 0); ("payload", result_json r);
    ("timestamp_ns", json_int (timestamp_ns r)); ("sequence_id", JString uuid)]) s →
  written (result_json r) (result_json r) ptext →
  telemetry_envelope lossy u (incoming wire) = JObject obj → written (JObject obj) (JObject obj) etext →
  to_vec (JObject (map_insert "event_type" (JString cat) obj)) = Ok out → out ≠ "" →
  (∀ e, telemetry_of_object parse_uuid (map_insert "event_type" (JString cat) obj) = Some e →
     parse_event out = Ok e) →
  encode_osquery_result uuid r = Some s ∧ wire_event s = Some wire ∧
  stream_loop lossy topic [Event (incoming wire) u None false] (Stream [] []) = Stream [raw] [Ack uuid] ∧
  sent (process None (Some (rec_key raw)) (rec_payload raw) topic p1 o1 router).2 = sent router ++ [typed] ∧
  Consumer.run parse_event dlq_topic [Consumer.Received (as_message p2 o2 typed) false None None] rules_consumer =
    Consumer.mkConsumer (Consumer.channel rules_consumer ++ [event]) (Consumer.dead_letters rules_consumer)
      (Consumer.committed rules_consumer ++ [(t, p2, o2)]) ∧
  ∀ Rules (scan : Rules → string → result (list MatchedRule) string) ids now reg rules matching,
    rule_sets reg !! cat = Some rules → scan rules (result_text r) = Ok matching →
    evaluate scan ids now reg event =
      Ok (imap (λ i m, build_alert (ids i) (now i) event m (mitre reg)) matching).
Proof.
  intros cat wire raw typed event Ht Hts Huuid Hnode [Hs Hback] [Hp Hpback] Henv [He Heback] Hout Hne Hparse.
  assert (str_is_empty uuid = false) as Hu by by destruct uuid.
  split_and!.
  - unfold encode_osquery_result. by rewrite Hs.
  - by apply wire_of_parsed.
  - simpl. unfold ingest_event, envelope_bytes, mbind, SE_bind, rethrow, publish, modify.
    rewrite Henv, He. reflexivity.
  - rewrite process_run. unfold routed_record. simpl. rewrite Heback, <-Henv.
    rewrite (envelope_effective_type lossy u (incoming wire) r) by done.
    rewrite Ht, Henv. simpl. fold cat. by rewrite Hout.
  - rewrite (consume_one _ _ _ _ _ event); [done | done |].
    apply Hparse. by apply (forwarded_telemetry lossy parse_uuid u (incoming wire) r).
  - intros Rules scan ids now reg rules matching Hr Hm. unfold evaluate.
    rewrite (category_of_routed event (Osquery.query_name r) t) by (done || by right).
    fold cat. rewrite Hr, (extract_result event r) by done. by rewrite result_text_nonempty, Hm.
Qed.

(** A result, its JSON at every stage, and a serde_json that knows these values. *)
Definition sample_result : OsqueryResult :=
  mkResult "users" "agent-7" 5 [ResultRow [Column "shell" "/bin/sh"]] Added.
Definition sample_event : value := json_object [
  ("node_id", JString "agent-7"); ("event_type", json_int 0); ("payload", result_json sample_result);
  ("timestamp_ns", json_int 5); ("sequence_id", JString "u1")].
Definition sample_envelope (type : string) : value := json_object [
  ("id", JString "u1"); ("node_id", JString "agent-7"); ("hostname", JString "");
  ("event_type", JString type); ("timestamp_ns", json_int 5);
  ("payload", result_json sample_result); ("raw_sequence_id", JString "u1")].
Definition sample_serde : SerdeJson := {|
  from_slice s := match map_get s [("event", sample_event); ("result", result_json sample_result);
                                   ("raw", sample_envelope "osquery"); ("typed", sample_envelope "auth")] with
                  | Some v => Ok v | None => Err "expected value" end;
  to_vec v := Ok (match get "rows" v, get "raw_sequence_id" v, get "event_type" v with
                  | Some _, _, _ => "result"
                  | None, None, _ => "event"
                  | None, Some _, Some (JString "osquery") => "raw"
                  | None, Some _, _ => "typed"
                  end) |}.
Definition sample_telemetry : TelemetryEvent :=
  RuleModels.mkEvent "u1" "agent-7" "" "auth" 5 (result_json sample_result) (Some "u1").
Definition sample_scan (_ : nat) (text : string) : result (list MatchedRule) string :=
  if String.eqb text ("ADDED" +:+ nl +:+ "/bin/sh" +:+ nl) then Ok [Matched "shell_user" []] else Ok [].

Lemma result_reaches_the_rules_witness :
  @wire_event sample_serde "event" = Some (FleetClient.mkEvent "agent-7" "osquery" "result" 5 "u1") ∧
  sent (@process sample_serde None (Some "agent-7") "raw" "aigis.events.raw" 0 1 (Router Metrics.new [])).2
    = [Record_ "aigis.events.auth" "typed" "agent-7" []] ∧
  @evaluate sample_serde nat sample_scan (λ _, "alert-1") (λ _, 9%Z) (Registry {["auth" := 0%nat]} ∅)
    sample_telemetry
  = Ok [build_alert "alert-1" 9 sample_telemetry (Matched "shell_user" []) ∅].
Proof.
  edestruct (@result_reaches_the_rules sample_serde id Ok
    (λ s, if String.eqb s "typed" then Ok sample_telemetry else Err "") "aigis.events.dlq"
    "u1" "fresh" sample_result "agent-7"
    (default [] (as_object (sample_envelope "osquery"))) "event" "result" "raw" "typed" "aigis.events.raw" "aigis.events.auth"
    0 1 0 1 (Router Metrics.new []) (Consumer.mkConsumer [] [] []))%Z as (_ & Hwire & _ & Hsent & _ & Hscan).
  - reflexivity.
  - split; simpl; lia.
  - done.
  - reflexivity.
  - split; reflexivity.
  - split; reflexivity.
  - reflexivity.
  - split; reflexivity.
  - reflexivity.
  - done.
  - intros e [= <-]. reflexivity.
  - split_and!; [exact Hwire | exact Hsent |].
    refine (Hscan nat sample_scan (λ _, "alert-1") (λ _, 9%Z) (Registry {["auth" := 0%nat]} ∅) 0
      [Matched "shell_user" []] _ _); reflexivity.
Defined.

(** C16 (safety): an agent whose registration call is answered by the fleet server and whose
    start-up succeeds is enrolled there and admitted: the database keeps its
    constraints and has the agent's machine under the node id of the reply, the agent holds the
    UUID of that node id, and the token it opened its event stream with is
    accepted for that node until it expires, 24 hours (and a minute) later; and
    if the server has an enrolment secret, it is the one the agent is configured
    with. *)
Theorem enrolled_agent_is_admitted `{JwtLaws} metadata_value parse_uuid show fuel cfg force benv
    secret jwt e now d c saved :
  let md := secret_metadata metadata_value (enrollment_secret_of cfg) in
  (∀ s v, metadata_value s = Ok v → v = s ∧ all_visible s = true) →
  db_ok d → (0 ≤ now < 2 ^ 63)%Z →
  be_rpc benv = server_rpc show secret jwt e (Some now) d →
  boot metadata_value parse_uuid fuel cfg force benv = Some (Ok (c, saved)) →
  ∃ host node id tok d',
    be_hostname benv = Ok host ∧
    rpc_register secret jwt e (Some now) md
      (Registration host (be_os_version benv) (be_version benv) (be_machine_id benv)) d
    = (Ok (RegResponse node tok), d') ∧
    db_ok d' ∧ find_machine (be_machine_id benv) d' = Some node ∧
    parse_uuid node = Ok id ∧ FleetClient.node_id c = Some id ∧ FleetClient.token c = Some tok ∧
    (∀ t, (t ≤ now + TOKEN_TTL_SECS + leeway)%Z →
       validate_token [("authorization", "Bearer " +:+ tok)] jwt t = Ok (Claims node (now + TOKEN_TTL_SECS))) ∧
    (∀ expected, secret = Some expected → expected ≠ "" → fl_enrollment_secret (cfg_fleet cfg) = expected).
Proof.
  intros md Hmeta Hd Hnow Hrpc Hboot.
  apply boot_ok in Hboot as (host & [node tok] & id & Hhost & Hreply & Hid & -> & [k Hdial] & _).
  rewrite Hrpc in Hreply. unfold server_rpc in Hreply. fold md in Hreply.
  destruct (rpc_register _ _ _ _ _ _ d) as [[resp | st] d'] eqn:Hreg; [| done]. injection Hreply as ->.
  destruct (register_ok_inv _ _ _ _ _ _ _ _ _ Hreg) as (Hacc & Hup & now' & [= <-] & Henc).
  destruct (@upsert_ok db pg_node_store pg_node_store_laws _ _ _ _ _ Hd Hup) as (Hd' & Hfind & _).
  exists host, node, id, tok, d'. split_and!; [done.. | |].
  - apply andb_true_iff in Hdial as [_ Hdial]. simpl in Hdial. apply andb_true_iff in Hdial as [Hm _].
    destruct (metadata_value ("Bearer " +:+ tok)) as [v |] eqn:Hv; [| done].
    destruct (Hmeta _ _ Hv) as [_ Hvis]. rewrite visible_app in Hvis. apply andb_true_iff in Hvis as [_ Hvis].
    intros t Ht. rewrite (validate_bearer tok) by done. simpl in Henc.
    replace (sat_add_u 64 now TOKEN_TTL_SECS) with (now + TOKEN_TTL_SECS)%Z in Henc
      by (unfold sat_add_u, TOKEN_TTL_SECS; lia).
    unfold leeway, TOKEN_TTL_SECS in *.
    rewrite (decode_encode (Claims node (now + 86400)) jwt tok t); [done | simpl; lia | done |].
    simpl. unfold leeway. lia.
  - intros expected -> Hne. apply accepted_secret in Hacc; [| done]. revert Hacc.
    unfold md, secret_metadata, enrollment_secret_of.
    destruct (str_is_empty (fl_enrollment_secret (cfg_fleet cfg))); [done |].
    destruct (metadata_value _) as [v |] eqn:Hv; [| done]. destruct (Hmeta _ _ Hv) as [-> Hvis].
    unfold provided_secret. simpl. unfold to_str. rewrite Hvis. by intros [= ->].
Qed.

#[local] Existing Instance ToyJwt.toy_jwt.
#[local] Existing Instance ToyJwt.toy_laws.
Definition visible_value (s : string) : result string string :=
  if all_visible s then Ok s else Err "failed to parse metadata value".
Definition sample_boot : boot_env :=
  BootEnv (λ _, Dial None None) (λ _, Dial None None)
    (server_rpc st_message (Some "secret") "key" (example_env "n1" "e1" 5) (Some 1%Z) (Db ∅ [] []))
    (Ok "host") "Linux" "m1" "0.1" (Ok ("[agent]" +:+ nl)) None.

Lemma enrolled_agent_is_admitted_witness :
  ∃ c saved tok, boot visible_value Ok 3 example_config false sample_boot = Some (Ok (c, saved)) ∧
    FleetClient.token c = Some tok ∧
    validate_token [("authorization", "Bearer " +:+ tok)] "key" 1000 = Ok (Claims "n1" 86401).
Proof.
  destruct (boot visible_value Ok 3 example_config false sample_boot) as [[[c saved] |] |] eqn:Hb;
    [| by vm_compute in Hb..].
  destruct (enrolled_agent_is_admitted visible_value Ok st_message 3 example_config false sample_boot
    (Some "secret") "key" (example_env "n1" "e1" 5) 1 (Db ∅ [] []) c saved)
    as (host & node & id & tok & d' & _ & Hreg & _ & _ & _ & _ & Htok & Hval & _).
  - intros s v. unfold visible_value. destruct (all_visible s); [by intros [= ->] | done].
  - apply empty_db_ok.
  - lia.
  - reflexivity.
  - exact Hb.
  - exists c, saved, tok. split_and!; [done | exact Htok |].
    assert (node = "n1") as -> by (by vm_compute in Hreg; congruence).
    apply Hval. unfold TOKEN_TTL_SECS, leeway. lia.
Defined.
