(* ===== verification/DeliveryPath.v ===== *)
(** * An agent's events on their way to the broker
      (agent/crates/agent-bin/src/main.rs, fleet-client/src/lib.rs; grpc-listener/src/service.rs)

    The agent of [AgentSystem] and the fleet server of [FleetSystem] in one run,
    joined by the connections the agent opens one after the other: a connection
    carries events in order, and may break with events still in it. *)
From Stdlib Require Import ZArith Lia.
From S2P Require Import Prelude Json EventBuffer Pipeline FleetDb FleetServer.
From S2P Require Import Osquery Isolation FleetClient Agent AgentSystem EndToEnd FleetSystem.
#[local] Open Scope string_scope.
#[local] Open Scope list_scope.
#[local] Open Scope nat_scope.

Section path.
Context `{Jwt} `{SerdeJson} `{Nft}.
Context (looks_numeric : string → bool) (metadata_value : string → result string string).
Context (max batch_size : Z) (manager : IsolationManager) (own_id : string).
Context (from_utf8_lossy : string → string) (parse_uuid : string → result string string).
Context (enrollment_secret : option string) (jwt_secret topic : string).

(** The stream the agent's connection leads to, the events in a connection with the
    stream it leads to, and those that went down with one. *)
Record world := World {
  ag : agent; srv : server; link : nat; flight : list (nat * AgentEvent); lost : list AgentEvent }.

Inductive step :=
  (* a task of the agent; a label of the server, where other agents are served too *)
  | AtAgent (l : AgentSystem.label)
  | AtServer (l : FleetSystem.label)
  (* the agent connects anew; the oldest event of connection [k] arrives; it breaks *)
  | Relink (i : nat)
  | Carry (k : nat)
  | Break (k : nat).

Definition agent_fire := AgentSystem.fire looks_numeric metadata_value max batch_size manager own_id.
Definition server_fire := FleetSystem.fire from_utf8_lossy parse_uuid enrollment_secret jwt_secret topic.

(** The events in connection [k], and the others. *)
Definition of_link (k : nat) (l : list (nat * AgentEvent)) : list (nat * AgentEvent) := filter (λ x, x.1 = k) l.
Definition off_link (k : nat) (l : list (nat * AgentEvent)) : list (nat * AgentEvent) := filter (λ x, x.1 ≠ k) l.

Definition fire (s : step) (w : world) : option world :=
  match s with
  | AtAgent l =>
      a ← agent_fire l (ag w);
      Some (World a (srv w) (link w)
             (flight w ++ (pair (link w) <$> drop (length (on_wire (ag w))) (on_wire a))) (lost w))
  | AtServer l => s ← server_fire l (srv w); Some (World (ag w) s (link w) (flight w) (lost w))
  | Relink i => Some (World (ag w) (srv w) i (flight w) (lost w))
  | Carry k =>
      match of_link k (flight w) with
      | (_, ev) :: rest =>
          s ← server_fire (Arrive k (Ok (incoming ev))) (srv w);
          Some (World (ag w) s (link w) (rest ++ off_link k (flight w)) (lost w))
      | [] => None
      end
  | Break k =>
      Some (World (ag w) (srv w) (link w) (off_link k (flight w)) (lost w ++ (of_link k (flight w)).*2))
  end.

(** The disk works when it is written, and the broker takes its records. *)
Definition sound (w : world) (s : step) : bool :=
  match s with
  | AtAgent l => AgentSystem.reliable looks_numeric (ag w) l
  | AtServer l => broker_takes (srv w) l
  | _ => true
  end.

Definition started (a : agent) (d : db) (i : nat) : world := World a (started_server d) i [] [].

(** ** Lemmas *)

Lemma link_split {A} (x : nat * A) k (l : list (nat * A)) :
  x ∈ l → x ∈ filter (λ x, x.1 = k) l ∨ x ∈ filter (λ x, x.1 ≠ k) l.
Proof. intros Hx. destruct (decide (x.1 = k)); [left | right]; by apply list_elem_of_filter. Qed.

Lemma server_arrived l s s' i c :
  server_fire l s = Some s' → conns s !! i = Some c →
  ∃ c', conns s' !! i = Some c' ∧ arrived c `prefix_of` arrived c'.
Proof.
  unfold server_fire. intros Hf Hi.
  assert (∀ j cj cj' b, conns s !! j = Some cj → arrived cj `prefix_of` arrived cj' → s' = with_conn s b j cj' →
    ∃ c', conns s' !! i = Some c' ∧ arrived c `prefix_of` arrived c') as Hone.
  { intros j cj cj' b Hj Hp ->. simpl. destruct (decide (j = i)) as [-> | Hne].
    - exists cj'. rewrite list_lookup_insert_eq by (by eapply lookup_lt_Some). simplify_eq. done.
    - exists c. by rewrite list_lookup_insert_ne. }
  assert (conns s' = conns s → ∃ c', conns s' !! i = Some c' ∧ arrived c `prefix_of` arrived c') as Hsame.
  { intros ->. by exists c. }
  destruct l; cbn [FleetSystem.fire] in Hf; try (apply bind_Some in Hf as (cj & Hj & Hf)).
  - injection Hf as <-. unfold open_stream in *. destruct (validate_token _ _ _); [| by apply Hsame].
    exists c. split; [| done]. simpl. by apply lookup_app_l_Some.
  - destruct (ended cj); [done |]. injection Hf as <-. eapply Hone; [exact Hj | | done]. by apply prefix_app_r.
  - injection Hf as <-. by eapply Hone; [exact Hj | | done].
  - injection Hf as <-. by eapply Hone; [exact Hj | | done].
  - apply bind_Some in Hf as (c' & Hs & [= <-]). eapply Hone; [exact Hj | | done].
    revert Hs. unfold take_item. destruct (phase cj), (arrived cj !! taken cj) as [[] |]; by intros [= <-].
  - apply bind_Some in Hf as (c' & Hs & [= <-]). eapply Hone; [exact Hj | | done].
    revert Hs. unfold finish_input. destruct (phase cj), (arrived cj !! taken cj), (ended cj); by intros [= <-].
  - apply bind_Some in Hf as ([c' log] & Hs & [= <-]). eapply Hone; [exact Hj | | done].
    apply publish_item_cases in Hs as (ev & uuid & _ & Hc). by destruct fault; destruct Hc as [-> _].
  - apply bind_Some in Hf as (c' & Hs & [= <-]). eapply Hone; [exact Hj | | done].
    revert Hs. unfold send_command. destruct (phase cj), (receiving cj); simpl; try done;
      [destruct (_ <? _); [| done] |]; by intros [= <-].
  - destruct (receiving cj && _); [| done]. injection Hf as <-. by eapply Hone; [exact Hj | | done].
  - injection Hf as <-. by apply Hsame.
  - apply Hsame. by repeat case_match; simplify_eq.
  - apply Hsame. by repeat case_match; simplify_eq.
  - injection Hf as <-. by apply Hsame.
Qed.

Lemma agent_wire l a a' : agent_fire l a = Some a' → on_wire a `prefix_of` on_wire a'.
Proof.
  unfold agent_fire. intros Hf. destruct l as [x | fl | room | fl now | [ws | d] | lf rpc]; cbn [AgentSystem.fire] in Hf;
    repeat case_match; simplify_eq; done || by apply prefix_app_r.
Qed.

(** Where an event that went into a connection may be. *)
Definition somewhere (w : world) (ev : AgentEvent) : Prop :=
  (∃ k, (k, ev) ∈ flight w) ∨ ev ∈ lost w ∨
  ∃ i c, conns (srv w) !! i = Some c ∧ Ok (incoming ev) ∈ FleetSystem.arrived c.

Record tracked (a0 : agent) (d : db) (w : world) : Prop := {
  tr_agent : reached agent_fire (AgentSystem.reliable looks_numeric) a0 (ag w);
  tr_server : reached server_fire broker_takes (started_server d) (srv w);
  tr_wire : ∀ ev, ev ∈ on_wire (ag w) → somewhere w ev }.

Lemma arrived_step l s s' ev :
  server_fire l s = Some s' → (∃ i c, conns s !! i = Some c ∧ Ok ev ∈ FleetSystem.arrived c) →
  ∃ i c, conns s' !! i = Some c ∧ Ok ev ∈ FleetSystem.arrived c.
Proof.
  intros Hf (i & c & Hi & Hin). destruct (server_arrived _ _ _ _ _ Hf Hi) as (c' & Hi' & [more Hp]).
  exists i, c'. split; [done |]. rewrite Hp, elem_of_app. by left.
Qed.

Lemma arrive_lands k ev s s' :
  server_fire (Arrive k (Ok ev)) s = Some s' →
  ∃ i c, conns s' !! i = Some c ∧ Ok ev ∈ FleetSystem.arrived c.
Proof.
  unfold server_fire. cbn [FleetSystem.fire]. intros Hf. apply bind_Some in Hf as (c & Hi & Hf).
  destruct (ended c); [done |]. injection Hf as <-. eexists k, _. simpl.
  split; [rewrite list_lookup_insert_eq by (by eapply lookup_lt_Some); reflexivity |].
  simpl. apply elem_of_app. right. by left.
Qed.

Lemma fire_tracked a0 d s w w' : sound w s = true → fire s w = Some w' → tracked a0 d w → tracked a0 d w'.
Proof.
  intros Hok Hf [Ha Hs Hw]. destruct s as [l | l | i | k | k]; cbn [fire] in Hf.
  - apply bind_Some in Hf as (a & Hl & [= <-]). constructor; simpl; [by econstructor | done |].
    intros ev. destruct (agent_wire _ _ _ Hl) as [more Hmore]. rewrite Hmore, drop_app_length, elem_of_app.
    intros [Hin | Hin].
    + destruct (Hw ev Hin) as [[k Hk] | [? | ?]]; [left | by right; left | by right; right].
      exists k. apply elem_of_app. by left.
    + left. exists (link w). apply elem_of_app. right. by apply list_elem_of_fmap_2.
  - apply bind_Some in Hf as (s' & Hl & [= <-]). constructor; simpl; [done | by econstructor |].
    intros ev Hin. destruct (Hw ev Hin) as [? | [? | ?]]; [by left | by right; left | right; right].
    by eapply arrived_step.
  - injection Hf as <-. constructor; [done | done | exact Hw].
  - destruct (of_link k (flight w)) as [| [k' ev0] rest] eqn:Hk; [done |].
    apply bind_Some in Hf as (s' & Hl & [= <-]). constructor; simpl; [done | eapply reached_step; [exact Hs | | exact Hl]; done |].
    intros ev Hin. destruct (Hw ev Hin) as [[j Hj] | [? | ?]]; [| by right; left | right; right; by eapply arrived_step].
    destruct (link_split _ k _ Hj) as [Hof | Hoff].
    + change (filter _ _) with (of_link k (flight w)) in Hof. rewrite Hk in Hof.
      apply elem_of_cons in Hof as [Heq | Hrest].
      * injection Heq as -> ->. right. right. by eapply arrive_lands.
      * left. exists j. apply elem_of_app. by left.
    + left. exists j. apply elem_of_app. by right.
  - injection Hf as <-. constructor; simpl; [done | done |].
    intros ev Hin. destruct (Hw ev Hin) as [[j Hj] | [? | ?]]; [| right; left; simpl; apply elem_of_app; by left | by right; right].
    destruct (link_split _ k _ Hj) as [Hof | Hoff]; [right; left | left; by exists j].
    apply elem_of_app. right. exact (list_elem_of_fmap_2 snd _ _ Hof).
Qed.

Hypothesis Hmax : (0 ≤ max < 2 ^ 63)%Z.
Hypothesis Hbatch : (0 ≤ batch_size ≤ i64_max)%Z.

(** Where an accepted event of the wire may be. *)
Definition accounted (w : world) (x : string) (ev : AgentEvent) : Prop :=
  SqlText x ∈ row_payload <$> EventBuffer.rows (table_of (ag w)) ∨ x ∈ held (ag w) ∨
  (∃ k, (k, ev) ∈ flight w) ∨ ev ∈ lost w ∨
  ∃ i c, conns (srv w) !! i = Some c ∧
    (Ok (incoming ev) ∈ drop (taken c) (FleetSystem.arrived c) ∨
     ∃ uuid, phase c = Ingesting (incoming ev) uuid ∨
       (i, record_of from_utf8_lossy topic uuid (incoming ev)) ∈ broker (srv w)).

Lemma accepted_tracked t q l d i w :
  represents t q → Forall (λ x, looks_numeric x = false) q →
  reached fire sound (started (AgentSystem.started t q l) d i) w →
  (Z.of_nat (length (accepted (ag w))) ≤ max)%Z →
  ∀ x ev, x ∈ accepted (ag w) → wire_event x = Some ev → accounted w x ev.
Proof.
  unfold accounted. intros Ht Hq Hr Hroom x ev Hx Hev.
  assert (tracked (AgentSystem.started t q l) d w) as [Ha Hs Hw].
  { revert Hr. apply reached_invariant; [by intros; eapply fire_tracked |].
    constructor; [constructor | constructor | by intros e ?%elem_of_nil]. }
  destruct (accepted_located looks_numeric metadata_value max batch_size manager own_id Hmax Hbatch
    t q l (ag w) Ht Hq Ha Hroom x ev Hx Hev) as [? | [? | Hon]]; [by left | by right; left |].
  destruct (Hw ev Hon) as [? | [? | (k & c & Hk & Hin)]]; [by right; right; left | by right; right; right; left |].
  right; right; right; right. exists k, c. split; [done |].
  rewrite <-(take_drop (taken c) (FleetSystem.arrived c)), elem_of_app in Hin. destruct Hin as [Hin | ?]; [| by left].
  right. destruct (reached_taken_published _ _ _ _ _ _ _ Hs k c (incoming ev) Hk Hin) as [[u ?] | [u ?]];
    exists u; [by left | by right].
Qed.

(** ** Properties *)

(** C5 (safety): the agent and the fleet server together, in any interleaving of their
    tasks, with other agents at the same server and however often the connection
    breaks and is made anew, as long as the accepted events fit the buffer, its disk
    works when it is written and the broker takes its records: an accepted event
    that parses is in the buffer, in the drain loop's batch, in a connection, lost
    with one that broke, arrived at the server and not yet published, or at the
    broker, in the envelope of the event, under the number of its stream. *)
Theorem accepted_events_are_accounted t q l d i w :
  represents t q → Forall (λ x, looks_numeric x = false) q →
  reached fire sound (started (AgentSystem.started t q l) d i) w →
  (Z.of_nat (length (accepted (ag w))) ≤ max)%Z →
  ∀ x ev, x ∈ accepted (ag w) → wire_event x = Some ev →
    SqlText x ∈ row_payload <$> EventBuffer.rows (table_of (ag w)) ∨ x ∈ held (ag w) ∨
    (∃ k, (k, ev) ∈ flight w) ∨ ev ∈ lost w ∨
    ∃ i c, conns (srv w) !! i = Some c ∧
      (Ok (incoming ev) ∈ drop (taken c) (FleetSystem.arrived c) ∨
       ∃ uuid, phase c = Ingesting (incoming ev) uuid ∨
         (i, record_of from_utf8_lossy topic uuid (incoming ev)) ∈ broker (srv w)).
Proof. exact (accepted_tracked t q l d i w). Qed.
End path.

(** *** An event on a connection that breaks, and on the next one *)
#[local] Existing Instance example_serde.
#[local] Existing Instance KernelNft.kernel_nft.
#[local] Existing Instance ToyJwt.toy_jwt.
Definition example_fire := fire (λ _, false) Ok 10 1 example_manager "n1" id Ok None "key" "events".
Definition example_world : world := started AgentSystem.example_start (Db ∅ [] []) 0.
Definition example_steps : list step :=
  [AtServer (Open (bearer FleetServer.example_token) 2); AtAgent (AgentSystem.Take no_drain_faults);
   AtAgent (AgentSystem.Send None); Carry 0; AtServer (Take 0 "u1"); AtServer (Publish 0 None)].
Definition example_at (n : nat) : world :=
  default example_world (fire_all example_fire (sound (λ _, false)) (take n example_steps) example_world).

Lemma example_path_reached : reached example_fire (sound (λ _, false)) example_world (example_at 6).
Proof.
  eapply fire_all_reached; [apply reached_start |]. instantiate (1 := example_steps).
  apply (some_default example_world). by vm_compute.
Qed.

Lemma accepted_events_are_accounted_witness :
  let w := example_at 6 in
  flight (example_at 3) = [(0, Agent.example_event)] ∧ length (broker (srv w)) = 1 ∧
  (SqlText "e1" ∈ row_payload <$> EventBuffer.rows (table_of (ag w)) ∨ "e1" ∈ held (ag w) ∨
   (∃ k, (k, Agent.example_event) ∈ flight w) ∨ Agent.example_event ∈ lost w ∨
   ∃ i c, conns (srv w) !! i = Some c ∧
     (Ok (incoming Agent.example_event) ∈ drop (taken c) (FleetSystem.arrived c) ∨
      ∃ uuid, phase c = Ingesting (incoming Agent.example_event) uuid ∨
        (i, record_of id "events" uuid (incoming Agent.example_event)) ∈ broker (srv w))).
Proof.
  intros w. split; [by vm_compute |]. split; [by vm_compute |].
  refine (accepted_events_are_accounted (λ _, false) Ok 10 1 example_manager "n1" id Ok None "key" "events" _ _
            example_table ["e1"] example_listener (Db ∅ [] []) 0 w _ _ _ _ "e1" Agent.example_event _ _).
  - lia.
  - unfold i64_max. lia.
  - apply (example_table_ok 0). lia.
  - by repeat constructor.
  - exact example_path_reached.
  - vm_compute. by intros.
  - vm_compute. by left.
  - by vm_compute.
Defined.
