(* ===== verification/TelemetryPath.v ===== *)
(** * From a stream of the fleet server to an operator's alert list
      (grpc-listener/src/service.rs, kafka-pipeline/src, rule-engine/src, api-backend)

    The fleet server of [FleetSystem], the pipeline's worker of [KafkaClients] on
    every partition of the raw topic, and the rule engine with the operators of
    [AlertPath], in one run.  What the server publishes is appended to the partition
    of its key; what a worker forwards the rule engine may consume, in any order
    and, after a rebalance, more than once. *)
From Stdlib Require Import ZArith Lia.
From S2P Require Import Prelude Json Pipeline RuleModels Dedup Scanner RuleEngine EndToEnd.
From S2P Require FleetDb FleetServer FleetSystem KafkaClients EngineSystem AlertPath Api ApiHttp.
Import Pipeline.EventRouter.
#[local] Open Scope string_scope.
#[local] Open Scope list_scope.
#[local] Open Scope nat_scope.

#[local] Abbreviation group :=
  (KafkaClients.group (M := message) (W := worker) (F := option string * option string)).
#[local] Abbreviation worker_label := (KafkaClients.label (M := message) (F := option string * option string)).

Section path.
Context `{FleetServer.Jwt} `{SerdeJson}.
Context (from_utf8_lossy : string → string) (parse_uuid : string → result string string).
Context (enrollment_secret : option string) (jwt_secret topic : string).
(** The producer's partitioner, and the number of partitions of the raw topic. *)
Context (partition_of : string → nat) (partitions : nat) (brokers group_id : string).
Context {Rules : Type} (scan : Rules → string → result (list MatchedRule) string).
Context `{HL : Lru AlertSignature (Z * Z)} (hash : string → Z).
Context (uuid : nat → string) (utc instant : nat → Z).
Context (parse_event : string → result TelemetryEvent string) (dlq_topic : string).
Context (alert_to_vec : Alert → result string string) (alerts_topic : string) (config : RuleEngineConfig).
Context `{Api.ScanOrder} `{Api.ApiJwt}.
Context (rfc3339 : Z → string) (parse_hash : string → option string) (check_hash : string → string → bool).
Context (cfg : Api.Settings).
#[local] Abbreviation engine := (EngineSystem.engine (Rules := Rules)).
#[local] Abbreviation server_fire :=
  (FleetSystem.fire from_utf8_lossy parse_uuid enrollment_secret jwt_secret topic).
#[local] Abbreviation worker_fire :=
  (KafkaClients.fire (KafkaClients.pipeline_consumer brokers group_id) KafkaClients.pipeline_turn
     KafkaClients.pipeline_restart).
#[local] Abbreviation detection_fire :=
  (AlertPath.fire scan hash uuid utc instant parse_event dlq_topic alert_to_vec alerts_topic config
     rfc3339 parse_hash check_hash cfg).
#[local] Abbreviation record_of := (FleetSystem.record_of from_utf8_lossy topic).

Record world := World {
  srv : FleetSystem.server; workers : list group; detection : engine * Api.world }.

(** Records of one key are in one partition. *)
Definition partition_for (key : string) : nat := partition_of key mod partitions.

(** The broker appends a published record to the partition of its key. *)
Definition append_record (r : record) (gs : list group) : list group :=
  let p := partition_for (rec_key r) in
  alter (λ g, let m := as_message (Z.of_nat p) (Z.of_nat (length (KafkaClients.log g))) r in
              default g (worker_fire (KafkaClients.Produce m) g)) p gs.
Definition append_records (l : list (nat * record)) (gs : list group) : list group :=
  foldl (λ gs x, append_record x.2 gs) gs l.

Inductive label :=
  | AtServer (l : FleetSystem.label)
  (* the worker of a partition: a turn, the end of its process, the next one *)
  | AtWorker (p : nat) (l : worker_label)
  (* the rule engine's consumer takes the [n]th record forwarded from partition [p] *)
  | Forward (p n : nat) (partition offset : Z) (dlq_fault commit_fault : option string)
  (* the rule engine's other tasks and the operators' requests *)
  | AtDetection (l : AlertPath.label (Rules := Rules)).

Definition fire (l : label) (w : world) : option world :=
  match l with
  | AtServer l =>
      s ← server_fire l (srv w);
      Some (World s (append_records (drop (length (FleetSystem.broker (srv w))) (FleetSystem.broker s)) (workers w))
              (detection w))
  | AtWorker _ (KafkaClients.Produce _) => None
  | AtWorker p l =>
      g ← workers w !! p; g' ← worker_fire l g;
      Some (World (srv w) (<[p := g']> (workers w)) (detection w))
  | Forward p n partition offset df cf =>
      g ← workers w !! p; r ← sent (proc (KafkaClients.state g)) !! n;
      if mem (rec_topic r) (kafka_topics config) then
        d ← detection_fire (AlertPath.Engine_ (EngineSystem.Consume (as_message partition offset r) df cf)) (detection w);
        Some (World (srv w) (workers w) d)
      else None
  | AtDetection (AlertPath.Engine_ (EngineSystem.Consume _ _ _)) => None
  | AtDetection l => d ← detection_fire l (detection w); Some (World (srv w) (workers w) d)
  end.

Definition idle_worker : group := KafkaClients.idle [] (Worker (Router Metrics.new []) []).
Definition started (d : FleetDb.db) (e : engine) (w0 : Api.world) : world :=
  World (FleetSystem.started_server d) (replicate partitions idle_worker) (e, w0).

(** ** Specification *)

(** The messages of partition [p], given the broker's log of the raw topic. *)
Definition messages (p : nat) (b : list (nat * record)) : list message :=
  imap (λ o r, as_message (Z.of_nat p) (Z.of_nat o) r) (filter (λ r, partition_for (rec_key r) = p) b.*2).

(** The record the pipeline makes of an event's raw record. *)
Definition forwarded (uuid : string) (ev : FleetServer.IncomingEvent) (p o : Z) : record :=
  routed_record (Some (FleetServer.in_node_id ev)) (FleetServer.envelope_bytes from_utf8_lossy uuid ev) topic p o.

(** serde_json reads [v] back from the text it writes of it, as a value and as an
    event: one parse is the [Value]'s, the other the derived one. *)
Definition reads_back (v : value) : Prop :=
  ∃ s, to_vec v = Ok s ∧ from_slice s = Ok v ∧
    ∀ e, parse_event s = Ok e → (m ← as_object v; telemetry_of_object parse_uuid m) = Some e.

(** The value forwarded for the envelope of an event. *)
Definition normalized (uuid : string) (ev : FleetServer.IncomingEvent) : value :=
  let env := FleetServer.telemetry_envelope from_utf8_lossy uuid ev in
  normalize (normalized_category (default DLQ (route_topic (effective_type env))) (effective_type env)) env.

(** The id of an event's envelope. *)
Definition envelope_id (uuid : string) (ev : FleetServer.IncomingEvent) : string :=
  if str_is_empty (FleetServer.in_sequence_id ev) then uuid else FleetServer.in_sequence_id ev.

(** ** Lemmas *)

Lemma messages_app p b b' :
  messages p (b ++ b') =
  messages p b ++ imap (λ o r, as_message (Z.of_nat p) (Z.of_nat (length (messages p b) + o)) r)
                    (filter (λ r, partition_for (rec_key r) = p) b'.*2).
Proof.
  unfold messages. rewrite fmap_app, filter_app, imap_app, length_imap. done.
Qed.

(** The worker of [p] after [more] was published: the same, with the partition's
    new messages in its log. *)
Lemma append_records_lookup more gs p g b :
  gs !! p = Some g → KafkaClients.log g = messages p b →
  append_records more gs !! p =
  Some (KafkaClients.Group (messages p (b ++ more)) (KafkaClients.committed g) (KafkaClients.position g)
          (KafkaClients.state g) (KafkaClients.turns g)).
Proof.
  revert gs g b. induction more as [| [i r] more IH]; intros gs g b Hg Hl.
  - simpl. rewrite app_nil_r, <-Hl, Hg. by destruct g.
  - cbn [append_records foldl snd]. fold (append_records more (append_record r gs)).
    assert (append_record r gs !! p = Some (KafkaClients.Group (messages p (b ++ [(i, r)])) (KafkaClients.committed g)
              (KafkaClients.position g) (KafkaClients.state g) (KafkaClients.turns g))) as Hr.
    { rewrite messages_app. unfold append_record. simpl. destruct (decide (partition_for (rec_key r) = p)) as [Hp | Hp].
      - rewrite filter_cons_True, filter_nil by done. rewrite Hp, list_lookup_alter_eq, Hg. simpl. by rewrite Hl, Nat.add_0_r.
      - rewrite filter_cons_False, filter_nil by done. rewrite list_lookup_alter_ne, Hg by done. simpl.
        rewrite app_nil_r, <-Hl. by destruct g. }
    rewrite (IH _ _ (b ++ [(i, r)]) Hr) by done. simpl. by rewrite <-app_assoc.
Qed.

Lemma append_records_length more gs : length (append_records more gs) = length gs.
Proof.
  revert gs. induction more as [| [i r] more IH]; intros gs; [done |].
  change (length (append_records more (append_record r gs)) = length gs).
  rewrite IH. apply length_alter.
Qed.

(** Appending is a run of the broker's steps of every partition's group. *)
Lemma append_record_reached r gs p g' :
  append_record r gs !! p = Some g' → ∃ g, gs !! p = Some g ∧
    KafkaClients.state g' = KafkaClients.state g ∧
    ∀ g0, reached worker_fire any_order g0 g → reached worker_fire any_order g0 g'.
Proof.
  unfold append_record. destruct (decide (partition_for (rec_key r) = p)) as [-> | Hp].
  - rewrite list_lookup_alter_eq, fmap_Some. intros (g & Hg & ->). exists g. split; [done |]. simpl.
    split; [done |]. intros g0 Hr. eapply (reached_step _ _ _ _ (KafkaClients.Produce _)); [exact Hr | done | reflexivity].
  - rewrite list_lookup_alter_ne by done. intros Hg. by exists g'.
Qed.

Lemma append_records_reached more gs p g' :
  append_records more gs !! p = Some g' → ∃ g, gs !! p = Some g ∧
    KafkaClients.state g' = KafkaClients.state g ∧
    ∀ g0, reached worker_fire any_order g0 g → reached worker_fire any_order g0 g'.
Proof.
  revert gs. induction more as [| [i r] more IH]; intros gs Hg; [by exists g' |].
  destruct (IH _ Hg) as (g1 & Hg1 & Hs1 & Hr1).
  destruct (append_record_reached _ _ _ _ Hg1) as (g & Hg0 & Hs & Hr). exists g.
  split_and!; [done | congruence | auto].
Qed.

Lemma worker_log l g g' :
  match l with KafkaClients.Produce _ => False | _ => True end →
  worker_fire l g = Some g' → KafkaClients.log g' = KafkaClients.log g.
Proof.
  intros Hl Hf. destruct l as [m | | f | |]; [done | ..]; cbn [KafkaClients.fire] in Hf.
  - destruct (KafkaClients.position g); [done |]. by injection Hf as <-.
  - apply bind_Some in Hf as (p & _ & Hf). apply bind_Some in Hf as (m & _ & Hf).
    cbn [KafkaClients.pipeline_turn] in Hf. by injection Hf as <-.
  - apply bind_Some in Hf as (p & _ & Hf). destruct (KafkaClients.auto_commit _); [| done]. by injection Hf as <-.
  - by injection Hf as <-.
Qed.

(** An event the rule engine got is a forwarded record. *)
Definition got_from (ws : list group) (ev : TelemetryEvent) : Prop :=
  ∃ p g r, ws !! p = Some g ∧ r ∈ sent (proc (KafkaClients.state g)) ∧
    mem (rec_topic r) (kafka_topics config) = true ∧ parse_event (rec_payload r) = Ok ev.

Record linked (d : FleetDb.db) (e0 : engine) (w0 : Api.world) (w : world) : Prop := {
  li_server : reached server_fire any_order (FleetSystem.started_server d) (srv w);
  li_count : length (workers w) = partitions;
  li_worker p g : workers w !! p = Some g →
    reached worker_fire any_order idle_worker g ∧ KafkaClients.log g = messages p (FleetSystem.broker (srv w));
  li_detection : reached detection_fire any_order (e0, w0) (detection w);
  li_events ev : ev ∈ Consumer.channel (EngineSystem.cons (detection w).1) → got_from (workers w) ev }.

Lemma got_from_step ws ws' ev :
  (∀ p g, ws !! p = Some g → ∃ g', ws' !! p = Some g' ∧
     ∀ r, r ∈ sent (proc (KafkaClients.state g)) → r ∈ sent (proc (KafkaClients.state g'))) →
  got_from ws ev → got_from ws' ev.
Proof.
  intros Hws (p & g & r & Hg & Hr & Hm & Hp). destruct (Hws p g Hg) as (g' & Hg' & Hin).
  exists p, g', r. split_and!; auto.
Qed.

Lemma linked_server d e0 w0 l w s :
  server_fire l (srv w) = Some s → linked d e0 w0 w →
  linked d e0 w0 (World s (append_records (drop (length (FleetSystem.broker (srv w))) (FleetSystem.broker s)) (workers w))
                    (detection w)).
Proof.
  intros Hf [Ls Lc Lw Ld Le]. destruct (FleetSystem.fire_broker _ _ _ _ _ _ _ _ Hf) as [more Hmore].
  rewrite Hmore, drop_app_length. constructor; simpl; [by econstructor | | | done |].
  - by rewrite append_records_length.
  - intros p g' Hg'. destruct (append_records_reached _ _ _ _ Hg') as (g & Hg & _ & Hr).
    destruct (Lw p g Hg) as [Hreach Hlog]. split; [by apply Hr |].
    rewrite (append_records_lookup _ _ _ _ _ Hg Hlog) in Hg'. injection Hg' as <-. by rewrite Hmore.
  - intros ev Hev. eapply got_from_step; [| by apply Le]. intros p g Hg.
    rewrite (append_records_lookup _ _ _ _ _ Hg (proj2 (Lw p g Hg))). by eexists.
Qed.

Lemma linked_worker d e0 w0 p l w g g' :
  match l with KafkaClients.Produce _ => False | _ => True end →
  workers w !! p = Some g → worker_fire l g = Some g' → linked d e0 w0 w →
  linked d e0 w0 (World (srv w) (<[p := g']> (workers w)) (detection w)).
Proof.
  intros Hl Hg Hf [Ls Lc Lw Ld Le]. constructor; simpl; [done | by rewrite length_insert | | done |].
  - intros q g1. destruct (decide (p = q)) as [<- | Hne].
    + rewrite list_lookup_insert_eq by (by eapply lookup_lt_Some). intros [= <-].
      destruct (Lw p g Hg) as [Hr Hlog]. split; [by econstructor |]. by rewrite (worker_log l g g').
    + rewrite list_lookup_insert_ne by done. apply Lw.
  - intros ev Hev. eapply got_from_step; [| by apply Le]. intros q g1 Hq. destruct (decide (p = q)) as [<- | Hne].
    + rewrite list_lookup_insert_eq by (by eapply lookup_lt_Some). simplify_eq. exists g'. split; [done |].
      intros r. by eapply KafkaClients.sent_grows.
    + rewrite list_lookup_insert_ne by done. by exists g1.
Qed.

Lemma linked_detection d e0 w0 l w det :
  detection_fire l (detection w) = Some det →
  (∀ ev, ev ∈ Consumer.channel (EngineSystem.cons det.1) →
     ev ∈ Consumer.channel (EngineSystem.cons (detection w).1) ∨ got_from (workers w) ev) →
  linked d e0 w0 w → linked d e0 w0 (World (srv w) (workers w) det).
Proof.
  intros Hf Hev [Ls Lc Lw Ld Le]. constructor; simpl; [done | done | done | by econstructor |].
  intros ev [? | ?]%Hev; [by apply Le | done].
Qed.

(** What a step of the detection side does to the events. *)
Lemma detection_channel l s s' ev :
  detection_fire l s = Some s' → ev ∈ Consumer.channel (EngineSystem.cons s'.1) →
  ev ∈ Consumer.channel (EngineSystem.cons s.1) ∨
  ∃ m df cf, l = AlertPath.Engine_ (EngineSystem.Consume m df cf) ∧ parse_event (default "" (m_payload m)) = Ok ev.
Proof.
  destruct s as [e a], l as [l | env r]; cbn [AlertPath.fire]; intros Hf Hin.
  - apply bind_Some in Hf as (e' & Hf & [= <-]). simpl in *.
    destruct (EngineSystem.fire_channel _ _ _ _ _ _ _ _ _ _ _ _ _ _ Hf Hin) as [? | (m & df & cf & -> & Hp)]; [by left |].
    right. by exists m, df, cf.
  - injection Hf as <-. by left.
Qed.

Lemma fire_linked d e0 w0 l w w' : fire l w = Some w' → linked d e0 w0 w → linked d e0 w0 w'.
Proof.
  intros Hf Hw. destruct l as [l | p l | p n po off df cf | l]; cbn [fire] in Hf.
  - apply bind_Some in Hf as (s & Hs & [= <-]). by eapply linked_server.
  - destruct l; [done | ..]; apply bind_Some in Hf as (g & Hg & Hf); apply bind_Some in Hf as (g' & Hl & [= <-]);
      by eapply linked_worker; [| exact Hg | exact Hl |].
  - apply bind_Some in Hf as (g & Hg & Hf). apply bind_Some in Hf as (r & Hr & Hf).
    destruct (mem _ _) eqn:Hm; [| done]. apply bind_Some in Hf as (det & Hd & [= <-]).
    eapply linked_detection; [exact Hd | | done]. intros ev Hev.
    destruct (detection_channel _ _ _ _ Hd Hev) as [? | (m & df' & cf' & [= <- <- <-] & Hp)]; [by left | right].
    exists p, g, r. split_and!; [done | by eapply list_elem_of_lookup_2 | done | done].
  - assert (∀ d' , detection_fire l (detection w) = Some d' →
      (∀ m df cf, l ≠ AlertPath.Engine_ (EngineSystem.Consume m df cf)) →
      linked d e0 w0 (World (srv w) (workers w) d')) as Hdet.
    { intros d' Hd Hnot. eapply linked_detection; [exact Hd | | done]. intros ev Hev. left.
      destruct (detection_channel _ _ _ _ Hd Hev) as [? | (m & df' & cf' & -> & _)]; [done | by edestruct Hnot]. }
    destruct l as [l | env r]; [destruct l; [done | ..] |];
      apply bind_Some in Hf as (d' & Hd & [= <-]); by apply Hdet.
Qed.

Lemma started_linked d e0 w0 :
  Consumer.channel (EngineSystem.cons e0) = [] → linked d e0 w0 (started d e0 w0).
Proof.
  intros He. constructor; simpl; [constructor | apply length_replicate | | constructor |].
  - intros p g [-> _]%lookup_replicate. split; [constructor | done].
  - rewrite He. by intros ev ?%elem_of_nil.
Qed.

Lemma reached_linked d e0 w0 w :
  Consumer.channel (EngineSystem.cons e0) = [] → reached fire any_order (started d e0 w0) w → linked d e0 w0 w.
Proof.
  intros He. apply reached_invariant; [intros; by eapply fire_linked | by apply started_linked].
Qed.

(** The fields of an event read from an object. *)
Lemma telemetry_fields m e i n :
  telemetry_of_object parse_uuid m = Some e → map_get "id" m = Some (JString i) →
  map_get "node_id" m = Some (JString n) → ev_id e = i ∧ parse_uuid n = Ok (ev_node_id e).
Proof.
  unfold telemetry_of_object. intros Ht Hi Hn. rewrite Hi, Hn in Ht. simpl in Ht.
  destruct (parse_uuid n) as [node |]; [| done]. simpl in Ht.
  repeat (apply bind_Some in Ht as (? & _ & Ht)). by injection Ht as <-.
Qed.

(** The event of a forwarded envelope has the envelope's id and node. *)
Lemma forwarded_fields u ev p o e :
  mem DLQ (kafka_topics config) = false → mem (rec_topic (forwarded u ev p o)) (kafka_topics config) = true →
  reads_back (FleetServer.telemetry_envelope from_utf8_lossy u ev) → reads_back (normalized u ev) →
  parse_event (rec_payload (forwarded u ev p o)) = Ok e →
  ev_id e = envelope_id u ev ∧ parse_uuid (FleetServer.in_node_id ev) = Ok (ev_node_id e).
Proof.
  intros Hdlq Hm (s & Hs & Hback & _) (s' & Hs' & _ & Hparse). unfold forwarded, routed_record, FleetServer.envelope_bytes in *.
  rewrite Hs in *. rewrite Hback in *. unfold normalized in *.
  destruct (route_topic _) as [t |] eqn:Ht; [| simpl in Hm; congruence]. cbn [default from_option id rec_payload] in *.
  rewrite Hs'. cbn [ok default from_option id]. intros He%Hparse.
  destruct (FleetServer.telemetry_envelope from_utf8_lossy u ev) as [| | | | | m] eqn:Henv; try discriminate He.
  cbn [normalize as_object mbind option_bind] in He. apply (telemetry_fields _ _ _ _ He);
    rewrite map_get_insert_ne by done; unfold FleetServer.telemetry_envelope, FleetServer.json_object in Henv; by injection Henv as <-.
Qed.

(** A run of a partition's worker is a run of the whole. *)
Lemma worker_run p ls g g' w :
  forallb (λ l, match l with KafkaClients.Produce _ => false | _ => true end) ls = true →
  workers w !! p = Some g → fire_all worker_fire any_order ls g = Some g' →
  fire_all fire any_order (AtWorker p <$> ls) w = Some (World (srv w) (<[p := g']> (workers w)) (detection w)).
Proof.
  revert g w. induction ls as [| l ls IH]; intros g w Hls Hg Hf; simpl in Hf.
  - injection Hf as ->. simpl. rewrite list_insert_id by done. by destruct w.
  - apply bind_Some in Hf as (g1 & Hl & Hf). apply andb_true_iff in Hls as [Hnp Hls].
    assert (fire (AtWorker p l) w = Some (World (srv w) (<[p := g1]> (workers w)) (detection w))) as Hstep.
    { destruct l; [done | ..]; cbn [fire]; rewrite Hg; cbn [mbind option_bind]; by rewrite Hl. }
    cbn [fmap list_fmap fire_all any_order]. rewrite Hstep. cbn [mbind option_bind].
    rewrite (IH g1) by (done || (simpl; rewrite list_lookup_insert_eq; [done | by eapply lookup_lt_Some])).
    simpl. by rewrite list_insert_insert_eq.
Qed.

(** A record at the broker is in the log of its key's partition. *)
Lemma record_logged i r b :
  (i, r) ∈ b → ∃ o, messages (partition_for (rec_key r)) b !! o =
    Some (as_message (Z.of_nat (partition_for (rec_key r))) (Z.of_nat o) r).
Proof.
  intros Hin. assert (r ∈ filter (λ r', partition_for (rec_key r') = partition_for (rec_key r)) b.*2) as Hr.
  { apply list_elem_of_filter. split; [done |]. exact (list_elem_of_fmap_2 snd _ _ Hin). }
  apply list_elem_of_lookup in Hr as [o Ho]. exists o. unfold messages. rewrite list_lookup_imap, Ho. done.
Qed.
Lemma logged_record p m b :
  m ∈ messages p b → ∃ i r o, (i, r) ∈ b ∧ m = as_message (Z.of_nat p) (Z.of_nat o) r.
Proof.
  intros [o Ho]%list_elem_of_lookup. unfold messages in Ho. rewrite list_lookup_imap in Ho.
  apply fmap_Some in Ho as (r & Hr & ->). apply list_elem_of_lookup_2, list_elem_of_filter in Hr as [_ Hr].
  apply list_elem_of_fmap in Hr as ([i r'] & -> & Hin). by exists i, r', o.
Qed.

(** What is at the broker is forwarded by its partition's worker, started again and
    left alone, unless a turn before had failed to send it. *)
Lemma record_catches_up d e0 w0 w i u ev :
  0 < partitions → linked d e0 w0 w → (i, record_of u ev) ∈ FleetSystem.broker (srv w) →
  let p := partition_for (FleetServer.in_node_id ev) in
  ∃ o g n g', workers w !! p = Some g ∧
    fire_all fire any_order
      (AtWorker p <$> [KafkaClients.Stop; KafkaClients.Start] ++ replicate n (KafkaClients.Turn (None, None))) w
      = Some (World (srv w) (<[p := g']> (workers w)) (detection w)) ∧
    ((∃ f err, (o, f) ∈ KafkaClients.turns g ∧ f.1 = Some err) ∨
     forwarded u ev (Z.of_nat p) (Z.of_nat o) ∈ sent (proc (KafkaClients.state g'))).
Proof.
  intros Hpos [Ls Lc Lw Ld Le] Hb p.
  destruct (record_logged _ _ _ Hb) as [o Ho]. change (rec_key (record_of u ev)) with (FleetServer.in_node_id ev) in Ho.
  destruct (lookup_lt_is_Some_2 (workers w) p) as [g Hg].
  { rewrite Lc. unfold p, partition_for. apply Nat.mod_upper_bound. lia. }
  destruct (Lw p g Hg) as [Hwork Hlog]. unfold p in Hlog. rewrite <-Hlog in Ho.
  apply KafkaClients.partition_catches_up in Hwork as (n & g' & Hrun & _ & Hall).
  exists o, g, n, g'. split_and!; [done | |].
  - eapply worker_run; [| exact Hg | exact Hrun]. simpl. clear. by induction n.
  - destruct (Hall o _ Ho) as [Hsent | ?]; [right; exact Hsent | by left].
Qed.

(** ** Properties *)

Context (d : FleetDb.db) (dedup : ShardedDeduplicator) (reg : EngineRegistry Rules) (now : Z) (topics0 : list record).
Context (w0 : Api.world) (Hempty : Api.w_alerts w0 = []).
#[local] Abbreviation start := (started d (EngineSystem.started dedup reg now (Sink.Store topics0 ∅)) w0).

(** C7 (safety): in every interleaving of the fleet server's streams, registrations and
    heartbeats with the pipeline's workers, killed and restarted at will, the rule
    engine's tasks and the operators' requests, no alert is made up: each row an
    operator can read was raised for a telemetry event that the pipeline forwarded
    from a record at the broker, which is the envelope of an event that arrived on a
    stream opened with a valid token; the row has the forwarded event's id and node,
    and, when serde_json reads back what it wrote, these are the agent's sequence
    number (or the UUID drawn for it) and the node the agent named. *)
Theorem alerts_have_a_source w :
  reached fire any_order start w →
  ∀ row, row ∈ Api.w_alerts (detection w).2 → ∃ i c ev u p o e,
    FleetSystem.conns (srv w) !! i = Some c ∧
    (∃ md time, FleetServer.validate_token md jwt_secret time = Ok (FleetSystem.claims c)) ∧
    Ok ev ∈ FleetSystem.arrived c ∧ (i, record_of u ev) ∈ FleetSystem.broker (srv w) ∧
    mem (rec_topic (forwarded u ev p o)) (kafka_topics config) = true ∧
    parse_event (rec_payload (forwarded u ev p o)) = Ok e ∧
    Api.al_triggering_event_id row = Some (ev_id e) ∧ Api.al_node_id row = ev_node_id e ∧
    (mem DLQ (kafka_topics config) = false →
     reads_back (FleetServer.telemetry_envelope from_utf8_lossy u ev) → reads_back (normalized u ev) →
     ev_id e = envelope_id u ev ∧ parse_uuid (FleetServer.in_node_id ev) = Ok (ev_node_id e)).
Proof.
  intros Hr row Hrow. apply reached_linked in Hr as [Ls Lc Lw Ld Le]; [| done].
  destruct (detection w) as [e a] eqn:Hdet. simpl in *.
  apply AlertPath.joint_reached in Ld as [He Hs].
  specialize (Hs ltac:(unfold AlertPath.shared; by rewrite Hempty)).
  pose proof He as Ho. eapply AlertPath.row_origin in Ho as (al & Hal & Hfix & _); [| exact Hs | exact Hrow].
  eapply AlertPath.batch_origin in He as (te & Hte & Ht & Hn); [| exact Hal].
  assert (te ∈ Consumer.channel (EngineSystem.cons e)) as Hch.
  { rewrite <-(take_drop (EngineSystem.taken e) (Consumer.channel (EngineSystem.cons e))). apply elem_of_app. by left. }
  destruct (Le te Hch) as (p & g & r & Hg & Hsent & Hm & Hp). destruct (Lw p g Hg) as [Hwork Hlog].
  eapply KafkaClients.sent_from_log in Hwork; [| exact Hsent]. destruct Hwork as (m & Hin & ->).
  rewrite Hlog in Hin. apply logged_record in Hin as (i & r0 & o & Hb & ->).
  eapply FleetSystem.broker_source in Ls; [| exact Hb]. destruct Ls as (c & ev & u & Hc & Hv & Hev & ->).
  exists i, c, ev, u, (Z.of_nat p), (Z.of_nat o), te. split_and!; try done.
  - apply (f_equal Api.al_triggering_event_id) in Hfix. by rewrite <-Ht.
  - apply (f_equal Api.al_node_id) in Hfix. by rewrite <-Hn.
  - intros Hdlq Henv Hfwd. by apply (forwarded_fields u ev (Z.of_nat p) (Z.of_nat o)).
Qed.

(** C8 (liveness): what was acknowledged is not lost on the way to the rules: whatever
    happened before, and however often the pipeline was killed, the record of an
    event whose acknowledgement an agent was sent is at the broker, and a run of its
    partition's worker, started again and without faults, leaves the event forwarded
    to the topic of its category, unless a turn before had failed to send it; and
    the rule engine takes it from there whenever its channel has room. *)
Theorem acknowledged_events_are_forwarded w i c s :
  0 < partitions → reached fire any_order start w →
  FleetSystem.conns (srv w) !! i = Some c → FleetServer.Ack s ∈ FleetSystem.sent c →
  ∃ ev u o p g n w', let r := forwarded u ev (Z.of_nat p) (Z.of_nat o) in
    Ok ev ∈ take (FleetSystem.taken c) (FleetSystem.arrived c) ∧ FleetServer.in_sequence_id ev = s ∧
    (i, record_of u ev) ∈ FleetSystem.broker (srv w) ∧
    p = partition_for (FleetServer.in_node_id ev) ∧ workers w !! p = Some g ∧
    fire_all fire any_order
      (AtWorker p <$> [KafkaClients.Stop; KafkaClients.Start] ++ replicate n (KafkaClients.Turn (None, None))) w = Some w' ∧
    ((∃ f err, (o, f) ∈ KafkaClients.turns g ∧ f.1 = Some err) ∨
     (∃ g' k, workers w' !! p = Some g' ∧ sent (proc (KafkaClients.state g')) !! k = Some r ∧
        ∀ te e, e = (detection w').1 → mem (rec_topic r) (kafka_topics config) = true → rec_payload r ≠ "" →
          parse_event (rec_payload r) = Ok te → EngineSystem.consuming e = true →
          EngineSystem.scanner_mode e ≠ EngineSystem.Stopped →
          length (Consumer.channel (EngineSystem.cons e)) < EngineSystem.taken e + EngineSystem.capacity config →
          ∀ part off, ∃ w'', fire (Forward p k part off None None) w' = Some w'' ∧
            Consumer.channel (EngineSystem.cons (detection w'').1) = Consumer.channel (EngineSystem.cons e) ++ [te])).
Proof.
  intros Hpos Hr Hc Hs. apply reached_linked in Hr as Hl; [| done]. pose proof (li_server _ _ _ _ Hl) as Ls.
  eapply FleetSystem.acknowledged_at_broker in Ls as (ev & u & Hev & Hseq & Hb); [| exact Hc | exact Hs].
  destruct (record_catches_up _ _ _ _ _ _ _ Hpos Hl Hb) as (o & g & n & g' & Hg & Hrun & Hout).
  set (p := partition_for (FleetServer.in_node_id ev)) in *.
  eexists ev, u, o, p, g, n, _. split_and!; [done.. | exact Hrun |].
  - destruct Hout as [? | Hsent]; [by left | right].
    apply list_elem_of_lookup in Hsent as [k Hk]. exists g', k. cbn [workers detection].
    assert (<[p := g']> (workers w) !! p = Some g') as Hins
      by (rewrite list_lookup_insert_eq; [done | by eapply lookup_lt_Some]).
    split_and!; [exact Hins | exact Hk |]. intros te e -> Hm Hne Hp Hcons Hmode Hroom part off.
    cbn [fire workers detection]. rewrite Hins. cbn [mbind option_bind]. rewrite Hk. cbn [mbind option_bind].
    change (KafkaClients.record_for _) with (forwarded u ev (Z.of_nat p) (Z.of_nat o)). rewrite Hm.
    destruct (detection w) as [e a]. cbn [fst AlertPath.fire] in *.
    destruct (EngineSystem.consume_enabled scan hash uuid utc instant parse_event dlq_topic alert_to_vec alerts_topic config
      (as_message part off (forwarded u ev (Z.of_nat p) (Z.of_nat o))) te e Hcons Hmode Hroom Hne Hp) as (e' & He' & Hch).
    rewrite He'. cbn [mbind option_bind]. by eexists.
Qed.
End path.

(** *** One event of the collector, from its stream to an operator's list *)
#[local] Existing Instance sample_serde.
#[local] Existing Instance FleetServer.ToyJwt.toy_jwt.
#[local] Existing Instance MruList.mru_lru.
#[local] Existing Instance Api.identity_scan.
#[local] Existing Instance Api.ToyApiJwt.toy_api_jwt.

Definition example_event : FleetServer.IncomingEvent := FleetServer.Incoming "agent-7" "osquery" "result" 5 "u1".
Definition example_parse (s : string) : result TelemetryEvent string :=
  if String.eqb s "typed" then Ok sample_telemetry else Err "expected value".
Definition example_config : RuleEngineConfig :=
  mkConfig "localhost:9092" "g" ["aigis.events.auth"] "rules" "mitre.json" "db" 4 1 8 1024 10 2 100 8080 "dlq" "alerts".
Definition example_rules : EngineRegistry nat := Registry {["auth" := 0%nat]} ∅.
Definition example_fire : label (Rules := nat) → world → option world :=
  fire id Ok None "key" "aigis.events.raw" String.length 2 "b" "g" sample_scan (λ _, 3%Z) (λ i, "a" +:+ pretty i)
    (λ _, 0%Z) (λ i, 20 * Z.of_nat i)%Z example_parse "dlq" (λ a, Ok (alert_id a)) "alerts" example_config
    (λ _, "t") Some (λ _ _, true) Api.example_settings.
Definition example_start : world :=
  started 2 (FleetDb.Db ∅ [] []) (EngineSystem.started example_dedup example_rules 0 (Sink.Store [] ∅))
    AlertPath.example_world.

(** The stream's event is published and acknowledged; the worker of its partition is
    killed before its first turn; the next one forwards the record, and the rule
    engine stores an alert. *)
Definition example_labels : list (label (Rules := nat)) :=
  (AtServer <$> [FleetSystem.Open (FleetSystem.bearer FleetServer.example_token) 2;
     FleetSystem.Arrive 0 (Ok example_event); FleetSystem.Take 0 "fresh"; FleetSystem.Publish 0 None;
     FleetSystem.Send 0; FleetSystem.Deliver 0]) ++
  (AtWorker 1 <$> [KafkaClients.Start; KafkaClients.Stop; KafkaClients.Start; KafkaClients.Turn (None, None)]) ++
  Forward 1 0 0 0 None None ::
  ((λ l, AtDetection (AlertPath.Engine_ l)) <$>
     [EngineSystem.Scan; EngineSystem.Emit; EngineSystem.Batch 500 500 Sink.no_faults]).
Definition example_world (n : nat) : world :=
  default example_start (fire_all example_fire any_order (take n example_labels) example_start).

Lemma example_world_reached n :
  is_some (fire_all example_fire any_order (take n example_labels) example_start) = true →
  reached example_fire any_order example_start (example_world n).
Proof.
  unfold example_world. destruct (fire_all _ _ (take n example_labels) _) eqn:Hf; [| done]. intros _.
  eapply fire_all_reached; [apply reached_start | exact Hf].
Qed.

Lemma alerts_have_a_source_witness :
  ∃ row, row ∈ Api.w_alerts (detection (example_world 14)).2 ∧
    Api.al_triggering_event_id row = Some (FleetServer.in_sequence_id example_event) ∧
    Ok (Api.al_node_id row) = @Ok string string (FleetServer.in_node_id example_event).
Proof.
  destruct (Api.w_alerts (detection (example_world 14)).2) as [| row l] eqn:Hrows; [by vm_compute in Hrows |].
  exists row. split; [by left |].
  destruct (alerts_have_a_source id Ok None "key" "aigis.events.raw" String.length 2 "b" "g" sample_scan (λ _, 3%Z)
    (λ i, "a" +:+ pretty i) (λ _, 0%Z) (λ i, 20 * Z.of_nat i)%Z example_parse "dlq" (λ a, Ok (alert_id a)) "alerts"
    example_config (λ _, "t") Some (λ _ _, true) Api.example_settings (FleetDb.Db ∅ [] []) example_dedup example_rules 0 []
    AlertPath.example_world eq_refl (example_world 14)) with (row := row)
    as (i & c & ev & u & p & o & e & Hc & _ & Hev & _ & _ & _ & Hid & Hnode & Hread).
  - apply example_world_reached. by vm_compute.
  - rewrite Hrows. by left.
  - assert (ev = example_event) as ->.
    { assert (list_fmap _ _ FleetSystem.arrived (FleetSystem.conns (srv (example_world 14))) = [[Ok example_event]]) as Ha
        by (by vm_compute).
      assert (FleetSystem.arrived c ∈ [[@Ok _ string example_event]]) as Hin.
      { rewrite <-Ha. apply list_elem_of_fmap_2. by eapply list_elem_of_lookup_2. }
      apply list_elem_of_singleton in Hin. rewrite Hin in Hev. apply list_elem_of_singleton in Hev. congruence. }
    destruct Hread as [He1 He2].
    + by vm_compute.
    + exists "raw". split; [by vm_compute |]. split; [by vm_compute |]. intros e' He'. by vm_compute in He'.
    + exists "typed". split; [by vm_compute |]. split; [by vm_compute |].
      intros e' He'. vm_compute in He'. injection He' as <-. by vm_compute.
    + split; [rewrite Hid, He1; by vm_compute | by rewrite Hnode, <-He2].
Defined.

Lemma acknowledged_events_are_forwarded_witness :
  ∃ n w', fire_all example_fire any_order
      (AtWorker 1 <$> [KafkaClients.Stop; KafkaClients.Start] ++ replicate n (KafkaClients.Turn (None, None)))
      (example_world 7) = Some w' ∧
    ∃ g' k, workers w' !! 1 = Some g' ∧
      sent (proc (KafkaClients.state g')) !! k = Some (Record_ "aigis.events.auth" "typed" "agent-7" []).
Proof.
  destruct (FleetSystem.conns (srv (example_world 7))) as [| c l] eqn:Hconns; [by vm_compute in Hconns |].
  destruct (acknowledged_events_are_forwarded id Ok None "key" "aigis.events.raw" String.length 2 "b" "g" sample_scan (λ _, 3%Z)
    (λ i, "a" +:+ pretty i) (λ _, 0%Z) (λ i, 20 * Z.of_nat i)%Z example_parse "dlq" (λ a, Ok (alert_id a)) "alerts"
    example_config (λ _, "t") Some (λ _ _, true) Api.example_settings (FleetDb.Db ∅ [] []) example_dedup example_rules 0 []
    AlertPath.example_world (example_world 7) 0 c "u1")
    as (ev & u & o & p & g & n & w' & Hev & _ & _ & -> & Hg & Hrun & Hout).
  - lia.
  - apply example_world_reached. by vm_compute.
  - by rewrite Hconns.
  - assert (list_fmap _ _ FleetSystem.sent (FleetSystem.conns (srv (example_world 7))) = [[FleetServer.Ack "u1"]]) as Hs
      by (by vm_compute).
    rewrite Hconns in Hs. simpl in Hs. injection Hs as -> _. by left.
  - assert (list_fmap _ _ (λ c, take (FleetSystem.taken c) (FleetSystem.arrived c)) (FleetSystem.conns (srv (example_world 7)))
      = [[Ok example_event]]) as Ha by (by vm_compute).
    rewrite Hconns in Ha. simpl in Ha. injection Ha as Ha _. rewrite Ha in Hev. apply list_elem_of_singleton in Hev.
    injection Hev as ->. exists n, w'. split; [exact Hrun |].
    destruct Hout as [(f & err & Hin & _) | (g' & k & Hg' & Hk & _)].
    + exfalso. assert (list_fmap _ _ KafkaClients.turns (workers (example_world 7)) = [[]; []]) as Ht by (by vm_compute).
      apply (f_equal (λ l, l !! 1)) in Ht. change (list_fmap _ _ ?f ?l) with (f <$> l) in Ht. rewrite list_lookup_fmap in Ht.
      change (partition_for _ _ _) with 1 in Hg. rewrite Hg in Ht. simpl in Ht. injection Ht as Ht. rewrite Ht in Hin.
      by apply elem_of_nil in Hin.
    + exists g', k. split; [exact Hg' |]. rewrite Hk. by vm_compute.
Defined.
