(* ===== verification/WholePath.v ===== *)
(** * From the agent's buffer to the rules
      (agent-bin, fleet-client, grpc-listener, kafka-pipeline, rule-engine, api-backend)

    The agent with its connections of [DeliveryPath], and behind the fleet server the
    pipeline's workers, the rule engine and the operators of [TelemetryPath], in one
    run.  The fleet server is the same in both. *)
From Stdlib Require Import ZArith Lia.
From S2P Require Import Prelude Json EventBuffer Pipeline RuleModels Dedup Scanner RuleEngine.
From S2P Require Import Osquery Isolation FleetClient Agent AgentSystem EndToEnd.
From S2P Require FleetDb FleetServer FleetSystem KafkaClients EngineSystem AlertPath Api.
From S2P Require DeliveryPath TelemetryPath.
Import Pipeline.EventRouter.
#[local] Open Scope string_scope.
#[local] Open Scope list_scope.
#[local] Open Scope nat_scope.

#[local] Abbreviation group :=
  (KafkaClients.group (M := message) (W := worker) (F := option string * option string)).

Section path.
Context `{FleetServer.Jwt} `{SerdeJson} `{Nft}.
Context (looks_numeric : string → bool) (metadata_value : string → result string string).
Context (max batch_size : Z) (manager : IsolationManager) (own_id : string).
Context (from_utf8_lossy : string → string) (parse_uuid : string → result string string).
Context (enrollment_secret : option string) (jwt_secret topic : string).
Context (partition_of : string → nat) (partitions : nat) (brokers group_id : string).
Context {Rules : Type} (scan : Rules → string → result (list MatchedRule) string).
Context `{HL : Lru AlertSignature (Z * Z)} (hash : string → Z).
Context (uuid : nat → string) (utc instant : nat → Z).
Context (parse_event : string → result TelemetryEvent string) (dlq_topic : string).
Context (alert_to_vec : Alert → result string string) (alerts_topic : string) (config : RuleEngineConfig).
Context `{Api.ScanOrder} `{Api.ApiJwt}.
Context (rfc3339 : Z → string) (parse_hash : string → option string) (check_hash : string → string → bool).
Context (cfg : Api.Settings).
#[local] Abbreviation engine := (EngineSystem.engine (Rules := Rules)).
#[local] Abbreviation near := (DeliveryPath.fire looks_numeric metadata_value max batch_size manager own_id
  from_utf8_lossy parse_uuid enrollment_secret jwt_secret topic).
#[local] Abbreviation far := (TelemetryPath.fire from_utf8_lossy parse_uuid enrollment_secret jwt_secret topic
  partition_of partitions brokers group_id scan hash uuid utc instant parse_event dlq_topic alert_to_vec
  alerts_topic config rfc3339 parse_hash check_hash cfg).
#[local] Abbreviation record_of := (FleetSystem.record_of from_utf8_lossy topic).
#[local] Abbreviation forwarded := (TelemetryPath.forwarded from_utf8_lossy topic).

Record world := World {
  fleet_side : DeliveryPath.world; groups : list group; detecting : engine * Api.world }.

(** The fleet server with what is behind it. *)
Definition behind (w : world) : TelemetryPath.world :=
  TelemetryPath.World (DeliveryPath.srv (fleet_side w)) (groups w) (detecting w).

Inductive label :=
  | Near (s : DeliveryPath.step)
  | Far (l : TelemetryPath.label (Rules := Rules)).

(** What the server publishes reaches the partitions; its own steps are taken once. *)
Definition fire (l : label) (w : world) : option world :=
  match l with
  | Near s =>
      f ← near s (fleet_side w);
      let before := FleetSystem.broker (DeliveryPath.srv (fleet_side w)) in
      let after := FleetSystem.broker (DeliveryPath.srv f) in
      Some (World f (TelemetryPath.append_records partition_of partitions brokers group_id
                       (drop (length before) after) (groups w)) (detecting w))
  | Far (TelemetryPath.AtServer _) => None
  | Far l => b ← far l (behind w); Some (World (fleet_side w) (TelemetryPath.workers b) (TelemetryPath.detection b))
  end.

(** The agent's disk works when it is written, and the broker takes its records;
    everything else may fail. *)
Definition sound (w : world) (l : label) : bool :=
  match l with Near s => DeliveryPath.sound looks_numeric (fleet_side w) s | Far _ => true end.

Definition started (a : agent) (d : FleetDb.db) (i : nat) (e : engine) (w0 : Api.world) : world :=
  World (DeliveryPath.started a d i) (replicate partitions TelemetryPath.idle_worker) (e, w0).

(** ** Lemmas *)

(** A step on the agent's side is one of the server, or leaves it alone. *)
Lemma near_server s f f' :
  near s f = Some f' →
  DeliveryPath.srv f' = DeliveryPath.srv f ∨
  ∃ l, FleetSystem.fire from_utf8_lossy parse_uuid enrollment_secret jwt_secret topic l (DeliveryPath.srv f)
       = Some (DeliveryPath.srv f').
Proof.
  destruct s as [l | l | i | k | k]; cbn [DeliveryPath.fire]; intros Hf.
  - apply bind_Some in Hf as (a & _ & [= <-]). by left.
  - apply bind_Some in Hf as (s & Hs & [= <-]). right. by exists l.
  - injection Hf as <-. by left.
  - destruct (DeliveryPath.of_link _ _) as [| [k' ev] rest]; [done |].
    apply bind_Some in Hf as (s & Hs & [= <-]). right. by eexists.
  - injection Hf as <-. by left.
Qed.

(** Beyond the server nothing touches it. *)
Lemma far_server l b b' :
  match l with TelemetryPath.AtServer _ => False | _ => True end →
  far l b = Some b' → TelemetryPath.srv b' = TelemetryPath.srv b.
Proof.
  destruct l as [l | p l | p n po off df cf | l]; [done | ..]; intros _ Hf; cbn [TelemetryPath.fire] in Hf.
  - destruct l; [done | ..]; apply bind_Some in Hf as (g & _ & Hf); by apply bind_Some in Hf as (g' & _ & [= <-]).
  - apply bind_Some in Hf as (g & _ & Hf). apply bind_Some in Hf as (r & _ & Hf).
    destruct (mem _ _); [| done]. by apply bind_Some in Hf as (x & _ & [= <-]).
  - destruct l as [l | env r]; [destruct l; [done | ..] |]; by apply bind_Some in Hf as (x & _ & [= <-]).
Qed.

Lemma fire_parts a d i e0 w0 w :
  reached fire sound (started a d i e0 w0) w →
  reached near (DeliveryPath.sound looks_numeric) (DeliveryPath.started a d i) (fleet_side w) ∧
  reached far any_order (TelemetryPath.started partitions d e0 w0) (behind w).
Proof.
  induction 1 as [| w l w' _ [Hn Hb] Hok Hf]; [split; constructor |]. destruct l as [s | l]; cbn [fire] in Hf.
  - apply bind_Some in Hf as (f & Hs & [= <-]). split; [by econstructor |].
    destruct (near_server _ _ _ Hs) as [Hsame | [l Hl]].
    + unfold behind. simpl. rewrite Hsame, drop_all. exact Hb.
    + eapply (reached_step _ _ _ _ (TelemetryPath.AtServer l)); [exact Hb | done |].
      cbn [TelemetryPath.fire behind TelemetryPath.srv]. by rewrite Hl.
  - destruct l as [l1 | p l1 | p n po off df cf | l1] eqn:Hl; [done | ..]; rewrite <-Hl in *;
      apply bind_Some in Hf as (b & Hs & [= <-]); (split; [exact Hn |]);
      (eapply reached_step; [exact Hb | done |]; rewrite Hs; unfold behind; simpl;
       apply far_server in Hs; [| by subst l]; simpl in Hs; rewrite <-Hs; by destruct b).
Qed.

(** A run beyond the server is a run of the whole. *)
Lemma far_run ls w b :
  forallb (λ l, match l with TelemetryPath.AtServer _ => false | _ => true end) ls = true →
  fire_all far any_order ls (behind w) = Some b →
  fire_all fire sound (Far <$> ls) w = Some (World (fleet_side w) (TelemetryPath.workers b) (TelemetryPath.detection b)).
Proof.
  revert w. induction ls as [| l ls IH]; intros w Hls Hf; simpl in Hf.
  - injection Hf as <-. by destruct w.
  - apply bind_Some in Hf as (b1 & Hl & Hf). apply andb_true_iff in Hls as [Hnp Hls].
    assert (TelemetryPath.srv b1 = TelemetryPath.srv (behind w)) as Hsrv by (apply (far_server l); [by destruct l | exact Hl]).
    set (w1 := World (fleet_side w) (TelemetryPath.workers b1) (TelemetryPath.detection b1)).
    assert (fire (Far l) w = Some w1) as Hstep by (destruct l; [done | ..]; cbn [fire]; by rewrite Hl).
    assert (behind w1 = b1) as Hb1 by (unfold behind, w1; simpl in *; rewrite <-Hsrv; by destruct b1).
    cbn [fmap list_fmap fire_all sound]. rewrite Hstep. cbn [mbind option_bind].
    rewrite (IH w1 Hls) by (by rewrite Hb1). done.
Qed.

(** ** Properties *)

Hypothesis Hmax : (0 ≤ max < 2 ^ 63)%Z.
Hypothesis Hbatch : (0 ≤ batch_size ≤ i64_max)%Z.
Context (t : table) (q : list string) (l : listener) (d : FleetDb.db) (i0 : nat) (dedup : ShardedDeduplicator).
Context (reg : EngineRegistry Rules) (now : Z) (topics0 : list record) (w0 : Api.world).
#[local] Abbreviation start :=
  (started (AgentSystem.started t q l) d i0 (EngineSystem.started dedup reg now (Sink.Store topics0 ∅)) w0).

(** C6 (liveness): an event on its whole way: whatever the interleaving of the agent's tasks,
    its connections, the fleet server, the pipeline's workers with their kills and
    restarts, the rule engine and the operators, an accepted event that parses is
    still on the agent's side (in the buffer, in the drain loop's batch, in a
    connection), lost with a connection that broke, at the server and not yet
    published, or at the broker; and from there a run of its partition's worker,
    started again and without faults, leaves it forwarded to the topic of its
    category, unless a turn before had failed to send it. *)
Theorem accepted_events_reach_the_rules w x ev :
  0 < partitions → represents t q → Forall (λ x, looks_numeric x = false) q →
  reached fire sound start w →
  let a := DeliveryPath.ag (fleet_side w) in let s := DeliveryPath.srv (fleet_side w) in
  (Z.of_nat (length (accepted a)) ≤ max)%Z → x ∈ accepted a → wire_event x = Some ev →
  (SqlText x ∈ row_payload <$> EventBuffer.rows (table_of a) ∨ x ∈ held a ∨
   (∃ k, (k, ev) ∈ DeliveryPath.flight (fleet_side w))) ∨
  ev ∈ DeliveryPath.lost (fleet_side w) ∨
  (∃ i c, FleetSystem.conns s !! i = Some c ∧
     (Ok (incoming ev) ∈ drop (FleetSystem.taken c) (FleetSystem.arrived c) ∨
      ∃ u, FleetSystem.phase c = FleetSystem.Ingesting (incoming ev) u)) ∨
  ∃ i u o g n w', let p := TelemetryPath.partition_for partition_of partitions (FleetServer.in_node_id (incoming ev)) in
    (i, record_of u (incoming ev)) ∈ FleetSystem.broker s ∧ groups w !! p = Some g ∧
    fire_all fire sound
      ((λ l, Far (TelemetryPath.AtWorker p l)) <$>
         [KafkaClients.Stop; KafkaClients.Start] ++ replicate n (KafkaClients.Turn (None, None))) w = Some w' ∧
    ((∃ f err, (o, f) ∈ KafkaClients.turns g ∧ f.1 = Some err) ∨
     ∃ g', groups w' !! p = Some g' ∧
       forwarded u (incoming ev) (Z.of_nat p) (Z.of_nat o) ∈ sent (proc (KafkaClients.state g'))).
Proof.
  intros Hpos Ht Hq Hr a s Hroom Hx Hev. destruct (fire_parts _ _ _ _ _ _ Hr) as [Hn Hb].
  destruct (DeliveryPath.accepted_tracked looks_numeric metadata_value max batch_size manager own_id from_utf8_lossy
    parse_uuid enrollment_secret jwt_secret topic Hmax Hbatch t q l d i0 (fleet_side w) Ht Hq Hn Hroom x ev Hx Hev)
    as [? | [? | [? | [? | (i & c & Hi & [Hin | (u & [Hph | Hrec])])]]]].
  - left. by left.
  - left. right. by left.
  - left. right. by right.
  - right. by left.
  - right. right. left. exists i, c. split; [done | by left].
  - right. right. left. exists i, c. split; [done |]. right. by exists u.
  - right. right. right. eapply TelemetryPath.reached_linked in Hb; [| done].
    edestruct TelemetryPath.record_catches_up as (o & g & n & g' & Hg & Hrun & Hout); [exact Hpos | exact Hb | exact Hrec |].
    exists i, u, o, g, n. eexists. split_and!; [exact Hrec | exact Hg | |].
    + apply far_run in Hrun; [| simpl; clear; by induction n]. rewrite <-list_fmap_compose in Hrun. exact Hrun.
    + destruct Hout as [? | Hsent]; [by left | right]. exists g'. split; [| exact Hsent].
      simpl. rewrite list_lookup_insert_eq; [done | by eapply lookup_lt_Some].
Qed.
End path.

(** *** The collector's event, from the buffer to the topic of its category *)
#[local] Existing Instance Agent.example_serde.
#[local] Existing Instance KernelNft.kernel_nft.
#[local] Existing Instance FleetServer.ToyJwt.toy_jwt.
#[local] Existing Instance MruList.mru_lru.
#[local] Existing Instance Api.identity_scan.
#[local] Existing Instance Api.ToyApiJwt.toy_api_jwt.

Definition example_fire : label (Rules := nat) → world → option world :=
  fire (λ _, false) Ok 10 1 example_manager "n1" id Ok None "key" "aigis.events.raw" String.length 2 "b" "g" sample_scan
    (λ _, 3%Z) (λ i, "a" +:+ pretty i) (λ _, 0%Z) (λ i, 20 * Z.of_nat i)%Z TelemetryPath.example_parse "dlq"
    (λ a, Ok (alert_id a)) "alerts" TelemetryPath.example_config (λ _, "t") Some (λ _ _, true) Api.example_settings.
Definition example_start : world :=
  started 2 AgentSystem.example_start (FleetDb.Db ∅ [] []) 0
    (EngineSystem.started example_dedup TelemetryPath.example_rules 0 (Sink.Store [] ∅)) AlertPath.example_world.
(** The event goes over a connection and is published; its partition's worker is
    killed before it read it. *)
Definition example_labels : list (label (Rules := nat)) :=
  (Near <$> DeliveryPath.example_steps) ++
  ((λ l, Far (TelemetryPath.AtWorker 0 l)) <$> [KafkaClients.Start; KafkaClients.Stop]).
Definition example_world : world :=
  default example_start (fire_all example_fire (sound (λ _, false)) example_labels example_start).

Lemma example_whole_reached : reached example_fire (sound (λ _, false)) example_start example_world.
Proof.
  eapply fire_all_reached; [apply reached_start |]. instantiate (1 := example_labels).
  apply (some_default example_start). by vm_compute.
Qed.

Lemma accepted_events_reach_the_rules_witness :
  ∃ i u o n w', (i, FleetSystem.record_of id "aigis.events.raw" u (incoming Agent.example_event))
      ∈ FleetSystem.broker (DeliveryPath.srv (fleet_side example_world)) ∧
    fire_all example_fire (sound (λ _, false))
      ((λ l, Far (TelemetryPath.AtWorker 0 l)) <$>
         [KafkaClients.Stop; KafkaClients.Start] ++ replicate n (KafkaClients.Turn (None, None))) example_world = Some w' ∧
    ∃ g', groups w' !! 0 = Some g' ∧
      TelemetryPath.forwarded id "aigis.events.raw" u (incoming Agent.example_event) 0 o ∈ sent (proc (KafkaClients.state g')).
Proof.
  destruct (accepted_events_reach_the_rules (λ _, false) Ok 10 1 example_manager "n1" id Ok None "key" "aigis.events.raw"
    String.length 2 "b" "g" sample_scan (λ _, 3%Z) (λ i, "a" +:+ pretty i) (λ _, 0%Z) (λ i, 20 * Z.of_nat i)%Z
    TelemetryPath.example_parse "dlq" (λ a, Ok (alert_id a)) "alerts" TelemetryPath.example_config (λ _, "t") Some
    (λ _ _, true) Api.example_settings ltac:(lia) ltac:(unfold i64_max; lia) example_table ["e1"] example_listener
    (FleetDb.Db ∅ [] []) 0 example_dedup TelemetryPath.example_rules 0 [] AlertPath.example_world example_world "e1"
    Agent.example_event) as [[Hin | [Hin | (k & Hin)]] | [Hin | [(i & c & Hc & Hin) | (i & u & o & g & n & w' & Hrec & Hg & Hrun & Hout)]]].
  - lia.
  - apply (example_table_ok 0). lia.
  - by repeat constructor.
  - exact example_whole_reached.
  - vm_compute. by intros.
  - vm_compute. by left.
  - by vm_compute.
  - exfalso. assert (EventBuffer.rows (table_of (DeliveryPath.ag (fleet_side example_world))) = []) as Hr by (by vm_compute).
    rewrite Hr in Hin. by apply elem_of_nil in Hin.
  - exfalso. assert (held (DeliveryPath.ag (fleet_side example_world)) = []) as Hr by (by vm_compute).
    rewrite Hr in Hin. by apply elem_of_nil in Hin.
  - exfalso. assert (DeliveryPath.flight (fleet_side example_world) = []) as Hr by (by vm_compute).
    rewrite Hr in Hin. by apply elem_of_nil in Hin.
  - exfalso. assert (DeliveryPath.lost (fleet_side example_world) = []) as Hr by (by vm_compute).
    rewrite Hr in Hin. by apply elem_of_nil in Hin.
  - exfalso. assert (list_fmap _ _ (λ c, (drop (FleetSystem.taken c) (FleetSystem.arrived c),
        match FleetSystem.phase c with FleetSystem.Ingesting _ _ => true | _ => false end))
      (FleetSystem.conns (DeliveryPath.srv (fleet_side example_world))) = [([], false)]) as Hr by (by vm_compute).
    apply list_elem_of_lookup_2 in Hc. apply (list_elem_of_fmap_2 (λ c, (drop (FleetSystem.taken c) (FleetSystem.arrived c),
        match FleetSystem.phase c with FleetSystem.Ingesting _ _ => true | _ => false end))) in Hc.
    change (list_fmap _ _ ?f ?l) with (f <$> l) in Hr. rewrite Hr in Hc. apply list_elem_of_singleton in Hc.
    injection Hc as Hdrop Hphase. destruct Hin as [Hin | (u & Hin)]; [rewrite Hdrop in Hin; by apply elem_of_nil in Hin |].
    clear - Hin Hphase. rewrite Hin in Hphase. discriminate Hphase.
  - exists i, u, (Z.of_nat o), n, w'. split; [exact Hrec |]. split; [exact Hrun |].
    destruct Hout as [(f & err & Hin & _) | Hout]; [exfalso | exact Hout].
    assert (list_fmap _ _ KafkaClients.turns (groups example_world) = [[]; []]) as Ht by (by vm_compute).
    apply (f_equal (λ l, l !! 0)) in Ht. change (list_fmap _ _ ?f ?l) with (f <$> l) in Ht. rewrite list_lookup_fmap in Ht.
    change (TelemetryPath.partition_for _ _ _) with 0 in Hg. rewrite Hg in Ht. simpl in Ht. injection Ht as Ht.
    rewrite Ht in Hin. by apply elem_of_nil in Hin.
Defined.
