(* ===== verification/Lifecycle.v ===== *)
(** * From a signal to the end of a process
      (the ends of agent-bin, fleet-server-bin, kafka-pipeline, rule-engine and
      api-backend's main.rs; [AgentCore::run] of agent-core/src/lib.rs)

    What the processes do with the signals they are sent, how long they take to end
    once told to, and what the agent tells systemd.  Times are in milliseconds; a
    moment that never comes is [None].  Before tokio has installed a handler for a
    signal, and when a process installs none, the signal terminates it. *)
From Stdlib Require Import ZArith Lia.
From S2P Require Import Prelude.
#[local] Open Scope string_scope.
#[local] Open Scope list_scope.
#[local] Open Scope Z_scope.

(** ** tokio's combinators, by when they complete *)

Definition moment : Type := option Z.
Definition reached_by (m : moment) (t : Z) : Prop := ∃ e, m = Some e ∧ e ≤ t.
#[export] Instance reached_by_dec m t : Decision (reached_by m t).
Proof.
  destruct m as [e |]; [destruct (decide (e ≤ t)) |]; [left; by exists e | right; intros (? & [= <-] & ?); lia |].
  right. by intros (? & ? & ?).
Defined.

(** [select!] over two futures: the branch it takes; of two that complete at the same
    time it may take either. *)
Inductive branch := First | Second | Any.
Definition select (a b : moment) : option branch :=
  match a, b with
  | Some x, Some y => Some (if x <? y then First else if y <? x then Second else Any)
  | Some _, None => Some First
  | None, Some _ => Some Second
  | None, None => None
  end.
(** [join!]: all of them. *)
Definition later (a b : moment) : moment := x ← a; y ← b; Some (Z.max x y).

(** [timeout(d, fut)] polled at [now]: when it completes, and whether [fut] did. *)
Definition timeout (d now : Z) (fut : moment) : Z * bool :=
  match fut with
  | Some e => if e <=? now + d then (Z.max now e, true) else (now + d, false)
  | None => (now + d, false)
  end.

(** ** Signals *)
Inductive signal := SIGINT | SIGTERM | SIGHUP.
#[export] Instance signal_dec : EqDecision signal.
Proof. solve_decision. Defined.

(** Since when a process has a handler for a signal. *)
Definition handlers : Type := signal → moment.
Inductive ending := Returned (t : Z) | Killed (t : Z) (s : signal) | RunsOn.

(** When a process is over, or else the [horizon]. *)
Definition over_at (horizon : Z) (e : ending) : Z :=
  match e with Returned t | Killed t _ => t | RunsOn => horizon end.

Section process.
(** The signals main waits for, and when main returns that is told to end at [t]. *)
Context (h : handlers) (stops : signal → bool) (finish : Z → moment).

Definition handled (x : Z * signal) : Prop := reached_by (h x.2) x.1.
(** When main is told to end, by the signals the process is sent, in order. *)
Definition told (sigs : list (Z * signal)) : moment :=
  x ← list_find (λ x, handled x ∧ stops x.2 = true) sigs; Some x.2.1.

Definition process_end (sigs : list (Z * signal)) : ending :=
  match list_find (λ x, ¬ handled x) sigs, t ← told sigs; finish t with
  | Some (_, (t, s)), Some r => if r <=? t then Returned r else Killed t s
  | Some (_, (t, s)), None => Killed t s
  | None, Some r => Returned r
  | None, None => RunsOn
  end.
End process.

(** ** The agent (agent-bin/src/main.rs) *)
Module AgentEnd.

(** [ctrl_c().await] installs the handler of SIGINT; main returns once it completes,
    and the runtime drops the tasks.  [ready]: when main gets there. *)
Definition signals (ready : Z) : handlers := λ s, match s with SIGINT => Some ready | _ => None end.
Definition stops (s : signal) : bool := match s with SIGINT => true | _ => false end.
Definition main_end (ready : Z) (sigs : list (Z * signal)) : ending :=
  process_end (signals ready) stops Some sigs.

(** The states told to systemd. *)
Inductive NotifyState := Ready | Watchdog | Stopping.

(** The ticks of [interval(15 s)] before [until]; the first is at once. *)
Definition WATCHDOG_MS : Z := 15000.
Definition ticks (spawned until : Z) : list Z :=
  (λ k, spawned + WATCHDOG_MS * k) <$> seqZ 0 ((until - spawned + WATCHDOG_MS - 1) / WATCHDOG_MS).

(** What systemd is told by a process whose watchdog task is spawned at [spawned] and
    which is looked at at [horizon]: the task knows of no other task. *)
Definition notified (spawned ready horizon : Z) (sigs : list (Z * signal)) : list (Z * NotifyState) :=
  let e := main_end ready sigs in
  let up := over_at horizon e in
  (if ready <=? up then [(ready, Ready)] else []) ++ ((λ x, (x, Watchdog)) <$> ticks spawned up) ++
  (match e with Returned t => [(t, Stopping)] | _ => [] end).

(** *** [AgentCore::run] (agent-core/src/lib.rs) *)

Definition GRACE_MS : Z := 5000.
(** [started]: when the collector has started and the tasks are spawned; [token]: when
    the token is cancelled; the ends of the two tasks.  The result: when [run] returns
    [Ok(())], and which of the tasks it saw end.  A handle that is dropped leaves its
    task running. *)
Definition run (started : Z) (token osquery_task command_task : moment) : option (Z * (bool * bool)) :=
  t ← token;
  let '(t1, osquery_ended) := timeout GRACE_MS (Z.max started t) osquery_task in
  let '(t2, command_ended) := timeout GRACE_MS t1 command_task in
  Some (t2, (osquery_ended, command_ended)).
End AgentEnd.

(** ** The other processes *)

(** The fleet server: [wait_for_signal] registers both signals in a task of its own;
    [serve] is tonic's server, told to stop at [t]. *)
Module FleetEnd.
Definition signals (registered : Z) : handlers :=
  λ s, match s with SIGINT | SIGTERM => Some registered | SIGHUP => None end.
Definition stops (s : signal) : bool := match s with SIGINT | SIGTERM => true | SIGHUP => false end.
Definition main_end (serve : Z → moment) (registered : Z) (sigs : list (Z * signal)) : ending :=
  process_end (signals registered) stops serve sigs.
End FleetEnd.

(** The pipeline: a task waits for Ctrl-C and cancels the token of the worker. *)
Module PipelineEnd.
Definition main_end (worker_run : Z → moment) (registered : Z) (sigs : list (Z * signal)) : ending :=
  process_end (AgentEnd.signals registered) AgentEnd.stops worker_run sigs.
End PipelineEnd.

(** The rule engine: Ctrl-C cancels the token, and main joins the three tasks without
    a limit of time; a task of its own takes SIGHUPs, when it can register. *)
Module EngineEnd.
Definition signals (ctrl_c : Z) (hangup : moment) : handlers :=
  λ s, match s with SIGINT => Some ctrl_c | SIGHUP => hangup | SIGTERM => None end.
Definition join (consumer scanner batcher : Z → moment) (t : Z) : moment :=
  later (later (consumer t) (scanner t)) (batcher t).
Definition main_end (consumer scanner batcher : Z → moment) (ctrl_c : Z) (hangup : moment)
    (sigs : list (Z * signal)) : ending :=
  process_end (signals ctrl_c hangup) AgentEnd.stops (join consumer scanner batcher) sigs.
End EngineEnd.

(** The API: axum's server is told to stop by Ctrl-C, and the token of the background
    consumer is cancelled; main does not wait for that task. *)
Module ApiEnd.
Definition main_end (serve : Z → moment) (registered : Z) (sigs : list (Z * signal)) : ending :=
  process_end (AgentEnd.signals registered) AgentEnd.stops serve sigs.
End ApiEnd.

(** ** Lemmas *)

Lemma timeout_spec d now fut :
  0 ≤ d → let '(t, ended) := timeout d now fut in
  now ≤ t ≤ now + d ∧ (ended = true ↔ reached_by fut (now + d)) ∧
  (∀ e, fut = Some e → e ≤ now + d → t = Z.max now e).
Proof.
  intros Hd. unfold timeout, reached_by. destruct fut as [e |].
  - destruct (Z.leb_spec e (now + d)); split_and!; try lia.
    + split; [intros _; by exists e | done].
    + by intros ? [= <-].
    + split; [done |]. intros (? & [= <-] & ?). lia.
    + intros ? [= <-]. lia.
  - split_and!; try lia; [| done]. split; [done | by intros (? & ? & ?)].
Qed.

(** [run] returns once the token fires, at most ten seconds after it; it returns
    [Ok(())] even when a task has not ended, and nothing ends that task. *)
Theorem run_returns started token osquery_task command_task :
  match AgentEnd.run started token osquery_task command_task with
  | None => token = None
  | Some (r, (o, c)) => ∃ t, token = Some t ∧ let t0 := Z.max started t in
      t0 ≤ r ≤ t0 + 2 * AgentEnd.GRACE_MS ∧
      (o = true ↔ reached_by osquery_task (t0 + AgentEnd.GRACE_MS)) ∧
      (c = true → reached_by command_task (t0 + 2 * AgentEnd.GRACE_MS)) ∧
      (reached_by command_task (t0 + AgentEnd.GRACE_MS) → c = true) ∧
      (∀ eo ec, osquery_task = Some eo → command_task = Some ec → eo ≤ t0 + AgentEnd.GRACE_MS → ec ≤ t0 + AgentEnd.GRACE_MS →
         r = Z.max t0 (Z.max eo ec))
  end.
Proof.
  unfold AgentEnd.run. destruct token as [t |]; [| done]. simpl. set (t0 := Z.max started t).
  pose proof (timeout_spec AgentEnd.GRACE_MS t0 osquery_task) as H1. destruct (timeout _ t0 osquery_task) as [t1 o].
  destruct H1 as (Ht1 & Ho & He1); [done |].
  pose proof (timeout_spec AgentEnd.GRACE_MS t1 command_task) as H2. destruct (timeout _ t1 command_task) as [t2 c].
  destruct H2 as (Ht2 & Hc & He2); [done |].
  exists t. split; [done |]. fold t0. unfold AgentEnd.GRACE_MS in *. split_and!; [lia | lia | done | | |].
  - intros Hct. apply Hc in Hct as (e & -> & ?). exists e. split; [done | lia].
  - intros (e & -> & ?). apply Hc. exists e. split; [done | lia].
  - intros eo ec -> -> Heo Hec. rewrite (He2 ec) by (done || lia). rewrite (He1 eo) by done. lia.
Qed.

(** The comment in [run] speaks of a hard abort: a task that does not end is left
    running, and [run] has returned. *)
Lemma run_leaves_tasks started t command_task :
  ∃ r c, AgentEnd.run started (Some t) None command_task = Some (r, (false, c)).
Proof. unfold AgentEnd.run. simpl. destruct (timeout _ _ command_task) as [r c]. by exists r, c. Qed.

Section endings.
Context (h : handlers) (stops : signal → bool) (finish : Z → moment).
(** A main that is told to end does not end before. *)
Context (Hlater : ∀ t r, finish t = Some r → t ≤ r).

Lemma told_spec sigs t :
  told h stops sigs = Some t → ∃ s, (t, s) ∈ sigs ∧ stops s = true ∧ reached_by (h s) t.
Proof.
  unfold told. intros ([i [t' s]] & (Hi & (Hh & Hs) & _)%list_find_Some & [= <-])%bind_Some.
  exists s. by split_and!; [eapply list_elem_of_lookup_2 | |].
Qed.

(** Signals in the order of their times. *)
Definition in_order (sigs : list (Z * signal)) : Prop :=
  ∀ i j x y, (i < j)%nat → sigs !! i = Some x → sigs !! j = Some y → x.1 ≤ y.1.

(** How a process ends: it returns when it is told to by a signal it waits for and no
    signal without a handler came before; else the first such signal kills it. *)
Lemma process_end_inv sigs :
  match process_end h stops finish sigs with
  | Returned r => ∃ t s, (t, s) ∈ sigs ∧ stops s = true ∧ reached_by (h s) t ∧ finish t = Some r ∧ t ≤ r ∧
      (in_order sigs → ∀ x, x ∈ sigs → x.1 < r → handled h x)
  | Killed t s => (t, s) ∈ sigs ∧ ¬ reached_by (h s) t ∧ ∀ t0 r, told h stops sigs = Some t0 → finish t0 = Some r → t < r
  | RunsOn => Forall (handled h) sigs ∧ ∀ t, told h stops sigs = Some t → finish t = None
  end.
Proof.
  unfold process_end. destruct (list_find _ sigs) as [[i [t s]] |] eqn:Hfind.
  - apply list_find_Some in Hfind as (Hi & Hn & Hfirst). simpl in *.
    assert ((t, s) ∈ sigs) as Hin by (by eapply list_elem_of_lookup_2).
    destruct (told h stops sigs) as [t0 |] eqn:Ht; simpl; [| by split_and!].
    destruct (finish t0) as [r |] eqn:Hr; [| split_and!; [done | done | congruence]].
    destruct (Z.leb_spec r t); [| split_and!; [done | done |]; intros; simplify_eq; lia].
    apply told_spec in Ht as (s0 & Hin0 & Hs0 & Hh0). exists t0, s0. split_and!; auto.
    intros Hsort x [j Hj]%list_elem_of_lookup Hx. destruct (decide (handled h x)) as [? | Hnx]; [done |]. exfalso.
    destruct (decide (j < i)%nat) as [Hlt | Hge]; [by apply (Hfirst j x) |].
    destruct (decide (i = j)) as [<- | Hne]; [simplify_eq; simpl in *; lia |].
    pose proof (Hsort i j _ _ ltac:(lia) Hi Hj) as Hle. simpl in Hle. lia.
  - apply list_find_None in Hfind. assert (Forall (handled h) sigs) as Hall.
    { eapply Forall_impl; [exact Hfind |]. intros x Hx. by apply dec_stable. }
    destruct (told h stops sigs) as [t0 |] eqn:Ht; simpl.
    + destruct (finish t0) as [r |] eqn:Hr; [| split; [done | congruence]].
      apply told_spec in Ht as (s0 & Hin0 & Hs0 & Hh0). exists t0, s0. split_and!; auto.
      intros _ x Hx _. by eapply Forall_forall.
    + by split.
Qed.
End endings.

(** A process without a handler for a signal does not outlive it, and what it would
    do when told to end is left undone, unless it is over by then. *)
Theorem unhandled_signal_ends h stops finish sigs t s :
  (∀ t r, finish t = Some r → t ≤ r) → in_order sigs → (t, s) ∈ sigs → ¬ reached_by (h s) t →
  match process_end h stops finish sigs with
  | Returned r => r ≤ t
  | Killed t' _ => t' ≤ t
  | RunsOn => False
  end.
Proof.
  intros Hlater Hord Hin Hn. pose proof (process_end_inv h stops finish Hlater sigs) as Hend.
  destruct (process_end h stops finish sigs) as [r | t' s' |] eqn:He.
  - destruct Hend as (t0 & s0 & _ & _ & _ & _ & _ & Hall). destruct (Z.le_gt_cases r t); [done |].
    by destruct Hn; apply (Hall Hord (t, s)).
  - unfold process_end in He. destruct (list_find _ sigs) as [[i [t1 s1]] |] eqn:Hf.
    + assert (t1 = t') as -> by (destruct (mbind _ _); [destruct (_ <=? _) |]; by simplify_eq).
      apply list_find_Some in Hf as (Hi & _ & Hfirst). apply list_elem_of_lookup in Hin as [j Hj].
      destruct (decide (j < i)%nat); [by destruct (Hfirst j (t, s)) |].
      destruct (decide (i = j)) as [<- |]; [by simplify_eq |]. apply (Hord i j (t', s1) (t, s)); [lia | done..].
    + by destruct (mbind _ _).
  - destruct Hend as [Hall _]. apply Hn. by apply (Forall_forall (handled h) sigs) with (x := (t, s)) in Hall.
Qed.

(** SIGTERM, which systemd and container runtimes send, ends the agent, the pipeline,
    the rule engine and the API where they are; what [finish] stands for (draining
    the channels, the last batch, the connections) does not happen. *)
Lemma sigterm_is_not_awaited ready ctrl_c hangup :
  AgentEnd.signals ready SIGTERM = None ∧ EngineEnd.signals ctrl_c hangup SIGTERM = None ∧
  FleetEnd.signals ready SIGTERM = Some ready.
Proof. done. Qed.

(** A reload of the agent's unit sends SIGHUP, which the agent does not handle. *)
Lemma reload_ends_the_agent ready t :
  AgentEnd.main_end ready [(t, SIGHUP)] = Killed t SIGHUP.
Proof. done. Qed.

(** The fleet server told to stop by either signal ends when its server does. *)
Lemma fleet_server_stops serve registered t s :
  s = SIGINT ∨ s = SIGTERM → registered ≤ t →
  FleetEnd.main_end serve registered [(t, s)] = match serve t with Some r => Returned r | None => RunsOn end.
Proof.
  intros Hs Ht. unfold FleetEnd.main_end, process_end, told. cbn [list_find].
  rewrite (decide_False (P := ¬ _)), decide_True; [| | intros Hn; apply Hn]; destruct Hs as [-> | ->]; simpl;
    try done; try split; try done; by exists registered.
Qed.

(** The rule engine that is told to end waits for its three tasks, however long. *)
Lemma engine_waits consumer scanner batcher ctrl_c hangup t :
  ctrl_c ≤ t →
  EngineEnd.main_end consumer scanner batcher ctrl_c hangup [(t, SIGINT)] =
  match consumer t, scanner t, batcher t with
  | Some c, Some s, Some b => Returned (Z.max (Z.max c s) b)
  | _, _, _ => RunsOn
  end.
Proof.
  intros Ht. unfold EngineEnd.main_end, process_end, told. cbn [list_find].
  rewrite (decide_False (P := ¬ _)), decide_True; [| | intros Hn; apply Hn]; simpl; try (split; [|done]); try by exists ctrl_c.
  unfold EngineEnd.join, later. by destruct (consumer t), (scanner t), (batcher t).
Qed.

Lemma in_ticks spawned until x :
  x ∈ AgentEnd.ticks spawned until ↔ spawned ≤ x < until ∧ (x - spawned) mod AgentEnd.WATCHDOG_MS = 0.
Proof.
  unfold AgentEnd.ticks, AgentEnd.WATCHDOG_MS. rewrite list_elem_of_fmap. split.
  - intros (k & -> & Hk%elem_of_seqZ). rewrite Z.add_simpl_l, Z.mul_comm, Z.mod_mul by lia.
    split; [| done]. pose proof (Z.mul_div_le (until - spawned + 15000 - 1) 15000 ltac:(lia)). nia.
  - intros [Hx Hm]. exists ((x - spawned) / 15000). pose proof (Z.div_mod (x - spawned) 15000 ltac:(lia)).
    split; [lia |]. apply elem_of_seqZ. split; [apply Z.div_pos; lia |].
    apply Z.div_lt_upper_bound; [lia |]. pose proof (Z.div_mod (until - spawned + 15000 - 1) 15000 ltac:(lia)).
    pose proof (Z.mod_pos_bound (until - spawned + 15000 - 1) 15000 ltac:(lia)). lia.
Qed.

(** systemd's limit of 30 s is kept while the process runs, whatever its other tasks
    do: a notification falls into every 15 s. *)
Theorem watchdog_is_fed spawned ready horizon sigs a :
  spawned ≤ a → a + AgentEnd.WATCHDOG_MS ≤ over_at horizon (AgentEnd.main_end ready sigs) →
  ∃ x, (x, AgentEnd.Watchdog) ∈ AgentEnd.notified spawned ready horizon sigs ∧ a ≤ x < a + AgentEnd.WATCHDOG_MS.
Proof.
  unfold AgentEnd.WATCHDOG_MS. intros Ha Hu.
  pose proof (Z.div_mod (a - spawned + 14999) 15000 ltac:(lia)).
  pose proof (Z.mod_pos_bound (a - spawned + 14999) 15000 ltac:(lia)).
  exists (spawned + 15000 * ((a - spawned + 14999) / 15000)). split; [| lia].
  unfold AgentEnd.notified. rewrite !elem_of_app. right. left. apply list_elem_of_fmap.
  eexists. split; [reflexivity |]. apply in_ticks.
  unfold AgentEnd.WATCHDOG_MS. rewrite Z.add_simpl_l, Z.mul_comm, Z.mod_mul by lia. lia.
Qed.

(** systemd hears of an orderly end only when the process returned. *)
Lemma stopping_is_told spawned ready horizon sigs t :
  (t, AgentEnd.Stopping) ∈ AgentEnd.notified spawned ready horizon sigs ↔ AgentEnd.main_end ready sigs = Returned t.
Proof.
  unfold AgentEnd.notified. rewrite !elem_of_app. split.
  - intros [Hin | [(x & Hx & _)%list_elem_of_fmap | Hin]]; [| done |].
    + destruct (_ <=? _); [by apply list_elem_of_singleton in Hin | by apply elem_of_nil in Hin].
    + destruct (AgentEnd.main_end ready sigs); [| by apply elem_of_nil in Hin..].
      apply list_elem_of_singleton in Hin. congruence.
  - intros ->. right. right. by left.
Qed.
