(* ===== verification/DevTools.v ===== *)
(** * The developer tools
      (osquery-client/src/bin/test_query.rs; api-backend/examples: generate_jwt.rs, ws_listener.rs)

    Three programs that talk to a running system: one registers an extension with
    osquery over both framings, one mints an operator token, one pings a web socket.
    Each [main] is a computation that keeps what it printed and sent; [?] ends it. *)
From Stdlib Require Import ZArith Lia Ascii.
From S2P Require Import Prelude Json Thrift ThriftBinary OsqueryClient FleetServer Api ApiStream.
#[local] Open Scope string_scope.
#[local] Open Scope list_scope.
#[local] Open Scope nat_scope.

(** What a tool printed, and what it sent on each connection it opened. *)
Record console := Console { printed : list string; written : list bytes }.
Definition no_output : console := Console [] [].
Definition println (s : string) : SE console string unit :=
  modify (λ c, Console (printed c ++ [s]) (written c)).

(** ** Registering with osquery (test_query.rs) *)
Module TestQuery.

(** What a read with a timeout of two seconds gives. *)
Inductive waited := Answered (b : bytes) | ReadError (e : string) | TimedOut.
Record connection := Connection {
  connect_fault : option string; write_fault : option string; flush_fault : option string; answer : waited }.

Section tool.
Context `{ThriftOut}.

(** The writes of the call [registerExtension(info, registry)], in order; struct
    and field ends write nothing. *)
Definition registration : list bytes :=
  [put_message_begin "registerExtension" Call 1;
   put_field_begin TStruct 1;
   put_field_begin TString 1; put_string "aigis_zero";
   put_field_begin TString 2; put_string "0.1.0";
   put_field_begin TString 3; put_string "0.0.0";
   put_field_begin TString 4; put_string "0.0.0";
   put_field_stop;
   put_field_begin TMap 2; put_map_begin TString TMap 0;
   put_field_stop].

(** The same on a channel of 1024 bytes. *)
Definition reg_bytes : result bytes string :=
  match put_all registration [] with (Ok _, b) => Ok b | (Err e, _) => Err e end.

(** [len.to_be_bytes()] of the length as a [u32], then the bytes. *)
Definition framed (b : bytes) : bytes := be 4 (wrap_u 32 (Z.of_nat (length b))) ++ b.

(** Connect, write all, flush. *)
Definition send (c : connection) (b : bytes) : SE console string unit :=
  match connect_fault c, write_fault c, flush_fault c with
  | Some e, _, _ | None, Some e, _ => throw e
  | None, None, f =>
      modify (λ o, Console (printed o) (written o ++ [b]));;
      match f with Some e => throw e | None => mret tt end
  end.

Definition hex_digit (z : Z) : ascii := Ascii.ascii_of_nat (Z.to_nat (if (z <? 10)%Z then 48 + z else 87 + z)).
Definition hex_byte (c : ascii) : string :=
  String (hex_digit (byte_val c / 16)) (String (hex_digit (byte_val c mod 16)) EmptyString).
(** [{:02x?}] of a byte slice *)
Definition hex (b : bytes) : string := "[" +:+ str_join ", " (hex_byte <$> b) +:+ "]".

Definition framed_report (w : waited) : string :=
  match w with
  | Answered len_buf => "FRAMED success! Response length: " +:+ pretty (unbe len_buf)
  | ReadError e => "FRAMED read error: " +:+ e
  | TimedOut => "FRAMED timed out!"
  end.
Definition unframed_report (w : waited) : list string :=
  match w with
  | Answered b => ["UNFRAMED success! Read " +:+ pretty (length b) +:+ " bytes"; "Response (hex): " +:+ hex b]
  | ReadError e => ["UNFRAMED read error: " +:+ e]
  | TimedOut => ["UNFRAMED timed out!"]
  end.

Definition main (c1 c2 : connection) : SE console string unit :=
  println ("Connecting to " +:+ dquote +:+ "/var/osquery/osquery.em" +:+ dquote);;
  b ← (λ o, (reg_bytes, o));
  println "--- Testing FRAMED registerExtension ---";;
  send c1 (framed b);;
  println (framed_report (answer c1));;
  println "--- Testing UNFRAMED registerExtension ---";;
  send c2 b;;
  modify (λ o, Console (printed o ++ unframed_report (answer c2)) (written o)).
End tool.

(** *** Specification: what osquery reads of a registration *)
Record info := Info { ext_name : string; version : string; sdk_version : string; min_sdk_version : string }.

Section osquery.
Context `{ThriftIn}.
Definition info_field (field_type : TType) (id : option Z) (i : info) : reader info :=
  if decide (field_type = TString) then
    s ← read_string;
    mret match id with
         | Some 1%Z => Info s (version i) (sdk_version i) (min_sdk_version i)
         | Some 2%Z => Info (ext_name i) s (sdk_version i) (min_sdk_version i)
         | Some 3%Z => Info (ext_name i) (version i) s (min_sdk_version i)
         | Some 4%Z => Info (ext_name i) (version i) (sdk_version i) s
         | _ => i
         end
  else skip field_type;; mret i.

(** The arguments: the extension's info, and the number of its registry's entries. *)
Definition args_field (fuel : nat) (field_type : TType) (id : option Z) (a : info * Z) : reader (info * Z) :=
  if decide (field_type = TStruct) then
    read_struct_begin;; i ← fields fuel info_field a.1; read_struct_end;; mret (i, a.2)
  else if decide (field_type = TMap) then n ← read_map_begin; read_map_end;; mret (a.1, n)
  else skip field_type;; mret a.

Definition read_registration (fuel : nat) : reader (string * TMessageType * Z * (info * Z)) :=
  call ← read_message_begin;
  read_struct_begin;;
  a ← fields fuel (args_field fuel) (Info "" "" "" "", (-1)%Z);
  read_struct_end;;
  read_message_end;;
  mret (call, a).
End osquery.
End TestQuery.

(** ** Minting an operator token (generate_jwt.rs) *)
Module GenerateJwt.

Definition secret : string := "super_secret_jwt_key_replace_in_production_32_bytes_min".

Section tool.
Context `{ApiJwt}.

(** [jsonwebtoken]'s checks are the API's: the same [Claims], [Header] and
    [Validation]; [now] is the clock at the start, [later] when the token is verified. *)
Definition main (now later : Z) : SE console string unit :=
  let claims := mkClaims "admin" "soc_admin" (now + 86400) now in
  println "Generating Operator JWT token...";;
  token ← (λ o, (api_encode claims secret, o));
  println ("Generated Token:" +:+ nl +:+ "Bearer " +:+ token +:+ nl);;
  println "Verifying Token claims...";;
  decoded ← (λ o, (api_decode token secret later, o));
  println "Verification successful!";;
  println ("  Subject: " +:+ sub decoded);;
  println ("  Role:    " +:+ role decoded);;
  println ("  Expires: " +:+ pretty (exp decoded) +:+ " Unix Timestamp").
End tool.
End GenerateJwt.

(** ** Pinging a web socket (ws_listener.rs) *)
Module WsListener.

Definition ws_url (env : string → option string) : string :=
  default "ws://127.0.0.1:8081/api/v1/ws?topics=alerts,logs" (env "WS_URL").

(** A message read from the stream: a text, or a frame of another kind, which
    tungstenite hands over as well; [None] and errors end the reading. *)
Inductive incoming := TextMessage (text : string) | OtherMessage | ReadFailed (e : string) | Ended.

Definition ping_text (to_text : value → string) : string := to_text (JObject [("action", JString "ping")]).

(** [connected]: the HTTP status of the handshake; [first]: the first item read. *)
Definition main (to_text : value → string) (env : string → option string) (connected : result string string)
    (write_fault : option string) (first : incoming) : SE console string unit :=
  println ("Connecting to Aigis-Zero Live Feed at: " +:+ ws_url env);;
  match connected with
  | Err e =>
      println ("Failed to connect to API server at " +:+ ws_url env +:+ ": " +:+ e);;
      println "Make sure the backend is running: cargo run --bin edr-api-backend"
  | Ok status =>
      println ("Connected successfully! (HTTP Status: " +:+ status +:+ ")");;
      match write_fault with
      | Some e => throw e
      | None =>
          modify (λ o, Console (printed o) (written o ++ [bytes_of (ping_text to_text)]));;
          println "Sent ping frame. Waiting for server response...";;
          match first with
          | TextMessage text => println ("[PONG RECEIVED FROM SERVER]:" +:+ nl +:+ text +:+ nl)
          | _ => mret tt
          end
      end
  end.

(** What the first frame the server sends is to the listener. *)
Definition first_of (frames : list frame) : incoming :=
  match frames with
  | [] => Ended
  | TextFrame text :: _ => TextMessage text
  | PongFrame _ :: _ | PingFrame :: _ => OtherMessage
  end.
End WsListener.

(** ** Lemmas *)

(** The output of a tool's run, when it does not end early. *)
Lemma println_run s o : println s o = (Ok tt, Console (printed o ++ [s]) (written o)).
Proof. reflexivity. Qed.

Section registration.
Import TestQuery.
Context `{HI : ThriftIn} `{HO : ThriftOut} `{!ThriftRoundTrip}.

(** The texts are ASCII. *)
Context (Hname : wire_text "registerExtension") (Hext : wire_text "aigis_zero")
  (Hversion : wire_text "0.1.0") (Hsdk : wire_text "0.0.0").

#[local] Ltac field_tac :=
  erewrite fields_step; [| done | by unfold fits_i; simpl; lia |]; cycle 1.

Lemma info_read n i rest :
  fields (S (S (S (S (S n))))) info_field i
    (put_field_begin TString 1 ++ put_string "aigis_zero" ++ put_field_begin TString 2 ++ put_string "0.1.0" ++
     put_field_begin TString 3 ++ put_string "0.0.0" ++ put_field_begin TString 4 ++ put_string "0.0.0" ++
     put_field_stop ++ rest)
  = (Ok (Info "aigis_zero" "0.1.0" "0.0.0" "0.0.0"), rest).
Proof.
  field_tac; [unfold info_field; rewrite decide_True by done; by rewrite (bind_ok _ _ _ _ _ (get_string _ _ Hext)) |].
  field_tac; [unfold info_field; rewrite decide_True by done; by rewrite (bind_ok _ _ _ _ _ (get_string _ _ Hversion)) |].
  field_tac; [unfold info_field; rewrite decide_True by done; by rewrite (bind_ok _ _ _ _ _ (get_string _ _ Hsdk)) |].
  field_tac; [unfold info_field; rewrite decide_True by done; by rewrite (bind_ok _ _ _ _ _ (get_string _ _ Hsdk)) |].
  apply fields_stop.
Qed.

Definition registered : string * TMessageType * Z * (info * Z) :=
  ("registerExtension", Call, 1%Z, (Info "aigis_zero" "0.1.0" "0.0.0" "0.0.0", 0%Z)).

Lemma registration_reads_back n rest :
  read_registration (S (S (S (S (S n))))) (mjoin registration ++ rest) = (Ok registered, rest).
Proof.
  assert (fits_i 32 1 ∧ fits_i 32 0) as [Hone Hzero] by (split; unfold fits_i; simpl; lia).
  unfold read_registration, registration. cbn [mjoin list_join]. rewrite <-!app_assoc.
  rewrite (bind_ok _ _ _ _ _ (get_message_begin "registerExtension" Call 1 _ Hname Hone)).
  rewrite (bind_ok _ _ _ _ _ (get_struct_begin _)).
  erewrite (bind_ok (S := bytes) (E := perr)).
  { rewrite (bind_ok _ _ _ _ _ (get_struct_end _)). by rewrite (bind_ok _ _ _ _ _ (get_message_end _)). }
  field_tac.
  { unfold args_field at 1. rewrite decide_True by done. rewrite (bind_ok _ _ _ _ _ (get_struct_begin _)).
    rewrite (bind_ok _ _ _ _ _ (info_read n _ _)). by rewrite (bind_ok _ _ _ _ _ (get_struct_end _)). }
  field_tac.
  { unfold args_field at 1. rewrite decide_False, decide_True by done.
    rewrite (bind_ok _ _ _ _ _ (get_map_begin TString TMap 0 _ Hzero)).
    by rewrite (bind_ok _ _ _ _ _ (get_map_end _)). }
  apply fields_stop.
Qed.
End registration.

(** A run of [test_query] whose sockets open and take what is written: it ends
    without an error whatever the reads give, and sends the registration twice, first
    after its length; osquery's side reads both as the same call. *)
Theorem test_query_registers (utf8_ok : string → bool) c1 c2 :
  (∀ s, utf8_ok s = true) →
  Forall (λ c, TestQuery.connect_fault c = None ∧ TestQuery.write_fault c = None ∧ TestQuery.flush_fault c = None) [c1; c2] →
  ∃ o b, @TestQuery.main binary_out c1 c2 no_output = (Ok tt, o) ∧
    written o = [be 4 (Z.of_nat (length b)) ++ b; b] ∧ length b = 96 ∧
    (∀ n, 5 ≤ n → @TestQuery.read_registration (binary_in utf8_ok) n b = (Ok registered, [])) ∧
    (∃ lines, printed o = lines ++ TestQuery.unframed_report (TestQuery.answer c2) ∧
       TestQuery.framed_report (TestQuery.answer c1) ∈ lines).
Proof.
  intros Hutf [(H1 & H2 & H3) [(H4 & H5 & H6) _]%Forall_cons]%Forall_cons.
  assert (@TestQuery.reg_bytes binary_out = Ok (mjoin (@TestQuery.registration binary_out))) as Hreg by (by vm_compute).
  set (b := mjoin _) in Hreg. assert (length b = 96) as Hlen by (by vm_compute).
  eexists _, b. split.
  { unfold TestQuery.main, TestQuery.send, mbind, SE_bind. cbn [println modify]. rewrite Hreg.
    rewrite H1, H2, H3, H4, H5, H6. reflexivity. }
  cbn [written printed no_output app]. split_and!; [done | done | |].
  - intros n Hn. do 5 (destruct n as [| n]; [lia |]).
    pose proof (@registration_reads_back (binary_in utf8_ok) binary_out _) as Hr.
    specialize (Hr ltac:(split; [apply Hutf | simpl; lia]) ltac:(split; [apply Hutf | simpl; lia])
      ltac:(split; [apply Hutf | simpl; lia]) ltac:(split; [apply Hutf | simpl; lia]) n []).
    by rewrite app_nil_r in Hr.
  - exists ["Connecting to " +:+ dquote +:+ "/var/osquery/osquery.em" +:+ dquote; "--- Testing FRAMED registerExtension ---";
      TestQuery.framed_report (TestQuery.answer c1); "--- Testing UNFRAMED registerExtension ---"].
    split; [reflexivity |]. do 2 right. by left.
Qed.

(** The token of [generate_jwt] is a soc_admin's on an API started without
    [JWT_SECRET]: the secret it signs with is the default of the settings.  Every
    guarded route takes it for a day and a minute. *)
Theorem default_secret_is_public `{ApiJwtLaws} env cfg now later o o' t :
  load_from_env env = Ok cfg → env "JWT_SECRET" = None →
  (0 ≤ now)%Z → (later - leeway ≤ now + 86400)%Z → (t - leeway ≤ now + 86400)%Z →
  GenerateJwt.main now later o = (Ok tt, o') →
  ∃ token, "Generated Token:" +:+ nl +:+ "Bearer " +:+ token +:+ nl ∈ printed o' ∧
    auth_user (jwt_secret cfg) [("authorization", "Bearer " +:+ token)] t
    = Ok (mkClaims "admin" "soc_admin" (now + 86400) now).
Proof.
  unfold load_from_env. intros Hcfg Henv Hnow Hlater Ht. destruct (parse_uint 16 _); [| done]. injection Hcfg as <-.
  cbn [jwt_secret]. rewrite Henv. cbn [default from_option]. unfold GenerateJwt.main, mbind, SE_bind. cbn [println modify].
  destruct (api_encode _ _) as [token | e] eqn:He; [| done].
  rewrite (api_decode_encode (mkClaims "admin" "soc_admin" (now + 86400) now) _ token later) by (done || (simpl; lia)). intros [= <-].
  exists token. split; [cbn [printed]; rewrite <-!app_assoc, elem_of_app; right; right; by left |].
  apply (bearer_authenticates _ _ _ t He); simpl; lia.
Qed.

(** The listener reads one item only: when the server's timer, whose first tick is
    due at once, comes before the ping's answer, that is the server's own ping frame,
    and no answer is printed. *)
Theorem listener_misses_pong `{SerdeJson} client_message to_text env status s now_ms pong :
  client_message (WsListener.ping_text to_text) = Some Ping → to_vec (server_json (Pong now_ms)) = Ok pong →
  let ping := ClientText (WsListener.ping_text to_text) now_ms false in
  let printed_on is_ := printed (WsListener.main to_text env (Ok status) None
                          (WsListener.first_of (run_socket client_message is_ s)) no_output).2 in
  last (printed_on [ping; PingTick false]) = Some ("[PONG RECEIVED FROM SERVER]:" +:+ nl +:+ pong +:+ nl) ∧
  last (printed_on [PingTick false; ping]) = Some "Sent ping frame. Waiting for server response...".
Proof.
  intros Hc Hp ping printed_on. unfold printed_on, ping. cbn [run_socket socket_step]. rewrite Hc, Hp. by split.
Qed.
